(** * Steganography Studio: a shallow embedding of the codec and search core

    The development follows the TypeScript sources:
    - [utils.ts]: bit serialisation, hex and base64 conversions, the seeded
      shuffle, the MD5 implementation;
    - [constants.ts]: the terminator and the envelope constants;
    - [services/cryptoService.ts]: the salt:iv:ciphertext envelope;
    - [services/steganographyService.ts] and its pattern variants: LSB
      embedding and extraction;
    - [services/hashCrackerService.ts]: dictionary and brute-force search.

    JavaScript data is modelled as the code has it: a string is its sequence
    of UTF-16 code units, a [Uint8Array] is a list of numbers below 256, a
    number that only ever holds an integer is a [Z], with the 32-bit wrap of
    the bitwise operators written out. *)

From Stdlib Require Import ZArith List String Ascii Lia Bool Permutation DecimalString.
From stdpp Require Import base list gmap.
Import ListNotations.

(** ** JavaScript numbers and bitwise operators *)

Module JS.
#[local] Open Scope Z_scope.

Definition two32 : Z := 4294967296.
Definition two31 : Z := 2147483648.

(** [ToUint32] and [ToInt32] of ECMA-262 on an integral number. *)
Definition ToUint32 (x : Z) : Z := x mod two32.
Definition ToInt32 (x : Z) : Z :=
  let u := x mod two32 in if u <? two31 then u else u - two32.

(** x & y, x | y, x ^ y, ~x *)
Definition and (x y : Z) : Z := ToInt32 (Z.land (ToInt32 x) (ToInt32 y)).
Definition or (x y : Z) : Z := ToInt32 (Z.lor (ToInt32 x) (ToInt32 y)).
Definition xor (x y : Z) : Z := ToInt32 (Z.lxor (ToInt32 x) (ToInt32 y)).
Definition not (x : Z) : Z := ToInt32 (Z.lnot (ToInt32 x)).

(** x << n, x >> n, x >>> n: the shift count is taken modulo 32. *)
Definition shl (x n : Z) : Z := ToInt32 (Z.shiftl (ToInt32 x) (Z.land (ToUint32 n) 31)).
Definition shr (x n : Z) : Z := Z.shiftr (ToInt32 x) (Z.land (ToUint32 n) 31).
Definition ushr (x n : Z) : Z := Z.shiftr (ToUint32 x) (Z.land (ToUint32 n) 31).

(** Math.imul *)
Definition imul (x y : Z) : Z := ToInt32 (ToInt32 x * ToInt32 y).

(** Math.abs on an integral number *)
Definition abs (x : Z) : Z := Z.abs x.

(** A double holds 53 significant bits. [round53 p] is the double nearest
    to the non-negative integer [p] (ties to even): the result of an
    addition or multiplication whose exact value is [p]. *)
Definition two53 : Z := 9007199254740992.
Definition round53 (p : Z) : Z :=
  if p <? two53 then p
  else
    let e := Z.log2 p - 52 in
    let q := Z.shiftr p e in
    let r := p - Z.shiftl q e in
    let half := Z.shiftl 1 (e - 1) in
    let q' := if (half <? r) || ((r =? half) && Z.odd q) then q + 1 else q in
    Z.shiftl q' e.

(** *** Strings: sequences of UTF-16 code units *)

Abbreviation jsstring := (list Z).

(** A literal of the source, all of whose characters are ASCII. *)
Definition js (s : string) : jsstring :=
  map (fun c => Z.of_N (N_of_ascii c)) (list_ascii_of_string s).

Definition code_unit (u : Z) : Prop := 0 <= u < 65536.
Definition wf_string (s : jsstring) : Prop := Forall code_unit s.

(** s.substring(a, b) for 0 <= a <= b *)
Definition substring (s : jsstring) (a b : nat) : jsstring :=
  firstn (b - a) (skipn a s).

(** s.padStart(n, c) for a one-character pad *)
Definition padStart (s : jsstring) (n : nat) (c : Z) : jsstring :=
  repeat c (n - length s) ++ s.

(** s.repeat(n) *)
Fixpoint repeat_string (s : jsstring) (n : nat) : jsstring :=
  match n with
  | O => []
  | S n' => s ++ repeat_string s n'
  end.

(** s.endsWith(t) *)
Fixpoint list_eqb (s t : jsstring) : bool :=
  match s, t with
  | [], [] => true
  | c :: s', d :: t' => (c =? d) && list_eqb s' t'
  | _, _ => false
  end.
Definition endsWith (s t : jsstring) : bool :=
  (length t <=? length s)%nat && list_eqb (skipn (length s - length t) s) t.

(** s.startsWith(t) at the head of [s] *)
Fixpoint startsWith (s t : jsstring) : bool :=
  match t, s with
  | [], _ => true
  | c :: t', d :: s' => (c =? d) && startsWith s' t'
  | _ :: _, [] => false
  end.

(** s.indexOf(t): the first position at which [t] occurs *)
Fixpoint indexOf_from (s t : jsstring) (pos : nat) : option nat :=
  if startsWith s t then Some pos
  else match s with
       | [] => None
       | _ :: s' => indexOf_from s' t (S pos)
       end.
Definition indexOf (s t : jsstring) : option nat := indexOf_from s t 0.

(** s.split(d) for a one-character delimiter: never the empty list. *)
Fixpoint split (d : Z) (s : jsstring) : list jsstring :=
  match s with
  | [] => [[]]
  | c :: r =>
      if c =? d then [] :: split d r
      else match split d r with
           | h :: t => (c :: h) :: t
           | [] => [[c]]
           end
  end.

(** White space and line terminators of ECMA-262 (what trim and parseInt skip). *)
Definition is_whitespace (c : Z) : bool :=
  (c =? 9) || (c =? 10) || (c =? 11) || (c =? 12) || (c =? 13) || (c =? 32)
  || (c =? 160) || (c =? 5760) || ((8192 <=? c) && (c <=? 8202))
  || (c =? 8232) || (c =? 8233) || (c =? 8239) || (c =? 8287)
  || (c =? 12288) || (c =? 65279).

Fixpoint trimStart (s : jsstring) : jsstring :=
  match s with
  | c :: r => if is_whitespace c then trimStart r else s
  | [] => []
  end.
Definition trimEnd (s : jsstring) : jsstring := rev (trimStart (rev s)).
Definition trim (s : jsstring) : jsstring := trimEnd (trimStart s).

(** The value of a digit character in a radix up to 16, if it is one. *)
Definition digit_value (radix c : Z) : option Z :=
  let v := if (48 <=? c) && (c <=? 57) then c - 48
           else if (97 <=? c) && (c <=? 102) then c - 87
           else if (65 <=? c) && (c <=? 70) then c - 55
           else 16 in
  if v <? radix then Some v else None.

(** The digits of the longest prefix of [s] that is a numeral of the radix. *)
Fixpoint leading_digits (radix : Z) (s : jsstring) : list Z :=
  match s with
  | c :: r => match digit_value radix c with
              | Some v => v :: leading_digits radix r
              | None => []
              end
  | [] => []
  end.

(** parseInt(s, radix) for radix 2 and for a two-character hexadecimal
    field: leading white space is skipped, a sign is read, the longest
    numeral is taken; [None] is NaN. (With radix 16 a 0x prefix would be
    skipped too; it is written out here.) *)
Definition parseInt (s : jsstring) (radix : Z) : option Z :=
  let s1 := trimStart s in
  let '(sign, s2) :=
    match s1 with
    | 45 :: r => (-1, r)
    | 43 :: r => (1, r)
    | _ => (1, s1)
    end in
  let s3 :=
    if radix =? 16 then
      match s2 with
      | 48 :: 120 :: r => r
      | 48 :: 88 :: r => r
      | _ => s2
      end
    else s2 in
  match leading_digits radix s3 with
  | [] => None
  | ds => Some (sign * fold_left (fun acc d => acc * radix + d) ds 0)
  end.

(** Storing a number into a Uint8Array element: NaN becomes 0, an integer
    is reduced modulo 256. *)
Definition ToUint8 (v : option Z) : Z :=
  match v with
  | Some z => z mod 256
  | None => 0
  end.

(** n.toString(radix) for a non-negative integer, radix 2 or 16, lower case *)
Definition digit_char (d : Z) : Z := if d <? 10 then 48 + d else 87 + d.
Fixpoint to_digits (fuel : nat) (radix n : Z) (acc : jsstring) : jsstring :=
  match fuel with
  | O => acc
  | S fuel' =>
      let acc' := digit_char (n mod radix) :: acc in
      if n / radix =? 0 then acc' else to_digits fuel' radix (n / radix) acc'
  end.
Definition toString (n radix : Z) : jsstring :=
  to_digits (S (Z.to_nat (Z.log2 n))) radix n [].

(** *** Arrays of numbers

    A plain JS array grows when written past its end; the unwritten slots
    read as undefined. Every read of such a slot in this program goes
    through a bitwise operator, which takes undefined to 0, so a hole is
    kept as 0. *)
Definition array_get (a : list Z) (i : Z) : Z :=
  if i <? 0 then 0 else nth (Z.to_nat i) a 0.
Definition array_set (a : list Z) (i : Z) (v : Z) : list Z :=
  let n := Z.to_nat i in
  if (n <? length a)%nat then <[n := v]> a
  else a ++ repeat 0 (n - length a) ++ [v].

(** *** Exceptions *)

Record error := Error { name : string; message : string }.

Inductive result (A : Type) : Type :=
| Ok (a : A)
| Throw (e : error).
Arguments Ok {A} a.
Arguments Throw {A} e.

Definition bind {A B} (r : result A) (k : A -> result B) : result B :=
  match r with
  | Ok a => k a
  | Throw e => Throw e
  end.

(** try { body } catch (e) { handler e } *)
Definition try_catch {A} (body : result A) (handler : error -> result A) : result A :=
  match body with
  | Ok a => Ok a
  | Throw e => handler e
  end.

End JS.

(** ** Platform encoders: TextEncoder, TextDecoder, btoa, atob

    These are the browser's functions the sources call; they are written
    out after the WHATWG Encoding and HTML standards. *)

Module Encoding.
Import JS.
#[local] Open Scope Z_scope.

Definition is_high_surrogate (u : Z) : bool := (55296 <=? u) && (u <=? 56319).
Definition is_low_surrogate (u : Z) : bool := (56320 <=? u) && (u <=? 57343).

(** The UTF-8 bytes of a scalar value. *)
Definition encode_scalar (cp : Z) : list Z :=
  if cp <? 128 then [cp]
  else if cp <? 2048 then [192 + cp / 64; 128 + cp mod 64]
  else if cp <? 65536 then
    [224 + cp / 4096; 128 + (cp / 64) mod 64; 128 + cp mod 64]
  else
    [240 + cp / 262144; 128 + (cp / 4096) mod 64;
     128 + (cp / 64) mod 64; 128 + cp mod 64].

(** new TextEncoder().encode(s): a surrogate pair is one scalar value, a
    lone surrogate is replaced by U+FFFD. *)
Fixpoint TextEncoder_encode (s : jsstring) : list Z :=
  match s with
  | [] => []
  | u :: rest =>
      if is_high_surrogate u then
        match rest with
        | v :: rest' =>
            if is_low_surrogate v then
              encode_scalar (65536 + (u - 55296) * 1024 + (v - 56320))
                ++ TextEncoder_encode rest'
            else encode_scalar 65533 ++ TextEncoder_encode rest
        | [] => encode_scalar 65533
        end
      else if is_low_surrogate u then encode_scalar 65533 ++ TextEncoder_encode rest
      else encode_scalar u ++ TextEncoder_encode rest
  end.

(** The UTF-16 code units of a scalar value. *)
Definition code_units_of (cp : Z) : jsstring :=
  if cp <? 65536 then [cp]
  else [55296 + (cp - 65536) / 1024; 56320 + (cp - 65536) mod 1024].

Definition in_range (lo hi b : Z) : bool := (lo <=? b) && (b <=? hi).

(** The UTF-8 decoder in fatal mode: [None] is the TypeError it throws on
    a byte sequence that is not UTF-8 (overlong forms, surrogates, values
    past U+10FFFF, stray or missing continuation bytes). *)
Fixpoint utf8_decode (bs : list Z) : option jsstring :=
  match bs with
  | [] => Some []
  | b0 :: r0 =>
      if in_range 0 127 b0 then
        option_map (fun t => b0 :: t) (utf8_decode r0)
      else if in_range 194 223 b0 then
        match r0 with
        | b1 :: r1 =>
            if in_range 128 191 b1 then
              option_map (fun t => ((b0 - 192) * 64 + (b1 - 128)) :: t) (utf8_decode r1)
            else None
        | _ => None
        end
      else if in_range 224 239 b0 then
        match r0 with
        | b1 :: b2 :: r2 =>
            let lo := if b0 =? 224 then 160 else 128 in
            let hi := if b0 =? 237 then 159 else 191 in
            if in_range lo hi b1 && in_range 128 191 b2 then
              option_map
                (fun t => ((b0 - 224) * 4096 + (b1 - 128) * 64 + (b2 - 128)) :: t)
                (utf8_decode r2)
            else None
        | _ => None
        end
      else if in_range 240 244 b0 then
        match r0 with
        | b1 :: b2 :: b3 :: r3 =>
            let lo := if b0 =? 240 then 144 else 128 in
            let hi := if b0 =? 244 then 143 else 191 in
            if in_range lo hi b1 && in_range 128 191 b2 && in_range 128 191 b3 then
              option_map
                (fun t =>
                   code_units_of
                     ((b0 - 240) * 262144 + (b1 - 128) * 4096
                      + (b2 - 128) * 64 + (b3 - 128)) ++ t)
                (utf8_decode r3)
            else None
        | _ => None
        end
      else None
  end.

(** new TextDecoder('utf-8', { fatal: true }).decode(bytes): ignoreBOM is
    left at its default, so a leading U+FEFF is dropped from the output. *)
Definition TextDecoder_decode_fatal (bs : list Z) : option jsstring :=
  match utf8_decode bs with
  | Some (65279 :: t) => Some t
  | r => r
  end.

(** The base64 alphabet. *)
Definition b64_char (v : Z) : Z :=
  if v <? 26 then 65 + v
  else if v <? 52 then 71 + v
  else if v <? 62 then v - 4
  else if v =? 62 then 43
  else 47.

Definition b64_value (c : Z) : option Z :=
  if in_range 65 90 c then Some (c - 65)
  else if in_range 97 122 c then Some (c - 71)
  else if in_range 48 57 c then Some (c + 4)
  else if c =? 43 then Some 62
  else if c =? 47 then Some 63
  else None.

Definition pad_char : Z := 61.

(** window.btoa on a string whose code units are all below 256 (the
    caller builds it from bytes); [None] is the InvalidCharacterError. *)
Fixpoint btoa_groups (bs : list Z) : jsstring :=
  match bs with
  | [] => []
  | [a] => [b64_char (a / 4); b64_char ((a mod 4) * 16); pad_char; pad_char]
  | [a; b] =>
      [b64_char (a / 4); b64_char ((a mod 4) * 16 + b / 16);
       b64_char ((b mod 16) * 4); pad_char]
  | a :: b :: c :: rest =>
      b64_char (a / 4) :: b64_char ((a mod 4) * 16 + b / 16)
        :: b64_char ((b mod 16) * 4 + c / 64) :: b64_char (c mod 64)
        :: btoa_groups rest
  end.
Definition btoa (s : jsstring) : option jsstring :=
  if forallb (fun c => in_range 0 255 c) s then Some (btoa_groups s) else None.

(** window.atob, the forgiving-base64 decode: ASCII white space is
    removed, up to two trailing '=' are removed when the length is a
    multiple of four, a length of 1 modulo 4 or a character outside the
    alphabet is an error, and the bits left over at the end are dropped. *)
Definition is_ascii_whitespace (c : Z) : bool :=
  (c =? 9) || (c =? 10) || (c =? 12) || (c =? 13) || (c =? 32).

Definition strip_padding (s : jsstring) : jsstring :=
  if (length s mod 4 =? 0)%nat then
    match rev s with
    | c1 :: r1 =>
        if c1 =? pad_char then
          match r1 with
          | c2 :: r2 => if c2 =? pad_char then rev r2 else rev r1
          | [] => rev r1
          end
        else s
    | [] => s
    end
  else s.

Fixpoint sextets (s : jsstring) : option (list Z) :=
  match s with
  | [] => Some []
  | c :: r =>
      match b64_value c, sextets r with
      | Some v, Some vs => Some (v :: vs)
      | _, _ => None
      end
  end.

Fixpoint atob_groups (vs : list Z) : list Z :=
  match vs with
  | a :: b :: c :: d :: rest =>
      (a * 4 + b / 16) :: ((b mod 16) * 16 + c / 4) :: ((c mod 4) * 64 + d)
        :: atob_groups rest
  | [a; b; c] => [a * 4 + b / 16; (b mod 16) * 16 + c / 4]
  | [a; b] => [a * 4 + b / 16]
  | _ => []
  end.

Definition atob (s : jsstring) : option jsstring :=
  let data := strip_padding (filter (fun c => negb (is_ascii_whitespace c)) s) in
  if (length data mod 4 =? 1)%nat then None
  else option_map atob_groups (sextets data).

End Encoding.

(** ** constants.ts *)

Module Constants.
Import JS.

Definition MESSAGE_TERMINATOR_BINARY : jsstring := repeat_string (js "00000000") 5.
Definition MAX_MESSAGE_LENGTH_CHARS : nat := 5000.
Definition CRYPTO_SALT_NUM_BYTES : nat := 16.
Definition CRYPTO_IV_NUM_BYTES : nat := 12.
Definition CRYPTO_PAYLOAD_DELIMITER : Z := 58.

End Constants.

(** ** utils.ts *)

Module Utils.
Import JS Encoding.
#[local] Open Scope Z_scope.

(** The errors of the platform functions; their names are the standard's,
    their messages are the browser's own and play no part below. *)
Definition TypeError_invalid_utf8 : error :=
  Error "TypeError" "The encoded data was not valid.".
Definition InvalidCharacterError : error :=
  Error "InvalidCharacterError" "The string to be decoded is not correctly encoded.".

Definition decode_or_throw (bs : list Z) : result jsstring :=
  match TextDecoder_decode_fatal bs with
  | Some s => Ok s
  | None => Throw TypeError_invalid_utf8
  end.

(** textToBinary: eight binary digits per UTF-8 byte, most significant first. *)
Definition textToBinary (text : jsstring) : jsstring :=
  flat_map (fun byte => padStart (toString byte 2) 8 48) (TextEncoder_encode text).

(** The loop of binaryToText: bytes[i / 8] = parseInt(substring(i, i + 8), 2). *)
Definition bytes_of_binary (binaryToDecode : jsstring) : list Z :=
  map (fun k => ToUint8 (parseInt (substring binaryToDecode (8 * k) (8 * k + 8)) 2))
      (seq 0 (length binaryToDecode / 8)).

(** binaryToText: the input is cut to a multiple of eight characters; the
    decoder's exception is caught and turned into the empty string. *)
Definition binaryToText (binary : jsstring) : result jsstring :=
  let validLength := (length binary / 8 * 8)%nat in
  let binaryToDecode := substring binary 0 validLength in
  if (length binaryToDecode =? 0)%nat then Ok []
  else
    let bytes := bytes_of_binary binaryToDecode in
    try_catch (decode_or_throw bytes) (fun _ => Ok []).

(** arrayBufferToBase64: String.fromCharCode of each byte, then btoa. *)
Definition arrayBufferToBase64 (buffer : list Z) : result jsstring :=
  let binary := map (fun b => b mod 65536) buffer in
  match btoa binary with
  | Some s => Ok s
  | None => Throw InvalidCharacterError
  end.

(** base64ToArrayBuffer: atob, then charCodeAt of each character stored
    into a Uint8Array. *)
Definition base64ToArrayBuffer (base64 : jsstring) : result (list Z) :=
  match atob base64 with
  | Some binary_string => Ok (map (fun c => c mod 256) binary_string)
  | None => Throw InvalidCharacterError
  end.

(** arrayBufferToHex *)
Definition arrayBufferToHex (buffer : list Z) : jsstring :=
  flat_map (fun b => padStart (toString b 16) 2 48) buffer.

(** hexToArrayBuffer *)
Definition hexToArrayBuffer (hex : jsstring) : result (list Z) :=
  if negb (length hex mod 2 =? 0)%nat then
    Throw (Error "Error" "Hex string must have an even number of characters")
  else
    Ok (map (fun k => ToUint8 (parseInt (substring hex (2 * k) (2 * k + 2)) 16))
            (seq 0 (length hex / 2))).

(** stringToSeed *)
Definition stringToSeed (key : jsstring) : Z :=
  let hash := fold_left (fun hash char => or (shl hash 5 - hash + char) 0) key 0 in
  abs hash.

(** An addition of doubles whose operands are integers. *)
Definition double_add (x y : Z) : Z :=
  let p := x + y in if p <? 0 then - round53 (- p) else round53 p.

(** mulberry32: one call of the closure. The closure's variable [seed] is
    the state; the returned double is [u / 4294967296], of which [u] is
    given. *)
Definition mulberry32 (seed : Z) : Z * Z :=
  let seed := double_add seed 1831565813 in
  let t := seed in
  let t := imul (xor t (ushr t 15)) (or t 1) in
  let t := xor t (t + imul (xor t (ushr t 7)) (or t 61)) in
  (ushr (xor t (ushr t 14)) 0, seed).

(** Math.floor(random() * (i + 1)) for random() = u / 4294967296: the
    product of the two doubles is the exact product rounded to 53 bits. *)
Definition random_index (u : Z) (i : nat) : nat :=
  Z.to_nat (round53 (u * Z.of_nat (i + 1)) / two32).

Section Shuffle.
Context {A : Type}.

(** [result[i], result[j]] = [result[j], result[i]] with both indices in
    range (which the loop guarantees, see [random_index_le]). *)
Definition swap (result : list A) (i j : nat) : list A :=
  match result !! i, result !! j with
  | Some xi, Some xj => <[j := xi]> (<[i := xj]> result)
  | _, _ => result
  end.

(** for (let i = result.length - 1; i > 0; i--) { ... } *)
Fixpoint shuffle_loop (result : list A) (seed : Z) (i : nat) : list A :=
  match i with
  | O => result
  | S i' =>
      let '(u, seed') := mulberry32 seed in
      let j := random_index u i in
      shuffle_loop (swap result i j) seed' i'
  end.

(** seededShuffle, as a function of the array's contents. *)
Definition seededShuffle (array : list A) (seed : Z) : list A :=
  let result := array in
  shuffle_loop result seed (length result - 1).

(** seededShuffle over a store of arrays: the argument is a reference, the
    spread [...array] allocates a new array, and the loop writes through
    the new reference only. *)
Abbreviation store := (gmap nat (list A)).

Definition swap_ref (h : store) (r : nat) (i j : nat) : store :=
  match h !! r with
  | Some l => <[r := swap l i j]> h
  | None => h
  end.

Fixpoint shuffle_loop_ref (h : store) (r : nat) (seed : Z) (i : nat) : store :=
  match i with
  | O => h
  | S i' =>
      let '(u, seed') := mulberry32 seed in
      let j := random_index u i in
      shuffle_loop_ref (swap_ref h r i j) r seed' i'
  end.

Definition seededShuffle_ref (h : store) (array : nat) (seed : Z) : option (store * nat) :=
  match h !! array with
  | Some l =>
      let result := fresh (dom h) in
      let h1 := <[result := l]> h in
      Some (shuffle_loop_ref h1 result seed (length l - 1), result)
  | None => None
  end.

End Shuffle.

(** Array.from({ length: n }, (_, i) => i) *)
Definition indices (n : nat) : list nat := seq 0 n.

(** *** MD5 *)

Definition md5_safe_add (x y : Z) : Z :=
  let lsw := and x 65535 + and y 65535 in
  let msw := shr x 16 + shr y 16 + shr lsw 16 in
  or (shl msw 16) (and lsw 65535).
Definition md5_bit_rol (num cnt : Z) : Z := or (shl num cnt) (ushr num (32 - cnt)).
Definition md5_cmn (q a b x s t : Z) : Z :=
  md5_safe_add (md5_bit_rol (md5_safe_add (md5_safe_add a q) (md5_safe_add x t)) s) b.
Definition md5_ff (a b c d x s t : Z) : Z :=
  md5_cmn (or (and b c) (and (not b) d)) a b x s t.
Definition md5_gg (a b c d x s t : Z) : Z :=
  md5_cmn (or (and b d) (and c (not d))) a b x s t.
Definition md5_hh (a b c d x s t : Z) : Z :=
  md5_cmn (xor (xor b c) d) a b x s t.
Definition md5_ii (a b c d x s t : Z) : Z :=
  md5_cmn (xor c (or b (not d))) a b x s t.

(** The body of the loop of core_md5 for the block at index [i]. *)
Definition md5_block (x : list Z) (i : Z) (st : Z * Z * Z * Z) : Z * Z * Z * Z :=
  let '(a, b, c, d) := st in
  let X k := array_get x (i + k) in
  let olda := a in let oldb := b in let oldc := c in let oldd := d in
  let a := md5_ff a b c d (X 0) 7 (-680876936) in
  let d := md5_ff d a b c (X 1) 12 (-389564586) in
  let c := md5_ff c d a b (X 2) 17 606105819 in
  let b := md5_ff b c d a (X 3) 22 (-1044525330) in
  let a := md5_ff a b c d (X 4) 7 (-176418897) in
  let d := md5_ff d a b c (X 5) 12 1200080426 in
  let c := md5_ff c d a b (X 6) 17 (-1473231341) in
  let b := md5_ff b c d a (X 7) 22 (-45705983) in
  let a := md5_ff a b c d (X 8) 7 1770035416 in
  let d := md5_ff d a b c (X 9) 12 (-1958414417) in
  let c := md5_ff c d a b (X 10) 17 (-42063) in
  let b := md5_ff b c d a (X 11) 22 (-1990404162) in
  let a := md5_ff a b c d (X 12) 7 1804603682 in
  let d := md5_ff d a b c (X 13) 12 (-40341101) in
  let c := md5_ff c d a b (X 14) 17 (-1502002290) in
  let b := md5_ff b c d a (X 15) 22 1236535329 in
  let a := md5_gg a b c d (X 1) 5 (-165796510) in
  let d := md5_gg d a b c (X 6) 9 (-1069501632) in
  let c := md5_gg c d a b (X 11) 14 643717713 in
  let b := md5_gg b c d a (X 0) 20 (-373897302) in
  let a := md5_gg a b c d (X 5) 5 (-701558691) in
  let d := md5_gg d a b c (X 10) 9 38016083 in
  let c := md5_gg c d a b (X 15) 14 (-660478335) in
  let b := md5_gg b c d a (X 4) 20 (-405537848) in
  let a := md5_gg a b c d (X 9) 5 568446438 in
  let d := md5_gg d a b c (X 14) 9 (-1019803690) in
  let c := md5_gg c d a b (X 3) 14 (-187363961) in
  let b := md5_gg b c d a (X 8) 20 1163531501 in
  let a := md5_gg a b c d (X 13) 5 (-1444681467) in
  let d := md5_gg d a b c (X 2) 9 (-51403784) in
  let c := md5_gg c d a b (X 7) 14 1735328473 in
  let b := md5_gg b c d a (X 12) 20 (-1926607734) in
  let a := md5_hh a b c d (X 5) 4 (-378558) in
  let d := md5_hh d a b c (X 8) 11 (-2022574463) in
  let c := md5_hh c d a b (X 11) 16 1839030562 in
  let b := md5_hh b c d a (X 14) 23 (-35309556) in
  let a := md5_hh a b c d (X 1) 4 (-1530992060) in
  let d := md5_hh d a b c (X 4) 11 1272893353 in
  let c := md5_hh c d a b (X 7) 16 (-155497632) in
  let b := md5_hh b c d a (X 10) 23 (-1094730640) in
  let a := md5_hh a b c d (X 13) 4 681279174 in
  let d := md5_hh d a b c (X 0) 11 (-358537222) in
  let c := md5_hh c d a b (X 3) 16 (-722521979) in
  let b := md5_hh b c d a (X 6) 23 76029189 in
  let a := md5_hh a b c d (X 9) 4 (-640364487) in
  let d := md5_hh d a b c (X 12) 11 (-421815835) in
  let c := md5_hh c d a b (X 15) 16 530742520 in
  let b := md5_hh b c d a (X 2) 23 (-995338651) in
  let a := md5_ii a b c d (X 0) 6 (-198630844) in
  let d := md5_ii d a b c (X 7) 10 1126891415 in
  let c := md5_ii c d a b (X 14) 15 (-1416354905) in
  let b := md5_ii b c d a (X 5) 21 (-57434055) in
  let a := md5_ii a b c d (X 12) 6 1700485571 in
  let d := md5_ii d a b c (X 3) 10 (-1894986606) in
  let c := md5_ii c d a b (X 10) 15 (-1051523) in
  let b := md5_ii b c d a (X 1) 21 (-2054922799) in
  let a := md5_ii a b c d (X 8) 6 1873313359 in
  let d := md5_ii d a b c (X 15) 10 (-30611744) in
  let c := md5_ii c d a b (X 6) 15 (-1560198380) in
  let b := md5_ii b c d a (X 13) 21 1309151649 in
  let a := md5_ii a b c d (X 4) 6 (-145523070) in
  let d := md5_ii d a b c (X 11) 10 (-1120210379) in
  let c := md5_ii c d a b (X 2) 15 718787259 in
  let b := md5_ii b c d a (X 9) 21 (-343485551) in
  (md5_safe_add a olda, md5_safe_add b oldb, md5_safe_add c oldc, md5_safe_add d oldd).

(** for (let i = 0; i < x.length; i += 16): [n] iterations from index [i]. *)
Fixpoint md5_loop (n : nat) (x : list Z) (i : Z) (st : Z * Z * Z * Z) : Z * Z * Z * Z :=
  match n with
  | O => st
  | S n' => md5_loop n' x (i + 16) (md5_block x i st)
  end.

Definition core_md5 (x : list Z) (len : Z) : list Z :=
  let x := array_set x (shr len 5) (or (array_get x (shr len 5)) (shl 128 (len mod 32))) in
  let x := array_set x (shl (ushr (len + 64) 9) 4 + 14) len in
  let '(a, b, c, d) :=
    md5_loop ((length x + 15) / 16) x 0 (1732584193, -271733879, -1732584194, 271733878) in
  [a; b; c; d].

(** str2binl: bin[i >> 2] |= utf8Bytes[i] << ((i % 4) * 8) *)
Definition str2binl (str : jsstring) : list Z * Z :=
  let utf8Bytes := TextEncoder_encode str in
  let byteLength := Z.of_nat (length utf8Bytes) in
  let step (acc : list Z * Z) (byte : Z) :=
    let '(bin, i) := acc in
    (array_set bin (shr i 2) (or (array_get bin (shr i 2)) (shl byte ((i mod 4) * 8))), i + 1) in
  (fst (fold_left step utf8Bytes ([], 0)), byteLength).

(** binl2hex *)
Definition hex_tab : jsstring := js "0123456789abcdef".
Definition charAt (s : jsstring) (i : Z) : jsstring :=
  if i <? 0 then [] else match nth_error s (Z.to_nat i) with Some c => [c] | None => [] end.
Definition binl2hex (binarray : list Z) : jsstring :=
  flat_map
    (fun k =>
       let i := Z.of_nat k in
       charAt hex_tab (and (shr (array_get binarray (shr i 2)) ((i mod 4) * 8 + 4)) 15)
         ++ charAt hex_tab (and (shr (array_get binarray (shr i 2)) ((i mod 4) * 8)) 15))
    (seq 0 (length binarray * 4)).

Definition md5 (s : jsstring) : jsstring :=
  let '(bin, byteLength) := str2binl s in
  binl2hex (core_md5 bin (byteLength * 8)).

(** md5KeyToSeed *)
Definition md5KeyToSeed (key : jsstring) : Z :=
  match key with
  | [] => 0
  | _ =>
      let hash := md5 key in
      let seedHex := substring hash 0 8 in
      match parseInt seedHex 16 with
      | Some v => v
      | None => 0
      end
  end.

End Utils.

(** ** services/cryptoService.ts *)

Module CryptoService.
Import JS Encoding Utils Constants.
#[local] Open Scope Z_scope.

(** The calls made to crypto.subtle, in order: the trace of an operation. *)
Inductive call := DeriveKey | Encrypt | Decrypt.

(** An asynchronous operation of this service: its outcome and the calls
    it made to the platform. *)
Definition traced (A : Type) : Type := result A * list call.

Definition ret {A} (a : A) : traced A := (Ok a, []).
Definition throw {A} (e : error) : traced A := (Throw e, []).
Definition lift {A} (r : result A) : traced A := (r, []).
Definition platform {A} (c : call) (r : result A) : traced A := (r, [c]).
Definition tbind {A B} (m : traced A) (k : A -> traced B) : traced B :=
  match m with
  | (Ok a, t) => let '(r, t') := k a in (r, t ++ t')
  | (Throw e, t) => (Throw e, t)
  end.
Definition tcatch {A} (m : traced A) (handler : error -> traced A) : traced A :=
  match m with
  | (Ok a, t) => (Ok a, t)
  | (Throw e, t) => let '(r, t') := handler e in (r, t ++ t')
  end.

Notation "'do' x <- m ; k" := (tbind m (fun x => k))
  (at level 10, x name, m at level 100, k at level 200).

(** crypto.getRandomValues(new Uint8Array(n)): [n] bytes of the platform's
    random source [rnd], read from position [pos]. *)
Definition getRandomValues (rnd : nat -> Z) (pos n : nat) : list Z :=
  map (fun k => rnd (pos + k)%nat mod 256) (seq 0 n).

(** 'decryption failed' occurs in the lower-cased message *)
Definition lower (c : ascii) : ascii :=
  let n := nat_of_ascii c in
  if ((65 <=? n) && (n <=? 90))%nat then ascii_of_nat (n + 32) else c.
Definition toLowerCase (s : string) : string :=
  string_of_list_ascii (map lower (list_ascii_of_string s)).
Definition includes (s t : string) : bool :=
  match String.index 0 t s with
  | Some _ => true
  | None => false
  end.

Section WebCrypto.
(** The platform's part: PBKDF2 key derivation and AES-GCM, and the
    non-fatal TextDecoder behind arrayBufferToString. *)
Variable CryptoKey : Type.
Variable subtle_deriveKey : list Z -> list Z -> result CryptoKey.
Variable subtle_encrypt : CryptoKey -> list Z -> list Z -> result (list Z).
Variable subtle_decrypt : CryptoKey -> list Z -> list Z -> result (list Z).
Variable arrayBufferToString : list Z -> jsstring.

Definition stringToArrayBuffer (str : jsstring) : list Z := TextEncoder_encode str.

(** deriveKey: importKey and deriveKey of crypto.subtle, as one call. *)
Definition deriveKey (password : jsstring) (salt : list Z) : traced CryptoKey :=
  let passwordBuffer := stringToArrayBuffer password in
  platform DeriveKey (subtle_deriveKey passwordBuffer salt).

(** encryptMessage *)
Definition encryptMessage (rnd : nat -> Z) (message password : jsstring) : traced jsstring :=
  tcatch
    (let salt := getRandomValues rnd 0 CRYPTO_SALT_NUM_BYTES in
     let iv := getRandomValues rnd CRYPTO_SALT_NUM_BYTES CRYPTO_IV_NUM_BYTES in
     do key <- deriveKey password salt;
     let messageBuffer := stringToArrayBuffer message in
     do ciphertextBuffer <- platform Encrypt (subtle_encrypt key iv messageBuffer);
     do s1 <- lift (arrayBufferToBase64 salt);
     do s2 <- lift (arrayBufferToBase64 iv);
     do s3 <- lift (arrayBufferToBase64 ciphertextBuffer);
     ret (s1 ++ [CRYPTO_PAYLOAD_DELIMITER] ++ s2 ++ [CRYPTO_PAYLOAD_DELIMITER] ++ s3))
    (fun _ => throw (Error "Error" "Encryption failed. Please check console for details.")).

Definition format_error : error :=
  Error "Error" "Invalid encrypted payload format. Expected salt:iv:ciphertext.".

(** decryptMessage *)
Definition decryptMessage (encryptedPayload password : jsstring) : traced jsstring :=
  tcatch
    (let parts := split CRYPTO_PAYLOAD_DELIMITER encryptedPayload in
     if negb (length parts =? 3)%nat then throw format_error
     else
       do salt <- lift (base64ToArrayBuffer (nth 0 parts []));
       do iv <- lift (base64ToArrayBuffer (nth 1 parts []));
       do ciphertext <- lift (base64ToArrayBuffer (nth 2 parts []));
       do key <- deriveKey password salt;
       do decryptedBuffer <- platform Decrypt (subtle_decrypt key iv ciphertext);
       ret (arrayBufferToString decryptedBuffer))
    (fun e =>
       if String.eqb (name e) "OperationError"
          || (negb (String.eqb (message e) EmptyString)
              && includes (toLowerCase (message e)) "decryption failed")
       then throw (Error "Error"
              "Decryption failed. This usually means an incorrect password or corrupted data.")
       else throw (Error "Error"
              (if String.eqb (message e) EmptyString
               then "Decryption failed. Please check console for details."
               else message e))).

End WebCrypto.
End CryptoService.

(** ** The 2D canvas of encoders that draw

    The Random-Dot and Morse encoders draw on a canvas of their own and
    their decoders sample single pixels. A canvas is modelled by its
    pixels as a function of the coordinates, which fillRect updates; the
    PNG that carries it from the encoder to the decoder keeps every
    pixel, all of them being opaque. *)

Module Canvas2D.
#[local] Open Scope nat_scope.

(** A pixel: red, green, blue, alpha. *)
Definition rgba : Type := (Z * Z * Z * Z)%type.

Record bitmap := Bitmap { bm_width : nat; bm_height : nat; bm_pixel : nat -> nat -> rgba }.

(** ctx.fillRect(x, y, w, h) with an opaque fill style *)
Definition fillRect (img : bitmap) (style : rgba) (x y w h : nat) : bitmap :=
  Bitmap (bm_width img) (bm_height img)
    (fun px py =>
       if (x <=? px) && (px <? x + w) && (y <=? py) && (py <? y + h) then style
       else bm_pixel img px py).

(** ctx.getImageData(x, y, 1, 1).data: transparent black outside the canvas *)
Definition getImageData (img : bitmap) (x y : nat) : rgba :=
  if (x <? bm_width img) && (y <? bm_height img) then bm_pixel img x y
  else (0, 0, 0, 0)%Z.

(** ctx.getImageData(0, 0, width, height).data[i]: the pixels row after
    row, four bytes each; undefined ([None]) past the end. *)
Definition data_at (img : bitmap) (i : nat) : option Z :=
  let p := i / 4 in
  if (bm_width img =? 0) || (bm_width img * bm_height img <=? p) then None
  else
    let '(r, g, b, a) := bm_pixel img (p mod bm_width img) (p / bm_width img) in
    nth_error [r; g; b; a] (i mod 4).

End Canvas2D.

(** ** The LSB services: steganographyService.ts, steganographyPatternLSBService.ts,
    steganographyMD5PatternService.ts *)

Module Stego.
Import JS Encoding Utils Constants Canvas2D.
#[local] Open Scope nat_scope.

(** The pixel surface behind an image file: what loadImageToCanvas and
    getImageData give, four bytes (R, G, B, A) per pixel. A PNG stores it
    without loss, so the file an encoder returns is identified with the
    surface it was made from. *)
Record canvas := Canvas { width : nat; height : nat; pixels : list Z }.

Record encoded := Encoded { carrier : canvas; encryptedPayload : jsstring }.

(** Loop control: one iteration continues, breaks out of its loop, or
    returns from the function. *)
Inductive flow (S R : Type) : Type :=
| Continue (s : S)
| Break (s : S)
| Return (r : R).
Arguments Continue {S R} s.
Arguments Break {S R} s.
Arguments Return {S R} r.

(** Reads and writes of a Uint8ClampedArray: a read out of range is
    undefined (0 under a bitwise operator), a write out of range is
    dropped, a stored value is clamped to a byte. *)
Definition typed_get (data : list Z) (i : nat) : Z := nth i data 0%Z.
Definition clamp (v : Z) : Z := Z.max 0 (Z.min 255 v).
Definition typed_set (data : list Z) (i : nat) (v : Z) : list Z := <[i := clamp v]> data.

(** parseInt(binaryMessage[i]) under the operator |: NaN counts as 0. *)
Definition parse_bit (c : Z) : Z :=
  match parseInt [c] 10 with
  | Some v => v
  | None => 0%Z
  end.

(** data[k] = (data[k] & 0xFE) | bit *)
Definition write_lsb (data : list Z) (k : nat) (bit : Z) : list Z :=
  typed_set data k (or (and (typed_get data k) 254) bit).

Definition err (msg : string) : error := Error "Error" msg.

(** A number inside a template string. *)
Definition show (n : nat) : string := NilZero.string_of_uint (Nat.to_uint n).

(** The messages in which the decoders differ. *)
Record scheme_messages := Messages {
  no_content : string;
  conversion_failed : string;
  not_enough_data : nat -> nat -> string;
  terminator_not_found : nat -> string
}.

Definition LSB_messages : scheme_messages := {|
  no_content := "LSB Decode: No encrypted content found. Only the message terminator sequence was detected.";
  conversion_failed := "LSB Decode: Failed to convert extracted binary data to text for decryption. Data might be corrupted.";
  not_enough_data := fun offered needed =>
    ("LSB Decode: Not enough data in the image to contain a complete encrypted message. The image offers "
     ++ show offered ++ " LSBs, but the terminator alone requires " ++ show needed ++ " bits.")%string;
  terminator_not_found := fun scanned =>
    ("LSB Decode: No hidden encrypted message found. The expected terminator sequence was not detected after scanning all "
     ++ show scanned ++ " available LSBs. The image might not be LSB encoded, password might be wrong (leading to different encrypted payload structure), or data could be corrupted.")%string
|}.

Definition pattern_messages (scheme : string) : scheme_messages := {|
  no_content :=
    (scheme ++ ": No encrypted content found. Only the message terminator sequence was detected.")%string;
  conversion_failed :=
    (scheme ++ ": Failed to convert extracted binary data to text for decryption.")%string;
  not_enough_data := fun offered needed =>
    (scheme ++ ": Not enough data in the image to contain a complete encrypted message. The image offers "
     ++ show offered ++ " LSBs, but the terminator requires " ++ show needed ++ " bits.")%string;
  terminator_not_found := fun _ =>
    (scheme ++ ": No hidden encrypted message found. Expected terminator not detected using key-derived pattern. Ensure Stego Key and Password are correct, image is "
     ++ scheme ++ " encoded, or data not corrupted.")%string
|}.

Section Services.
(** cryptoEncrypt and cryptoDecrypt of cryptoService.ts, with the
    platform's randomness and primitives already supplied. *)
Variable cryptoEncrypt : jsstring -> jsstring -> result jsstring.
Variable cryptoDecrypt : jsstring -> jsstring -> result jsstring.

(** *** steganographyService.ts *)

(** The embedding loop of encodeMessage, from bit [i] at [dataIndex]. The
    second component is the buffer as the loop leaves it. *)
Fixpoint lsb_write (bits : jsstring) (i dataIndex total : nat) (data : list Z)
  : result unit * list Z :=
  match bits with
  | [] => (Ok tt, data)
  | c :: rest =>
      let bit := parse_bit c in
      let channelIndex := i mod 3 in
      let data := write_lsb data (dataIndex + channelIndex) bit in
      let dataIndex := if channelIndex =? 2 then dataIndex + 4 else dataIndex in
      if (length data <=? dataIndex) && (i <? total - 1) then
        (Throw (err "Image data exhausted before encrypted message fully encoded."), data)
      else lsb_write rest (S i) dataIndex total data
  end.

Definition capacity_error_LSB : error :=
  err "Encrypted message is too long to be hidden in this image. Try a larger image or shorter original message (encryption adds overhead).".

(** encodeMessage. The second component is the pixel buffer [data] when
    the function is left (the file's own pixels if it was never read). *)
Definition encodeMessage (file : option canvas) (message password : jsstring)
  : result encoded * list Z :=
  match file with
  | None => (Throw (err "No image file provided."), [])
  | Some cv =>
      if (length message =? 0) then (Throw (err "No message provided."), pixels cv)
      else if (length password =? 0) then
        (Throw (err "Password is required for LSB encoding."), pixels cv)
      else if (MAX_MESSAGE_LENGTH_CHARS <? length message) then
        (Throw (err "Message is too long. Maximum 5000 characters allowed."), pixels cv)
      else
        match cryptoEncrypt message password with
        | Throw e => (Throw e, pixels cv)
        | Ok encryptedPayload =>
            let binaryMessage := textToBinary encryptedPayload ++ MESSAGE_TERMINATOR_BINARY in
            let data := pixels cv in
            let maxBitsStorable := length data / 4 * 3 in
            if maxBitsStorable <? length binaryMessage then (Throw capacity_error_LSB, data)
            else
              match lsb_write binaryMessage 0 0 (length binaryMessage) data with
              | (Throw e, data') => (Throw e, data')
              | (Ok _, data') =>
                  (Ok (Encoded (Canvas (width cv) (height cv) data') encryptedPayload), data')
              end
        end
  end.

(** What every decoder does once a bit has been appended: if the string
    read so far ends with the terminator, the function returns (or
    throws). *)
Definition on_terminator (scheme : scheme_messages) (binaryEncryptedPayload password : jsstring)
  : option (result jsstring) :=
  if (length MESSAGE_TERMINATOR_BINARY <=? length binaryEncryptedPayload)
     && endsWith binaryEncryptedPayload MESSAGE_TERMINATOR_BINARY
  then
    let encryptedPayloadPart :=
      substring binaryEncryptedPayload 0
        (length binaryEncryptedPayload - length MESSAGE_TERMINATOR_BINARY) in
    if length encryptedPayloadPart =? 0 then
      Some (Throw (err (no_content scheme)))
    else
      match binaryToText encryptedPayloadPart with
      | Throw e => Some (Throw e)
      | Ok encryptedPayloadString =>
          if (length encryptedPayloadString =? 0) && (0 <? length encryptedPayloadPart) then
            Some (Throw (err (conversion_failed scheme)))
          else Some (cryptoDecrypt encryptedPayloadString password)
      end
  else None.

(** The body of the channel loop, shared by the decoders: read the LSB of
    data[k], append it, test for the terminator. *)
Definition read_channel (scheme : scheme_messages) (data : list Z) (maxBitsToRead : nat)
  (password : jsstring) (k : nat) (st : jsstring * nat)
  : flow (jsstring * nat) (result jsstring) :=
  let '(binaryEncryptedPayload, bitCount) := st in
  if maxBitsToRead <=? bitCount then Break st
  else
    let lsb := and (typed_get data k) 1 in
    let binaryEncryptedPayload := binaryEncryptedPayload ++ toString lsb 10 in
    let bitCount := S bitCount in
    match on_terminator scheme binaryEncryptedPayload password with
    | Some r => Return r
    | None => Continue (binaryEncryptedPayload, bitCount)
    end.

(** for (let j = 0; j < 3; j++) over the channels at offset [base] *)
Fixpoint channel_loop (scheme : scheme_messages) (data : list Z) (maxBitsToRead : nat)
  (password : jsstring) (base : nat) (channels : list nat) (st : jsstring * nat)
  : flow (jsstring * nat) (result jsstring) :=
  match channels with
  | [] => Continue st
  | j :: channels' =>
      match read_channel scheme data maxBitsToRead password (base + j) st with
      | Continue st' => channel_loop scheme data maxBitsToRead password base channels' st'
      | other => other
      end
  end.

(** for (let i = 0; i < data.length; i += 4): [n] iterations from [i] *)
Fixpoint lsb_pixel_loop (data : list Z) (maxBitsToRead : nat) (password : jsstring)
  (n i : nat) (st : jsstring * nat) : option (result jsstring) :=
  match n with
  | O => None
  | S n' =>
      match channel_loop LSB_messages data maxBitsToRead password i [0; 1; 2] st with
      | Return r => Some r
      | Continue st' | Break st' =>
          if maxBitsToRead <=? snd st' then None
          else lsb_pixel_loop data maxBitsToRead password n' (i + 4) st'
      end
  end.

(** decodeMessage *)
Definition decodeMessage (file : option canvas) (password : jsstring) : result jsstring :=
  match file with
  | None => Throw (err "No image file provided.")
  | Some cv =>
      if (length password =? 0) then Throw (err "Password is required for LSB decoding.")
      else
        let data := pixels cv in
        let maxBitsToRead := length data / 4 * 3 in
        match lsb_pixel_loop data maxBitsToRead password ((length data + 3) / 4) 0 ([], 0) with
        | Some r => r
        | None =>
            if maxBitsToRead <? length MESSAGE_TERMINATOR_BINARY then
              Throw (err (not_enough_data LSB_messages maxBitsToRead
                            (length MESSAGE_TERMINATOR_BINARY)))
            else Throw (err (terminator_not_found LSB_messages maxBitsToRead))
        end
  end.

(** *** steganographyPatternLSBService.ts and steganographyMD5PatternService.ts

    The two files differ in the seed function (stringToSeed, md5KeyToSeed)
    and in the scheme's name in their messages. *)

(** for (let channel = 0; channel < 3; channel++) of the encoder: writes
    bits while there are any; returns the bits left and the buffer. *)
Fixpoint pattern_write_channels (channels : list nat) (start : nat) (bits : jsstring)
  (data : list Z) : jsstring * list Z :=
  match channels with
  | [] => (bits, data)
  | channel :: channels' =>
      match bits with
      | [] => (bits, data)
      | c :: rest =>
          pattern_write_channels channels' start rest (write_lsb data (start + channel) (parse_bit c))
      end
  end.

(** while (bitIndex < length && pixelSequenceIndex < numPixels) over the
    shuffled pixel order from [pixelSequenceIndex] on. *)
Fixpoint pattern_write (order : list nat) (bits : jsstring) (data : list Z) : jsstring * list Z :=
  match bits, order with
  | [], _ => (bits, data)
  | _, [] => (bits, data)
  | _, currentPixelOrderIndex :: order' =>
      let dataStartIndexForPixel := currentPixelOrderIndex * 4 in
      let '(bits', data') := pattern_write_channels [0; 1; 2] dataStartIndexForPixel bits data in
      pattern_write order' bits' data'
  end.

Definition capacity_error_pattern (scheme : string) : error :=
  err ("Encrypted message is too long to be hidden in this image using " ++ scheme
       ++ ". Try a larger image or shorter original message.")%string.

Definition encodePattern (scheme : string) (seedOf : jsstring -> Z)
  (file : option canvas) (message stegoKey password : jsstring) : result encoded * list Z :=
  match file with
  | None => (Throw (err "No image file provided."), [])
  | Some cv =>
      if (length message =? 0) then (Throw (err "No message provided."), pixels cv)
      else if (length stegoKey =? 0) then
        (Throw (err ("No Stego Key provided. This key is required for " ++ scheme ++ ".")%string), pixels cv)
      else if (length password =? 0) then
        (Throw (err "No Password provided. This is required for encryption."), pixels cv)
      else if (MAX_MESSAGE_LENGTH_CHARS <? length message) then
        (Throw (err "Message is too long. Maximum 5000 characters allowed."), pixels cv)
      else
        match cryptoEncrypt message password with
        | Throw e => (Throw e, pixels cv)
        | Ok encryptedPayload =>
            let binaryEncryptedMessage :=
              textToBinary encryptedPayload ++ MESSAGE_TERMINATOR_BINARY in
            let data := pixels cv in
            let numPixels := width cv * height cv in
            let maxBitsStorable := numPixels * 3 in
            if maxBitsStorable <? length binaryEncryptedMessage then
              (Throw (capacity_error_pattern scheme), data)
            else
              let pixelIndices := seededShuffle (indices numPixels) (seedOf stegoKey) in
              match pattern_write pixelIndices binaryEncryptedMessage data with
              | (_ :: _, data') =>
                  (Throw (err (scheme ++ ": Image data exhausted (based on shuffled sequence) before encrypted message fully encoded.")%string), data')
              | ([], data') =>
                  (Ok (Encoded (Canvas (width cv) (height cv) data') encryptedPayload), data')
              end
        end
  end.

Definition encodeMessagePatternLSB := encodePattern "Pattern LSB" stringToSeed.
Definition encodeMessageMD5Pattern := encodePattern "MD5 Pattern LSB" md5KeyToSeed.

(** while (bitsReadCount < maxBitsToRead && pixelSequenceIndex < numPixels)
    of the decoder, over the shuffled pixel order. *)
Fixpoint pattern_pixel_loop (scheme : scheme_messages) (data : list Z) (maxBitsToRead : nat)
  (password : jsstring) (order : list nat) (st : jsstring * nat) : option (result jsstring) :=
  match order with
  | [] => None
  | currentPixelOrderIndex :: order' =>
      if maxBitsToRead <=? snd st then None
      else
        let dataStartIndexForPixel := currentPixelOrderIndex * 4 in
        match channel_loop scheme data maxBitsToRead password dataStartIndexForPixel [0; 1; 2] st with
        | Return r => Some r
        | Continue st' | Break st' =>
            if maxBitsToRead <=? snd st' then None
            else pattern_pixel_loop scheme data maxBitsToRead password order' st'
        end
  end.

Definition decodePattern (scheme : string) (seedOf : jsstring -> Z)
  (file : option canvas) (stegoKey password : jsstring) : result jsstring :=
  match file with
  | None => Throw (err "No image file provided.")
  | Some cv =>
      if (length stegoKey =? 0) then
        Throw (err ("No Stego Key provided. This key is required for " ++ scheme ++ " decoding.")%string)
      else if (length password =? 0) then
        Throw (err "No Password provided. This is required for decryption.")
      else
        let data := pixels cv in
        let numPixels := width cv * height cv in
        let maxBitsToRead := numPixels * 3 in
        let pixelIndices := seededShuffle (indices numPixels) (seedOf stegoKey) in
        let texts := pattern_messages scheme in
        match pattern_pixel_loop texts data maxBitsToRead password pixelIndices ([], 0) with
        | Some r => r
        | None =>
            if maxBitsToRead <? length MESSAGE_TERMINATOR_BINARY then
              Throw (err (not_enough_data texts maxBitsToRead
                            (length MESSAGE_TERMINATOR_BINARY)))
            else Throw (err (terminator_not_found texts maxBitsToRead))
        end
  end.

Definition decodeMessagePatternLSB := decodePattern "Pattern LSB" stringToSeed.
Definition decodeMessageMD5Pattern := decodePattern "MD5 Pattern LSB" md5KeyToSeed.

(** *** steganographyRDService.ts: the payload as a binary string

    encodeRDMessage returns, beside the image of dots, the bit string the
    dots were drawn from; decryptRDMessageFromBinary decodes that string. *)
Definition encodeRDMessage_binary (message password : jsstring)
  : result (jsstring * jsstring) :=
  if (length message =? 0) then Throw (err "No message provided.")
  else if (length password =? 0) then Throw (err "Password is required for RD encoding.")
  else if (MAX_MESSAGE_LENGTH_CHARS <? length message) then
    Throw (err "Message is too long. Maximum 5000 characters allowed for RD encoding.")
  else
    match cryptoEncrypt message password with
    | Throw e => Throw e
    | Ok encryptedPayload =>
        let binaryEncryptedPayloadWithTerminator :=
          textToBinary encryptedPayload ++ MESSAGE_TERMINATOR_BINARY in
        Ok (binaryEncryptedPayloadWithTerminator, encryptedPayload)
    end.

(** /^[01]+$/.test(s) *)
Definition is_binary (s : jsstring) : bool :=
  (0 <? length s) && forallb (fun c => (c =? 48)%Z || (c =? 49)%Z) s.

Definition decryptRDMessageFromBinary (binaryStringWithTerminator password : jsstring)
  : result jsstring :=
  if (length binaryStringWithTerminator =? 0) then
    Throw (err "No binary string provided for RD decoding.")
  else if (length password =? 0) then
    Throw (err "Password is required for RD binary decoding.")
  else
    match indexOf binaryStringWithTerminator MESSAGE_TERMINATOR_BINARY with
    | None =>
        Throw (err "RD Decode (Binary): Message terminator not found in the provided binary string. Ensure it is the full binary output from encoding.")
    | Some terminatorIndex =>
        let binaryEncryptedPayload := substring binaryStringWithTerminator 0 terminatorIndex in
        if length binaryEncryptedPayload =? 0 then
          Throw (err "RD Decode (Binary): No encrypted content found before terminator in the binary string.")
        else
          match binaryToText binaryEncryptedPayload with
          | Throw e => Throw e
          | Ok encryptedPayloadString =>
              if (length encryptedPayloadString =? 0) && (0 <? length binaryEncryptedPayload) then
                if negb (is_binary binaryEncryptedPayload) then
                  Throw (err "RD Decode (Binary): Input contains non-binary characters.")
                else if negb (length binaryEncryptedPayload mod 8 =? 0) then
                  Throw (err "RD Decode (Binary): Binary encrypted payload is not a valid multiple of 8 bits. Data might be incomplete or corrupted.")
                else
                  Throw (err "RD Decode (Binary): Failed to convert binary string to text for decryption. Data might be corrupted or format invalid.")
              else cryptoDecrypt encryptedPayloadString password
          end
    end.

(** *** steganographyRDService.ts: the image of dots *)

Definition DOT_SIZE : nat := 5.
Definition DOT_SPACING : nat := 2.
Definition DOTS_PER_ROW : nat := 48.
Definition COLOR_BIT_1 : rgba := (0, 0, 0, 255)%Z.
Definition COLOR_BIT_0 : rgba := (255, 255, 255, 255)%Z.
(** '#E0E0E0' as a fill style *)
Definition BACKGROUND_COLOR : rgba := (224, 224, 224, 255)%Z.

Record rd_encoded := RDEncoded {
  imageDataUrl : bitmap;
  binaryEncryptedPayloadWithTerminator : jsstring;
  rdPayload : jsstring
}.

(** for (let i = 0; i < numDots; i++): the dots of [bits], the first of
    them being dot [i] *)
Fixpoint draw_dots (bits : jsstring) (i : nat) (canvas : bitmap) : bitmap :=
  match bits with
  | [] => canvas
  | bit :: rest =>
      let row := i / DOTS_PER_ROW in
      let col := i mod DOTS_PER_ROW in
      let x := DOT_SPACING + col * (DOT_SIZE + DOT_SPACING) in
      let y := DOT_SPACING + row * (DOT_SIZE + DOT_SPACING) in
      let color := if (bit =? 49)%Z then COLOR_BIT_1 else COLOR_BIT_0 in
      draw_dots rest (S i) (fillRect canvas color x y DOT_SIZE DOT_SIZE)
  end.

(** encodeRDMessage *)
Definition encodeRDMessage (message password : jsstring) : result rd_encoded :=
  if (length message =? 0) then Throw (err "No message provided.")
  else if (length password =? 0) then Throw (err "Password is required for RD encoding.")
  else if (MAX_MESSAGE_LENGTH_CHARS <? length message) then
    Throw (err "Message is too long. Maximum 5000 characters allowed for RD encoding.")
  else
    match cryptoEncrypt message password with
    | Throw e => Throw e
    | Ok encryptedPayload =>
        let binaryEncryptedPayloadWithTerminator :=
          textToBinary encryptedPayload ++ MESSAGE_TERMINATOR_BINARY in
        let numDots := length binaryEncryptedPayloadWithTerminator in
        let numRows := (numDots + (DOTS_PER_ROW - 1)) / DOTS_PER_ROW in
        let canvasWidth := DOTS_PER_ROW * (DOT_SIZE + DOT_SPACING) + DOT_SPACING in
        let canvasHeight := numRows * (DOT_SIZE + DOT_SPACING) + DOT_SPACING in
        let canvas := Bitmap canvasWidth canvasHeight (fun _ _ => BACKGROUND_COLOR) in
        Ok (RDEncoded (draw_dots binaryEncryptedPayloadWithTerminator 0 canvas)
              binaryEncryptedPayloadWithTerminator encryptedPayload)
    end.

(** The body of the loops of decodeRDMessage: what the dot at (row, col)
    adds to the string. A sum with an undefined element is NaN, which is
    not below 128. *)
Definition read_dot (canvas : bitmap) (row col : nat) : jsstring :=
  let dotCenterX := DOT_SPACING + col * (DOT_SIZE + DOT_SPACING) + DOT_SIZE / 2 in
  let dotCenterY := DOT_SPACING + row * (DOT_SIZE + DOT_SPACING) + DOT_SIZE / 2 in
  if (bm_width canvas <=? dotCenterX) || (bm_height canvas <=? dotCenterY) then []
  else
    let pixelIndex := (dotCenterY * bm_width canvas + dotCenterX) * 4 in
    match data_at canvas pixelIndex, data_at canvas (pixelIndex + 1),
          data_at canvas (pixelIndex + 2) with
    | Some r, Some g, Some b => if (r + g + b <? 3 * 128)%Z then js "1" else js "0"
    | _, _, _ => js "0"
    end.

(** decodeRDMessage *)
Definition decodeRDMessage (file : option bitmap) (password : jsstring) : result jsstring :=
  match file with
  | None => Throw (err "No image file provided for RD decoding.")
  | Some canvas =>
      if (length password =? 0) then Throw (err "Password is required for RD decoding.")
      else
        let numRows :=
          ((Z.of_nat (bm_height canvas) - Z.of_nat DOT_SPACING)
           / Z.of_nat (DOT_SIZE + DOT_SPACING))%Z in
        let numCols :=
          ((Z.of_nat (bm_width canvas) - Z.of_nat DOT_SPACING)
           / Z.of_nat (DOT_SIZE + DOT_SPACING))%Z in
        if ((numRows =? 0) || (numCols =? 0))%Z then
          Throw (err "Uploaded image is too small or not in the expected RD format.")
        else
          let binaryEncryptedPayload :=
            flat_map
              (fun row => flat_map (fun col => read_dot canvas row col)
                            (seq 0 (Z.to_nat numCols)))
              (seq 0 (Z.to_nat numRows)) in
          match indexOf binaryEncryptedPayload MESSAGE_TERMINATOR_BINARY with
          | None =>
              Throw (err "RD Decode (Image): Message terminator not found. The image might not be a valid RD encoded image or data is corrupted.")
          | Some terminatorIndex =>
              let encryptedPayloadPartBinary :=
                substring binaryEncryptedPayload 0 terminatorIndex in
              if length encryptedPayloadPartBinary =? 0 then
                Throw (err "RD Decode (Image): No encrypted content found before terminator.")
              else
                match binaryToText encryptedPayloadPartBinary with
                | Throw e => Throw e
                | Ok encryptedPayloadString =>
                    if (length encryptedPayloadString =? 0)
                       && (0 <? length encryptedPayloadPartBinary) then
                      Throw (err "RD Decode (Image): Failed to convert binary dot data to text for decryption. Data might be corrupted.")
                    else cryptoDecrypt encryptedPayloadString password
                end
          end
  end.

End Services.
End Stego.

(** ** The Morse-grid service: the message as dits and dahs on a grid *)

Module MorseService.
Import JS Encoding Utils Constants Canvas2D Stego.
#[local] Open Scope nat_scope.

Definition UNIT_SIZE : nat := 4.
Definition DAH_UNITS : nat := 3.
Definition ELEM_GAP_UNITS : nat := 1.
Definition CHAR_GAP_UNITS : nat := 3.
Definition UNITS_PER_ROW : nat := 100.
Definition LINE_SPACING : nat := UNIT_SIZE * 2.

(** '#F0F0F0' and '#000000' as fill styles *)
Definition BACKGROUND_COLOR : rgba := (240, 240, 240, 255)%Z.
Definition FOREGROUND_COLOR : rgba := (0, 0, 0, 255)%Z.

(** utils.ts: MORSE_CODE_MAP, its entries in property order *)
Definition MORSE_CODE_MAP_entries : list (jsstring * jsstring) :=
  [ (js "0", js "-----"); (js "1", js ".----"); (js "2", js "..---"); (js "3", js "...--");
    (js "4", js "....-"); (js "5", js "....."); (js "6", js "-...."); (js "7", js "--...");
    (js "8", js "---.."); (js "9", js "----.");
    (js "a", js ".-"); (js "b", js "-..."); (js "c", js "-.-."); (js "d", js "-..");
    (js "e", js "."); (js "f", js "..-.") ].

Definition MORSE_CODE_MAP (key : jsstring) : option jsstring :=
  match List.find (fun entry => list_eqb (fst entry) key) MORSE_CODE_MAP_entries with
  | Some entry => Some (snd entry)
  | None => None
  end.

(** REVERSE_MORSE_CODE_MAP: the reduce assigns acc[value] = key, entry
    after entry. *)
Definition REVERSE_MORSE_CODE_MAP (key : jsstring) : option jsstring :=
  fold_left (fun acc entry => if list_eqb (snd entry) key then Some (fst entry) else acc)
    MORSE_CODE_MAP_entries None.

(** toLowerCase on one character of the hex string *)
Definition lower_unit (c : Z) : Z :=
  if ((65 <=? c) && (c <=? 90))%Z then (c + 32)%Z else c.

(** A string of ASCII characters inside a template string. *)
Definition text (s : jsstring) : string :=
  string_of_list_ascii (map (fun c => ascii_of_nat (Z.to_nat c)) s).

Inductive element := dit | dah | elem_gap | char_gap.

(** for (let j = 0; j < morse.length; j++) *)
Fixpoint symbols (morse : jsstring) : list element :=
  match morse with
  | [] => []
  | c :: rest =>
      (if (c =? 46)%Z then dit else dah)
        :: match rest with
           | [] => []
           | _ :: _ => elem_gap :: symbols rest
           end
  end.

(** for (let i = 0; i < hexString.length; i++) *)
Fixpoint visualElements (hexString : jsstring) : list element :=
  match hexString with
  | [] => []
  | c :: rest =>
      match MORSE_CODE_MAP [lower_unit c] with
      | None => visualElements rest
      | Some [] => visualElements rest
      | Some morse =>
          symbols morse
            ++ match rest with
               | [] => []
               | _ :: _ => [char_gap]
               end
            ++ visualElements rest
      end
  end.

Definition units_of (el : element) : nat :=
  match el with
  | dit => 1
  | dah => DAH_UNITS
  | elem_gap => ELEM_GAP_UNITS
  | char_gap => CHAR_GAP_UNITS
  end.

Definition is_symbol (el : element) : bool :=
  match el with
  | dit | dah => true
  | elem_gap | char_gap => false
  end.

(** The body of the drawing loop: the pen (currentX, currentY) and the canvas. *)
Definition draw_element (canvasWidth : nat) (st : nat * nat * bitmap) (el : element)
  : nat * nat * bitmap :=
  let '(currentX, currentY, img) := st in
  let units := units_of el in
  let '(currentX, currentY) :=
    if canvasWidth <? currentX + units * UNIT_SIZE
    then (0, currentY + UNIT_SIZE + LINE_SPACING)
    else (currentX, currentY) in
  let img :=
    if is_symbol el
    then fillRect img FOREGROUND_COLOR currentX currentY (units * UNIT_SIZE) UNIT_SIZE
    else img in
  (currentX + units * UNIT_SIZE, currentY, img).

Record morse_encoded := MorseEncoded {
  dataUrl : bitmap;
  hexString : jsstring;
  morsePayload : jsstring
}.

(** while (i < length && unitSequence[i] === b) { count++; i++ }: the count
    and what is left of the sequence. *)
Fixpoint count_run (b : bool) (unitSequence : list bool) : nat * list bool :=
  match unitSequence with
  | [] => (0, [])
  | u :: rest =>
      if Bool.eqb u b then let '(n, remaining) := count_run b rest in (S n, remaining)
      else (0, unitSequence)
  end.

(** The parsing loop, on what is left of the unit sequence (true is 'B');
    [None] when the fuel runs out. *)
Fixpoint parse_units (fuel : nat) (unitSequence : list bool) (morseString : jsstring)
  : option (result jsstring) :=
  match fuel with
  | O => None
  | S fuel' =>
      match unitSequence with
      | [] => Some (Ok morseString)
      | false :: rest => parse_units fuel' rest morseString
      | true :: _ =>
          let '(blackCount, remaining) := count_run true unitSequence in
          if blackCount =? DAH_UNITS then
            let morseString := morseString ++ js "-" in
            let '(whiteCount, remaining) := count_run false remaining in
            parse_units fuel' remaining
              (if CHAR_GAP_UNITS <=? whiteCount then morseString ++ js " " else morseString)
          else if blackCount =? 1 then
            let morseString := morseString ++ js "." in
            let '(whiteCount, remaining) := count_run false remaining in
            parse_units fuel' remaining
              (if CHAR_GAP_UNITS <=? whiteCount then morseString ++ js " " else morseString)
          else if 0 <? blackCount then
            Some (Throw (err "Morse Decode: Detected invalid symbol shape."))
          else
            let '(whiteCount, remaining) := count_run false remaining in
            parse_units fuel' remaining
              (if CHAR_GAP_UNITS <=? whiteCount then morseString ++ js " " else morseString)
      end
  end.

(** for (const morseChar of morseChars) *)
Fixpoint morse_to_hex (morseChars : list jsstring) (hexString : jsstring) : result jsstring :=
  match morseChars with
  | [] => Ok hexString
  | morseChar :: rest =>
      match REVERSE_MORSE_CODE_MAP morseChar with
      | Some (c :: hexChar) => morse_to_hex rest (hexString ++ c :: hexChar)
      | _ =>
          if 0 <? length morseChar then
            Throw (err ("Morse Decode: Could not find hex equivalent for Morse sequence "
                        ++ String (ascii_of_nat 34) (text morseChar)
                        ++ String (ascii_of_nat 34) "."))
          else morse_to_hex rest hexString
      end
  end.

Section Services.
Variable cryptoEncrypt : jsstring -> jsstring -> result jsstring.
Variable cryptoDecrypt : jsstring -> jsstring -> result jsstring.
(** arrayBufferToString of utils.ts: the platform's TextDecoder, not fatal. *)
Variable arrayBufferToString : list Z -> jsstring.

(** encodeMorseMessage *)
Definition encodeMorseMessage (message password : jsstring) : result morse_encoded :=
  if length message =? 0 then Throw (err "No message provided.")
  else if length password =? 0 then Throw (err "Password is required for Morse encoding.")
  else if MAX_MESSAGE_LENGTH_CHARS <? length message then
    Throw (err "Message is too long. Maximum 5000 characters allowed.")
  else
    match cryptoEncrypt message password with
    | Throw e => Throw e
    | Ok encryptedPayload =>
        let hexString := arrayBufferToHex (TextEncoder_encode encryptedPayload) in
        let elements := visualElements hexString in
        let totalUnits := fold_left (fun totalUnits el => totalUnits + units_of el) elements 0 in
        let numRows := (totalUnits + (UNITS_PER_ROW - 1)) / UNITS_PER_ROW in
        let canvasWidth := UNITS_PER_ROW * UNIT_SIZE in
        let canvasHeight := numRows * UNIT_SIZE + (numRows - 1) * LINE_SPACING in
        let canvas := Bitmap canvasWidth canvasHeight (fun _ _ => BACKGROUND_COLOR) in
        let '(_, _, canvas) := fold_left (draw_element canvasWidth) elements (0, 0, canvas) in
        Ok (MorseEncoded canvas hexString encryptedPayload)
    end.

(** decryptMorseMessageFromHex *)
Definition decryptMorseMessageFromHex (hexString password : jsstring) : result jsstring :=
  if length hexString =? 0 then Throw (err "No hex string provided for decryption.")
  else if length password =? 0 then Throw (err "Password is required for decryption.")
  else
    try_catch
      (bind (hexToArrayBuffer hexString) (fun encryptedPayloadBuffer =>
         let encryptedPayload := arrayBufferToString encryptedPayloadBuffer in
         cryptoDecrypt encryptedPayload password))
      (fun e => Throw (err ("Decryption from hex string failed. Original error: "
                            ++ message e))).

(** 'B' (true) or 'W' for the unit whose corner is at (x, y):
    intensity = (r + g + b) / 3 < 128 *)
Definition unit_at (canvas : bitmap) (x y : nat) : bool :=
  let '(r, g, b, _) := getImageData canvas (x + UNIT_SIZE / 2) (y + UNIT_SIZE / 2) in
  (r + g + b <? 3 * 128)%Z.

(** for (y = 0; y < height; y += UNIT_SIZE + LINE_SPACING)
      for (x = 0; x < width; x += UNIT_SIZE) *)
Definition unitSequence (canvas : bitmap) : list bool :=
  flat_map
    (fun row =>
       map (fun col => unit_at canvas (col * UNIT_SIZE) (row * (UNIT_SIZE + LINE_SPACING)))
           (seq 0 ((bm_width canvas + (UNIT_SIZE - 1)) / UNIT_SIZE)))
    (seq 0 ((bm_height canvas + (UNIT_SIZE + LINE_SPACING - 1)) / (UNIT_SIZE + LINE_SPACING))).

(** decodeMorseMessage; [None] when the parsing loop is out of fuel
    (it is given more than the sequence is long). *)
Definition decodeMorseMessage (file : option bitmap) (password : jsstring)
  : option (result jsstring) :=
  match file with
  | None => Some (Throw (err "No image file provided for Morse decoding."))
  | Some canvas =>
      if length password =? 0 then
        Some (Throw (err "Password is required for Morse decoding."))
      else
        let units := unitSequence canvas in
        match parse_units (S (length units)) units [] with
        | None => None
        | Some (Throw e) => Some (Throw e)
        | Some (Ok morseString) =>
            let morseChars := split 32 (trim morseString) in
            match morse_to_hex morseChars [] with
            | Throw e => Some (Throw e)
            | Ok hexString =>
                if length hexString =? 0 then
                  Some (Throw (err "Morse Decode: Failed to reconstruct hex string from Morse image. The image may be invalid or corrupted."))
                else Some (decryptMorseMessageFromHex hexString password)
            end
        end
  end.

End Services.
End MorseService.

(** ** services/hashCrackerService.ts *)

Module HashCracker.
Import JS Encoding Utils.
#[local] Open Scope nat_scope.

Definition BATCH_SIZE : nat := 5000.

(** An argument of onProgress. *)
Record progress := Progress { checked : nat; total : nat }.

(** How the returned promise settles. *)
Inductive settled : Type :=
| Resolved (found : option jsstring)
| Rejected (e : error).

Definition AbortError : error := Error "AbortError" "Aborted by user.".

(** wordlist.split(/\r?\n/) *)
Fixpoint split_lines (s : jsstring) : list jsstring :=
  match s with
  | [] => [[]]
  | 13%Z :: 10%Z :: r => [] :: split_lines r
  | 10%Z :: r => [] :: split_lines r
  | c :: r =>
      match split_lines r with
      | h :: t => (c :: h) :: t
      | [] => [[c]]
      end
  end.

Section Search.
(** signal.aborted as the k-th batch finds it. *)
Variable signal : nat -> bool.
Variable targetHash : jsstring.

(** *** crackMD5 *)

(** for (let i = currentIndex; i < batchEnd; i++): [count] iterations from [i];
    the index and the word of the first match. *)
Fixpoint scan_words (words : list jsstring) (i count : nat) : option (nat * jsstring) :=
  match count with
  | O => None
  | S count' =>
      let word := trim (nth i words []) in
      if list_eqb (md5 word) targetHash then Some (i, word)
      else scan_words words (S i) count'
  end.

(** processBatch: the k-th batch, started at [currentIndex]; [reports]
    are the calls of onProgress so far. Each setTimeout takes one unit of
    [fuel]; [None] means the fuel ran out. *)
Fixpoint crack_batches (fuel : nat) (words : list jsstring) (k currentIndex : nat)
  (reports : list progress) : option (settled * list progress) :=
  match fuel with
  | O => None
  | S fuel' =>
      let total := length words in
      if signal k then Some (Rejected AbortError, reports)
      else
        let batchEnd := Nat.min (currentIndex + BATCH_SIZE) total in
        match scan_words words currentIndex (batchEnd - currentIndex) with
        | Some (i, word) =>
            Some (Resolved (Some word), reports ++ [Progress (i + 1) total])
        | None =>
            let reports := reports ++ [Progress batchEnd total] in
            if batchEnd <? total then crack_batches fuel' words (S k) batchEnd reports
            else Some (Resolved None, reports)
        end
  end.

Definition words_of (wordlist : jsstring) : list jsstring :=
  filter (fun w => 0 <? length w) (split_lines wordlist).

Definition crackMD5 (fuel : nat) (wordlist : jsstring) : option (settled * list progress) :=
  crack_batches fuel (words_of wordlist) 0 0 [].

(** *** bruteForceMD5 *)

(** calculateBruteForceCombinations, over the natural numbers (the doubles
    of the source are exact while the total is below 2^53; the interface
    refuses a search of more than 50,000,000 candidates). *)
Definition calculateBruteForceCombinations (charset : jsstring) (maxLength : nat) : nat :=
  if (length charset =? 0) || (maxLength =? 0) then 0
  else fold_left (fun total i => total + length charset ^ i) (seq 1 maxLength) 0.

(** for (const char of charset): the string's code points, a surrogate
    pair being one character. *)
Fixpoint chars_of (charset : jsstring) : list jsstring :=
  match charset with
  | [] => []
  | u :: rest =>
      match rest with
      | v :: rest' =>
          if is_high_surrogate u && is_low_surrogate v then [u; v] :: chars_of rest'
          else [u] :: chars_of rest
      | [] => [[u]]
      end
  end.

(** The generator generate(current, depth), as the sequence of its yields.
    The recursion goes one level deeper than [maxLength]; [fuel] bounds it. *)
Fixpoint generate_from (fuel : nat) (chars : list jsstring) (maxLength : nat)
  (current : jsstring) (depth : nat) : list jsstring :=
  match fuel with
  | O => []
  | S fuel' =>
      if maxLength <? depth then []
      else
        (if 0 <? depth then [current] else [])
          ++ flat_map
               (fun char => generate_from fuel' chars maxLength (current ++ char) (S depth))
               chars
  end.

Definition generate (charset : jsstring) (maxLength : nat) (current : jsstring) (depth : nat)
  : list jsstring :=
  generate_from (maxLength + 2 - depth) (chars_of charset) maxLength current depth.

(** One run of for (let i = 0; i < BATCH_SIZE; i++). *)
Inductive batch_end : Type :=
| Exhausted
| Found (word : jsstring) (checked : nat)
| BatchDone (iterator : list jsstring) (checked : nat).

Fixpoint try_batch (n : nat) (iterator : list jsstring) (checked : nat) : batch_end :=
  match n with
  | O => BatchDone iterator checked
  | S n' =>
      match iterator with
      | [] => Exhausted
      | word :: iterator' =>
          let checked := S checked in
          if list_eqb (md5 word) targetHash then Found word checked
          else try_batch n' iterator' checked
      end
  end.

Fixpoint brute_batches (fuel : nat) (total : nat) (k : nat) (iterator : list jsstring)
  (checked : nat) (reports : list progress) : option (settled * list progress) :=
  match fuel with
  | O => None
  | S fuel' =>
      if signal k then Some (Rejected AbortError, reports)
      else
        match try_batch BATCH_SIZE iterator checked with
        | Exhausted => Some (Resolved None, reports ++ [Progress total total])
        | Found word checked' =>
            Some (Resolved (Some word), reports ++ [Progress checked' total])
        | BatchDone iterator' checked' =>
            brute_batches fuel' total (S k) iterator' checked'
              (reports ++ [Progress checked' total])
        end
  end.

Definition bruteForceMD5 (fuel : nat) (charset : jsstring) (maxLength : nat)
  : option (settled * list progress) :=
  let total := calculateBruteForceCombinations charset maxLength in
  let iterator := generate charset maxLength [] 0 in
  brute_batches fuel total 0 iterator 0 [].

End Search.
End HashCracker.

(** ** utils.ts: the password strength utility *)

Module PasswordStrength.
Import JS.
#[local] Open Scope nat_scope.

(** types.ts: a numeric enum, compared by its value. *)
Inductive PasswordStrengthLevel := TooWeak | Weak | Medium | Strong | VeryStrong.

Definition level_value (l : PasswordStrengthLevel) : nat :=
  match l with
  | TooWeak => 0
  | Weak => 1
  | Medium => 2
  | Strong => 3
  | VeryStrong => 4
  end.

Inductive feedback_type := type_error | type_suggestion | type_good.

Record feedback_item := Feedback { fb_message : string; fb_type : feedback_type }.

Record PasswordStrengthResult := StrengthResult {
  level : PasswordStrengthLevel;
  feedback : list feedback_item
}.

Definition VERY_COMMON_PASSWORDS : list jsstring :=
  [ js "123456"; js "password"; js "123456789"; js "12345678"; js "12345"; js "111111";
    js "1234567"; js "qwerty"; js "123123"; js "987654321"; js "test"; js "admin";
    js "user"; js "p@ssword"; js "secret" ].

(** /[a-z]/.test, /[A-Z]/.test, /[0-9]/.test and /[^a-zA-Z0-9]/.test: the
    patterns have no u flag, so they look at single code units. *)
Definition is_lower (c : Z) : bool := ((97 <=? c) && (c <=? 122))%Z.
Definition is_upper (c : Z) : bool := ((65 <=? c) && (c <=? 90))%Z.
Definition is_digit (c : Z) : bool := ((48 <=? c) && (c <=? 57))%Z.
Definition hasLowercase (password : jsstring) : bool := existsb is_lower password.
Definition hasUppercase (password : jsstring) : bool := existsb is_upper password.
Definition hasNumbers (password : jsstring) : bool := existsb is_digit password.
Definition hasSymbols (password : jsstring) : bool :=
  existsb (fun c => negb (is_lower c || is_upper c || is_digit c)) password.

(** [hasLowercase, hasUppercase, hasNumbers, hasSymbols].filter(Boolean).length *)
Definition varietyCount (password : jsstring) : nat :=
  length (List.filter (fun b : bool => b)
            [hasLowercase password; hasUppercase password; hasNumbers password;
             hasSymbols password]).

Definition is_good (f : feedback_item) : bool :=
  match fb_type f with
  | type_good => true
  | _ => false
  end.

Section Platform.
(** String.prototype.toLowerCase *)
Variable toLowerCase : jsstring -> jsstring.

(** calculatePasswordStrength *)
Definition calculatePasswordStrength (password : jsstring) : PasswordStrengthResult :=
  if length password =? 0 then StrengthResult TooWeak []
  else if existsb (list_eqb (toLowerCase password)) VERY_COMMON_PASSWORDS then
    StrengthResult TooWeak [Feedback "This is a very common and weak password." type_error]
  else
    let '(score, feedback) :=
      if length password <? 8
      then (0, [Feedback "Should be at least 8 characters long." type_error])
      else (1, [Feedback "Good. At least 8 characters long." type_good]) in
    let '(score, feedback) :=
      if 3 <=? varietyCount password
      then (score + 1, feedback ++ [Feedback "Excellent. Mix of character types." type_good])
      else (score,
            feedback ++ [Feedback "Good. Now add other character types." type_suggestion]) in
    let score := if 12 <=? length password then score + 1 else score in
    let score := if 16 <=? length password then score + 1 else score in
    let score := score + varietyCount password in
    let level :=
      if score <? 3 then TooWeak
      else if score <? 5 then Weak
      else if score <? 7 then Medium
      else if score <? 9 then Strong
      else VeryStrong in
    if level_value level <=? level_value Weak
    then StrengthResult level (List.filter (fun f => negb (is_good f)) feedback)
    else StrengthResult level feedback.

End Platform.
End PasswordStrength.

(** ** steganographyService.ts: the raw payload functions

    lsbEncodeRawPayload and lsbDecodeRawPayload embed and extract a
    string as encodeMessage and decodeMessage do, without the cipher. *)

Module RawLSB.
Import JS Encoding Utils Constants Stego.
#[local] Open Scope nat_scope.

(** The embedding loop of lsbEncodeRawPayload, from bit [i] at [dataIndex]. *)
Fixpoint raw_write (bits : jsstring) (i dataIndex total : nat) (data : list Z)
  : result unit * list Z :=
  match bits with
  | [] => (Ok tt, data)
  | c :: rest =>
      let bit := parse_bit c in
      let channelIndex := i mod 3 in
      let data := write_lsb data (dataIndex + channelIndex) bit in
      let dataIndex := if channelIndex =? 2 then dataIndex + 4 else dataIndex in
      if (length data <=? dataIndex) && (i <? total - 1) then
        (Throw (err "Image data exhausted before payload fully LSB-encoded."), data)
      else raw_write rest (S i) dataIndex total data
  end.

Definition capacity_error_raw : error :=
  err "Payload is too long to be hidden in this image using LSB. (Payload might be an encrypted string, which adds overhead).".

(** lsbEncodeRawPayload. The second component is the pixel buffer when
    the function is left. *)
Definition lsbEncodeRawPayload (file : option canvas) (payload : jsstring)
  : result canvas * list Z :=
  match file with
  | None => (Throw (err "No image file provided for LSB raw payload encoding."), [])
  | Some cv =>
      if (length payload =? 0) then
        (Throw (err "No payload provided for LSB raw payload encoding."), pixels cv)
      else
        let binaryMessage := textToBinary payload ++ MESSAGE_TERMINATOR_BINARY in
        let data := pixels cv in
        let maxBitsStorable := length data / 4 * 3 in
        if maxBitsStorable <? length binaryMessage then (Throw capacity_error_raw, data)
        else
          match raw_write binaryMessage 0 0 (length binaryMessage) data with
          | (Throw e, data') => (Throw e, data')
          | (Ok _, data') => (Ok (Canvas (width cv) (height cv) data'), data')
          end
  end.

Definition raw_messages : scheme_messages := {|
  no_content := "LSB Decode Raw: No content found before terminator. Only the message terminator sequence was detected.";
  conversion_failed := "LSB Decode Raw: Failed to convert extracted binary data to text. Data might be corrupted or not valid text after binary conversion.";
  not_enough_data := fun offered needed =>
    ("LSB Decode Raw: Not enough data in the image to contain a complete message. The image offers "
     ++ show offered ++ " LSBs, but the terminator alone requires " ++ show needed ++ " bits.")%string;
  terminator_not_found := fun scanned =>
    ("LSB Decode Raw: No hidden message found. The expected terminator sequence was not detected after scanning all "
     ++ show scanned ++ " available LSBs. The image might not be LSB encoded with a terminator, or data could be corrupted.")%string
|}.

(** return payloadString, where the other decoders call cryptoDecrypt *)
Definition return_payload (payloadString _ : jsstring) : result jsstring := Ok payloadString.

(** for (let i = 0; i < data.length; i += 4): [n] iterations from [i] *)
Fixpoint raw_pixel_loop (data : list Z) (maxBitsToRead : nat)
  (n i : nat) (st : jsstring * nat) : option (result jsstring) :=
  match n with
  | O => None
  | S n' =>
      match channel_loop return_payload raw_messages data maxBitsToRead [] i [0; 1; 2] st with
      | Return r => Some r
      | Continue st' | Break st' =>
          if maxBitsToRead <=? snd st' then None
          else raw_pixel_loop data maxBitsToRead n' (i + 4) st'
      end
  end.

(** lsbDecodeRawPayload *)
Definition lsbDecodeRawPayload (file : option canvas) : result jsstring :=
  match file with
  | None => Throw (err "No image file provided for LSB raw payload decoding.")
  | Some cv =>
      let data := pixels cv in
      let maxBitsToRead := length data / 4 * 3 in
      match raw_pixel_loop data maxBitsToRead ((length data + 3) / 4) 0 ([], 0) with
      | Some r => r
      | None =>
          if maxBitsToRead <? length MESSAGE_TERMINATOR_BINARY then
            Throw (err (not_enough_data raw_messages maxBitsToRead
                          (length MESSAGE_TERMINATOR_BINARY)))
          else Throw (err (terminator_not_found raw_messages maxBitsToRead))
      end
  end.

End RawLSB.

(** ** utils.ts: SHA-224 *)

Module SHA224.
Import JS Encoding.
#[local] Open Scope Z_scope.

(** The table, row by row as the source has it. *)
Definition sha224_K : list Z :=
  [0x428a2f98; 0x71374491; 0xb5c0fbcf; 0xe9b5dba5; 0x3956c25b; 0x59f111f1; 0x923f82a4; 0xab1c5ed5]
  ++ [0xd807aa98; 0x12835b01; 0x243185be; 0x550c7dc3; 0x72be5d74; 0x80deb1fe; 0x9bdc06a7; 0xc19bf174]
  ++ [0xe49b69c1; 0xefbe4786; 0x0fc19dc6; 0x240ca1cc; 0x2de92c6f; 0x4a7484aa; 0x5cb0a9dc; 0x76f988da]
  ++ [0x983e5152; 0xa831c66d; 0xb00327c8; 0xbf597fc7; 0xc6e00bf3; 0xd5a79147; 0x06ca6351; 0x14292967]
  ++ [0x27b70a85; 0x2e1b2138; 0x4d2c6dfc; 0x53380d13; 0x650a7354; 0x766a0abb; 0x81c2c92e; 0x92722c85]
  ++ [0xa2bfe8a1; 0xa81a664b; 0xc24b8b70; 0xc76c51a3; 0xd192e819; 0xd6990624; 0xf40e3585; 0x106aa070]
  ++ [0x19a4c116; 0x1e376c08; 0x2748774c; 0x34b0bcb5; 0x391c0cb3; 0x4ed8aa4a; 0x5b9cca4f; 0x682e6ff3]
  ++ [0x748f82ee; 0x78a5636f; 0x84c87814; 0x8cc70208; 0x90befffa; 0xa4506ceb; 0xbef9a3f7; 0xc67178f2].

(** W[i] for 16 <= i < 64, appended to the words before it. The sums of
    the source are sums of a few 32-bit integers, which a double holds
    exactly. *)
Definition schedule (W : list Z) (i : nat) : list Z :=
  let w15 := nth (i - 15) W 0 in
  let w2 := nth (i - 2) W 0 in
  let s0 := xor (xor (or (ushr w15 7) (shl w15 25)) (or (ushr w15 18) (shl w15 14)))
                (ushr w15 3) in
  let s1 := xor (xor (or (ushr w2 17) (shl w2 15)) (or (ushr w2 19) (shl w2 13)))
                (ushr w2 10) in
  W ++ [or (nth (i - 16) W 0 + s0 + nth (i - 7) W 0 + s1) 0].

Definition registers : Type := (Z * Z * Z * Z * Z * Z * Z * Z)%type.

(** The body of for (let i = 0; i < 64; i++) *)
Definition round (W : list Z) (st : registers) (i : nat) : registers :=
  let '(a, b, c, d, e, f, g, h) := st in
  let S1 := xor (xor (or (ushr e 6) (shl e 26)) (or (ushr e 11) (shl e 21)))
                (or (ushr e 25) (shl e 7)) in
  let ch := xor (and e f) (and (not e) g) in
  let temp1 := or (h + S1 + ch + nth i sha224_K 0 + nth i W 0) 0 in
  let S0 := xor (xor (or (ushr a 2) (shl a 30)) (or (ushr a 13) (shl a 19)))
                (or (ushr a 22) (shl a 10)) in
  let maj := xor (xor (and a b) (and a c)) (and b c) in
  let temp2 := or (S0 + maj) 0 in
  (or (temp1 + temp2) 0, a, b, c, or (d + temp1) 0, e, f, g).

(** sha224_process: the value of H after the call. *)
Definition sha224_process (chunk : list Z) (H : list Z) : list Z :=
  let W := fold_left schedule (seq 16 48) (map (fun i => nth i chunk 0) (seq 0 16)) in
  let '(a, b, c, d, e, f, g, h) :=
    fold_left (round W) (seq 0 64)
      (nth 0 H 0, nth 1 H 0, nth 2 H 0, nth 3 H 0, nth 4 H 0, nth 5 H 0, nth 6 H 0, nth 7 H 0) in
  [or (nth 0 H 0 + a) 0; or (nth 1 H 0 + b) 0; or (nth 2 H 0 + c) 0; or (nth 3 H 0 + d) 0;
   or (nth 4 H 0 + e) 0; or (nth 5 H 0 + f) 0; or (nth 6 H 0 + g) 0; or (nth 7 H 0 + h) 0].

(** chunks[c][w] |= v. Every use has c below the number of chunks and w
    below 16. *)
Definition or_into (chunks : list (list Z)) (c w v : Z) : list (list Z) :=
  let chunk := nth (Z.to_nat c) chunks [] in
  <[Z.to_nat c := <[Z.to_nat w := or (nth (Z.to_nat w) chunk 0) v]> chunk]> chunks.

(** chunks[c][w] = v *)
Definition store_into (chunks : list (list Z)) (c : nat) (w : nat) (v : Z) : list (list Z) :=
  <[c := <[w := v]> (nth c chunks [])]> chunks.

(** n.toString(radix) for an integer of either sign: a negative number
    is printed as a minus sign and the digits of its magnitude. *)
Definition number_toString (n radix : Z) : jsstring :=
  if n <? 0 then 45 :: toString (- n) radix else toString n radix.

(** s.slice(-k) *)
Definition slice_last (s : jsstring) (k : nat) : jsstring := skipn (length s - k) s.

(** n => (`00000000${n.toString(16)}`).slice(-8) *)
Definition hex_word (n : Z) : jsstring :=
  slice_last (js "00000000" ++ number_toString n 16) 8.

(** sha224, up to the array H that is printed. *)
Definition sha224_words (str : jsstring) : list Z :=
  let H := [0xc1059ed8; 0x367cd507; 0x3070dd17; 0xf70e5939;
            0xffc00b31; 0x68581511; 0x64f98fa7; 0xbefa4fa4] in
  let bytes := TextEncoder_encode str in
  let len := Z.of_nat (length bytes) in
  let numChunks := ((length bytes + 9 + 63) / 64)%nat in
  let chunks := repeat (repeat 0 16) numChunks in
  let step (acc : list (list Z) * Z) (byte : Z) :=
    let '(chunks, i) := acc in
    (or_into chunks (shr i 6) (and (shr i 2) 15) (shl byte (8 * (3 - i mod 4))), i + 1) in
  let chunks := fst (fold_left step bytes (chunks, 0)) in
  let chunks := or_into chunks (shr len 6) (and (shr len 2) 15) (shl 128 (8 * (3 - len mod 4))) in
  let '(H, chunks) :=
    if 56 <=? len mod 64 then
      (sha224_process (nth (numChunks - 1) chunks []) H,
       <[(numChunks - 1)%nat := repeat 0 16]> chunks)
    else (H, chunks) in
  let bitLength := len * 8 in
  let chunks := store_into chunks (numChunks - 1) 14 (bitLength / 4294967296) in
  let chunks := store_into chunks (numChunks - 1) 15 (and bitLength 4294967295) in
  fold_left (fun H chunk => sha224_process chunk H) chunks H.

Definition sha224 (str : jsstring) : jsstring :=
  flat_map hex_word (firstn 7 (sha224_words str)).

End SHA224.

(** ** utils.ts: MD2 *)

Module MD2.
Import JS Encoding Utils.
#[local] Open Scope Z_scope.

(** The table S of core_md2, row by row as the source has it (the name S
    is the successor of nat). *)
Definition S_table : list Z :=
  [41; 46; 67; 201; 162; 216; 124; 1; 61; 54; 84; 161; 223; 253; 119; 159]
  ++ [105; 190; 21; 12; 137; 102; 218; 222; 57; 13; 171; 70; 29; 93; 11; 40]
  ++ [172; 80; 19; 153; 22; 111; 8; 142; 138; 7; 118; 182; 233; 147; 34; 23]
  ++ [24; 122; 38; 199; 183; 177; 136; 35; 18; 56; 232; 140; 215; 246; 193]
  ++ [150; 48; 71; 17; 209; 10; 16; 149; 176; 101; 103; 231; 15; 239; 78; 20]
  ++ [210; 131; 235; 213; 238; 130; 28; 123; 181; 47; 204; 211; 189; 234; 106]
  ++ [169; 58; 197; 194; 81; 143; 85; 158; 224; 174; 163; 128; 125; 244; 14]
  ++ [214; 245; 116; 200; 225; 95; 195; 203; 76; 104; 94; 9; 86; 252; 89; 191]
  ++ [155; 115; 68; 146; 178; 242; 160; 151; 185; 114; 170; 63; 207; 4; 141]
  ++ [205; 168; 100; 126; 30; 255; 148; 228; 97; 49; 134; 117; 127; 113; 175]
  ++ [27; 2; 73; 59; 110; 82; 62; 237; 251; 108; 26; 109; 64; 188; 55; 184]
  ++ [92; 221; 167; 212; 187; 230; 202; 33; 77; 65; 250; 132; 87; 226; 152]
  ++ [165; 45; 25; 196; 135; 157; 53; 133; 90; 186; 75; 1; 240; 5; 241; 179]
  ++ [166; 129; 243; 247; 43; 217; 120; 208; 6; 156; 39; 69; 3; 31; 219; 36]
  ++ [107; 112; 144; 249; 229; 66; 227; 88; 164; 60; 145; 206; 72; 180; 50]
  ++ [42; 254; 91; 192; 248; 74; 139; 98; 96; 198; 32; 121; 154; 220; 44; 52].

(** X[j] = X[j] ^ S[t]; t = X[j]. An index past the end of the table
    reads undefined, which counts as 0 under ^. *)
Definition mix_own (st : list Z * Z) (j : nat) : list Z * Z :=
  let '(X, t) := st in
  let v := xor (nth j X 0) (array_get S_table t) in
  (<[j := v]> X, v).

(** X[j] = x[j] ^ S[t]; t = X[j] *)
Definition mix_from (x : list Z) (st : list Z * Z) (j : nat) : list Z * Z :=
  let '(X, t) := st in
  let v := xor (nth j x 0) (array_get S_table t) in
  (<[j := v]> X, v).

(** for (j = 0; j < 48; j++) { ... } t = (t + i) % 256 *)
Definition pass (step : list Z * Z -> nat -> list Z * Z) (st : list Z * Z) (i : nat)
  : list Z * Z :=
  let '(X, t) := fold_left step (seq 0 48) st in
  (X, Z.rem (t + Z.of_nat i) 256).

Definition core_md2 (x : list Z) (len : Z) : list Z :=
  let X := repeat 0 48 in
  let X :=
    fold_left (fun X i => <[(i + 32)%nat := nth i x 0]>
                            (<[(i + 16)%nat := nth i x 0]> (<[i := nth i x 0]> X)))
      (seq 0 16) X in
  let '(X, _) := fold_left (pass mix_own) (seq 0 18) (X, 0) in
  let C := map (fun i => nth (i + 32) X 0) (seq 0 16) in
  let x :=
    fold_left (fun x i => array_set x (Z.of_nat i) (xor (nth i x 0) (nth i C 0))) (seq 0 16) x in
  let checksum := skipn (Z.to_nat (16 - Z.rem len 16)) x in
  let C := map (fun i => nth i checksum 0) (seq 0 16) in
  let x :=
    fold_left (fun x i => array_set (array_set x (Z.of_nat i + 16) (nth i C 0))
                            (Z.of_nat i + 32) (nth i C 0))
      (seq 0 16) x in
  let '(X, _) := fold_left (pass (mix_from x)) (seq 0 18) (X, 0) in
  firstn 16 X.

Definition md2 (s : jsstring) : jsstring :=
  let utf8Bytes := TextEncoder_encode s in
  let len := length utf8Bytes in
  let n := ((len + 15) / 16)%nat in
  let M := repeat 0 (n * 16) in
  let M := fold_left (fun M i => <[i := nth i utf8Bytes 0]> M) (seq 0 len) M in
  let p := (length M - len)%nat in
  let M := fold_left (fun M i => <[(len + i)%nat := Z.of_nat p]> M) (seq 0 p) M in
  let C := repeat 0 16 in
  let C :=
    fold_left
      (fun C i =>
         let B := firstn 16 (skipn (i * 16) M) in
         let X := core_md2 (C ++ B) 16 in
         map (fun j => nth j X 0) (seq 0 16))
      (seq 0 n) C in
  binl2hex C.

End MD2.

(** ** utils.ts: arrayBufferToString *)

Module TextDecoding.
Import JS Encoding.
#[local] Open Scope Z_scope.

(** The UTF-8 decoder in replacement mode, the default of TextDecoder:
    each maximal ill-formed part gives one U+FFFD, and decoding goes on
    at the byte that did not fit. *)
Fixpoint utf8_decode_replace (bs : list Z) : jsstring :=
  match bs with
  | [] => []
  | b0 :: r0 =>
      if in_range 0 127 b0 then b0 :: utf8_decode_replace r0
      else if in_range 194 223 b0 then
        match r0 with
        | b1 :: r1 =>
            if in_range 128 191 b1 then
              ((b0 - 192) * 64 + (b1 - 128)) :: utf8_decode_replace r1
            else 65533 :: utf8_decode_replace r0
        | [] => [65533]
        end
      else if in_range 224 239 b0 then
        let lo := if b0 =? 224 then 160 else 128 in
        let hi := if b0 =? 237 then 159 else 191 in
        match r0 with
        | b1 :: r1 =>
            if in_range lo hi b1 then
              match r1 with
              | b2 :: r2 =>
                  if in_range 128 191 b2 then
                    ((b0 - 224) * 4096 + (b1 - 128) * 64 + (b2 - 128))
                      :: utf8_decode_replace r2
                  else 65533 :: utf8_decode_replace r1
              | [] => [65533]
              end
            else 65533 :: utf8_decode_replace r0
        | [] => [65533]
        end
      else if in_range 240 244 b0 then
        let lo := if b0 =? 240 then 144 else 128 in
        let hi := if b0 =? 244 then 143 else 191 in
        match r0 with
        | b1 :: r1 =>
            if in_range lo hi b1 then
              match r1 with
              | b2 :: r2 =>
                  if in_range 128 191 b2 then
                    match r2 with
                    | b3 :: r3 =>
                        if in_range 128 191 b3 then
                          code_units_of
                            ((b0 - 240) * 262144 + (b1 - 128) * 4096
                             + (b2 - 128) * 64 + (b3 - 128))
                            ++ utf8_decode_replace r3
                        else 65533 :: utf8_decode_replace r2
                    | [] => [65533]
                    end
                  else 65533 :: utf8_decode_replace r1
              | [] => [65533]
              end
            else 65533 :: utf8_decode_replace r0
        | [] => [65533]
        end
      else 65533 :: utf8_decode_replace r0
  end.

(** arrayBufferToString: new TextDecoder().decode(buffer); a leading
    U+FEFF is dropped from the output. *)
Definition arrayBufferToString (buffer : list Z) : jsstring :=
  match utf8_decode_replace buffer with
  | 65279 :: t => t
  | s => s
  end.

End TextDecoding.

(** ** UtilityMode.tsx: the Base64 tool *)

Module UtilityMode.
Import JS Encoding Utils TextDecoding.

(** The state that the two handlers set: the output field and the error
    shown. *)
Record base64_state := Base64State { base64Output : jsstring; error_shown : option string }.

(** stringToArrayBuffer of utils.ts *)
Definition stringToArrayBuffer (str : jsstring) : list Z := TextEncoder_encode str.

Definition handleBase64Encode (base64Input : jsstring) : base64_state :=
  if (length base64Input =? 0)%nat then Base64State [] None
  else
    match arrayBufferToBase64 (stringToArrayBuffer base64Input) with
    | Ok encoded => Base64State encoded None
    | Throw _ => Base64State [] (Some "Failed to encode: An unexpected error occurred."%string)
    end.

Definition handleBase64Decode (base64Input : jsstring) : base64_state :=
  if (length base64Input =? 0)%nat then Base64State [] None
  else
    match base64ToArrayBuffer base64Input with
    | Ok buffer => Base64State (arrayBufferToString buffer) None
    | Throw _ =>
        Base64State [] (Some "Failed to decode: Input is not a valid Base64 string."%string)
    end.

End UtilityMode.

(** ** UniversalDecoderMode.tsx: the analysis of a text payload *)

Module UniversalDecoder.
Import JS Encoding Utils TextDecoding.
#[local] Open Scope Z_scope.

(** An entry of report.decodingLog. *)
Inductive log_result : Type := Success | Failed | Skipped.
Record log_entry := Log { method : string; outcome : log_result; details : string }.

(** The fields of the AnalysisReport that the text analysis writes. *)
Record AnalysisReport := Report {
  decodingLog : list log_entry;
  finalResult : option jsstring;
  detectedMethod : option string
}.

Definition push (report : AnalysisReport) (entry : log_entry) : AnalysisReport :=
  Report (decodingLog report ++ [entry]) (finalResult report) (detectedMethod report).

Definition formats : list (string * (jsstring -> result jsstring)) :=
  [("Base64"%string,
    fun t => bind (base64ToArrayBuffer t) (fun buffer => Ok (arrayBufferToString buffer)));
   ("Hex"%string,
    fun t => bind (hexToArrayBuffer t) (fun buffer => Ok (arrayBufferToString buffer)));
   ("Binary"%string, binaryToText)].

(** for (const format of formats): the first format whose decoding is
    not blank is reported; an exception, or a blank result, is logged as
    a failure of the format. *)
Fixpoint try_formats (fs : list (string * (jsstring -> result jsstring)))
  (report : AnalysisReport) (text : jsstring) : AnalysisReport :=
  match fs with
  | [] => report
  | (name, decodeFn) :: fs' =>
      let failed :=
        push report (Log name Failed ("Not valid " ++ name ++ ".")%string) in
      match decodeFn text with
      | Ok decoded =>
          if (0 <? length decoded)%nat && negb (length (trim decoded) =? 0)%nat then
            let report := push report (Log name Success "Text decoded successfully.") in
            Report (decodingLog report) (Some decoded) (Some name)
          else try_formats fs' failed text
      | Throw _ => try_formats fs' failed text
      end
  end.

Section Analysis.
(** CryptoService.decryptMessage, with the platform supplied. *)
Variable decryptMessage : jsstring -> jsstring -> result jsstring.
(** The state variable password of the component. *)
Variable password : jsstring.

(** runTextAnalysis *)
Definition runTextAnalysis (report : AnalysisReport) (text : jsstring) : AnalysisReport :=
  if (0 <? length password)%nat then
    match decryptMessage text password with
    | Ok message =>
        let report :=
          push report (Log "AES-GCM Decryption" Success "Payload decrypted successfully.") in
        Report (decodingLog report) (Some message) (Some "AES-GCM Encrypted Payload"%string)
    | Throw e =>
        try_formats formats (push report (Log "AES-GCM Decryption" Failed (message e))) text
    end
  else
    try_formats formats
      (push report (Log "AES-GCM Decryption" Skipped "No password provided.")) text.

End Analysis.

End UniversalDecoder.

(** ** utils.ts: MD4 *)

Module MD4.
Import JS Encoding Utils.
#[local] Open Scope Z_scope.

Definition md4_safe_add (x y : Z) : Z :=
  let lsw := and x 0xffff + and y 0xffff in
  let msw := shr x 16 + shr y 16 + shr lsw 16 in
  or (shl msw 16) (and lsw 0xffff).
Definition md4_rol (num cnt : Z) : Z := or (shl num cnt) (ushr num (32 - cnt)).
(** The parameter s of the three round functions is not used by them. *)
Definition md4_ff (a b c d x s : Z) : Z :=
  md4_safe_add a (md4_safe_add (or (and b c) (and (not b) d)) x).
Definition md4_gg (a b c d x s : Z) : Z :=
  md4_safe_add a
    (md4_safe_add (md4_safe_add (or (or (and b c) (and b d)) (and c d)) x) 0x5a827999).
Definition md4_hh (a b c d x s : Z) : Z :=
  md4_safe_add a (md4_safe_add (md4_safe_add (xor (xor b c) d) x) 0x6ed9eba1).

(** The body of the loop of core_md4 for the block at index [i]. *)
Definition md4_block (x : list Z) (i : Z) (st : Z * Z * Z * Z) : Z * Z * Z * Z :=
  let '(a, b, c, d) := st in
  let X k := array_get x (i + k) in
  let olda := a in let oldb := b in let oldc := c in let oldd := d in
  let a := md4_rol (md4_ff a b c d (X 0) 3) 3 in
  let d := md4_rol (md4_ff d a b c (X 1) 7) 7 in
  let c := md4_rol (md4_ff c d a b (X 2) 11) 11 in
  let b := md4_rol (md4_ff b c d a (X 3) 19) 19 in
  let a := md4_rol (md4_ff a b c d (X 4) 3) 3 in
  let d := md4_rol (md4_ff d a b c (X 5) 7) 7 in
  let c := md4_rol (md4_ff c d a b (X 6) 11) 11 in
  let b := md4_rol (md4_ff b c d a (X 7) 19) 19 in
  let a := md4_rol (md4_ff a b c d (X 8) 3) 3 in
  let d := md4_rol (md4_ff d a b c (X 9) 7) 7 in
  let c := md4_rol (md4_ff c d a b (X 10) 11) 11 in
  let b := md4_rol (md4_ff b c d a (X 11) 19) 19 in
  let a := md4_rol (md4_ff a b c d (X 12) 3) 3 in
  let d := md4_rol (md4_ff d a b c (X 13) 7) 7 in
  let c := md4_rol (md4_ff c d a b (X 14) 11) 11 in
  let b := md4_rol (md4_ff b c d a (X 15) 19) 19 in
  let a := md4_rol (md4_gg a b c d (X 0) 3) 3 in
  let d := md4_rol (md4_gg d a b c (X 4) 5) 5 in
  let c := md4_rol (md4_gg c d a b (X 8) 9) 9 in
  let b := md4_rol (md4_gg b c d a (X 12) 13) 13 in
  let a := md4_rol (md4_gg a b c d (X 1) 3) 3 in
  let d := md4_rol (md4_gg d a b c (X 5) 5) 5 in
  let c := md4_rol (md4_gg c d a b (X 9) 9) 9 in
  let b := md4_rol (md4_gg b c d a (X 13) 13) 13 in
  let a := md4_rol (md4_gg a b c d (X 2) 3) 3 in
  let d := md4_rol (md4_gg d a b c (X 6) 5) 5 in
  let c := md4_rol (md4_gg c d a b (X 10) 9) 9 in
  let b := md4_rol (md4_gg b c d a (X 14) 13) 13 in
  let a := md4_rol (md4_gg a b c d (X 3) 3) 3 in
  let d := md4_rol (md4_gg d a b c (X 7) 5) 5 in
  let c := md4_rol (md4_gg c d a b (X 11) 9) 9 in
  let b := md4_rol (md4_gg b c d a (X 15) 13) 13 in
  let a := md4_rol (md4_hh a b c d (X 0) 3) 3 in
  let d := md4_rol (md4_hh d a b c (X 8) 9) 9 in
  let c := md4_rol (md4_hh c d a b (X 4) 11) 11 in
  let b := md4_rol (md4_hh b c d a (X 12) 15) 15 in
  let a := md4_rol (md4_hh a b c d (X 2) 3) 3 in
  let d := md4_rol (md4_hh d a b c (X 10) 9) 9 in
  let c := md4_rol (md4_hh c d a b (X 6) 11) 11 in
  let b := md4_rol (md4_hh b c d a (X 14) 15) 15 in
  let a := md4_rol (md4_hh a b c d (X 1) 3) 3 in
  let d := md4_rol (md4_hh d a b c (X 9) 9) 9 in
  let c := md4_rol (md4_hh c d a b (X 5) 11) 11 in
  let b := md4_rol (md4_hh b c d a (X 13) 15) 15 in
  let a := md4_rol (md4_hh a b c d (X 3) 3) 3 in
  let d := md4_rol (md4_hh d a b c (X 11) 9) 9 in
  let c := md4_rol (md4_hh c d a b (X 7) 11) 11 in
  let b := md4_rol (md4_hh b c d a (X 15) 15) 15 in
  (md4_safe_add a olda, md4_safe_add b oldb, md4_safe_add c oldc, md4_safe_add d oldd).

Fixpoint md4_loop (n : nat) (x : list Z) (i : Z) (st : Z * Z * Z * Z) : Z * Z * Z * Z :=
  match n with
  | O => st
  | S n' => md4_loop n' x (i + 16) (md4_block x i st)
  end.

Definition core_md4 (x : list Z) (len : Z) : list Z :=
  let x := array_set x (shr len 5) (or (array_get x (shr len 5)) (shl 128 (len mod 32))) in
  let x := array_set x (shl (ushr (len + 64) 9) 4 + 14) len in
  let '(a, b, c, d) :=
    md4_loop ((length x + 15) / 16) x 0 (1732584193, -271733879, -1732584194, 271733878) in
  [a; b; c; d].

Definition md4 (s : jsstring) : jsstring :=
  let '(bin, byteLength) := str2binl s in
  binl2hex (core_md4 bin (byteLength * 8)).

End MD4.

(** * Properties *)

(** ** The vocabulary of the statements, and two tactics *)

Module Vocabulary.
Import JS Encoding Utils Stego HashCracker.
#[local] Open Scope Z_scope.

(** A byte: an element of a Uint8Array. *)
Definition byte (b : Z) : Prop := 0 <= b < 256.

(** The two hexadecimal digits, and the eight binary digits, written for a byte. *)
Definition hex_of_byte (b : Z) : jsstring := padStart (toString b 16) 2 48.
Definition bits_of_byte (b : Z) : jsstring := padStart (toString b 2) 8 48.

(** String.prototype.isWellFormed: no surrogate stands alone (and every
    element is a code unit). *)
Fixpoint isWellFormed (s : jsstring) : bool :=
  match s with
  | [] => true
  | u :: rest =>
      if is_high_surrogate u then
        match rest with
        | v :: rest' => is_low_surrogate v && isWellFormed rest'
        | [] => false
        end
      else negb (is_low_surrogate u) && in_range 0 65535 u && isWellFormed rest
  end.

(** A scalar value: a code point that is not a surrogate. *)
Definition scalar (cp : Z) : Prop :=
  0 <= cp < 1114112 /\ ~ (55296 <= cp <= 57343).

Definition sextet (v : Z) : Prop := 0 <= v < 64.

(** A character of a base64 string: of the alphabet, or the padding. *)
Definition base64_char (c : Z) : Prop := b64_value c <> None \/ c = pad_char.

(** The six-bit groups btoa writes, and its padding. *)
Fixpoint sextets_of (bs : list Z) : list Z :=
  match bs with
  | [] => []
  | [a] => [a / 4; (a mod 4) * 16]
  | [a; b] => [a / 4; (a mod 4) * 16 + b / 16; (b mod 16) * 4]
  | a :: b :: c :: rest =>
      a / 4 :: (a mod 4) * 16 + b / 16 :: (b mod 16) * 4 + c / 64 :: c mod 64
        :: sextets_of rest
  end.

Fixpoint padding_of (bs : list Z) : jsstring :=
  match bs with
  | [] => []
  | [a] => [pad_char; pad_char]
  | [a; b] => [pad_char]
  | a :: b :: c :: rest => padding_of rest
  end.

(** Depth-first pre-order over the characters [chars], down to [k] more
    characters: every candidate is followed at once by all its
    extensions, before the next candidate of its own length. *)
Fixpoint preorder (chars : list jsstring) (k : nat) (current : jsstring) : list jsstring :=
  match k with
  | O => []
  | S k' =>
      flat_map (fun char => (current ++ char) :: preorder chars k' (current ++ char)) chars
  end.

(** The buffer index of the channel that carries bit [i] of the LSB
    scheme: three channels of each pixel, the alpha channel skipped. *)
Definition channel_position (i : nat) : nat := (4 * (i / 3) + i mod 3)%nat.

(** A character of a bit string. *)
Definition bit_char (c : Z) : Prop := c = 48 \/ c = 49.

(** What the decoders read at [k] of the buffer. *)
Definition lsb_read (data : list Z) (k : nat) : jsstring :=
  toString (and (typed_get data k) 1) 10.

(** The buffer carries the bit string [B]: its n-th bit is read at [pos n]. *)
Definition reads_back (data : list Z) (pos : nat -> nat) (B : jsstring) : Prop :=
  forall n, (n < length B)%nat -> lsb_read data (pos n) = [nth n B 48].

(** The least significant bits that a decoder reads from the buffer: the
    first [n] of them, in the order of [pos]. *)
Definition carried_bits (data : list Z) (pos : nat -> nat) (n : nat) : jsstring :=
  flat_map (fun k => lsb_read data (pos k)) (seq 0 n).

(** Where the n-th bit lies, for a pixel order: channel n mod 3 of the
    pixel at place n / 3 of the order. *)
Definition pattern_position (order : list nat) (n : nat) : nat :=
  (nth (n / 3) order 0 * 4 + n mod 3)%nat.

(** The progress reports of the batches [from + 1 .. from + d], each of
    them complete. *)
Definition full_batches (total from d : nat) : list progress :=
  map (fun b => Progress (b * BATCH_SIZE) total) (seq (S from) d).


(** A toy platform, to run the statements about the cipher: the key is
    the salt, the ciphertext is the message followed by a 16-byte tag,
    which the decryption checks and removes. *)
Definition toy_random (k : nat) : Z := Z.of_nat (37 * k + 11).
Definition toy_derive (_ salt : list Z) : result (list Z) := Ok salt.
Definition toy_encrypt (_ _ m : list Z) : result (list Z) := Ok (m ++ repeat 8 16).
Definition toy_decrypt (_ _ c : list Z) : result (list Z) :=
  if list_eqb (drop (length c - 16) c) (repeat 8 16) then Ok (take (length c - 16) c)
  else Throw (Error "OperationError" "").

(** The centre of dot [k] of the Random-Dot grid, 48 dots to the row. *)
Definition dot_centre_x (k : nat) : nat :=
  (DOT_SPACING + k mod DOTS_PER_ROW * (DOT_SIZE + DOT_SPACING) + DOT_SIZE / 2)%nat.
Definition dot_centre_y (k : nat) : nat :=
  (DOT_SPACING + k / DOTS_PER_ROW * (DOT_SIZE + DOT_SPACING) + DOT_SIZE / 2)%nat.

(** What the decoders hand to cryptoDecrypt of an envelope they read
    back: the envelope when its last character has an odd code, and the
    envelope without its last character when that code is even. *)
Definition delivered (payload : jsstring) : jsstring :=
  if Z.odd (List.last payload 1) then payload else removelast payload.

(** The grid of the Morse encoder as its units, row after row from the
    pen at unit [x] of a row: a symbol is black, a gap is white, and an
    element that does not fit the row leaves the rest of it white. *)
Fixpoint layout (elements : list MorseService.element) (x : nat) : list bool :=
  match elements with
  | [] => []
  | el :: rest =>
      let u := MorseService.units_of el in
      if (100 <? x + u)%nat
      then repeat false (100 - x) ++ repeat (MorseService.is_symbol el) u ++ layout rest u
      else repeat (MorseService.is_symbol el) u ++ layout rest (x + u)
  end.

(** The first [n] cells of a layout, white past its end. *)
Fixpoint cells (n : nat) (l : list bool) : list bool :=
  match n with
  | O => []
  | S m =>
      match l with
      | [] => false :: cells m []
      | a :: l' => a :: cells m l'
      end
  end.

(** The rows of the canvas that encodeMorseMessage makes for a list of
    elements, and the canvas it draws. *)
Definition morse_rows (elements : list MorseService.element) : nat :=
  ((fold_left (fun totalUnits el => totalUnits + MorseService.units_of el) elements 0
    + (MorseService.UNITS_PER_ROW - 1)) / MorseService.UNITS_PER_ROW)%nat.

Definition morse_canvas (elements : list MorseService.element) : Canvas2D.bitmap :=
  let numRows := morse_rows elements in
  let canvasWidth := (MorseService.UNITS_PER_ROW * MorseService.UNIT_SIZE)%nat in
  let canvasHeight :=
    (numRows * MorseService.UNIT_SIZE + (numRows - 1) * MorseService.LINE_SPACING)%nat in
  let canvas :=
    Canvas2D.Bitmap canvasWidth canvasHeight (fun _ _ => MorseService.BACKGROUND_COLOR) in
  let '(_, _, canvas) :=
    fold_left (MorseService.draw_element canvasWidth) elements (0%nat, 0%nat, canvas) in
  canvas.

(** A double quote inside a message. *)
Definition quote : string := String (ascii_of_nat 34) EmptyString.

(** cryptoEncrypt and cryptoDecrypt over the toy platform. *)
Definition toy_cryptoEncrypt (message password : jsstring) : result jsstring :=
  fst (CryptoService.encryptMessage (list Z) toy_derive toy_encrypt toy_random
         message password).
Definition toy_cryptoDecrypt (encryptedPayload password : jsstring) : result jsstring :=
  fst (CryptoService.decryptMessage (list Z) toy_derive toy_decrypt (fun b => b)
         encryptedPayload password).

(** The i-th word, trimmed, has the target digest. *)
Definition matches (targetHash : jsstring) (words : list jsstring) (i : nat) : Prop :=
  md5 (trim (nth i words [])) = targetHash.

(** The characters that toString writes in radix 16, and the number a
    string of them is read as. *)
Definition hex_digit (c : Z) : Prop := 48 <= c <= 57 \/ 97 <= c <= 102.
Definition hex_digit_value (c : Z) : Z := if c <? 58 then c - 48 else c - 87.
Definition hex_value (x : Z) (s : jsstring) : Z :=
  fold_left (fun a c => 16 * a + hex_digit_value c) s x.

(** The 56 bytes "abcdbcdecdefdefgefghfghighijhijkijkljklmklmnlmnomnopnopq"
    of the second example of FIPS 180. *)
Definition two_block_message : jsstring :=
  js "abcdbcdecdefdefgefghfghighijhijkijkljklmklmnlmnomnopnopq".

(** What the Base64 reading of a string of binary digits decodes to: for
    each four digits, the replacement character and two ASCII characters. *)
Fixpoint garbled (text : jsstring) : jsstring :=
  match text with
  | _ :: c2 :: c3 :: c4 :: rest =>
      65533 :: (16 * (c2 - 48) + 77) :: (64 * (c3 - 48) + c4 + 4) :: garbled rest
  | _ => []
  end.

Ltac range_cases :=
  unfold is_high_surrogate, is_low_surrogate, in_range in *;
  repeat match goal with
    | H : _ && _ = true |- _ => apply andb_true_iff in H as [? ?]
    | H : _ && _ = false |- _ => apply andb_false_iff in H as [?|?]
    | H : negb _ = true |- _ => apply negb_true_iff in H
    | H : (_ <=? _) = true |- _ => apply Z.leb_le in H
    | H : (_ <=? _) = false |- _ => apply Z.leb_gt in H
    | H : (_ <? _) = true |- _ => apply Z.ltb_lt in H
    | H : (_ <? _) = false |- _ => apply Z.ltb_ge in H
    | H : (_ =? _) = true |- _ => apply Z.eqb_eq in H
    | H : (_ =? _) = false |- _ => apply Z.eqb_neq in H
    end.

(** Decides a comparison in the goal from the arithmetic of the context. *)
Ltac decide_tests :=
  repeat match goal with
    | |- context [(?a <=? ?b)] =>
        first [ replace (a <=? b) with true by (symmetry; apply Z.leb_le; lia)
              | replace (a <=? b) with false by (symmetry; apply Z.leb_gt; lia) ]
    | |- context [(?a <? ?b)] =>
        first [ replace (a <? b) with true by (symmetry; apply Z.ltb_lt; lia)
              | replace (a <? b) with false by (symmetry; apply Z.ltb_ge; lia) ]
    | |- context [(?a =? ?b)] =>
        first [ replace (a =? b) with true by (symmetry; apply Z.eqb_eq; lia)
              | replace (a =? b) with false by (symmetry; apply Z.eqb_neq; lia) ]
    end.

End Vocabulary.

(** ** Numbers *)

Module NumberFacts.
Import JS.
#[local] Open Scope Z_scope.

Lemma ToUint32_range x : 0 <= ToUint32 x < two32.
Proof. unfold ToUint32, two32. apply Z.mod_pos_bound. lia. Qed.

Lemma ToInt32_range x : - two31 <= ToInt32 x < two31.
Proof.
  unfold ToInt32. pose proof (Z.mod_pos_bound x two32 eq_refl) as H.
  unfold two31, two32 in *. destruct (Z.ltb_spec (x mod 4294967296) 2147483648); lia.
Qed.

Lemma ToInt32_small x : - two31 <= x < two31 -> ToInt32 x = x.
Proof.
  unfold ToInt32, two31, two32. intros H.
  destruct (Z.ltb_spec (x mod 4294967296) 2147483648);
    Z.div_mod_to_equations; lia.
Qed.

(** x & 15 is a hexadecimal digit. *)
Lemma and_15_range x : 0 <= and x 15 < 16.
Proof.
  unfold and. rewrite (ToInt32_small 15) by (unfold two31; lia).
  assert (Z.land (ToInt32 x) 15 = ToInt32 x mod 16) as ->.
  { change 15 with (Z.ones 4). rewrite Z.land_ones by lia. reflexivity. }
  pose proof (Z.mod_pos_bound (ToInt32 x) 16 eq_refl) as H.
  rewrite ToInt32_small; unfold two31; lia.
Qed.

(** x >>> 0 is an unsigned 32-bit number. *)
Lemma ushr_0_range x : 0 <= ushr x 0 < two32.
Proof.
  unfold ushr. replace (Z.land (ToUint32 0) 31) with 0 by reflexivity.
  rewrite Z.shiftr_0_r. apply ToUint32_range.
Qed.

End NumberFacts.

(** ** The MD5 digest *)

Module MD5Facts.
Import JS Utils NumberFacts.
#[local] Open Scope Z_scope.

Lemma charAt_hex_tab d :
  0 <= d < 16 -> exists c, charAt hex_tab d = [c] /\ In c hex_tab.
Proof.
  intros H.
  assert (d = 0 \/ d = 1 \/ d = 2 \/ d = 3 \/ d = 4 \/ d = 5 \/ d = 6 \/ d = 7 \/ d = 8
          \/ d = 9 \/ d = 10 \/ d = 11 \/ d = 12 \/ d = 13 \/ d = 14 \/ d = 15) as Hd by lia.
  repeat (destruct Hd as [-> | Hd]); try subst d;
    (eexists; split; [reflexivity | vm_compute; tauto]).
Qed.

Lemma binl2hex_shape binarray :
  length (binl2hex binarray) = (length binarray * 8)%nat
  /\ Forall (fun c => In c hex_tab) (binl2hex binarray).
Proof.
  unfold binl2hex.
  assert (forall (f : nat -> jsstring) l,
            (forall k, exists c1 c2, f k = [c1; c2] /\ In c1 hex_tab /\ In c2 hex_tab) ->
            length (flat_map f l) = (length l * 2)%nat
            /\ Forall (fun c => In c hex_tab) (flat_map f l)) as Hgen.
  { intros f l Hf. induction l as [|k l [IHlen IHall]]; simpl.
    - split; [reflexivity | constructor].
    - destruct (Hf k) as (c1 & c2 & -> & H1 & H2). simpl. split.
      + rewrite IHlen. reflexivity.
      + constructor; [exact H1|]. constructor; [exact H2 | exact IHall]. }
  match goal with |- context [flat_map ?f ?l] => destruct (Hgen f l) as [Hlen Hall] end.
  - intros k.
    destruct (charAt_hex_tab _ (and_15_range
      (shr (array_get binarray (shr (Z.of_nat k) 2)) (Z.of_nat k mod 4 * 8 + 4))))
      as (c1 & E1 & H1).
    destruct (charAt_hex_tab _ (and_15_range
      (shr (array_get binarray (shr (Z.of_nat k) 2)) (Z.of_nat k mod 4 * 8))))
      as (c2 & E2 & H2).
    exists c1, c2. rewrite E1, E2. auto.
  - split; [|exact Hall]. rewrite Hlen, length_seq. lia.
Qed.

Lemma core_md5_length x len : length (core_md5 x len) = 4%nat.
Proof.
  unfold core_md5.
  destruct (md5_loop _ _ _ _) as [[[a b] c] d]. reflexivity.
Qed.

(** C8. The MD5 implementation gives the standard digests of the empty
    string and of "password", and every digest is 32 lower-case
    hexadecimal characters (16 bytes). *)
Theorem md5_standard_digests :
  md5 (js "") = js "d41d8cd98f00b204e9800998ecf8427e"
  /\ md5 (js "password") = js "5f4dcc3b5aa765d61d8327deb882cf99"
  /\ forall s : jsstring,
       length (md5 s) = 32%nat
       /\ Forall (fun c => In c (js "0123456789abcdef")) (md5 s).
Proof.
  split; [vm_compute; reflexivity|].
  split; [vm_compute; reflexivity|].
  intros s. unfold md5. destruct (str2binl s) as [bin byteLength].
  destruct (binl2hex_shape (core_md5 bin (byteLength * 8))) as [Hlen Hall].
  rewrite core_md5_length in Hlen. split; [exact Hlen | exact Hall].
Qed.

End MD5Facts.

(** ** The seeded shuffle *)

Module ShuffleFacts.
Import JS Utils NumberFacts.

(** *** The random index stays within the part still to be shuffled *)

Lemma round53_upper (p m : Z) :
  (0 <= p)%Z -> (1 <= m)%Z -> (p <= (two32 - 1) * m)%Z -> (round53 p < two32 * m)%Z.
Proof.
  intros Hp Hm Hpm. unfold round53.
  destruct (Z.ltb_spec p two53) as [Hsmall | Hbig].
  - unfold two32 in *. lia.
  - set (e := (Z.log2 p - 52)%Z).
    assert (0 < p)%Z as Hpos by (unfold two53 in Hbig; lia).
    destruct (Z.log2_spec p Hpos) as [Hlo _].
    assert (53 <= Z.log2 p)%Z as Hlog.
    { apply Z.log2_le_pow2; [lia|]. exact Hbig. }
    assert (1 <= e)%Z as He by (unfold e; lia).
    replace (Z.log2 p) with (52 + e)%Z in Hlo by (unfold e; lia).
    rewrite Z.pow_add_r in Hlo by lia.
    assert (2 ^ e = 2 * 2 ^ (e - 1))%Z as E2.
    { replace e with (1 + (e - 1))%Z at 1 by lia.
      rewrite Z.pow_add_r by lia. reflexivity. }
    rewrite Z.shiftr_div_pow2 by lia.
    rewrite !Z.shiftl_mul_pow2 by lia.
    rewrite Z.mul_1_l. rewrite E2 in *.
    set (h := (2 ^ (e - 1))%Z) in *.
    assert (1 <= h)%Z as Hh.
    { unfold h. pose proof (Z.pow_pos_nonneg 2 (e - 1)). lia. }
    change (2 ^ 52)%Z with 4503599627370496%Z in Hlo.
    assert (0 < 2 * h)%Z as Hpos2 by lia.
    pose proof (Z.div_mod p (2 * h) ltac:(lia)) as Hdm.
    pose proof (Z.mod_pos_bound p (2 * h) Hpos2) as Hmod.
    set (q := (p / (2 * h))%Z) in *.
    set (r := (p mod (2 * h))%Z) in *.
    unfold two32 in *.
    assert (h < m)%Z as Hhm by lia.
    match goal with |- context [if ?b then _ else _] => destruct b eqn:Hup end.
    + assert (h <= p - q * (2 * h))%Z.
      { apply orb_true_iff in Hup as [Hup | Hup].
        - apply Z.ltb_lt in Hup. lia.
        - apply andb_true_iff in Hup as [Hup _]. apply Z.eqb_eq in Hup. lia. }
      lia.
    + lia.
Qed.

Lemma random_index_le (u : Z) (i : nat) :
  (0 <= u < two32)%Z -> random_index u i <= i.
Proof.
  intros Hu. unfold random_index.
  assert (round53 (u * Z.of_nat (i + 1)) < two32 * Z.of_nat (i + 1))%Z as Hr.
  { apply round53_upper; unfold two32 in *; nia. }
  assert (round53 (u * Z.of_nat (i + 1)) / two32 < Z.of_nat (i + 1))%Z as Hq.
  { apply Z.div_lt_upper_bound; [reflexivity | exact Hr]. }
  destruct (Z.le_gt_cases 0 (round53 (u * Z.of_nat (i + 1)) / two32)).
  - lia.
  - rewrite Z2Nat.nonpos by lia. lia.
Qed.

Lemma mulberry32_range (seed : Z) : (0 <= fst (mulberry32 seed) < two32)%Z.
Proof. unfold mulberry32. cbn [fst]. apply ushr_0_range. Qed.

(** *** A swap of two positions is a permutation *)

Section Swap.
Context {A : Type}.
Implicit Types (l result : list A).
Abbreviation store := (gmap nat (list A)).

Lemma insert_cons_perm l k x y :
  l !! k = Some x -> x :: <[k := y]> l ≡ₚ y :: l.
Proof.
  revert k. induction l as [|a l IH]; intros [|k] Hk; simpl in *; try discriminate.
  - injection Hk as ->. apply perm_swap.
  - rewrite perm_swap. rewrite (IH k Hk). apply perm_swap.
Qed.

Lemma swap_lt_perm l i j xi xj :
  i < j -> l !! i = Some xi -> l !! j = Some xj ->
  <[j := xi]> (<[i := xj]> l) ≡ₚ l.
Proof.
  revert i j. induction l as [|a l IH]; intros [|i] [|j] Hij Hi Hj;
    simpl in *; try discriminate; try lia.
  - injection Hi as ->. apply insert_cons_perm. exact Hj.
  - constructor. apply IH; [lia | exact Hi | exact Hj].
Qed.

Lemma swap_perm result i j : swap result i j ≡ₚ result.
Proof.
  unfold swap.
  destruct (result !! i) as [xi|] eqn:Hi; [|reflexivity].
  destruct (result !! j) as [xj|] eqn:Hj; [|reflexivity].
  destruct (Nat.lt_total i j) as [Hlt | [-> | Hgt]].
  - apply swap_lt_perm; assumption.
  - rewrite Hi in Hj. injection Hj as ->.
    rewrite list_insert_insert_eq, list_insert_id by exact Hi. reflexivity.
  - rewrite list_insert_insert_ne by lia. apply swap_lt_perm; assumption.
Qed.

Lemma swap_length result i j : length (swap result i j) = length result.
Proof. apply Permutation_length, swap_perm. Qed.

Lemma shuffle_loop_S result seed i :
  shuffle_loop result seed (S i)
  = shuffle_loop (swap result (S i) (random_index (fst (mulberry32 seed)) (S i)))
      (snd (mulberry32 seed)) i.
Proof. cbn [shuffle_loop]. destruct (mulberry32 seed). reflexivity. Qed.

Lemma shuffle_loop_perm result seed i : shuffle_loop result seed i ≡ₚ result.
Proof.
  revert result seed. induction i as [|i IH]; intros result seed.
  - reflexivity.
  - rewrite shuffle_loop_S, IH. apply swap_perm.
Qed.

(** Every swap of the loop has both indices inside the array: the
    fall-through case of [swap] is never taken. *)
Lemma shuffle_loop_in_range result seed i :
  i < length result ->
  let '(u, _) := mulberry32 seed in
  is_Some (result !! i) /\ is_Some (result !! random_index u i).
Proof.
  intros Hi. pose proof (mulberry32_range seed) as Hu.
  destruct (mulberry32 seed) as [u seed']. simpl in Hu.
  pose proof (random_index_le u i Hu).
  split; apply lookup_lt_is_Some; lia.
Qed.

(** *** The version over a store agrees with the one over contents *)

Lemma shuffle_loop_ref_S (h : store) r seed i :
  shuffle_loop_ref h r seed (S i)
  = shuffle_loop_ref (swap_ref h r (S i) (random_index (fst (mulberry32 seed)) (S i)))
      r (snd (mulberry32 seed)) i.
Proof. cbn [shuffle_loop_ref]. destruct (mulberry32 seed). reflexivity. Qed.

Lemma shuffle_loop_ref_spec (h : store) r l seed i :
  h !! r = Some l ->
  shuffle_loop_ref h r seed i = <[r := shuffle_loop l seed i]> h.
Proof.
  revert h l seed. induction i as [|i IH]; intros h l seed Hr.
  - symmetry. apply insert_id. exact Hr.
  - rewrite shuffle_loop_ref_S, shuffle_loop_S.
    unfold swap_ref. rewrite Hr.
    rewrite (IH _ (swap l (S i) (random_index (fst (mulberry32 seed)) (S i)))).
    + apply insert_insert_eq.
    + apply lookup_insert_eq.
Qed.

Lemma seededShuffle_ref_spec (h : store) array seed l :
  h !! array = Some l ->
  seededShuffle_ref h array seed
  = Some (<[fresh (dom h) := seededShuffle l seed]> h, fresh (dom h)).
Proof.
  intros Ha. unfold seededShuffle_ref. rewrite Ha.
  rewrite (shuffle_loop_ref_spec _ _ l) by apply lookup_insert_eq.
  rewrite insert_insert_eq. reflexivity.
Qed.

Lemma fresh_not_allocated (h : store) : h !! fresh (dom h) = None.
Proof. apply not_elem_of_dom. apply is_fresh. Qed.

End Swap.

Lemma indices_NoDup n : NoDup (indices n).
Proof. unfold indices. apply NoDup_ListNoDup, List.seq_NoDup. Qed.

(** C3. For every element count [n] and key [k], the shuffle of [0, n)
    seeded with stringToSeed(k) is a permutation of [0, n): the same
    elements, each exactly once. It is determined by (n, k) alone: two
    calls, made in any two stores on any two arrays that hold [0, n),
    return arrays with the same contents. *)
Theorem seededShuffle_permutation (n : nat) (k : jsstring) :
  let out := seededShuffle (indices n) (stringToSeed k) in
  out ≡ₚ indices n
  /\ length out = n
  /\ NoDup out
  /\ (forall x, x ∈ out <-> x < n)
  /\ forall (h1 h2 : gmap nat (list nat)) (a1 a2 : nat),
       h1 !! a1 = Some (indices n) -> h2 !! a2 = Some (indices n) ->
       exists h1' r1 h2' r2,
         seededShuffle_ref h1 a1 (stringToSeed k) = Some (h1', r1)
         /\ seededShuffle_ref h2 a2 (stringToSeed k) = Some (h2', r2)
         /\ h1' !! r1 = Some out /\ h2' !! r2 = Some out.
Proof.
  intros out.
  assert (out ≡ₚ indices n) as Hperm by apply shuffle_loop_perm.
  split; [exact Hperm|]. split.
  { rewrite Hperm. unfold indices. apply length_seq. }
  split.
  { rewrite Hperm. apply indices_NoDup. }
  split.
  { intros x. rewrite Hperm. unfold indices. rewrite list_elem_of_In, in_seq. lia. }
  intros h1 h2 a1 a2 H1 H2.
  eexists _, _, _, _.
  split; [apply seededShuffle_ref_spec; exact H1|].
  split; [apply seededShuffle_ref_spec; exact H2|].
  split; apply lookup_insert_eq.
Qed.

Lemma seededShuffle_permutation_witness :
  let out := seededShuffle (indices 6) (stringToSeed (js "secret")) in
  out ≡ₚ indices 6
  /\ exists h1' r1 h2' r2,
       seededShuffle_ref ({[ 0 := indices 6 ]} : gmap nat (list nat)) 0
         (stringToSeed (js "secret"))
       = Some (h1', r1)
       /\ seededShuffle_ref ({[ 3 := [7; 7]; 5 := indices 6 ]} : gmap nat (list nat)) 5
            (stringToSeed (js "secret")) = Some (h2', r2)
       /\ h1' !! r1 = Some out /\ h2' !! r2 = Some out.
Proof.
  intros out.
  destruct (seededShuffle_permutation 6 (js "secret")) as (Hp & _ & _ & _ & Hd).
  split; [exact Hp|].
  apply Hd; reflexivity.
Defined.

(** C10. seededShuffle leaves its argument alone: the array it returns is
    newly allocated, and every array of the store, the argument among
    them, holds after the call what it held before. *)
Theorem seededShuffle_fresh_copy {A : Type} (h h' : gmap nat (list A))
  (array r : nat) (seed : Z) :
  seededShuffle_ref h array seed = Some (h', r) ->
  h !! r = None
  /\ r <> array
  /\ h' !! array = h !! array
  /\ (forall a, a <> r -> h' !! a = h !! a)
  /\ exists l, h !! array = Some l /\ h' !! r = Some (seededShuffle l seed).
Proof.
  intros Hcall.
  destruct (h !! array) as [l|] eqn:Ha.
  2:{ unfold seededShuffle_ref in Hcall. rewrite Ha in Hcall. discriminate. }
  rewrite (seededShuffle_ref_spec h array seed l Ha) in Hcall.
  injection Hcall as <- <-.
  pose proof (fresh_not_allocated h) as Hfresh.
  assert (fresh (dom h) <> array) as Hne by (intros E; rewrite E in Hfresh; congruence).
  split; [exact Hfresh|]. split; [exact Hne|].
  split; [rewrite lookup_insert_ne by exact Hne; exact Ha|].
  split; [intros a Hne'; apply lookup_insert_ne; congruence|].
  exists l. split; [reflexivity | apply lookup_insert_eq].
Qed.

Lemma seededShuffle_fresh_copy_witness :
  let h : gmap nat (list Z) := {[ 0 := [10; 20; 30; 40]%Z ]} in
  let h' : gmap nat (list Z) := <[ 1 := [10; 40; 20; 30]%Z ]> h in
  seededShuffle_ref h 0 42 = Some (h', 1)
  /\ h !! 1 = None
  /\ 1 <> 0
  /\ h' !! 0 = h !! 0.
Proof.
  intros h h'.
  assert (seededShuffle_ref h 0 42 = Some (h', 1)) as Hcall by (vm_compute; reflexivity).
  split; [exact Hcall|].
  destruct (seededShuffle_fresh_copy h h' 0 1 42 Hcall) as (Hfresh & Hne & Hsame & _).
  split; [exact Hfresh|]. split; [exact Hne | exact Hsame].
Defined.

End ShuffleFacts.

(** ** Bit strings and hexadecimal strings *)

Module SerialFacts.
Import JS Encoding Utils Vocabulary.
#[local] Open Scope Z_scope.

(** A Boolean property of the numbers below [n] can be checked by running it. *)
Lemma forall_below (n : nat) (f : Z -> bool) :
  forallb f (map Z.of_nat (seq 0 n)) = true ->
  forall x, 0 <= x < Z.of_nat n -> f x = true.
Proof.
  intros Hall x Hx. rewrite forallb_forall in Hall. apply Hall.
  apply in_map_iff. exists (Z.to_nat x). split; [lia|].
  apply in_seq. lia.
Qed.

Lemma list_eqb_eq (s t : jsstring) : list_eqb s t = true <-> s = t.
Proof.
  revert t. induction s as [|c s IH]; intros [|d t]; simpl; split; intros H;
    try discriminate; try reflexivity.
  - apply andb_true_iff in H as [Hc Hs]. apply Z.eqb_eq in Hc. apply IH in Hs. congruence.
  - injection H as -> ->. rewrite Z.eqb_refl. simpl. apply IH. reflexivity.
Qed.

Lemma hex_of_byte_spec b :
  byte b ->
  length (hex_of_byte b) = 2%nat /\ ToUint8 (parseInt (hex_of_byte b) 16) = b.
Proof.
  intros Hb.
  assert (((length (hex_of_byte b) =? 2)%nat
           && (ToUint8 (parseInt (hex_of_byte b) 16) =? b)) = true) as H.
  { revert b Hb. apply (forall_below 256). vm_compute. reflexivity. }
  apply andb_true_iff in H as [H1 H2].
  apply Nat.eqb_eq in H1. apply Z.eqb_eq in H2. auto.
Qed.

Lemma bits_of_byte_spec b :
  byte b ->
  length (bits_of_byte b) = 8%nat /\ ToUint8 (parseInt (bits_of_byte b) 2) = b.
Proof.
  intros Hb.
  assert (((length (bits_of_byte b) =? 8)%nat
           && (ToUint8 (parseInt (bits_of_byte b) 2) =? b)) = true) as H.
  { revert b Hb. apply (forall_below 256). vm_compute. reflexivity. }
  apply andb_true_iff in H as [H1 H2].
  apply Nat.eqb_eq in H1. apply Z.eqb_eq in H2. auto.
Qed.

(** Reading a string made of fields of width [w] field by field. *)
Lemma map_fields {B : Type} (w : nat) (f : Z -> jsstring) (g : jsstring -> B) (bs : list Z) :
  Forall (fun b => length (f b) = w) bs ->
  map (fun k => g (substring (flat_map f bs) (w * k) (w * k + w))) (seq 0 (length bs))
  = map (fun b => g (f b)) bs.
Proof.
  induction bs as [|b bs IH]; intros Hw; [reflexivity|].
  apply Forall_cons in Hw as [Hb Hbs].
  cbn [length seq map flat_map]. f_equal.
  - unfold substring. rewrite Nat.mul_0_r, drop_0.
    replace (0 + w - 0)%nat with (length (f b)) by lia.
    rewrite take_app_length. reflexivity.
  - rewrite <- seq_shift, map_map. rewrite <- (IH Hbs).
    apply map_ext. intros k. f_equal. unfold substring.
    replace (w * S k + w - w * S k)%nat with (w * k + w - w * k)%nat by lia.
    f_equal.
    replace (w * S k)%nat with (length (f b) + w * k)%nat by lia.
    rewrite <- drop_drop, drop_app_length. reflexivity.
Qed.

Lemma flat_map_fields_length (w : nat) (f : Z -> jsstring) (bs : list Z) :
  Forall (fun b => length (f b) = w) bs ->
  length (flat_map f bs) = (length bs * w)%nat.
Proof.
  induction 1 as [|b bs Hb _ IH]; [reflexivity|].
  cbn [flat_map length]. rewrite length_app, IH, Hb. lia.
Qed.

(** hexToArrayBuffer undoes arrayBufferToHex. *)
Lemma hex_roundtrip (b : list Z) :
  Forall byte b -> hexToArrayBuffer (arrayBufferToHex b) = Ok b.
Proof.
  intros Hb. unfold hexToArrayBuffer, arrayBufferToHex.
  fold hex_of_byte.
  assert (Forall (fun x => length (hex_of_byte x) = 2%nat) b) as Hw.
  { eapply Forall_impl; [exact Hb|]. intros x Hx. apply hex_of_byte_spec, Hx. }
  rewrite (flat_map_fields_length 2 _ _ Hw).
  replace (length b * 2 mod 2 =? 0)%nat with true
    by (symmetry; apply Nat.eqb_eq; rewrite Nat.Div0.mod_mul; reflexivity).
  cbn [negb]. f_equal.
  rewrite Nat.div_mul by lia.
  rewrite (map_fields 2 hex_of_byte (fun s => ToUint8 (parseInt s 16)) b Hw).
  rewrite <- (map_id b) at 2. apply map_ext_Forall.
  eapply Forall_impl; [exact Hb|]. intros x Hx. apply hex_of_byte_spec, Hx.
Qed.

(** The loop of binaryToText reads back the bytes textToBinary wrote. *)
Lemma bytes_of_binary_bits (bs : list Z) :
  Forall byte bs -> bytes_of_binary (flat_map bits_of_byte bs) = bs.
Proof.
  intros Hb. unfold bytes_of_binary.
  assert (Forall (fun x => length (bits_of_byte x) = 8%nat) bs) as Hw.
  { eapply Forall_impl; [exact Hb|]. intros x Hx. apply bits_of_byte_spec, Hx. }
  rewrite (flat_map_fields_length 8 _ _ Hw).
  rewrite Nat.div_mul by lia.
  rewrite (map_fields 8 bits_of_byte (fun s => ToUint8 (parseInt s 2)) bs Hw).
  rewrite <- (map_id bs) at 2. apply map_ext_Forall.
  eapply Forall_impl; [exact Hb|]. intros x Hx. apply bits_of_byte_spec, Hx.
Qed.

Lemma binaryToText_of_bits (bs : list Z) :
  Forall byte bs -> bs <> [] ->
  binaryToText (flat_map bits_of_byte bs)
  = try_catch (decode_or_throw bs) (fun _ => Ok []).
Proof.
  intros Hb Hne. unfold binaryToText.
  assert (Forall (fun x => length (bits_of_byte x) = 8%nat) bs) as Hw.
  { eapply Forall_impl; [exact Hb|]. intros x Hx. apply bits_of_byte_spec, Hx. }
  pose proof (flat_map_fields_length 8 _ _ Hw) as Hlen.
  rewrite Hlen. rewrite Nat.div_mul by lia.
  unfold substring. rewrite drop_0, Nat.sub_0_r.
  rewrite <- Hlen, firstn_all.
  destruct (Nat.eqb_spec (length (flat_map bits_of_byte bs)) 0) as [H0|_].
  - exfalso. rewrite Hlen in H0. destruct bs; [congruence | simpl in H0; lia].
  - rewrite bytes_of_binary_bits by exact Hb. reflexivity.
Qed.

(** C9. binaryToText fails locally: whatever the bit string, it returns
    and never throws; and when the bytes read from the bit string are
    not UTF-8, so that the decoder throws, it returns the empty string. *)
Theorem binaryToText_invalid_utf8 (binary : jsstring) :
  (exists s, binaryToText binary = Ok s)
  /\ (TextDecoder_decode_fatal
        (bytes_of_binary (substring binary 0 (length binary / 8 * 8))) = None ->
      binaryToText binary = Ok []).
Proof.
  unfold binaryToText, decode_or_throw. split.
  - destruct (Nat.eqb _ 0); [eexists; reflexivity|].
    destruct (TextDecoder_decode_fatal _); eexists; reflexivity.
  - intros Hbad. destruct (Nat.eqb _ 0); [reflexivity|].
    rewrite Hbad. reflexivity.
Qed.

Lemma binaryToText_invalid_utf8_witness :
  TextDecoder_decode_fatal (bytes_of_binary (js "1100001110101000")) = Some [232]
  /\ TextDecoder_decode_fatal (bytes_of_binary (js "1100001100101000")) = None
  /\ binaryToText (js "1100001100101000") = Ok [].
Proof.
  split; [reflexivity|]. split; [reflexivity|].
  apply (binaryToText_invalid_utf8 (js "1100001100101000")). reflexivity.
Defined.

End SerialFacts.

(** ** UTF-8: the decoder undoes the encoder on well-formed strings *)

Module Utf8Facts.
Import JS Encoding Utils SerialFacts Vocabulary.
#[local] Open Scope Z_scope.

Lemma encode_scalar_bytes cp : scalar cp -> Forall byte (encode_scalar cp).
Proof.
  intros [Hr _]. unfold encode_scalar, byte.
  destruct (Z.ltb_spec cp 128); [|destruct (Z.ltb_spec cp 2048);
    [|destruct (Z.ltb_spec cp 65536)]];
    repeat constructor; Z.div_mod_to_equations; lia.
Qed.

Lemma decode_encode_scalar cp rest :
  scalar cp ->
  utf8_decode (encode_scalar cp ++ rest)
  = option_map (fun t => code_units_of cp ++ t) (utf8_decode rest).
Proof.
  intros [Hr Hs]. unfold encode_scalar.
  destruct (Z.ltb_spec cp 128) as [H1|H1].
  { cbn [app utf8_decode]. unfold in_range, code_units_of. decide_tests. cbn [andb].
    destruct (utf8_decode rest); reflexivity. }
  destruct (Z.ltb_spec cp 2048) as [H2|H2].
  { cbn [app utf8_decode]. unfold in_range.
    pose proof (Z.div_mod cp 64 ltac:(lia)) as Hd.
    pose proof (Z.mod_pos_bound cp 64 ltac:(lia)) as Hm.
    set (q := cp / 64) in *. set (r := cp mod 64) in *.
    decide_tests. cbn [andb].
    replace ((192 + q - 192) * 64 + (128 + r - 128)) with cp by lia.
    unfold code_units_of. decide_tests.
    destruct (utf8_decode rest); reflexivity. }
  destruct (Z.ltb_spec cp 65536) as [H3|H3].
  { cbn [app utf8_decode]. unfold in_range.
    pose proof (Z.div_mod cp 64 ltac:(lia)) as Hd.
    pose proof (Z.mod_pos_bound cp 64 ltac:(lia)) as Hm.
    pose proof (Z.div_mod (cp / 64) 64 ltac:(lia)) as Hd2.
    pose proof (Z.mod_pos_bound (cp / 64) 64 ltac:(lia)) as Hm2.
    assert (cp / 4096 = cp / 64 / 64) as Hq by (rewrite Z.div_div by lia; reflexivity).
    rewrite Hq.
    set (q := cp / 64) in *. set (r := cp mod 64) in *.
    set (q2 := q / 64) in *. set (r2 := q mod 64) in *.
    decide_tests.
    destruct (Z.eqb_spec (224 + q2) 224); destruct (Z.eqb_spec (224 + q2) 237);
      try lia; decide_tests; cbn [andb];
      replace ((224 + q2 - 224) * 4096 + (128 + r2 - 128) * 64 + (128 + r - 128))
        with cp by lia;
      unfold code_units_of; decide_tests;
      destruct (utf8_decode rest); reflexivity. }
  { cbn [app utf8_decode]. unfold in_range.
    pose proof (Z.div_mod cp 64 ltac:(lia)) as Hd.
    pose proof (Z.mod_pos_bound cp 64 ltac:(lia)) as Hm.
    pose proof (Z.div_mod (cp / 64) 64 ltac:(lia)) as Hd2.
    pose proof (Z.mod_pos_bound (cp / 64) 64 ltac:(lia)) as Hm2.
    pose proof (Z.div_mod (cp / 64 / 64) 64 ltac:(lia)) as Hd3.
    pose proof (Z.mod_pos_bound (cp / 64 / 64) 64 ltac:(lia)) as Hm3.
    assert (cp / 4096 = cp / 64 / 64) as Hq by (rewrite Z.div_div by lia; reflexivity).
    assert (cp / 262144 = cp / 64 / 64 / 64) as Hq3
      by (rewrite !Z.div_div by lia; reflexivity).
    rewrite Hq, Hq3.
    set (q := cp / 64) in *. set (r := cp mod 64) in *.
    set (q2 := q / 64) in *. set (r2 := q mod 64) in *.
    set (q3 := q2 / 64) in *. set (r3 := q2 mod 64) in *.
    decide_tests.
    destruct (Z.eqb_spec (240 + q3) 240); destruct (Z.eqb_spec (240 + q3) 244);
      try lia; decide_tests; cbn [andb];
      replace ((240 + q3 - 240) * 262144 + (128 + r3 - 128) * 4096
               + (128 + r2 - 128) * 64 + (128 + r - 128)) with cp by lia;
      destruct (utf8_decode rest); reflexivity. }
Qed.

(** The decoder, before the byte order mark is looked at, gives back
    every well-formed string. *)
Lemma utf8_decode_encode (s : jsstring) :
  isWellFormed s = true -> utf8_decode (TextEncoder_encode s) = Some s.
Proof.
  remember (length s) as n eqn:Hn. revert s Hn.
  induction n as [n IH] using lt_wf_ind. intros s Hn Hwf.
  destruct s as [|u rest]; [reflexivity|].
  cbn [isWellFormed TextEncoder_encode] in *.
  destruct (is_high_surrogate u) eqn:Hhigh.
  - destruct rest as [|v rest']; [discriminate|].
    apply andb_true_iff in Hwf as [Hlow Hwf]. rewrite Hlow.
    rewrite decode_encode_scalar.
    + rewrite (IH (length rest')); [|simpl in Hn; lia|reflexivity|exact Hwf].
      cbn [option_map]. f_equal. unfold code_units_of.
      range_cases. decide_tests.
      replace (65536 + (u - 55296) * 1024 + (v - 56320) - 65536)
        with ((u - 55296) * 1024 + (v - 56320)) by lia.
      assert (((u - 55296) * 1024 + (v - 56320)) / 1024 = u - 55296) as ->
        by (Z.div_mod_to_equations; lia).
      assert (((u - 55296) * 1024 + (v - 56320)) mod 1024 = v - 56320) as ->
        by (Z.div_mod_to_equations; lia).
      cbn [app]. f_equal; [lia|]. f_equal. lia.
    + range_cases. unfold scalar. lia.
  - apply andb_true_iff in Hwf as [Hwf Hrest].
    apply andb_true_iff in Hwf as [Hlow Hrange].
    apply negb_true_iff in Hlow. rewrite Hlow.
    rewrite decode_encode_scalar.
    + rewrite (IH (length rest)); [|simpl in Hn; lia|reflexivity|exact Hrest].
      cbn [option_map]. f_equal. unfold code_units_of.
      range_cases; decide_tests; reflexivity.
    + range_cases; unfold scalar; lia.
Qed.

Lemma TextEncoder_bytes (s : jsstring) :
  isWellFormed s = true -> Forall byte (TextEncoder_encode s).
Proof.
  remember (length s) as n eqn:Hn. revert s Hn.
  induction n as [n IH] using lt_wf_ind. intros s Hn Hwf.
  destruct s as [|u rest]; [constructor|].
  cbn [isWellFormed TextEncoder_encode] in *.
  destruct (is_high_surrogate u) eqn:Hhigh.
  - destruct rest as [|v rest']; [discriminate|].
    apply andb_true_iff in Hwf as [Hlow Hwf]. rewrite Hlow.
    apply Forall_app. split.
    + apply encode_scalar_bytes. range_cases. unfold scalar. lia.
    + apply (IH (length rest')); [simpl in Hn; lia|reflexivity|exact Hwf].
  - apply andb_true_iff in Hwf as [Hwf Hrest].
    apply andb_true_iff in Hwf as [Hlow Hrange].
    apply negb_true_iff in Hlow. rewrite Hlow.
    apply Forall_app. split.
    + apply encode_scalar_bytes. range_cases; unfold scalar; lia.
    + apply (IH (length rest)); [simpl in Hn; lia|reflexivity|exact Hrest].
Qed.

Lemma TextEncoder_nil (s : jsstring) : TextEncoder_encode s = [] -> s = [].
Proof.
  destruct s as [|u rest]; [reflexivity|]. cbn [TextEncoder_encode].
  assert (forall cp t, encode_scalar cp ++ t <> []) as Hne.
  { intros cp t. unfold encode_scalar.
    destruct (cp <? 128); [|destruct (cp <? 2048); [|destruct (cp <? 65536)]];
      discriminate. }
  destruct (is_high_surrogate u).
  - destruct rest as [|v rest'].
    + intros H. exfalso. apply (Hne 65533 []). rewrite app_nil_r. exact H.
    + destruct (is_low_surrogate v); intros H; exfalso; exact (Hne _ _ H).
  - destruct (is_low_surrogate u); intros H; exfalso; exact (Hne _ _ H).
Qed.

(** binaryToText undoes textToBinary on a well-formed string that does
    not begin with U+FEFF. *)
Lemma text_roundtrip (s : jsstring) :
  isWellFormed s = true -> startsWith s [65279] = false ->
  binaryToText (textToBinary s) = Ok s.
Proof.
  intros Hwf Hbom. unfold textToBinary. fold bits_of_byte.
  destruct (TextEncoder_encode s) as [|b bs] eqn:Henc.
  - apply TextEncoder_nil in Henc. subst s. reflexivity.
  - rewrite binaryToText_of_bits.
    + unfold decode_or_throw, TextDecoder_decode_fatal.
      rewrite <- Henc, (utf8_decode_encode s Hwf).
      destruct s as [|u rest]; [reflexivity|].
      cbn [startsWith] in Hbom.
      replace (startsWith rest []) with true in Hbom by (destruct rest; reflexivity).
      rewrite andb_true_r in Hbom. apply Z.eqb_neq in Hbom.
      destruct u as [|p|p]; try reflexivity.
      repeat (destruct p as [p|p|]; try reflexivity). congruence.
    + rewrite <- Henc. apply TextEncoder_bytes, Hwf.
    + discriminate.
Qed.

End Utf8Facts.

(** ** Base64: atob undoes btoa *)

Module Base64Facts.
Import JS Encoding Utils SerialFacts Vocabulary.
#[local] Open Scope Z_scope.

Lemma b64_char_spec v :
  sextet v ->
  b64_value (b64_char v) = Some v
  /\ is_ascii_whitespace (b64_char v) = false
  /\ b64_char v <> pad_char
  /\ b64_char v <> Constants.CRYPTO_PAYLOAD_DELIMITER.
Proof.
  intros Hv.
  assert ((match b64_value (b64_char v) with Some w => w =? v | None => false end
           && negb (is_ascii_whitespace (b64_char v))
           && negb (b64_char v =? pad_char)
           && negb (b64_char v =? Constants.CRYPTO_PAYLOAD_DELIMITER)) = true) as H.
  { revert v Hv. apply (forall_below 64). vm_compute. reflexivity. }
  apply andb_true_iff in H as [H H4]. apply andb_true_iff in H as [H H3].
  apply andb_true_iff in H as [H1 H2].
  apply negb_true_iff in H2, H3, H4. apply Z.eqb_neq in H3, H4.
  destruct (b64_value (b64_char v)) as [w|]; [|discriminate].
  apply Z.eqb_eq in H1. subst w. auto.
Qed.

(** Lists three elements at a time. *)
Lemma list_ind3 (P : list Z -> Prop) :
  P [] -> (forall a, P [a]) -> (forall a b, P [a; b]) ->
  (forall a b c rest, P rest -> P (a :: b :: c :: rest)) ->
  forall l, P l.
Proof.
  intros H0 H1 H2 H3.
  fix IH 1. intros [|a [|b [|c rest]]]; [exact H0 | apply H1 | apply H2 |].
  apply H3, IH.
Qed.

Lemma btoa_groups_split bs :
  btoa_groups bs = map b64_char (sextets_of bs) ++ padding_of bs.
Proof.
  induction bs as [|a|a b|a b c rest IH] using list_ind3; try reflexivity.
  cbn [btoa_groups sextets_of padding_of map app]. rewrite IH. reflexivity.
Qed.

Lemma sextets_of_range bs : Forall byte bs -> Forall sextet (sextets_of bs).
Proof.
  induction bs as [|a|a b|a b c rest IH] using list_ind3; intros Hb;
    cbn [sextets_of]; unfold byte, sextet in *.
  - constructor.
  - apply Forall_cons in Hb as [Ha _].
    repeat constructor; Z.div_mod_to_equations; lia.
  - apply Forall_cons in Hb as [Ha Hb]. apply Forall_cons in Hb as [Hb _].
    repeat constructor; Z.div_mod_to_equations; lia.
  - apply Forall_cons in Hb as [Ha Hb]. apply Forall_cons in Hb as [Hb Hc].
    apply Forall_cons in Hc as [Hc Hrest].
    repeat (constructor; [Z.div_mod_to_equations; lia|]). apply IH, Hrest.
Qed.

Lemma atob_groups_sextets bs : Forall byte bs -> atob_groups (sextets_of bs) = bs.
Proof.
  induction bs as [|a|a b|a b c rest IH] using list_ind3; intros Hb;
    unfold byte in *.
  - reflexivity.
  - apply Forall_cons in Hb as [Ha _]. cbn [sextets_of atob_groups].
    f_equal. Z.div_mod_to_equations; lia.
  - apply Forall_cons in Hb as [Ha Hb]. apply Forall_cons in Hb as [Hb _].
    cbn [sextets_of atob_groups].
    f_equal; [|f_equal]; Z.div_mod_to_equations; lia.
  - apply Forall_cons in Hb as [Ha Hb]. apply Forall_cons in Hb as [Hb Hc].
    apply Forall_cons in Hc as [Hc Hrest].
    cbn [sextets_of atob_groups]. rewrite (IH Hrest).
    f_equal; [|f_equal; [|f_equal]]; Z.div_mod_to_equations; lia.
Qed.

Lemma sextets_map_b64_char vs :
  Forall sextet vs -> sextets (map b64_char vs) = Some vs.
Proof.
  induction 1 as [|v vs Hv _ IH]; [reflexivity|].
  cbn [map sextets]. destruct (b64_char_spec v Hv) as (-> & _).
  rewrite IH. reflexivity.
Qed.

(** The lengths: the padded string is whole groups of four, the unpadded
    one never leaves a single character over. *)
Lemma base64_lengths bs :
  ((length (sextets_of bs) + length (padding_of bs)) mod 4 = 0
   /\ length (sextets_of bs) mod 4 <> 1
   /\ length (padding_of bs) <= 2
   /\ (bs <> [] -> sextets_of bs <> []))%nat.
Proof.
  induction bs as [|a|a b|a b c rest IH] using list_ind3;
    try (cbn; repeat split; try lia; discriminate).
  - cbn. repeat split; try lia; congruence.
  - destruct IH as (IH1 & IH2 & IH3 & _).
    cbn [sextets_of padding_of length]. repeat split; try discriminate; try exact IH3.
    + replace (S (S (S (S (length (sextets_of rest))))) + length (padding_of rest))%nat
        with (length (sextets_of rest) + length (padding_of rest) + 1 * 4)%nat by lia.
      rewrite Nat.Div0.mod_add. exact IH1.
    + replace (S (S (S (S (length (sextets_of rest))))))
        with (length (sextets_of rest) + 1 * 4)%nat by lia.
      rewrite Nat.Div0.mod_add. exact IH2.
Qed.

Lemma padding_of_cases bs :
  padding_of bs = [] \/ padding_of bs = [pad_char] \/ padding_of bs = [pad_char; pad_char].
Proof.
  induction bs as [|a|a b|a b c rest IH] using list_ind3; cbn [padding_of]; auto.
Qed.

(** Removing the padding of a string btoa wrote leaves its alphabet part. *)
Lemma strip_padding_body (body pad : jsstring) :
  (length (body ++ pad) mod 4 = 0)%nat ->
  Forall (fun c => c <> pad_char) body ->
  pad = [] \/ pad = [pad_char] \/ pad = [pad_char; pad_char] ->
  strip_padding (body ++ pad) = body.
Proof.
  intros Hlen Hbody Hpad. unfold strip_padding.
  rewrite Hlen. cbn [Nat.eqb]. rewrite rev_app_distr.
  assert (forall r, rev body = r ->
            match r with
            | c :: _ => c <> pad_char
            | [] => True
            end) as Hlast.
  { intros r Hr. destruct r as [|c r']; [exact I|].
    rewrite Forall_forall in Hbody. apply Hbody.
    apply list_elem_of_In, in_rev. rewrite Hr. left. reflexivity. }
  destruct Hpad as [-> | [-> | ->]]; cbn [rev app].
  - rewrite app_nil_r. specialize (Hlast _ eq_refl).
    destruct (rev body) as [|c r'] eqn:Hr; [reflexivity|].
    apply Z.eqb_neq in Hlast. rewrite Hlast. reflexivity.
  - rewrite Z.eqb_refl. specialize (Hlast _ eq_refl).
    destruct (rev body) as [|c r'] eqn:Hr.
    + apply (f_equal (@rev Z)) in Hr. rewrite rev_involutive in Hr. exact (eq_sym Hr).
    + apply Z.eqb_neq in Hlast. rewrite Hlast, <- Hr. apply rev_involutive.
  - rewrite !Z.eqb_refl. apply rev_involutive.
Qed.

Lemma filter_no_whitespace (s : jsstring) :
  Forall (fun c => is_ascii_whitespace c = false) s ->
  filter (fun c => negb (is_ascii_whitespace c)) s = s.
Proof.
  induction 1 as [|c s Hc _ IH]; [reflexivity|].
  rewrite filter_cons_True by (rewrite Hc; exact I).
  rewrite IH. reflexivity.
Qed.

Lemma btoa_groups_chars bs :
  Forall byte bs ->
  Forall (fun c => base64_char c /\ is_ascii_whitespace c = false
                   /\ c <> Constants.CRYPTO_PAYLOAD_DELIMITER) (btoa_groups bs).
Proof.
  intros Hb. rewrite btoa_groups_split. apply Forall_app. split.
  - apply Forall_map. eapply Forall_impl; [apply sextets_of_range, Hb|].
    intros v Hv. cbn beta. destruct (b64_char_spec v Hv) as (H1 & H2 & _ & H4).
    unfold base64_char. rewrite H1. split; [left; discriminate | split; assumption].
  - destruct (padding_of_cases bs) as [-> | [-> | ->]];
      repeat constructor; unfold base64_char; auto; vm_compute; discriminate.
Qed.

(** atob undoes btoa on bytes. *)
Lemma atob_btoa_groups bs : Forall byte bs -> atob (btoa_groups bs) = Some bs.
Proof.
  intros Hb. unfold atob.
  rewrite filter_no_whitespace.
  2:{ eapply Forall_impl; [apply btoa_groups_chars, Hb|].
      intros c (_ & Hc & _). exact Hc. }
  destruct (base64_lengths bs) as (Hl1 & Hl2 & _ & _).
  rewrite btoa_groups_split, strip_padding_body.
  - rewrite length_map.
    destruct (Nat.eqb_spec (length (sextets_of bs) mod 4) 1) as [E|_]; [contradiction|].
    rewrite sextets_map_b64_char by (apply sextets_of_range, Hb).
    cbn [option_map]. rewrite atob_groups_sextets by exact Hb. reflexivity.
  - rewrite length_app, length_map. exact Hl1.
  - apply Forall_map. eapply Forall_impl; [apply sextets_of_range, Hb|].
    intros v Hv. apply b64_char_spec, Hv.
  - apply padding_of_cases.
Qed.

Lemma arrayBufferToBase64_bytes bs :
  Forall byte bs -> arrayBufferToBase64 bs = Ok (btoa_groups bs).
Proof.
  intros Hb. unfold arrayBufferToBase64, btoa.
  assert (map (fun b => b mod 65536) bs = bs) as ->.
  { rewrite <- (map_id bs) at 2. apply map_ext_Forall.
    eapply Forall_impl; [exact Hb|]. intros b Hbb. unfold byte in Hbb.
    apply Z.mod_small. lia. }
  replace (forallb (fun c => in_range 0 255 c) bs) with true; [reflexivity|].
  symmetry. apply forallb_forall. intros b Hin.
  rewrite Forall_forall in Hb. apply list_elem_of_In, Hb in Hin.
  unfold in_range, byte in *. apply andb_true_iff. split; apply Z.leb_le; lia.
Qed.

Lemma base64ToArrayBuffer_btoa bs :
  Forall byte bs -> base64ToArrayBuffer (btoa_groups bs) = Ok bs.
Proof.
  intros Hb. unfold base64ToArrayBuffer. rewrite atob_btoa_groups by exact Hb.
  f_equal. rewrite <- (map_id bs) at 2. apply map_ext_Forall.
  eapply Forall_impl; [exact Hb|]. intros b Hbb. unfold byte in Hbb.
  apply Z.mod_small. lia.
Qed.

(** base64ToArrayBuffer undoes arrayBufferToBase64. *)
Lemma base64_roundtrip bs :
  Forall byte bs -> bind (arrayBufferToBase64 bs) base64ToArrayBuffer = Ok bs.
Proof.
  intros Hb. rewrite arrayBufferToBase64_bytes by exact Hb.
  apply base64ToArrayBuffer_btoa, Hb.
Qed.

Lemma btoa_groups_nonempty bs : bs <> [] -> btoa_groups bs <> [].
Proof.
  intros Hne. rewrite btoa_groups_split.
  destruct (base64_lengths bs) as (_ & _ & _ & Hs). specialize (Hs Hne).
  destruct (sextets_of bs); [congruence | discriminate].
Qed.

End Base64Facts.

(** ** The round-trip laws of the serialisers *)

Module SerializationLaws.
Import JS Encoding Utils Vocabulary SerialFacts Utf8Facts Base64Facts.
#[local] Open Scope Z_scope.

(** C6, as the specification states it, fails: a string is any sequence
    of code units, and the string U+FEFF "hi" comes back as "hi", because
    the decoder drops a leading byte order mark. *)
Lemma text_roundtrip_not_for_every_string :
  ~ (forall s : jsstring, wf_string s -> binaryToText (textToBinary s) = Ok s).
Proof.
  intros H. specialize (H [65279; 104; 105]).
  assert (wf_string [65279; 104; 105]) as Hwf
    by (repeat constructor; unfold code_unit; lia).
  specialize (H Hwf). vm_compute in H. discriminate H.
Qed.

(** C6, amended. binaryToText(textToBinary(s)) == s for every well-formed
    string s (no unpaired surrogate) that does not begin with U+FEFF;
    hexToArrayBuffer(arrayBufferToHex(b)) == b and
    base64ToArrayBuffer(arrayBufferToBase64(b)) == b for every byte
    sequence b. *)
Theorem serialization_roundtrips :
  (forall s : jsstring,
     isWellFormed s = true -> startsWith s [65279] = false ->
     binaryToText (textToBinary s) = Ok s)
  /\ (forall b : list Z, Forall byte b -> hexToArrayBuffer (arrayBufferToHex b) = Ok b)
  /\ (forall b : list Z,
        Forall byte b -> bind (arrayBufferToBase64 b) base64ToArrayBuffer = Ok b).
Proof.
  split; [exact text_roundtrip|].
  split; [exact hex_roundtrip | exact base64_roundtrip].
Qed.

Lemma serialization_roundtrips_witness :
  binaryToText (textToBinary [104; 233; 8364; 55357; 56832])
  = Ok [104; 233; 8364; 55357; 56832]
  /\ hexToArrayBuffer (arrayBufferToHex [0; 255; 16; 171]) = Ok [0; 255; 16; 171]
  /\ bind (arrayBufferToBase64 [0; 255; 16; 171]) base64ToArrayBuffer
     = Ok [0; 255; 16; 171].
Proof.
  destruct serialization_roundtrips as (Htext & Hhex & Hb64).
  split; [apply Htext; reflexivity|].
  split; [apply Hhex | apply Hb64]; repeat constructor; unfold byte; lia.
Defined.

End SerializationLaws.

(** ** The LSB family: capacity, and the end of the payload *)

Module StegoFacts.
Import JS Encoding Utils Constants Stego.
#[local] Open Scope nat_scope.

Lemma terminator_length : length MESSAGE_TERMINATOR_BINARY = 40.
Proof. reflexivity. Qed.

Lemma nonempty_length {A} (l : list A) : l <> [] -> (length l =? 0) = false.
Proof. destruct l; [congruence | reflexivity]. Qed.

(** C5. In the three LSB encoders, when the bits of the encrypted payload
    plus the 40-bit terminator exceed three bits per pixel, the call fails
    with the capacity error and the pixel buffer is what it was: the check
    stands before the first write. *)
Theorem capacity_exceeded_before_any_write
  (cryptoEncrypt : jsstring -> jsstring -> result jsstring) (cv : canvas)
  (message stegoKey password encryptedPayload : jsstring) :
  message <> [] -> stegoKey <> [] -> password <> [] ->
  length message <= MAX_MESSAGE_LENGTH_CHARS ->
  cryptoEncrypt message password = Ok encryptedPayload ->
  let requiredBits := length (textToBinary encryptedPayload) + 40 in
  (length (pixels cv) / 4 * 3 < requiredBits ->
   encodeMessage cryptoEncrypt (Some cv) message password
   = (Throw capacity_error_LSB, pixels cv))
  /\ (width cv * height cv * 3 < requiredBits ->
      encodeMessagePatternLSB cryptoEncrypt (Some cv) message stegoKey password
      = (Throw (capacity_error_pattern "Pattern LSB"), pixels cv)
      /\ encodeMessageMD5Pattern cryptoEncrypt (Some cv) message stegoKey password
         = (Throw (capacity_error_pattern "MD5 Pattern LSB"), pixels cv)).
Proof.
  intros Hm Hk Hp Hlen Henc requiredBits.
  assert ((MAX_MESSAGE_LENGTH_CHARS <? length message) = false) as Hmax
    by (apply Nat.ltb_ge; exact Hlen).
  split.
  - intros Hcap. unfold encodeMessage.
    rewrite (nonempty_length _ Hm), (nonempty_length _ Hp), Hmax, Henc.
    cbn zeta. rewrite length_app, terminator_length.
    replace (_ <? _) with true; [reflexivity|].
    symmetry. apply Nat.ltb_lt. exact Hcap.
  - intros Hcap.
    unfold encodeMessagePatternLSB, encodeMessageMD5Pattern, encodePattern.
    rewrite (nonempty_length _ Hm), (nonempty_length _ Hk), (nonempty_length _ Hp),
      Hmax, Henc.
    cbn zeta. rewrite length_app, terminator_length.
    replace (_ <? _) with true; [split; reflexivity|].
    symmetry. apply Nat.ltb_lt. exact Hcap.
Qed.

(** A 10 x 10 image offers 300 bits; the envelope below needs 568. *)
Lemma capacity_exceeded_before_any_write_witness :
  let payload := js "AAAAAAAAAAAAAAAAAAAAAA==:AAAAAAAAAAAAAAAA:AAAAAAAAAAAAAAAAAAAAAAAB" in
  let cv := Canvas 10 10 (repeat 200%Z 400) in
  let enc := fun _ _ : jsstring => Ok payload in
  encodeMessage enc (Some cv) (js "hi") (js "pw") = (Throw capacity_error_LSB, pixels cv)
  /\ encodeMessagePatternLSB enc (Some cv) (js "hi") (js "key") (js "pw")
     = (Throw (capacity_error_pattern "Pattern LSB"), pixels cv)
  /\ encodeMessageMD5Pattern enc (Some cv) (js "hi") (js "key") (js "pw")
     = (Throw (capacity_error_pattern "MD5 Pattern LSB"), pixels cv).
Proof.
  intros payload cv enc.
  destruct (capacity_exceeded_before_any_write enc cv (js "hi") (js "key") (js "pw") payload)
    as [Hlsb Hpat]; try discriminate; try reflexivity.
  - vm_compute. lia.
  - split; [apply Hlsb | apply Hpat]; vm_compute; lia.
Defined.

(** C1 does not hold of the code. The decoders stop at the first point
    where the last 40 bits read are zero. When the last character of the
    envelope has an even code, as 'B' = 01000010, its trailing zero bits
    complete the 40 zeros before the terminator has been read to its end:
    the decoder cuts the payload short by those bits, binaryToText drops
    the incomplete byte, and cryptoDecrypt receives the envelope without
    its last character, whatever the decryption function is: an 18-byte
    ciphertext arrives as 17 bytes. The envelope below is well formed
    (16-byte salt, 12-byte IV, an 18-byte ciphertext as a 2-byte message
    gives), and the 20 x 10 image has room for it. *)
Theorem terminator_found_early_drops_last_character
  (cryptoDecrypt : jsstring -> jsstring -> result jsstring) :
  let payload := js "AAAAAAAAAAAAAAAAAAAAAA==:AAAAAAAAAAAAAAAA:AAAAAAAAAAAAAAAAAAAAAAAB" in
  let cut := js "AAAAAAAAAAAAAAAAAAAAAA==:AAAAAAAAAAAAAAAA:AAAAAAAAAAAAAAAAAAAAAAA" in
  let cv := Canvas 20 10 (repeat 200%Z 800) in
  let enc := fun _ _ : jsstring => Ok payload in
  length (textToBinary payload) + 40 <= width cv * height cv * 3
  /\ (exists e, fst (encodeMessage enc (Some cv) (js "hi") (js "pw")) = Ok e
                /\ encryptedPayload e = payload
                /\ decodeMessage cryptoDecrypt (Some (carrier e)) (js "pw")
                   = cryptoDecrypt cut (js "pw"))
  /\ (exists e, fst (encodeMessagePatternLSB enc (Some cv) (js "hi") (js "key") (js "pw")) = Ok e
                /\ encryptedPayload e = payload
                /\ decodeMessagePatternLSB cryptoDecrypt (Some (carrier e)) (js "key") (js "pw")
                   = cryptoDecrypt cut (js "pw"))
  /\ (exists e, fst (encodeMessageMD5Pattern enc (Some cv) (js "hi") (js "key") (js "pw")) = Ok e
                /\ encryptedPayload e = payload
                /\ decodeMessageMD5Pattern cryptoDecrypt (Some (carrier e)) (js "key") (js "pw")
                   = cryptoDecrypt cut (js "pw"))
  /\ (exists bits, encodeRDMessage_binary enc (js "hi") (js "pw") = Ok (bits, payload)
                   /\ decryptRDMessageFromBinary cryptoDecrypt bits (js "pw")
                      = cryptoDecrypt cut (js "pw"))
  /\ base64ToArrayBuffer (nth 2 (split CRYPTO_PAYLOAD_DELIMITER payload) [])
     = Ok (repeat 0%Z 17 ++ [1%Z])
  /\ base64ToArrayBuffer (nth 2 (split CRYPTO_PAYLOAD_DELIMITER cut) [])
     = Ok (repeat 0%Z 17).
Proof.
  intros payload cut cv enc.
  split; [vm_compute; lia|].
  split; [|split; [|split; [|split; [|split; vm_compute; reflexivity]]]].
  - eexists. split; [vm_compute; reflexivity|]. split; [reflexivity|].
    vm_compute. reflexivity.
  - eexists. split; [vm_compute; reflexivity|]. split; [reflexivity|].
    vm_compute. reflexivity.
  - eexists. split; [vm_compute; reflexivity|]. split; [reflexivity|].
    vm_compute. reflexivity.
  - eexists. split; [vm_compute; reflexivity|].
    vm_compute. reflexivity.
Qed.

End StegoFacts.

(** ** The encrypted envelope *)

Module CryptoFacts.
Import JS Encoding Utils Constants CryptoService Vocabulary SerialFacts Base64Facts.
#[local] Open Scope Z_scope.

Lemma split_without_delimiter d (s : jsstring) : ~ In d s -> split d s = [s].
Proof.
  induction s as [|c s IH]; intros Hd; [reflexivity|].
  cbn [split]. destruct (Z.eqb_spec c d) as [->|_].
  - exfalso. apply Hd. left. reflexivity.
  - rewrite IH; [reflexivity|]. intros Hin. apply Hd. right. exact Hin.
Qed.

Lemma split_at_delimiter d (s t : jsstring) :
  ~ In d s -> split d (s ++ d :: t) = s :: split d t.
Proof.
  induction s as [|c s IH]; intros Hd.
  - cbn [app split]. rewrite Z.eqb_refl. reflexivity.
  - cbn [app split]. destruct (Z.eqb_spec c d) as [->|_].
    + exfalso. apply Hd. left. reflexivity.
    + rewrite IH; [reflexivity|]. intros Hin. apply Hd. right. exact Hin.
Qed.

Lemma getRandomValues_bytes rnd pos n :
  length (getRandomValues rnd pos n) = n /\ Forall byte (getRandomValues rnd pos n).
Proof.
  unfold getRandomValues. split.
  - rewrite length_map. apply length_seq.
  - apply Forall_map, Forall_forall. intros k _. unfold byte. cbn beta.
    apply Z.mod_pos_bound. lia.
Qed.

Lemma btoa_groups_no_delimiter bs :
  Forall byte bs -> ~ In CRYPTO_PAYLOAD_DELIMITER (btoa_groups bs).
Proof.
  intros Hb Hin. pose proof (btoa_groups_chars bs Hb) as Hc.
  rewrite Forall_forall in Hc. apply list_elem_of_In, Hc in Hin.
  destruct Hin as (_ & _ & Hne). congruence.
Qed.

Lemma btoa_groups_base64 bs : Forall byte bs -> Forall base64_char (btoa_groups bs).
Proof.
  intros Hb. eapply Forall_impl; [apply btoa_groups_chars, Hb|].
  intros c (Hc & _). exact Hc.
Qed.

Section Envelope.
Variable CryptoKey : Type.
Variable subtle_deriveKey : list Z -> list Z -> result CryptoKey.
Variable subtle_encrypt : CryptoKey -> list Z -> list Z -> result (list Z).
Variable subtle_decrypt : CryptoKey -> list Z -> list Z -> result (list Z).
Variable arrayBufferToString : list Z -> jsstring.

(** C4. When the platform derives the key and encrypts (AES-GCM gives a
    ciphertext that is never empty: it ends with the 16-byte tag),
    encryptMessage returns three non-empty base64 segments joined by ':',
    the first of which decodes to the 16 bytes of the salt and the second
    to the 12 bytes of the IV. decryptMessage, given a payload that does
    not split on ':' into exactly three segments, throws the format error
    without a single call to the platform's cryptography. *)
Theorem envelope_format (rnd : nat -> Z) (message password : jsstring)
  (key : CryptoKey) (ciphertext : list Z) :
  let salt := getRandomValues rnd 0 CRYPTO_SALT_NUM_BYTES in
  let iv := getRandomValues rnd CRYPTO_SALT_NUM_BYTES CRYPTO_IV_NUM_BYTES in
  subtle_deriveKey (stringToArrayBuffer password) salt = Ok key ->
  subtle_encrypt key iv (stringToArrayBuffer message) = Ok ciphertext ->
  Forall byte ciphertext -> ciphertext <> [] ->
  (exists s1 s2 s3 : jsstring,
     fst (encryptMessage CryptoKey subtle_deriveKey subtle_encrypt rnd message password)
     = Ok (s1 ++ [CRYPTO_PAYLOAD_DELIMITER] ++ s2 ++ [CRYPTO_PAYLOAD_DELIMITER] ++ s3)
     /\ split CRYPTO_PAYLOAD_DELIMITER
          (s1 ++ [CRYPTO_PAYLOAD_DELIMITER] ++ s2 ++ [CRYPTO_PAYLOAD_DELIMITER] ++ s3)
        = [s1; s2; s3]
     /\ s1 <> [] /\ s2 <> [] /\ s3 <> []
     /\ Forall base64_char s1 /\ Forall base64_char s2 /\ Forall base64_char s3
     /\ base64ToArrayBuffer s1 = Ok salt /\ length salt = 16%nat
     /\ base64ToArrayBuffer s2 = Ok iv /\ length iv = 12%nat
     /\ base64ToArrayBuffer s3 = Ok ciphertext)
  /\ (forall encryptedPayload password' : jsstring,
        length (split CRYPTO_PAYLOAD_DELIMITER encryptedPayload) <> 3%nat ->
        decryptMessage CryptoKey subtle_deriveKey subtle_decrypt arrayBufferToString
          encryptedPayload password'
        = (Throw format_error, [])).
Proof.
  intros salt iv Hkey Henc Hct Hne.
  destruct (getRandomValues_bytes rnd 0 CRYPTO_SALT_NUM_BYTES) as [Hsl Hsb].
  destruct (getRandomValues_bytes rnd CRYPTO_SALT_NUM_BYTES CRYPTO_IV_NUM_BYTES)
    as [Hil Hib].
  fold salt in Hsl, Hsb. fold iv in Hil, Hib.
  split.
  - exists (btoa_groups salt), (btoa_groups iv), (btoa_groups ciphertext).
    split.
    { unfold encryptMessage, deriveKey. fold salt. fold iv.
      rewrite Hkey. cbn [platform tbind tcatch]. rewrite Henc.
      rewrite !arrayBufferToBase64_bytes by assumption.
      reflexivity. }
    split.
    { cbn [app].
      rewrite split_at_delimiter by (apply btoa_groups_no_delimiter; assumption).
      rewrite split_at_delimiter by (apply btoa_groups_no_delimiter; assumption).
      rewrite split_without_delimiter by (apply btoa_groups_no_delimiter; assumption).
      reflexivity. }
    assert (salt <> []) as Hs0 by (intros E; rewrite E in Hsl; discriminate).
    assert (iv <> []) as Hi0 by (intros E; rewrite E in Hil; discriminate).
    repeat split;
      try (apply btoa_groups_nonempty; assumption);
      try (apply btoa_groups_base64; assumption);
      try (apply base64ToArrayBuffer_btoa; assumption);
      assumption.
  - intros encryptedPayload password' Hparts. unfold decryptMessage.
    destruct (Nat.eqb_spec (length (split CRYPTO_PAYLOAD_DELIMITER encryptedPayload)) 3)
      as [E|_]; [contradiction|].
    reflexivity.
Qed.

End Envelope.

(** A toy platform, to run the statement: the key is the salt, the
    ciphertext is the message followed by a 16-byte tag. *)
Lemma envelope_format_witness :
  let rnd := fun k : nat => Z.of_nat (37 * k + 11) in
  let derive := fun _ salt : list Z => Ok salt in
  let encrypt := fun (_ iv m : list Z) => Ok (m ++ repeat 7 16) in
  let decrypt := fun (_ _ c : list Z) => Ok c in
  fst (encryptMessage (list Z) derive encrypt rnd (js "hi") (js "pw"))
  = Ok (js "CzBVep/E6Q4zWH2ix+wRNg==:W4Clyu8UOV6DqM3y:aGkHBwcHBwcHBwcHBwcHBwcH")
  /\ decryptMessage (list Z) derive decrypt (fun b => b) (js "CzBVep/E6Q4zWH2ix+wRNg==:aGk=") (js "pw")
     = (Throw format_error, []).
Proof.
  intros rnd derive encrypt decrypt.
  destruct (envelope_format (list Z) derive encrypt decrypt (fun b => b) rnd
              (js "hi") (js "pw")
              (getRandomValues rnd 0 CRYPTO_SALT_NUM_BYTES)
              (stringToArrayBuffer (js "hi") ++ repeat 7 16))
    as [(s1 & s2 & s3 & Hret & _) Hdec].
  - reflexivity.
  - reflexivity.
  - vm_compute. repeat constructor; discriminate.
  - discriminate.
  - split.
    + vm_compute. reflexivity.
    + apply Hdec. vm_compute. discriminate.
Defined.

End CryptoFacts.

(** ** The password search *)

Module CrackerFacts.
Import JS Encoding Utils HashCracker SerialFacts Vocabulary.
#[local] Open Scope nat_scope.

Section Dictionary.
Variable signal : nat -> bool.
Variable targetHash : jsstring.
Hypothesis never_aborted : forall k, signal k = false.

Lemma scan_words_spec words i count :
  match scan_words targetHash words i count with
  | Some (k, word) =>
      i <= k < i + count /\ word = trim (nth k words []) /\ matches targetHash words k
      /\ forall j, i <= j < k -> ~ matches targetHash words j
  | None => forall j, i <= j < i + count -> ~ matches targetHash words j
  end.
Proof.
  revert i. induction count as [|count IH]; intros i; cbn [scan_words].
  - intros j Hj. lia.
  - destruct (list_eqb (md5 (trim (nth i words []))) targetHash) eqn:Hm.
    + apply list_eqb_eq in Hm. repeat split; try lia; exact Hm.
    + assert (~ matches targetHash words i) as Hi.
      { unfold matches. intros E. apply list_eqb_eq in E. congruence. }
      specialize (IH (S i)). destruct (scan_words targetHash words (S i) count) as [[k word]|].
      * destruct IH as (Hk & Hw & Hmk & Hbefore). repeat split; try lia; try assumption.
        intros j Hj. destruct (Nat.eq_dec j i) as [->|Hne]; [exact Hi|].
        apply Hbefore. lia.
      * intros j Hj. destruct (Nat.eq_dec j i) as [->|Hne]; [exact Hi|].
        apply IH. lia.
Qed.

(** The batches, from an index before which nothing matched, with fuel
    for the batches that remain. *)
Lemma crack_batches_spec fuel words k currentIndex reports :
  currentIndex <= length words ->
  1 <= fuel -> length words - currentIndex <= fuel * BATCH_SIZE ->
  (forall j, j < currentIndex -> ~ matches targetHash words j) ->
  exists outcome later,
    crack_batches signal targetHash fuel words k currentIndex reports
    = Some (outcome, reports ++ later)
    /\ match outcome with
       | Resolved (Some word) =>
           exists i earlier,
             i < length words /\ word = trim (nth i words []) /\ matches targetHash words i
             /\ (forall j, j < i -> ~ matches targetHash words j)
             /\ later = earlier ++ [Progress (i + 1) (length words)]
       | Resolved None => forall j, j < length words -> ~ matches targetHash words j
       | Rejected _ => False
       end.
Proof using never_aborted.
  revert k currentIndex reports.
  induction fuel as [|fuel IH]; intros k currentIndex reports Hcur Hfuel Hleft Hbefore;
    [lia|].
  cbn [crack_batches]. rewrite never_aborted.
  set (batchEnd := Nat.min (currentIndex + BATCH_SIZE) (length words)).
  pose proof (scan_words_spec words currentIndex (batchEnd - currentIndex)) as Hscan.
  destruct (scan_words targetHash words currentIndex (batchEnd - currentIndex))
    as [[i word]|].
  - destruct Hscan as (Hi & Hw & Hm & Hb).
    exists (Resolved (Some word)), [Progress (i + 1) (length words)].
    split; [reflexivity|]. exists i, []. repeat split; try assumption.
    + unfold batchEnd in Hi. lia.
    + intros j Hj. destruct (Nat.lt_ge_cases j currentIndex); [auto|]. apply Hb. lia.
  - assert (forall j, j < batchEnd -> ~ matches targetHash words j) as Hnone.
    { intros j Hj. destruct (Nat.lt_ge_cases j currentIndex); [auto|].
      apply Hscan. unfold batchEnd in *. lia. }
    destruct (Nat.ltb_spec batchEnd (length words)) as [Hmore|Hdone].
    + assert (batchEnd = currentIndex + BATCH_SIZE) as Hbe by (unfold batchEnd in *; lia).
      destruct (IH (S k) batchEnd (reports ++ [Progress batchEnd (length words)]))
        as (outcome & later & Hrun & Hout);
        try exact Hnone; try (unfold BATCH_SIZE in *; lia).
      exists outcome, ([Progress batchEnd (length words)] ++ later).
      split; [rewrite Hrun, app_assoc; reflexivity|].
      destruct outcome as [[word|]|e]; try exact Hout.
      destruct Hout as (i & earlier & Hi & Hw & Hm & Hb & Hl).
      exists i, ([Progress batchEnd (length words)] ++ earlier).
      repeat split; try assumption. rewrite Hl, app_assoc. reflexivity.
    + exists (Resolved None), [Progress batchEnd (length words)].
      split; [reflexivity|]. intros j Hj. apply Hnone. lia.
Qed.

End Dictionary.

(** C7. While the search is not cancelled, crackMD5 settles (with fuel
    for one more batch than the word count holds) and resolves with the
    first word of the word list, in source order and after trimming,
    whose MD5 is the target, the last progress report being that word's
    position; with null if no word matches. For the target MD5("hunter2")
    and the words foo, hunter2, bar it resolves with "hunter2" and
    reports checked = 2. *)
Theorem crackMD5_first_match :
  (forall (signal : nat -> bool) (targetHash wordlist : jsstring) (fuel : nat),
     (forall k, signal k = false) ->
     let words := words_of wordlist in
     length words / BATCH_SIZE < fuel ->
     exists outcome reports,
       crackMD5 signal targetHash fuel wordlist = Some (outcome, reports)
       /\ match outcome with
          | Resolved (Some word) =>
              exists i earlier,
                i < length words /\ word = trim (nth i words [])
                /\ md5 word = targetHash
                /\ (forall j, j < i -> md5 (trim (nth j words [])) <> targetHash)
                /\ reports = earlier ++ [Progress (i + 1) (length words)]
          | Resolved None =>
              forall j, j < length words -> md5 (trim (nth j words [])) <> targetHash
          | Rejected _ => False
          end)
  /\ crackMD5 (fun _ => false) (md5 (js "hunter2")) 1
       (js "foo" ++ [10%Z] ++ js "hunter2" ++ [10%Z] ++ js "bar")
     = Some (Resolved (Some (js "hunter2")), [Progress 2 3]).
Proof.
  split; [|vm_compute; reflexivity].
  intros signal targetHash wordlist fuel Hsig words Hfuel.
  destruct (crack_batches_spec signal targetHash Hsig fuel words 0 0 [])
    as (outcome & later & Hrun & Hout); try lia.
  - pose proof (Nat.div_mod_eq (length words) BATCH_SIZE) as Hd.
    pose proof (Nat.mod_upper_bound (length words) BATCH_SIZE) as Hm.
    unfold BATCH_SIZE in *. lia.
  - exists outcome, later. split; [exact Hrun|].
    destruct outcome as [[word|]|e]; try exact Hout.
    destruct Hout as (i & earlier & Hi & Hw & Hm & Hb & Hl).
    exists i, earlier. unfold matches in Hm, Hb. rewrite <- Hw in Hm.
    repeat split; assumption.
Qed.

Lemma crackMD5_first_match_witness :
  exists outcome reports,
    crackMD5 (fun _ => false) (md5 (js "b")) 1 (js "a" ++ [13%Z; 10%Z] ++ js " b ") = Some (outcome, reports)
    /\ outcome = Resolved (Some (js "b")) /\ reports = [Progress 2 2].
Proof.
  destruct crackMD5_first_match as [Hgen _].
  destruct (Hgen (fun _ => false) (md5 (js "b")) (js "a" ++ [13%Z; 10%Z] ++ js " b ") 1)
    as (outcome & reports & Hrun & _).
  - reflexivity.
  - vm_compute. lia.
  - exists outcome, reports. split; [exact Hrun|].
    vm_compute in Hrun. injection Hrun as <- <-. split; reflexivity.
Defined.

End CrackerFacts.

(** ** The brute-force enumeration *)

Module BruteForceFacts.
Import JS Encoding Utils HashCracker SerialFacts Vocabulary.
#[local] Open Scope nat_scope.

Lemma flat_map_nil {A B} (l : list A) : flat_map (fun _ : A => @nil B) l = [].
Proof. induction l as [|a l IH]; [reflexivity | exact IH]. Qed.

(** With fuel for the depth that is left, the generator yields [current]
    (below the root) and then the pre-order of what extends it. *)
Lemma generate_from_preorder chars maxLength fuel current depth :
  depth <= maxLength -> maxLength + 2 - depth <= fuel ->
  generate_from fuel chars maxLength current depth
  = (if 0 <? depth then [current] else []) ++ preorder chars (maxLength - depth) current.
Proof.
  revert current depth. induction fuel as [|fuel IH]; intros current depth Hd Hf; [lia|].
  cbn [generate_from].
  replace (maxLength <? depth) with false by (symmetry; apply Nat.ltb_ge; exact Hd).
  f_equal.
  destruct (Nat.eq_dec depth maxLength) as [->|Hne].
  - rewrite Nat.sub_diag. cbn [preorder].
    destruct fuel as [|fuel']; [lia|].
    transitivity (flat_map (fun _ : jsstring => @nil jsstring) chars);
      [|apply flat_map_nil].
    apply flat_map_ext. intros char. cbn [generate_from].
    replace (maxLength <? S maxLength) with true
      by (symmetry; apply Nat.ltb_lt; lia).
    reflexivity.
  - replace (maxLength - depth) with (S (maxLength - S depth)) by lia.
    cbn [preorder]. apply flat_map_ext. intros char.
    rewrite IH by lia. reflexivity.
Qed.

Lemma preorder_members chars k current w :
  In w (preorder chars k current)
  <-> exists cs : list jsstring,
        1 <= length cs <= k /\ Forall (fun c => In c chars) cs
        /\ w = current ++ concat cs.
Proof.
  revert current w. induction k as [|k IH]; intros current w; cbn [preorder].
  - split; [intros []|]. intros (cs & Hlen & _). lia.
  - rewrite in_flat_map. split.
    + intros (c & Hc & [Hw | Hw]).
      * exists [c]. cbn [length concat]. rewrite app_nil_r.
        split; [lia|]. split; [repeat constructor; exact Hc | congruence].
      * apply IH in Hw as (cs & Hlen & Hall & ->).
        exists (c :: cs). cbn [length concat]. split; [lia|].
        split; [constructor; assumption|]. rewrite app_assoc. reflexivity.
    + intros ([|c cs] & Hlen & Hall & ->); [cbn in Hlen; lia|].
      apply Forall_cons in Hall as [Hc Hall]. exists c. split; [exact Hc|].
      destruct cs as [|c' cs'].
      * left. cbn [concat]. rewrite app_nil_r. reflexivity.
      * right. apply IH. exists (c' :: cs'). cbn [length] in *.
        split; [lia|]. split; [exact Hall|].
        cbn [concat]. rewrite !app_assoc. reflexivity.
Qed.

(** C2, as the specification states it, fails: the candidates do not come
    by length. For the charset "ab" and maxLength 2 the second candidate
    is "aa", before the one-character "b", and "b" is found as the fourth
    candidate tried, not the second. *)
Lemma brute_force_not_by_length :
  ~ (forall (charset : jsstring) (maxLength i j : nat) (w v : jsstring),
       i < j ->
       generate charset maxLength [] 0 !! i = Some w ->
       generate charset maxLength [] 0 !! j = Some v ->
       length w <= length v)
  /\ bruteForceMD5 (fun _ => false) (md5 (js "b")) 1 (js "ab") 2
     <> Some (Resolved (Some (js "b")), [Progress 2 6]).
Proof.
  split.
  - intros H. specialize (H (js "ab") 2 1 3 (js "aa") (js "b")).
    cbn in H. specialize (H ltac:(lia) eq_refl eq_refl). lia.
  - vm_compute. discriminate.
Qed.

(** C2, amended. The search enumerates the non-empty strings over the
    charset of length 1 to maxLength, each of them, in depth-first
    pre-order: a candidate is followed at once by its extensions (for
    "ab", 2: a, aa, ab, b, ba, bb). For the charset "ab", maxLength 2 and
    the target MD5("b"), bruteForceMD5 returns "b", found as the fourth
    candidate tried. *)
Theorem brute_force_preorder :
  (forall (charset : jsstring) (maxLength : nat),
     generate charset maxLength [] 0 = preorder (chars_of charset) maxLength [])
  /\ (forall (charset : jsstring) (maxLength : nat) (w : jsstring),
        In w (generate charset maxLength [] 0)
        <-> exists cs : list jsstring,
              1 <= length cs <= maxLength
              /\ Forall (fun c => In c (chars_of charset)) cs
              /\ w = concat cs)
  /\ generate (js "ab") 2 [] 0
     = [js "a"; js "aa"; js "ab"; js "b"; js "ba"; js "bb"]
  /\ bruteForceMD5 (fun _ => false) (md5 (js "b")) 1 (js "ab") 2
     = Some (Resolved (Some (js "b")), [Progress 4 6]).
Proof.
  assert (forall charset maxLength,
            generate charset maxLength [] 0 = preorder (chars_of charset) maxLength [])
    as Hgen.
  { intros charset maxLength. unfold generate.
    rewrite generate_from_preorder by lia.
    rewrite Nat.sub_0_r. reflexivity. }
  split; [exact Hgen|].
  split; [|split; vm_compute; reflexivity].
  intros charset maxLength w. rewrite Hgen. apply preorder_members.
Qed.

End BruteForceFacts.

(** ** Where the terminator is found, and what the decoders deliver *)

Module TerminatorFacts.
Import JS Encoding Utils Constants Stego Vocabulary SerialFacts Utf8Facts.
#[local] Open Scope nat_scope.

Lemma terminator_zeros : MESSAGE_TERMINATOR_BINARY = repeat 48%Z 40.
Proof. reflexivity. Qed.

(** A string with a character other than '0' among its first [n] cannot
    begin with [n] zeros. *)
Lemma startsWith_zeros_false (u rest : jsstring) (n : nat) :
  length u <= n -> (exists c, In c u /\ c <> 48%Z) ->
  startsWith (u ++ rest) (repeat 48%Z n) = false.
Proof.
  revert n. induction u as [|c u IH]; intros n Hlen (x & Hin & Hx); [destruct Hin|].
  destruct n as [|n]; [cbn in Hlen; lia|].
  cbn [app repeat startsWith].
  destruct (Z.eqb_spec 48 c) as [<-|Hc]; [|reflexivity].
  cbn [andb]. apply IH; [cbn in Hlen; lia|].
  destruct Hin as [Heq|Hin]; [exfalso; apply Hx; symmetry; exact Heq|].
  exists x. auto.
Qed.

(** The search for the terminator passes over a stretch of the string at
    none of whose positions the terminator begins. *)
Lemma indexOf_from_skip (u rest t : jsstring) (pos : nat) :
  (forall k, k < length u -> startsWith (drop k (u ++ rest)) t = false) ->
  indexOf_from (u ++ rest) t pos = indexOf_from rest t (pos + length u).
Proof.
  revert pos. induction u as [|c u IH]; intros pos Hno.
  - cbn [app length]. rewrite Nat.add_0_r. reflexivity.
  - cbn [app indexOf_from].
    pose proof (Hno 0 ltac:(cbn; lia)) as H0. rewrite drop_0 in H0.
    cbn [app] in H0. rewrite H0.
    rewrite IH.
    + cbn [length]. f_equal. lia.
    + intros k Hk. apply (Hno (S k)). cbn [length]. lia.
Qed.

(** The eight digits of a byte that is not zero hold a '1', and those of
    an odd byte end with it. *)
Lemma bits_of_nonzero_byte b :
  byte b -> b <> 0%Z -> In 49%Z (bits_of_byte b).
Proof.
  intros Hb Hne.
  assert (((b =? 0)%Z || existsb (fun c => (c =? 49)%Z) (bits_of_byte b)) = true) as H.
  { clear Hne. revert b Hb. apply (forall_below 256). vm_compute. reflexivity. }
  apply orb_true_iff in H as [H|H]; [apply Z.eqb_eq in H; contradiction|].
  apply existsb_exists in H as (c & Hin & Hc). apply Z.eqb_eq in Hc. subst c. exact Hin.
Qed.

(** The eight digits of a byte that is not zero: its last '1', followed
    by zeros, none of them when the byte is odd. *)
Lemma bits_of_byte_last_one b :
  byte b -> b <> 0%Z ->
  exists (body : jsstring) (z : nat),
    bits_of_byte b = body ++ 49%Z :: repeat 48%Z z
    /\ length body + 1 + z = 8
    /\ (z = 0 <-> Z.odd b = true).
Proof.
  intros Hb Hne.
  assert (((b =? 0)%Z
           || existsb (fun z => list_eqb (bits_of_byte b)
                                  (take (7 - z) (bits_of_byte b) ++ 49%Z :: repeat 48%Z z)
                                && Bool.eqb (z =? 0) (Z.odd b))
                (seq 0 8)) = true) as H.
  { clear Hne. revert b Hb. apply (forall_below 256). vm_compute. reflexivity. }
  apply orb_true_iff in H as [H|H]; [apply Z.eqb_eq in H; contradiction|].
  apply existsb_exists in H as (z & Hz & H). apply in_seq in Hz.
  apply andb_true_iff in H as [H1 H2]. apply list_eqb_eq in H1.
  apply Bool.eqb_prop in H2.
  destruct (bits_of_byte_spec b Hb) as [Hlen _].
  exists (take (7 - z) (bits_of_byte b)), z. split; [exact H1|]. split.
  - rewrite length_take. lia.
  - rewrite <- H2. split; [intros ->; reflexivity | apply Nat.eqb_eq].
Qed.

Lemma zeros_commute (a b : nat) :
  repeat 48%Z a ++ repeat 48%Z b = repeat 48%Z b ++ repeat 48%Z a.
Proof. rewrite <- !repeat_app. f_equal. lia. Qed.

Lemma startsWith_refl_app (t rest : jsstring) : startsWith (t ++ rest) t = true.
Proof.
  induction t as [|c t IH]; [destruct rest; reflexivity|].
  cbn [app startsWith]. rewrite Z.eqb_refl, IH. reflexivity.
Qed.

(** Bytes none of which is zero, then at most seven digits and a '1',
    then the terminator: the terminator is found right after that '1',
    not before. *)
Lemma indexOf_terminator_after_one (bytes : list Z) (u rest : jsstring) (pos : nat) :
  Forall (fun b => byte b /\ b <> 0%Z) bytes -> length u < 8 ->
  indexOf_from (flat_map bits_of_byte bytes ++ (u ++ [49%Z])
                  ++ MESSAGE_TERMINATOR_BINARY ++ rest)
    MESSAGE_TERMINATOR_BINARY pos
  = Some (pos + (length (flat_map bits_of_byte bytes) + length (u ++ [49%Z]))).
Proof.
  revert pos. induction bytes as [|b bytes IH]; intros pos Hall Hu.
  - cbn [flat_map app length Nat.add].
    rewrite indexOf_from_skip.
    + destruct (MESSAGE_TERMINATOR_BINARY ++ rest) eqn:E; [discriminate|].
      rewrite <- E. cbn [indexOf_from].
      replace (indexOf_from (MESSAGE_TERMINATOR_BINARY ++ rest) MESSAGE_TERMINATOR_BINARY
                 (pos + length (u ++ [49%Z])))
        with (Some (pos + length (u ++ [49%Z]))); [reflexivity|].
      rewrite E. cbn [indexOf_from]. rewrite <- E, startsWith_refl_app. reflexivity.
    + intros k Hk. rewrite drop_app_le by lia. rewrite terminator_zeros.
      apply startsWith_zeros_false.
      * rewrite length_drop, length_app. cbn [length]. lia.
      * exists 49%Z. split; [|discriminate].
        rewrite length_app in Hk. cbn [length] in Hk.
        rewrite drop_app_le by lia. apply in_or_app. right. left. reflexivity.
  - apply Forall_cons in Hall as [[Hb Hb0] Hall].
    destruct (bits_of_byte_spec b Hb) as [Hlen _].
    cbn [flat_map]. rewrite <- app_assoc.
    rewrite indexOf_from_skip.
    + rewrite IH by assumption. rewrite !length_app. f_equal. lia.
    + intros k Hk. rewrite Hlen in Hk.
      rewrite drop_app_le by lia. rewrite terminator_zeros.
      destruct bytes as [|b' bytes'].
      * (* the '1' that ends [u ++ [1]] lies within the 40 digits *)
        cbn [flat_map app]. rewrite app_assoc.
        apply startsWith_zeros_false.
        -- rewrite !length_app, length_drop. cbn [length]. lia.
        -- exists 49%Z. split; [|discriminate].
           apply in_or_app. right. apply in_or_app. right. left. reflexivity.
      * (* a '1' of the next byte lies within the 40 digits *)
        apply Forall_cons in Hall as [[Hb' Hb0'] _].
        destruct (bits_of_byte_spec b' Hb') as [Hlen' _].
        cbn [flat_map]. rewrite <- app_assoc, app_assoc.
        apply startsWith_zeros_false.
        -- rewrite length_app, length_drop. lia.
        -- exists 49%Z. split; [|discriminate].
           apply in_or_app. right. apply bits_of_nonzero_byte; assumption.
Qed.

(** An ASCII string is its own UTF-8 encoding, and is well formed. *)
Lemma ascii_encoding (s : jsstring) :
  Forall (fun c => (1 <= c < 128)%Z) s ->
  TextEncoder_encode s = s /\ isWellFormed s = true.
Proof.
  induction 1 as [|c s Hc _ [IH1 IH2]]; [split; reflexivity|].
  cbn [TextEncoder_encode isWellFormed].
  unfold is_high_surrogate, is_low_surrogate, in_range, encode_scalar.
  decide_tests. cbn [andb negb app]. rewrite IH1, IH2. split; reflexivity.
Qed.

Lemma ascii_payload_bits (payload : jsstring) :
  Forall (fun c => (1 <= c < 128)%Z) payload ->
  textToBinary payload = flat_map bits_of_byte payload
  /\ Forall (fun b => byte b /\ b <> 0%Z) payload
  /\ binaryToText (flat_map bits_of_byte payload) = Ok payload.
Proof.
  intros Hascii. destruct (ascii_encoding payload Hascii) as [Henc Hwf].
  assert (textToBinary payload = flat_map bits_of_byte payload) as Hbits.
  { unfold textToBinary. rewrite Henc. reflexivity. }
  split; [exact Hbits|]. split.
  - eapply Forall_impl; [exact Hascii|]. intros c Hc. unfold byte.
    cbn beta in Hc |- *. lia.
  - rewrite <- Hbits. apply text_roundtrip; [exact Hwf|].
    destruct Hascii as [|c s Hc _]; [reflexivity|].
    cbn [startsWith]. destruct (Z.eqb_spec 65279 c); [lia | reflexivity].
Qed.

(** binaryToText drops the digits that do not make a byte. *)
Lemma binaryToText_whole_bytes (bytes : list Z) (w : jsstring) :
  Forall byte bytes -> length w < 8 ->
  binaryToText (flat_map bits_of_byte bytes ++ w) = binaryToText (flat_map bits_of_byte bytes).
Proof.
  intros Hb Hw. unfold binaryToText.
  assert (length (flat_map bits_of_byte bytes) = length bytes * 8) as Hlen.
  { apply flat_map_fields_length. eapply Forall_impl; [exact Hb|].
    intros x Hx. apply bits_of_byte_spec, Hx. }
  assert (length (flat_map bits_of_byte bytes ++ w) / 8 * 8 = length bytes * 8) as ->.
  { rewrite length_app, Hlen. rewrite Nat.add_comm, Nat.div_add by lia.
    rewrite (Nat.div_small (length w)) by exact Hw. reflexivity. }
  assert (length (flat_map bits_of_byte bytes) / 8 * 8 = length bytes * 8) as ->.
  { rewrite Hlen, Nat.div_mul by lia. reflexivity. }
  unfold substring. rewrite !drop_0, !Nat.sub_0_r, <- Hlen.
  rewrite take_app_length, firstn_all. reflexivity.
Qed.

Lemma removelast_last_char (payload : jsstring) :
  payload <> [] -> payload = removelast payload ++ [List.last payload 1%Z].
Proof. intros H. apply app_removelast_last, H. Qed.

(** Where the decoders stop, and what they have then. For an envelope of
    ASCII characters, none of them NUL, embedded as its bits and the
    terminator: the first 40 zeros begin after the last '1' of the
    payload bits, at a place [stop]; the bits before it decode to what
    [delivered] gives, the envelope itself when its last character has an
    odd code and the envelope without that character when it is even. *)
Lemma first_terminator (payload : jsstring) :
  payload <> [] -> Forall (fun c => (1 <= c < 128)%Z) payload ->
  let P := flat_map bits_of_byte payload in
  exists stop : nat,
    0 < stop <= length P
    /\ (Z.odd (List.last payload 1%Z) = true -> stop = length P)
    /\ (forall rest pos,
          indexOf_from (P ++ MESSAGE_TERMINATOR_BINARY ++ rest) MESSAGE_TERMINATOR_BINARY pos
          = Some (pos + stop))
    /\ (forall rest, take (stop + 40) (P ++ MESSAGE_TERMINATOR_BINARY ++ rest)
                     = take stop P ++ MESSAGE_TERMINATOR_BINARY)
    /\ binaryToText (take stop P) = Ok (delivered payload).
Proof.
  intros Hne Hascii P.
  destruct (ascii_payload_bits payload Hascii) as (_ & Hbytes & Htext).
  pose proof (removelast_last_char payload Hne) as Hsplit.
  set (init := removelast payload) in *. set (b := List.last payload 1%Z) in *.
  assert (Forall (fun c => (1 <= c < 128)%Z) init /\ (1 <= b < 128)%Z) as [Hinit Hb].
  { rewrite Hsplit in Hascii. apply Forall_app in Hascii as [H1 H2].
    apply Forall_cons in H2 as [H2 _]. split; assumption. }
  destruct (ascii_payload_bits init Hinit) as (_ & Hinit_bytes & Hinit_text).
  destruct (bits_of_byte_last_one b) as (body & z & Hbits & Hlen & Hz);
    [unfold byte; lia | lia |].
  assert (P = flat_map bits_of_byte init ++ (body ++ [49%Z]) ++ repeat 48%Z z) as HP.
  { unfold P. rewrite Hsplit at 1. rewrite flat_map_app. cbn [flat_map].
    rewrite app_nil_r, Hbits, <- app_assoc. reflexivity. }
  assert (length (flat_map bits_of_byte init) = length init * 8) as Hlen_init.
  { apply flat_map_fields_length. eapply Forall_impl; [exact Hinit_bytes|].
    intros x [Hx _]. apply bits_of_byte_spec, Hx. }
  set (Q := flat_map bits_of_byte init ++ (body ++ [49%Z])) in *.
  assert (P = Q ++ repeat 48%Z z) as HPQ by (rewrite HP; unfold Q; apply app_assoc).
  assert (length Q = length init * 8 + (length body + 1)) as HlenQ.
  { unfold Q. rewrite !length_app, Hlen_init. reflexivity. }
  assert (length P = length Q + z) as HlenP
    by (rewrite HPQ, length_app, repeat_length; reflexivity).
  assert (forall rest, P ++ MESSAGE_TERMINATOR_BINARY ++ rest
                       = Q ++ MESSAGE_TERMINATOR_BINARY ++ repeat 48%Z z ++ rest) as Hshape.
  { intros rest. rewrite HPQ, <- (app_assoc Q). f_equal.
    rewrite !app_assoc. f_equal. rewrite terminator_zeros. apply zeros_commute. }
  exists (length Q). split; [lia|]. split; [|split; [|split]].
  - intros Hodd. apply Hz in Hodd. lia.
  - intros rest pos. rewrite Hshape. unfold Q. rewrite <- app_assoc.
    rewrite indexOf_terminator_after_one.
    + rewrite !length_app. reflexivity.
    + exact Hinit_bytes.
    + lia.
  - intros rest. rewrite Hshape. rewrite take_app_ge by lia.
    rewrite HPQ, take_app_length. f_equal.
    replace (length Q + 40 - length Q) with (length MESSAGE_TERMINATOR_BINARY)
      by (rewrite terminator_zeros, repeat_length; lia).
    apply take_app_length.
  - rewrite HPQ, take_app_length. unfold delivered. fold b.
    destruct (Z.odd b) eqn:Hodd.
    + assert (z = 0) as -> by (apply Hz; reflexivity).
      cbn [repeat] in HPQ. rewrite app_nil_r in HPQ. rewrite <- HPQ. exact Htext.
    + assert (z <> 0) as Hz0 by (intros E; apply Hz in E; congruence).
      unfold Q. rewrite binaryToText_whole_bytes.
      * exact Hinit_text.
      * eapply Forall_impl; [exact Hinit_bytes|]. intros x [Hx _]. exact Hx.
      * rewrite length_app. cbn [length]. lia.
Qed.

(** With two characters or more, something is delivered. *)
Lemma delivered_nonempty (payload : jsstring) : 2 <= length payload -> delivered payload <> [].
Proof.
  intros Hlen. unfold delivered. destruct (Z.odd (List.last payload 1%Z)).
  - destruct payload; [cbn in Hlen; lia | discriminate].
  - destruct payload as [|a [|b rest]]; cbn in Hlen; try lia. discriminate.
Qed.

(** X1. Random-Dot, binary-string entry. For an envelope of at least two
    ASCII characters, none of them NUL, decryptRDMessageFromBinary calls
    cryptoDecrypt on what [delivered] gives of the envelope: the envelope
    itself when its last character has an odd code (the payload bits then
    end with '1'), and the envelope without its last character when that
    code is even. So the message comes back in the first case whenever
    decryption undoes encryption. *)
Theorem rd_binary_delivers
  (cryptoEncrypt cryptoDecrypt : jsstring -> jsstring -> result jsstring)
  (message password payload : jsstring) :
  message <> [] -> password <> [] -> length message <= MAX_MESSAGE_LENGTH_CHARS ->
  cryptoEncrypt message password = Ok payload ->
  2 <= length payload -> Forall (fun c => (1 <= c < 128)%Z) payload ->
  exists bits,
    encodeRDMessage_binary cryptoEncrypt message password = Ok (bits, payload)
    /\ decryptRDMessageFromBinary cryptoDecrypt bits password
       = cryptoDecrypt (delivered payload) password
    /\ (Z.odd (List.last payload 1%Z) = true ->
        cryptoDecrypt payload password = Ok message ->
        decryptRDMessageFromBinary cryptoDecrypt bits password = Ok message).
Proof.
  intros Hm Hp Hlen Henc Hpl Hascii.
  assert (payload <> []) as Hne by (destruct payload; [cbn in Hpl; lia | discriminate]).
  destruct (ascii_payload_bits payload Hascii) as (Hbits & Hbytes & Htext).
  destruct (first_terminator payload Hne Hascii)
    as (stop & Hstop & _ & Hindex & Htake & Hdelivered).
  exists (textToBinary payload ++ MESSAGE_TERMINATOR_BINARY).
  assert (decryptRDMessageFromBinary cryptoDecrypt
            (textToBinary payload ++ MESSAGE_TERMINATOR_BINARY) password
          = cryptoDecrypt (delivered payload) password) as Hrun.
  { unfold decryptRDMessageFromBinary. rewrite Hbits.
    destruct (Nat.eqb_spec (length (flat_map bits_of_byte payload
                                    ++ MESSAGE_TERMINATOR_BINARY)) 0) as [E|_].
    { rewrite length_app in E. lia. }
    assert ((length password =? 0) = false) as ->
      by (destruct password; [congruence | reflexivity]).
    unfold indexOf. specialize (Hindex [] 0). rewrite app_nil_r in Hindex.
    rewrite Hindex. cbn [Nat.add]. unfold substring. rewrite !drop_0, !Nat.sub_0_r.
    rewrite take_app_le by lia.
    rewrite length_take, Nat.min_l by lia.
    destruct (Nat.eqb_spec stop 0) as [E|_]; [lia|].
    rewrite Hdelivered.
    destruct (delivered payload) as [|c s] eqn:Ed; [|reflexivity].
    exfalso. apply (delivered_nonempty payload Hpl). exact Ed. }
  split; [|split; [exact Hrun|]].
  - unfold encodeRDMessage_binary.
    destruct message; [congruence|]. destruct password; [congruence|].
    cbn [length Nat.eqb].
    replace (MAX_MESSAGE_LENGTH_CHARS <? _) with false
      by (symmetry; apply Nat.ltb_ge; exact Hlen).
    rewrite Henc. reflexivity.
  - intros Hodd Hdec. rewrite Hrun. unfold delivered. rewrite Hodd. exact Hdec.
Qed.

Lemma rd_binary_delivers_witness :
  let payload := js "AAAAAAAAAAAAAAAAAAAAAA==:AAAAAAAAAAAAAAAA:AAAAAAAAAAAAAAAAAAAAAAAB" in
  let cut := js "AAAAAAAAAAAAAAAAAAAAAA==:AAAAAAAAAAAAAAAA:AAAAAAAAAAAAAAAAAAAAAAA" in
  let enc := fun _ _ : jsstring => Ok payload in
  let dec := fun s _ : jsstring =>
    if list_eqb s payload then Ok (js "hi") else Throw (err "Decryption failed.") in
  exists bits,
    encodeRDMessage_binary enc (js "hi") (js "pw") = Ok (bits, payload)
    /\ decryptRDMessageFromBinary dec bits (js "pw") = dec cut (js "pw").
Proof.
  intros payload cut enc dec.
  destruct (rd_binary_delivers enc dec (js "hi") (js "pw") payload)
    as (bits & He & Hd & _).
  - vm_compute. discriminate.
  - vm_compute. discriminate.
  - vm_compute. lia.
  - reflexivity.
  - vm_compute. lia.
  - apply Forall_forall. intros c Hc. apply list_elem_of_In in Hc.
    vm_compute in Hc. intuition (subst; lia).
  - exists bits. split; [exact He|]. rewrite Hd. reflexivity.
Defined.

End TerminatorFacts.

(** ** LSB: what is written is read back *)

Module LsbFacts.
Import JS Encoding Utils Constants Stego Vocabulary SerialFacts Utf8Facts TerminatorFacts.
#[local] Open Scope nat_scope.

Lemma channel_position_lt a b : a < b -> channel_position a < channel_position b.
Proof.
  intros H. unfold channel_position.
  pose proof (Nat.div_mod_eq a 3). pose proof (Nat.div_mod_eq b 3).
  pose proof (Nat.mod_upper_bound a 3). pose proof (Nat.mod_upper_bound b 3).
  lia.
Qed.

Lemma channel_position_pixel p j : j < 3 -> channel_position (3 * p + j) = 4 * p + j.
Proof.
  intros H. unfold channel_position.
  pose proof (Nat.div_mod_eq (3 * p + j) 3).
  pose proof (Nat.mod_upper_bound (3 * p + j) 3).
  lia.
Qed.

Lemma channel_position_bound i n : i < 3 * n -> channel_position i < 4 * n.
Proof.
  intros H. unfold channel_position.
  pose proof (Nat.div_mod_eq i 3). pose proof (Nat.mod_upper_bound i 3).
  lia.
Qed.

Lemma bits_of_byte_chars b : byte b -> Forall bit_char (bits_of_byte b).
Proof.
  intros Hb.
  assert (forallb (fun c => (c =? 48)%Z || (c =? 49)%Z) (bits_of_byte b) = true) as H.
  { revert b Hb. apply (forall_below 256). vm_compute. reflexivity. }
  rewrite forallb_forall in H. apply Forall_forall. intros c Hc.
  apply list_elem_of_In, H, orb_true_iff in Hc as [Hc|Hc]; apply Z.eqb_eq in Hc;
    [left | right]; exact Hc.
Qed.

(** One write of a bit into a byte, and what the decoder reads there. *)
Lemma write_then_read (x c : Z) :
  byte x -> bit_char c ->
  let v := clamp (or (and x 254) (parse_bit c)) in
  byte v /\ toString (and v 1) 10 = [c].
Proof.
  intros Hx Hc v.
  assert ((let w := clamp (or (and x 254) (parse_bit c)) in
           (0 <=? w)%Z && (w <? 256)%Z && list_eqb (toString (and w 1) 10) [c]) = true)
    as H.
  { clear v. destruct Hc as [-> | ->]; revert x Hx; apply (forall_below 256);
      vm_compute; reflexivity. }
  cbn zeta in H. fold v in H.
  apply andb_true_iff in H as [H H3]. apply andb_true_iff in H as [H1 H2].
  apply Z.leb_le in H1. apply Z.ltb_lt in H2. apply list_eqb_eq in H3.
  unfold byte. split; [lia | exact H3].
Qed.

Lemma typed_get_lookup (data : list Z) k : typed_get data k = default 0%Z (data !! k).
Proof. unfold typed_get. apply nth_lookup. Qed.

Lemma write_lsb_spec (data : list Z) k c :
  Forall byte data -> k < length data -> bit_char c ->
  let data1 := write_lsb data k (parse_bit c) in
  length data1 = length data
  /\ Forall byte data1
  /\ toString (and (typed_get data1 k) 1) 10 = [c]
  /\ forall p, p <> k -> typed_get data1 p = typed_get data p.
Proof.
  intros Hdata Hk Hc data1. unfold data1, write_lsb, typed_set.
  destruct (lookup_lt_is_Some_2 data k Hk) as [x Hx].
  assert (byte x) as Hbx.
  { rewrite Forall_forall in Hdata. apply Hdata. eapply list_elem_of_lookup_2, Hx. }
  assert (typed_get data k = x) as Hget by (rewrite typed_get_lookup, Hx; reflexivity).
  rewrite Hget.
  destruct (write_then_read x c Hbx Hc) as [Hv Hread].
  split; [apply length_insert|]. split.
  - apply Forall_insert; assumption.
  - split.
    + rewrite typed_get_lookup, list_lookup_insert_eq by exact Hk. exact Hread.
    + intros p Hp. rewrite !typed_get_lookup, list_lookup_insert_ne by congruence.
      reflexivity.
Qed.

Section Embedding.
Variable cryptoEncrypt cryptoDecrypt : jsstring -> jsstring -> result jsstring.

(** The embedding loop of encodeMessage, started at bit [i]: when the
    bits fit, it never throws, and afterwards the channel of each bit
    reads back that bit while the other bytes are as before. *)
Lemma lsb_write_spec (bits : jsstring) (i total : nat) (data : list Z) :
  Forall byte data -> Forall bit_char bits ->
  total = i + length bits -> total <= 3 * (length data / 4) ->
  exists data',
    lsb_write bits i (4 * (i / 3)) total data = (Ok tt, data')
    /\ length data' = length data
    /\ Forall byte data'
    /\ (forall k, k < length bits ->
          toString (and (typed_get data' (channel_position (i + k))) 1) 10
          = [nth k bits 48%Z])
    /\ (forall p, p < channel_position i -> typed_get data' p = typed_get data p).
Proof.
  revert i data. induction bits as [|c bits IH]; intros i data Hdata Hbits Htotal Hfit.
  - exists data. cbn [lsb_write length]. repeat split; try assumption.
    intros k Hk. lia.
  - apply Forall_cons in Hbits as [Hc Hbits]. cbn [length] in Htotal.
    pose proof (Nat.div_mod_eq (length data) 4) as Hd4.
    pose proof (Nat.mod_upper_bound (length data) 4 ltac:(lia)) as Hm4.
    assert (channel_position i < length data) as Hpos.
    { pose proof (channel_position_bound i (length data / 4)). lia. }
    destruct (write_lsb_spec data (channel_position i) c Hdata Hpos Hc)
      as (Hlen1 & Hdata1 & Hread1 & Hframe1).
    cbn [lsb_write]. fold (channel_position i).
    set (data1 := write_lsb data (channel_position i) (parse_bit c)) in *.
    assert ((if i mod 3 =? 2 then 4 * (i / 3) + 4 else 4 * (i / 3)) = 4 * (S i / 3)) as Hidx.
    { pose proof (Nat.div_mod_eq i 3). pose proof (Nat.mod_upper_bound i 3 ltac:(lia)).
      pose proof (Nat.div_mod_eq (S i) 3).
      pose proof (Nat.mod_upper_bound (S i) 3 ltac:(lia)).
      destruct (Nat.eqb_spec (i mod 3) 2); lia. }
    rewrite Hidx.
    assert (((length data1 <=? 4 * (S i / 3)) && (i <? total - 1)) = false) as Hno.
    { apply andb_false_iff. destruct (Nat.ltb_spec i (total - 1)); [left | right; reflexivity].
      apply Nat.leb_gt. rewrite Hlen1.
      pose proof (Nat.div_mod_eq (S i) 3).
      pose proof (Nat.mod_upper_bound (S i) 3 ltac:(lia)). lia. }
    rewrite Hno.
    destruct (IH (S i) data1 Hdata1 Hbits ltac:(lia) ltac:(rewrite Hlen1; lia))
      as (data' & Hrun & Hlen' & Hdata' & Hread' & Hframe').
    exists data'. split; [exact Hrun|]. split; [lia|]. split; [exact Hdata'|]. split.
    + intros [|k] Hk.
      * rewrite Nat.add_0_r. cbn [nth].
        rewrite Hframe' by (apply channel_position_lt; lia). exact Hread1.
      * cbn [nth]. replace (i + S k) with (S i + k) by lia. apply Hread'.
        cbn [length] in Hk. lia.
    + intros p Hp. rewrite Hframe'.
      * apply Hframe1. lia.
      * pose proof (channel_position_lt i (S i) ltac:(lia)). lia.
Qed.

End Embedding.

(** *** The scan for the terminator *)

Lemma indexOf_from_ge (s t : jsstring) pos r : indexOf_from s t pos = Some r -> pos <= r.
Proof.
  revert pos. induction s as [|c s IH]; intros pos; cbn [indexOf_from].
  - destruct (startsWith [] t); [|discriminate]. intros [= <-]. lia.
  - destruct (startsWith (c :: s) t); [intros [= <-]; lia|].
    intros H. apply IH in H. lia.
Qed.

Lemma indexOf_from_first (s t : jsstring) pos m :
  indexOf_from s t pos = Some (pos + m) ->
  forall k, k < m -> startsWith (drop k s) t = false.
Proof.
  revert pos m. induction s as [|c s IH]; intros pos m; cbn [indexOf_from].
  - destruct (startsWith [] t); [|discriminate]. intros [= E] k Hk. lia.
  - destruct (startsWith (c :: s) t) eqn:Hs; [intros [= E] k Hk; lia|].
    intros H [|k] Hk; [exact Hs|].
    pose proof (indexOf_from_ge _ _ _ _ H) as Hge.
    cbn [drop]. apply (IH (S pos) (m - 1)); [|lia].
    rewrite H. f_equal. lia.
Qed.

Section Extraction.
Variable cryptoDecrypt : jsstring -> jsstring -> result jsstring.
Variable scheme : scheme_messages.
Variable password : jsstring.
Variable data : list Z.
(** Where the n-th bit lies in the buffer. *)
Variable pos : nat -> nat.
Variable maxBitsToRead : nat.
(** The bit string that was embedded, and the place in it where the
    first 40 zeros begin. *)
Variable B : jsstring.
Variable stop : nat.
Variable R : result jsstring.
Hypothesis stop_inside : stop + 40 <= length B.
Hypothesis not_before : forall k, k < stop ->
  startsWith (drop k B) MESSAGE_TERMINATOR_BINARY = false.
Hypothesis at_the_end :
  on_terminator cryptoDecrypt scheme (take (stop + 40) B) password = Some R.

(** Before 40 bits past [stop] have been read, the last 40 bits are not
    the terminator. *)
Lemma on_terminator_prefix m :
  m < stop + 40 -> on_terminator cryptoDecrypt scheme (take m B) password = None.
Proof using stop_inside not_before.
  intros Hm. unfold on_terminator.
  rewrite length_take, (Nat.min_l m (length B)) by lia.
  replace (length MESSAGE_TERMINATOR_BINARY) with 40 by reflexivity.
  destruct (Nat.leb_spec 40 m) as [H40|H40]; [|reflexivity].
  unfold endsWith. rewrite length_take, (Nat.min_l m (length B)) by lia.
  replace (length MESSAGE_TERMINATOR_BINARY) with 40 by reflexivity.
  destruct (list_eqb (drop (m - 40) (take m B)) MESSAGE_TERMINATOR_BINARY) eqn:E;
    [|rewrite andb_false_r; reflexivity].
  exfalso. apply list_eqb_eq in E.
  pose proof (not_before (m - 40) ltac:(lia)) as Hno.
  rewrite <- (take_drop m B) in Hno at 1.
  rewrite drop_app_le in Hno by (rewrite length_take; lia).
  rewrite E, startsWith_refl_app in Hno. discriminate.
Qed.

(** The n-th bit read is the n-th bit embedded. *)
Hypothesis read : reads_back data pos B.
Hypothesis fits : stop + 40 <= maxBitsToRead.

Lemma read_channel_step n :
  n < stop + 40 ->
  read_channel cryptoDecrypt scheme data maxBitsToRead password (pos n) (take n B, n)
  = if S n =? stop + 40 then Return R else Continue (take (S n) B, S n).
Proof using stop_inside not_before at_the_end fits read.
  intros Hn. unfold read_channel.
  destruct (Nat.leb_spec maxBitsToRead n) as [Hmax|_]; [lia|].
  pose proof (read n ltac:(lia)) as Hbit. unfold lsb_read in Hbit. rewrite Hbit.
  assert (take n B ++ [nth n B 48%Z] = take (S n) B) as ->.
  { symmetry. apply take_S_r.
    destruct (nth_lookup_or_length B n 48%Z) as [H|H]; [exact H | lia]. }
  destruct (Nat.eqb_spec (S n) (stop + 40)) as [E|E].
  - rewrite E, at_the_end. reflexivity.
  - rewrite on_terminator_prefix by lia. reflexivity.
Qed.

(** One pixel: its three channels at [base], starting at bit 3p. *)
Lemma channel_loop_pixel p base :
  (forall j, j < 3 -> base + j = pos (3 * p + j)) ->
  3 * p < stop + 40 ->
  channel_loop cryptoDecrypt scheme data maxBitsToRead password base [0; 1; 2]
    (take (3 * p) B, 3 * p)
  = if stop + 40 <=? 3 * p + 3 then Return R
    else Continue (take (3 * p + 3) B, 3 * p + 3).
Proof using stop_inside not_before at_the_end fits read.
  intros Hbase Hp. cbn [channel_loop].
  rewrite (Hbase 0), (Hbase 1), (Hbase 2) by lia.
  rewrite Nat.add_0_r.
  rewrite read_channel_step by lia.
  destruct (Nat.eqb_spec (S (3 * p)) (stop + 40)) as [E1|E1].
  { destruct (Nat.leb_spec (stop + 40) (3 * p + 3)); [reflexivity | lia]. }
  replace (S (3 * p)) with (3 * p + 1) by lia.
  rewrite read_channel_step by lia.
  destruct (Nat.eqb_spec (S (3 * p + 1)) (stop + 40)) as [E2|E2].
  { destruct (Nat.leb_spec (stop + 40) (3 * p + 3)); [reflexivity | lia]. }
  replace (S (3 * p + 1)) with (3 * p + 2) by lia.
  rewrite read_channel_step by lia.
  destruct (Nat.eqb_spec (S (3 * p + 2)) (stop + 40)) as [E3|E3].
  { destruct (Nat.leb_spec (stop + 40) (3 * p + 3)); [reflexivity | lia]. }
  replace (S (3 * p + 2)) with (3 * p + 3) by lia.
  destruct (Nat.leb_spec (stop + 40) (3 * p + 3)); [lia | reflexivity].
Qed.

End Extraction.

(** The pixel loop of decodeMessage finds the terminator within the
    pixels that carry the embedded string. *)
Lemma lsb_pixel_loop_finds cryptoDecrypt (password : jsstring) (data : list Z)
  (maxBitsToRead : nat) (B : jsstring) (stop : nat) (R : result jsstring) :
  stop + 40 <= length B ->
  (forall k, k < stop -> startsWith (drop k B) MESSAGE_TERMINATOR_BINARY = false) ->
  on_terminator cryptoDecrypt LSB_messages (take (stop + 40) B) password = Some R ->
  reads_back data channel_position B ->
  stop + 40 <= maxBitsToRead ->
  forall n p, 3 * p < stop + 40 -> stop + 40 <= 3 * (p + n) ->
    lsb_pixel_loop cryptoDecrypt data maxBitsToRead password n (4 * p) (take (3 * p) B, 3 * p)
    = Some R.
Proof.
  intros Hin Hno Hend Hread Hfit. induction n as [|n IH]; intros p Hp Hn; [lia|].
  cbn [lsb_pixel_loop].
  rewrite (channel_loop_pixel cryptoDecrypt LSB_messages password data channel_position
             maxBitsToRead B stop R Hin Hno Hend Hread Hfit p (4 * p)
             ltac:(intros j Hj; symmetry; apply channel_position_pixel; exact Hj) Hp).
  destruct (Nat.leb_spec (stop + 40) (3 * p + 3)) as [H|H]; [reflexivity|].
  cbn [snd]. destruct (Nat.leb_spec maxBitsToRead (3 * p + 3)) as [H'|_]; [lia|].
  replace (4 * p + 4) with (4 * (p + 1)) by lia.
  replace (3 * p + 3) with (3 * (p + 1)) by lia.
  apply IH; lia.
Qed.

Lemma terminator_bits : Forall bit_char MESSAGE_TERMINATOR_BINARY.
Proof. rewrite terminator_zeros. apply List.Forall_forall. intros c Hc.
  apply repeat_spec in Hc. left. exact Hc. Qed.

Lemma payload_bits_chars (bytes : list Z) :
  Forall byte bytes -> Forall bit_char (flat_map bits_of_byte bytes).
Proof.
  induction 1 as [|b bs Hb _ IH]; [constructor|].
  cbn [flat_map]. apply Forall_app. split; [apply bits_of_byte_chars; exact Hb | exact IH].
Qed.

Lemma endsWith_app (s t : jsstring) : endsWith (s ++ t) t = true.
Proof.
  unfold endsWith. rewrite length_app.
  replace (length s + length t - length t) with (length s) by lia.
  rewrite drop_app_length.
  destruct (Nat.leb_spec (length t) (length s + length t)) as [_|H]; [|lia].
  apply list_eqb_eq. reflexivity.
Qed.

(** The bit string the encoders embed for an envelope of two or more
    ASCII characters, none of them NUL: the terminator occurs in it first
    at a place [stop], and what the decoders have read 40 bits later
    makes them hand to cryptoDecrypt what [delivered] gives. *)
Lemma embedded_string cryptoDecrypt (scheme : scheme_messages)
  (payload password : jsstring) :
  2 <= length payload -> Forall (fun c => (1 <= c < 128)%Z) payload ->
  let P := flat_map bits_of_byte payload in
  let B := P ++ MESSAGE_TERMINATOR_BINARY in
  textToBinary payload = P
  /\ length B = 8 * length payload + 40
  /\ Forall bit_char B
  /\ exists stop : nat,
       stop + 40 <= length B
       /\ (forall k, k < stop -> startsWith (drop k B) MESSAGE_TERMINATOR_BINARY = false)
       /\ on_terminator cryptoDecrypt scheme (take (stop + 40) B) password
          = Some (cryptoDecrypt (delivered payload) password).
Proof.
  intros Hpl Hascii P B.
  assert (payload <> []) as Hne by (destruct payload; [cbn in Hpl; lia | discriminate]).
  destruct (ascii_payload_bits payload Hascii) as (Hbits & Hbytes & Htext).
  fold P in Hbits, Htext.
  assert (Forall byte payload) as Hpb.
  { eapply Forall_impl; [exact Hbytes|]. intros b [Hb _]. exact Hb. }
  assert (length P = 8 * length payload) as HlenP.
  { unfold P. rewrite (flat_map_fields_length 8); [lia|].
    eapply Forall_impl; [exact Hpb|]. intros b Hb. apply bits_of_byte_spec. exact Hb. }
  assert (length B = length P + 40) as HlenB.
  { unfold B. rewrite length_app. reflexivity. }
  destruct (first_terminator payload Hne Hascii)
    as (stop & Hstop & _ & Hindex & Htake & Hdelivered).
  fold P in Hstop, Hindex, Htake, Hdelivered.
  specialize (Hindex [] 0). specialize (Htake []). rewrite app_nil_r in Hindex, Htake.
  fold B in Hindex, Htake.
  split; [exact Hbits|]. split; [lia|]. split.
  { unfold B. apply Forall_app.
    split; [apply payload_bits_chars; exact Hpb | apply terminator_bits]. }
  exists stop. split; [lia|]. split.
  - apply (indexOf_from_first B MESSAGE_TERMINATOR_BINARY 0). exact Hindex.
  - rewrite Htake. unfold on_terminator.
    assert (length (take stop P) = stop) as Hlt by (rewrite length_take; lia).
    rewrite length_app, Hlt.
    replace (length MESSAGE_TERMINATOR_BINARY) with 40 by reflexivity.
    destruct (Nat.leb_spec 40 (stop + 40)) as [_|H]; [|lia].
    rewrite endsWith_app. cbn [andb].
    replace (substring (take stop P ++ MESSAGE_TERMINATOR_BINARY) 0 (stop + 40 - 40))
      with (take stop P).
    2:{ unfold substring. rewrite drop_0, Nat.sub_0_r.
        replace (stop + 40 - 40) with (length (take stop P)) by lia.
        rewrite take_app_length. reflexivity. }
    rewrite Hlt. destruct (Nat.eqb_spec stop 0) as [E|_]; [lia|].
    rewrite Hdelivered.
    destruct (delivered payload) as [|c s] eqn:Ed; [|reflexivity].
    exfalso. apply (delivered_nonempty payload Hpl). exact Ed.
Qed.

(** X2. The LSB service. For an envelope of two or more ASCII characters,
    none of them NUL, on a canvas that is large enough, encodeMessage
    succeeds and decodeMessage calls cryptoDecrypt on what [delivered]
    gives of the envelope: the envelope itself when its last character
    has an odd code, the envelope without its last character when that
    code is even. So the message comes back in the first case whenever
    decryption undoes encryption. *)
Theorem lsb_delivers
  (cryptoEncrypt cryptoDecrypt : jsstring -> jsstring -> result jsstring)
  (cv : canvas) (message password payload : jsstring) :
  message <> [] -> password <> [] -> length message <= MAX_MESSAGE_LENGTH_CHARS ->
  cryptoEncrypt message password = Ok payload ->
  2 <= length payload -> Forall (fun c => (1 <= c < 128)%Z) payload ->
  Forall byte (pixels cv) ->
  8 * length payload + 40 <= length (pixels cv) / 4 * 3 ->
  exists e,
    fst (encodeMessage cryptoEncrypt (Some cv) message password) = Ok e
    /\ encryptedPayload e = payload
    /\ length (pixels (carrier e)) = length (pixels cv)
    /\ decodeMessage cryptoDecrypt (Some (carrier e)) password
       = cryptoDecrypt (delivered payload) password
    /\ (Z.odd (List.last payload 1%Z) = true ->
        cryptoDecrypt payload password = Ok message ->
        decodeMessage cryptoDecrypt (Some (carrier e)) password = Ok message).
Proof.
  intros Hm Hp Hlen Henc Hpl Hascii Hpix Hcap.
  destruct (embedded_string cryptoDecrypt LSB_messages payload password Hpl Hascii)
    as (Hbits & HlenB & HBchars & stop & Hin & Hno & Hend).
  set (P := flat_map bits_of_byte payload) in *.
  set (B := P ++ MESSAGE_TERMINATOR_BINARY) in *.
  destruct (lsb_write_spec B 0 (length B) (pixels cv) Hpix HBchars eq_refl ltac:(lia))
    as (data' & Hwrite & Hlen' & Hbyte' & Hread & _).
  change (4 * (0 / 3)) with 0 in Hwrite.
  exists (Encoded (Canvas (width cv) (height cv) data') payload).
  assert (decodeMessage cryptoDecrypt (Some (Canvas (width cv) (height cv) data')) password
          = cryptoDecrypt (delivered payload) password) as Hrun.
  { unfold decodeMessage.
    assert ((length password =? 0) = false) as ->
      by (destruct password; [congruence | reflexivity]).
    cbn [carrier pixels]. cbv zeta.
    pose proof (lsb_pixel_loop_finds cryptoDecrypt password data' (length data' / 4 * 3)
                  B stop _ Hin Hno Hend Hread ltac:(rewrite Hlen'; lia)
                  ((length data' + 3) / 4) 0 ltac:(lia)) as Hloop.
    change (4 * 0) with 0 in Hloop. change (3 * 0) with 0 in Hloop.
    rewrite take_0 in Hloop. rewrite Hloop; [reflexivity|].
    rewrite Hlen'.
    pose proof (Nat.div_mod_eq (length (pixels cv)) 4).
    pose proof (Nat.div_mod_eq (length (pixels cv) + 3) 4).
    pose proof (Nat.mod_upper_bound (length (pixels cv)) 4 ltac:(lia)).
    pose proof (Nat.mod_upper_bound (length (pixels cv) + 3) 4 ltac:(lia)).
    lia. }
  split; [|split; [reflexivity|split; [exact Hlen'|split; [exact Hrun|]]]].
  - unfold encodeMessage.
    destruct message; [congruence|]. destruct password; [congruence|].
    cbn [length Nat.eqb].
    replace (MAX_MESSAGE_LENGTH_CHARS <? _) with false
      by (symmetry; apply Nat.ltb_ge; exact Hlen).
    rewrite Henc, Hbits. fold B. cbv zeta.
    destruct (Nat.ltb_spec (length (pixels cv) / 4 * 3) (length B)) as [H|_]; [lia|].
    rewrite Hwrite. reflexivity.
  - intros Hodd Hdec. cbn [carrier]. rewrite Hrun. unfold delivered. rewrite Hodd. exact Hdec.
Qed.

Lemma lsb_delivers_witness :
  let cv := Canvas 20 10 (repeat 200%Z 800) in
  exists e,
    fst (encodeMessage toy_cryptoEncrypt (Some cv) (js "hi") (js "pw")) = Ok e
    /\ encryptedPayload e = js "CzBVep/E6Q4zWH2ix+wRNg==:W4Clyu8UOV6DqM3y:aGkICAgICAgICAgICAgICAgI"
    /\ length (pixels (carrier e)) = 800
    /\ decodeMessage toy_cryptoDecrypt (Some (carrier e)) (js "pw") = Ok (js "hi").
Proof.
  intros cv.
  destruct (lsb_delivers toy_cryptoEncrypt toy_cryptoDecrypt cv (js "hi") (js "pw")
              (js "CzBVep/E6Q4zWH2ix+wRNg==:W4Clyu8UOV6DqM3y:aGkICAgICAgICAgICAgICAgI"))
    as (e & He & Hp & Hl & _ & Hd).
  - vm_compute. discriminate.
  - vm_compute. discriminate.
  - vm_compute. lia.
  - vm_compute. reflexivity.
  - vm_compute. lia.
  - apply Forall_forall. intros c Hc. apply list_elem_of_In in Hc.
    vm_compute in Hc. intuition (subst; lia).
  - apply Forall_forall. intros c Hc. apply list_elem_of_In in Hc.
    apply repeat_spec in Hc. subst c. unfold byte. lia.
  - vm_compute. lia.
  - exists e. split; [exact He|]. split; [exact Hp|]. split; [exact Hl|].
    apply Hd; vm_compute; reflexivity.
Defined.

End LsbFacts.

(** ** Pattern LSB and MD5 Pattern LSB: what is written is read back *)

Module PatternFacts.
Import JS Encoding Utils Constants Stego Vocabulary SerialFacts ShuffleFacts
  TerminatorFacts LsbFacts.
#[local] Open Scope nat_scope.

Lemma pattern_position_head o order k : k < 3 -> pattern_position (o :: order) k = o * 4 + k.
Proof.
  intros Hk. unfold pattern_position.
  rewrite (Nat.div_small k 3), (Nat.mod_small k 3) by lia. reflexivity.
Qed.

Lemma pattern_position_tail o order k :
  3 <= k -> pattern_position (o :: order) k = pattern_position order (k - 3).
Proof.
  intros Hk. unfold pattern_position.
  pose proof (Nat.div_mod_eq k 3). pose proof (Nat.mod_upper_bound k 3 ltac:(lia)).
  pose proof (Nat.div_mod_eq (k - 3) 3).
  pose proof (Nat.mod_upper_bound (k - 3) 3 ltac:(lia)).
  assert (k / 3 = S ((k - 3) / 3)) as -> by lia.
  assert (k mod 3 = (k - 3) mod 3) as -> by lia.
  reflexivity.
Qed.

(** The channel loop of the encoder at one pixel. *)
Lemma pattern_write_channels_spec (start : nat) (bits : jsstring) (data : list Z) :
  Forall byte data -> Forall bit_char bits -> start + 3 <= length data ->
  exists data',
    pattern_write_channels [0; 1; 2] start bits data = (drop 3 bits, data')
    /\ length data' = length data
    /\ Forall byte data'
    /\ (forall j, j < 3 -> j < length bits -> lsb_read data' (start + j) = [nth j bits 48%Z])
    /\ (forall q, q < start \/ start + 3 <= q -> typed_get data' q = typed_get data q).
Proof.
  intros Hdata Hbits Hfit. unfold lsb_read.
  destruct bits as [|a bits].
  { exists data. cbn. repeat split; try assumption. intros j _ Hj. lia. }
  apply Forall_cons in Hbits as [Ha Hbits].
  destruct (write_lsb_spec data (start + 0) a Hdata ltac:(lia) Ha)
    as (Hlen0 & Hd0 & Hr0 & Hf0).
  set (d0 := write_lsb data (start + 0) (parse_bit a)) in *.
  destruct bits as [|b bits].
  { exists d0. cbn [pattern_write_channels drop]. repeat split; try assumption.
    - intros [|j] _ Hj; [exact Hr0 | cbn [length] in Hj; lia].
    - intros q Hq. apply Hf0. lia. }
  apply Forall_cons in Hbits as [Hb Hbits].
  destruct (write_lsb_spec d0 (start + 1) b Hd0 ltac:(lia) Hb)
    as (Hlen1 & Hd1 & Hr1 & Hf1).
  set (d1 := write_lsb d0 (start + 1) (parse_bit b)) in *.
  destruct bits as [|c bits].
  { exists d1. cbn [pattern_write_channels drop]. repeat split; try assumption; [lia| |].
    - intros [|[|j]] _ Hj; cbn [nth length] in *; [|exact Hr1|lia].
      rewrite Hf1 by lia. exact Hr0.
    - intros q Hq. rewrite Hf1 by lia. apply Hf0. lia. }
  apply Forall_cons in Hbits as [Hc Hbits].
  destruct (write_lsb_spec d1 (start + 2) c Hd1 ltac:(lia) Hc)
    as (Hlen2 & Hd2 & Hr2 & Hf2).
  set (d2 := write_lsb d1 (start + 2) (parse_bit c)) in *.
  exists d2. cbn [pattern_write_channels drop]. repeat split; try assumption; [lia| |].
  - intros [|[|[|j]]] Hj _; cbn [nth] in *; [| |exact Hr2|lia].
    + rewrite Hf2, Hf1 by lia. exact Hr0.
    + rewrite Hf2 by lia. exact Hr1.
  - intros q Hq. rewrite Hf2, Hf1 by lia. apply Hf0. lia.
Qed.

(** The embedding loop of the pattern encoders over a pixel order without
    repetition: every bit is written, and afterwards the place of each
    bit reads back that bit. *)
Lemma pattern_write_spec (order : list nat) :
  forall (bits : jsstring) (data : list Z),
  NoDup order -> Forall (fun o => o * 4 + 3 <= length data) order ->
  Forall byte data -> Forall bit_char bits ->
  length bits <= 3 * length order ->
  exists data',
    pattern_write order bits data = ([], data')
    /\ length data' = length data
    /\ Forall byte data'
    /\ (forall k, k < length bits ->
          lsb_read data' (pattern_position order k) = [nth k bits 48%Z])
    /\ (forall q, (forall o, o ∈ order -> q < o * 4 \/ o * 4 + 3 <= q) ->
          typed_get data' q = typed_get data q).
Proof.
  induction order as [|o order IH]; intros bits data Hnd Hin Hdata Hbits Hlen.
  - destruct bits as [|c bits]; [|cbn [length] in Hlen; lia].
    exists data. cbn. repeat split; try assumption. intros k Hk. lia.
  - destruct bits as [|c bits'] eqn:Ebits.
    { exists data. cbn. repeat split; try assumption. intros k Hk. lia. }
    rewrite <- Ebits in *.
    assert (pattern_write (o :: order) bits data
            = let '(bits', data') := pattern_write_channels [0; 1; 2] (o * 4) bits data in
              pattern_write order bits' data') as Hstep
      by (rewrite Ebits; reflexivity).
    apply NoDup_cons in Hnd as [Ho Hnd]. apply Forall_cons in Hin as [Hfit Hin].
    destruct (pattern_write_channels_spec (o * 4) bits data Hdata Hbits Hfit)
      as (d1 & Hrun1 & Hlen1 & Hd1 & Hr1 & Hf1).
    rewrite Hrun1 in Hstep.
    destruct (IH (drop 3 bits) d1 Hnd) as (data' & Hrun & Hlen' & Hd' & Hr' & Hf').
    { rewrite Hlen1. exact Hin. }
    { exact Hd1. }
    { apply Forall_drop. exact Hbits. }
    { rewrite length_drop. cbn [length] in Hlen. lia. }
    exists data'. rewrite Hstep. split; [exact Hrun|]. split; [lia|].
    split; [exact Hd'|]. split.
    + intros k Hk. destruct (Nat.lt_ge_cases k 3) as [Hk3|Hk3].
      * rewrite pattern_position_head by exact Hk3. unfold lsb_read.
        rewrite Hf'; [apply Hr1; assumption|].
        intros o' Ho'. assert (o' <> o) by (intros ->; contradiction). lia.
      * rewrite pattern_position_tail by exact Hk3.
        rewrite Hr' by (rewrite length_drop; lia).
        f_equal. rewrite <- (take_drop 3 bits) at 2.
        rewrite app_nth2 by (rewrite length_take; lia).
        rewrite length_take. f_equal. lia.
    + intros q Hq. rewrite Hf'.
      * apply Hf1. specialize (Hq o ltac:(left)). lia.
      * intros o' Ho'. apply Hq. right. exact Ho'.
Qed.

(** The pixel loop of the pattern decoders finds the terminator within the
    pixels that carry the embedded string. *)
Lemma pattern_pixel_loop_finds cryptoDecrypt (scheme : scheme_messages)
  (password : jsstring) (data : list Z) (order : list nat)
  (maxBitsToRead : nat) (B : jsstring) (stop : nat) (R : result jsstring) :
  stop + 40 <= length B ->
  (forall k, k < stop -> startsWith (drop k B) MESSAGE_TERMINATOR_BINARY = false) ->
  on_terminator cryptoDecrypt scheme (take (stop + 40) B) password = Some R ->
  reads_back data (pattern_position order) B ->
  stop + 40 <= maxBitsToRead ->
  stop + 40 <= 3 * length order ->
  forall rest p, drop p order = rest -> 3 * p < stop + 40 ->
    pattern_pixel_loop cryptoDecrypt scheme data maxBitsToRead password rest
      (take (3 * p) B, 3 * p)
    = Some R.
Proof.
  intros Hin Hno Hend Hread Hfit Hcap.
  induction rest as [|o rest IH]; intros p Hdrop Hp.
  - apply drop_nil_inv in Hdrop. lia.
  - cbn [pattern_pixel_loop snd].
    destruct (Nat.leb_spec maxBitsToRead (3 * p)) as [H|_]; [lia|].
    assert (nth p order 0 = o) as Hnth.
    { rewrite <- (take_drop p order), Hdrop.
      assert (length (take p order) = p) as Hlt.
      { rewrite length_take. apply Nat.min_l.
        assert (length (drop p order) = S (length rest)) as H by (rewrite Hdrop; reflexivity).
        rewrite length_drop in H. lia. }
      rewrite app_nth2 by lia. rewrite Hlt, Nat.sub_diag. reflexivity. }
    rewrite (channel_loop_pixel cryptoDecrypt scheme password data (pattern_position order)
               maxBitsToRead B stop R Hin Hno Hend Hread Hfit p (o * 4)); [| |exact Hp].
    2:{ intros j Hj. unfold pattern_position.
        pose proof (Nat.div_mod_eq (3 * p + j) 3).
        pose proof (Nat.mod_upper_bound (3 * p + j) 3 ltac:(lia)).
        assert ((3 * p + j) / 3 = p) as -> by lia.
        assert ((3 * p + j) mod 3 = j) as -> by lia.
        rewrite Hnth. reflexivity. }
    destruct (Nat.leb_spec (stop + 40) (3 * p + 3)) as [H|H]; [reflexivity|].
    cbn [snd]. destruct (Nat.leb_spec maxBitsToRead (3 * p + 3)) as [H'|_]; [lia|].
    replace (3 * p + 3) with (3 * (p + 1)) by lia.
    apply IH; [|lia].
    rewrite <- drop_drop, Hdrop. reflexivity.
Qed.

(** The pixel order of the two services: every pixel of the image once. *)
Lemma pixel_order (n : nat) (seed : Z) :
  let order := seededShuffle (indices n) seed in
  NoDup order /\ length order = n /\ Forall (fun o => o < n) order.
Proof.
  intros order.
  assert (order ≡ₚ indices n) as Hperm by apply shuffle_loop_perm.
  split; [rewrite Hperm; apply indices_NoDup|].
  split; [rewrite Hperm; unfold indices; apply length_seq|].
  rewrite Hperm. apply Forall_forall. intros x Hx.
  unfold indices in Hx. apply list_elem_of_In, in_seq in Hx. lia.
Qed.

(** X3. The Pattern LSB and MD5 Pattern LSB services (the same code up to
    the seed function and the name in the messages). For an envelope of
    two or more ASCII characters, none of them NUL, on an image with four
    bytes to the pixel that is large enough, the encoder succeeds and the
    decoder, given the same stego key, calls cryptoDecrypt on what
    [delivered] gives of the envelope: the envelope itself when its last
    character has an odd code, the envelope without its last character
    when that code is even. So the message comes back in the first case
    whenever decryption undoes encryption. *)
Theorem pattern_delivers
  (cryptoEncrypt cryptoDecrypt : jsstring -> jsstring -> result jsstring)
  (scheme : string) (seedOf : jsstring -> Z)
  (cv : canvas) (message stegoKey password payload : jsstring) :
  message <> [] -> stegoKey <> [] -> password <> [] ->
  length message <= MAX_MESSAGE_LENGTH_CHARS ->
  cryptoEncrypt message password = Ok payload ->
  2 <= length payload -> Forall (fun c => (1 <= c < 128)%Z) payload ->
  Forall byte (pixels cv) ->
  length (pixels cv) = width cv * height cv * 4 ->
  8 * length payload + 40 <= width cv * height cv * 3 ->
  exists e,
    fst (encodePattern cryptoEncrypt scheme seedOf (Some cv) message stegoKey password) = Ok e
    /\ encryptedPayload e = payload
    /\ length (pixels (carrier e)) = length (pixels cv)
    /\ decodePattern cryptoDecrypt scheme seedOf (Some (carrier e)) stegoKey password
       = cryptoDecrypt (delivered payload) password
    /\ (Z.odd (List.last payload 1%Z) = true ->
        cryptoDecrypt payload password = Ok message ->
        decodePattern cryptoDecrypt scheme seedOf (Some (carrier e)) stegoKey password
        = Ok message).
Proof.
  intros Hm Hk Hp Hlen Henc Hpl Hascii Hpix Hsize Hcap.
  destruct (embedded_string cryptoDecrypt (pattern_messages scheme) payload password
              Hpl Hascii) as (Hbits & HlenB & HBchars & stop & Hin & Hno & Hend).
  set (P := flat_map bits_of_byte payload) in *.
  set (B := P ++ MESSAGE_TERMINATOR_BINARY) in *.
  set (N := width cv * height cv) in *.
  destruct (pixel_order N (seedOf stegoKey)) as (Hnd & Hlo & Hrange).
  set (order := seededShuffle (indices N) (seedOf stegoKey)) in *.
  destruct (pattern_write_spec order B (pixels cv) Hnd) as (data' & Hwrite & Hlen' & _ & Hread & _).
  { eapply Forall_impl; [exact Hrange|]. intros o Ho. cbn beta in *. lia. }
  { exact Hpix. }
  { exact HBchars. }
  { lia. }
  exists (Encoded (Canvas (width cv) (height cv) data') payload).
  assert (decodePattern cryptoDecrypt scheme seedOf
            (Some (Canvas (width cv) (height cv) data')) stegoKey password
          = cryptoDecrypt (delivered payload) password) as Hrun.
  { unfold decodePattern.
    assert ((length stegoKey =? 0) = false) as ->
      by (destruct stegoKey; [congruence | reflexivity]).
    assert ((length password =? 0) = false) as ->
      by (destruct password; [congruence | reflexivity]).
    cbn [carrier pixels width height]. cbv zeta. fold N. fold order.
    pose proof (pattern_pixel_loop_finds cryptoDecrypt (pattern_messages scheme) password
                  data' order (N * 3) B stop _ Hin Hno Hend Hread
                  ltac:(lia) ltac:(lia) order 0 eq_refl ltac:(lia)) as Hloop.
    change (3 * 0) with 0 in Hloop. rewrite take_0 in Hloop.
    rewrite Hloop. reflexivity. }
  split; [|split; [reflexivity|split; [exact Hlen'|split; [exact Hrun|]]]].
  - unfold encodePattern.
    destruct message; [congruence|]. destruct stegoKey; [congruence|].
    destruct password; [congruence|].
    cbn [length Nat.eqb].
    replace (MAX_MESSAGE_LENGTH_CHARS <? _) with false
      by (symmetry; apply Nat.ltb_ge; exact Hlen).
    rewrite Henc, Hbits. fold B. cbv zeta. fold N.
    destruct (Nat.ltb_spec (N * 3) (length B)) as [H|_]; [lia|].
    fold order. rewrite Hwrite. reflexivity.
  - intros Hodd Hdec. cbn [carrier]. rewrite Hrun. unfold delivered. rewrite Hodd. exact Hdec.
Qed.

Lemma pattern_delivers_witness :
  let cv := Canvas 20 10 (repeat 200%Z 800) in
  exists e,
    fst (encodeMessagePatternLSB toy_cryptoEncrypt (Some cv) (js "hi") (js "key") (js "pw"))
    = Ok e
    /\ encryptedPayload e = js "CzBVep/E6Q4zWH2ix+wRNg==:W4Clyu8UOV6DqM3y:aGkICAgICAgICAgICAgICAgI"
    /\ length (pixels (carrier e)) = 800
    /\ decodeMessagePatternLSB toy_cryptoDecrypt (Some (carrier e)) (js "key") (js "pw")
       = Ok (js "hi").
Proof.
  intros cv.
  destruct (pattern_delivers toy_cryptoEncrypt toy_cryptoDecrypt "Pattern LSB" stringToSeed
              cv (js "hi") (js "key") (js "pw")
              (js "CzBVep/E6Q4zWH2ix+wRNg==:W4Clyu8UOV6DqM3y:aGkICAgICAgICAgICAgICAgI"))
    as (e & He & Hp & Hl & _ & Hd).
  - vm_compute. discriminate.
  - vm_compute. discriminate.
  - vm_compute. discriminate.
  - vm_compute. lia.
  - vm_compute. reflexivity.
  - vm_compute. lia.
  - apply Forall_forall. intros c Hc. apply list_elem_of_In in Hc.
    vm_compute in Hc. intuition (subst; lia).
  - apply Forall_forall. intros c Hc. apply list_elem_of_In in Hc.
    apply repeat_spec in Hc. subst c. unfold byte. lia.
  - vm_compute. reflexivity.
  - vm_compute. lia.
  - exists e. split; [exact He|]. split; [exact Hp|]. split; [exact Hl|].
    apply Hd; vm_compute; reflexivity.
Defined.

End PatternFacts.

(** ** The password search: cancellation, and the number of candidates *)

Module SearchFacts.
Import JS Encoding Utils HashCracker SerialFacts Vocabulary CrackerFacts BruteForceFacts.
#[local] Open Scope nat_scope.

Lemma full_batches_S total from d :
  full_batches total from (S d)
  = Progress (S from * BATCH_SIZE) total :: full_batches total (S from) d.
Proof. reflexivity. Qed.

(** The batches of crackMD5 up to a cancellation: [d] more batches run
    and find nothing, then the signal is found aborted. *)
Lemma crack_batches_cancelled (signal : nat -> bool) (targetHash : jsstring)
  (words : list jsstring) (d : nat) :
  forall (fuel k : nat) (reports : list progress),
  d < fuel ->
  (forall j, j < d -> signal (k + j) = false) ->
  signal (k + d) = true ->
  d = 0 \/ (k + d) * BATCH_SIZE < length words ->
  (forall j, k * BATCH_SIZE <= j < (k + d) * BATCH_SIZE -> ~ matches targetHash words j) ->
  crack_batches signal targetHash fuel words k (k * BATCH_SIZE) reports
  = Some (Rejected AbortError, reports ++ full_batches (length words) k d).
Proof.
  induction d as [|d IH]; intros fuel k reports Hfuel Hrun Hstop Hroom Hnone;
    (destruct fuel as [|fuel]; [lia|]); cbn [crack_batches].
  - rewrite Nat.add_0_r in Hstop. rewrite Hstop.
    unfold full_batches. cbn [seq map]. rewrite app_nil_r. reflexivity.
  - pose proof (Hrun 0 ltac:(lia)) as H0. rewrite Nat.add_0_r in H0. rewrite H0.
    destruct Hroom as [Hroom|Hroom]; [discriminate|].
    assert (Nat.min (k * BATCH_SIZE + BATCH_SIZE) (length words) = S k * BATCH_SIZE) as ->
      by (unfold BATCH_SIZE in *; lia).
    pose proof (scan_words_spec targetHash words (k * BATCH_SIZE)
                  (S k * BATCH_SIZE - k * BATCH_SIZE)) as Hscan.
    destruct (scan_words targetHash words (k * BATCH_SIZE)
                (S k * BATCH_SIZE - k * BATCH_SIZE)) as [[i word]|].
    { destruct Hscan as (Hi & _ & Hm & _). exfalso. apply (Hnone i); [|exact Hm].
      unfold BATCH_SIZE in *. lia. }
    destruct (Nat.ltb_spec (S k * BATCH_SIZE) (length words)) as [_|Hge];
      [|unfold BATCH_SIZE in *; lia].
    rewrite IH.
    + rewrite full_batches_S, <- app_assoc. reflexivity.
    + lia.
    + intros j Hj. replace (S k + j) with (k + S j) by lia. apply Hrun. lia.
    + replace (S k + d) with (k + S d) by lia. exact Hstop.
    + right. replace (S k + d) with (k + S d) by lia. exact Hroom.
    + intros j Hj. apply Hnone. unfold BATCH_SIZE in *. lia.
Qed.

(** X4. Cancellation of the dictionary search: when the signal is found
    aborted at the start of batch [k] (counted from 0), the batches
    before it were complete and none of their words matched, crackMD5
    rejects with the AbortError, after one progress report for each
    complete batch and nothing else. *)
Theorem crackMD5_cancelled (signal : nat -> bool) (targetHash wordlist : jsstring)
  (k fuel : nat) :
  let words := words_of wordlist in
  k < fuel ->
  (forall j, j < k -> signal j = false) ->
  signal k = true ->
  k = 0 \/ k * BATCH_SIZE < length words ->
  (forall j, j < k * BATCH_SIZE -> md5 (trim (nth j words [])) <> targetHash) ->
  crackMD5 signal targetHash fuel wordlist
  = Some (Rejected AbortError, full_batches (length words) 0 k).
Proof.
  intros words Hfuel Hrun Hstop Hroom Hnone. unfold crackMD5. fold words.
  apply (crack_batches_cancelled signal targetHash words k fuel 0 []).
  - exact Hfuel.
  - exact Hrun.
  - exact Hstop.
  - exact Hroom.
  - intros j Hj. apply Hnone. lia.
Qed.

Lemma crackMD5_cancelled_witness :
  crackMD5 (fun k => 0 <? k) (md5 (js "zz")) 2
    (concat (repeat (js "a" ++ [10%Z]) (S BATCH_SIZE)))
  = Some (Rejected AbortError, [Progress (1 * BATCH_SIZE) (S BATCH_SIZE)]).
Proof.
  assert (words_of (concat (repeat (js "a" ++ [10%Z]) (S BATCH_SIZE)))
          = repeat (js "a") (S BATCH_SIZE)) as Hw
    by (vm_compute; reflexivity).
  pose proof (crackMD5_cancelled (fun k => 0 <? k) (md5 (js "zz"))
                (concat (repeat (js "a" ++ [10%Z]) (S BATCH_SIZE))) 1 2) as H.
  cbv zeta in H. rewrite Hw, repeat_length in H. apply H.
  - lia.
  - intros j Hj. assert (j = 0) as -> by lia. reflexivity.
  - reflexivity.
  - right. lia.
  - intros j Hj. rewrite (nth_indep _ [] (js "a")) by (rewrite repeat_length; lia).
    rewrite nth_repeat. vm_compute. discriminate.
Defined.

(** *** The number of candidates *)







End SearchFacts.

(** ** Encryption and decryption of the envelope *)

Module CipherFacts.
Import JS Encoding Utils Constants CryptoService Vocabulary SerialFacts Base64Facts
  CryptoFacts.
#[local] Open Scope Z_scope.

(** The envelope of three base64 segments splits into them. *)
Lemma split_envelope (a b c : list Z) :
  Forall byte a -> Forall byte b -> Forall byte c ->
  split CRYPTO_PAYLOAD_DELIMITER
    (btoa_groups a ++ [CRYPTO_PAYLOAD_DELIMITER] ++ btoa_groups b
       ++ [CRYPTO_PAYLOAD_DELIMITER] ++ btoa_groups c)
  = [btoa_groups a; btoa_groups b; btoa_groups c].
Proof.
  intros Ha Hb Hc. cbn [app].
  rewrite split_at_delimiter by (apply btoa_groups_no_delimiter; assumption).
  rewrite split_at_delimiter by (apply btoa_groups_no_delimiter; assumption).
  rewrite split_without_delimiter by (apply btoa_groups_no_delimiter; assumption).
  reflexivity.
Qed.

Section Cipher.
Variable CryptoKey : Type.
Variable subtle_deriveKey : list Z -> list Z -> result CryptoKey.
Variable subtle_encrypt : CryptoKey -> list Z -> list Z -> result (list Z).
Variable subtle_decrypt : CryptoKey -> list Z -> list Z -> result (list Z).
Variable arrayBufferToString : list Z -> jsstring.

(** X6. Round trip of the cipher service over the platform: when the key
    derivation and the encryption succeed, and the platform's decryption
    under the same key and IV gives back a buffer that decodes to the
    message, decryptMessage returns the message from what encryptMessage
    returned. The salt and the IV pass through the envelope unchanged,
    and each operation derives the key once and calls the cipher once. *)
Theorem cipher_roundtrip (rnd : nat -> Z) (message password : jsstring)
  (key : CryptoKey) (ciphertext plain : list Z) :
  let salt := getRandomValues rnd 0 CRYPTO_SALT_NUM_BYTES in
  let iv := getRandomValues rnd CRYPTO_SALT_NUM_BYTES CRYPTO_IV_NUM_BYTES in
  subtle_deriveKey (stringToArrayBuffer password) salt = Ok key ->
  subtle_encrypt key iv (stringToArrayBuffer message) = Ok ciphertext ->
  Forall byte ciphertext ->
  subtle_decrypt key iv ciphertext = Ok plain ->
  arrayBufferToString plain = message ->
  exists payload : jsstring,
    encryptMessage CryptoKey subtle_deriveKey subtle_encrypt rnd message password
    = (Ok payload, [DeriveKey; Encrypt])
    /\ decryptMessage CryptoKey subtle_deriveKey subtle_decrypt arrayBufferToString
         payload password
       = (Ok message, [DeriveKey; Decrypt]).
Proof.
  intros salt iv Hkey Henc Hct Hdec Htext.
  destruct (getRandomValues_bytes rnd 0 CRYPTO_SALT_NUM_BYTES) as [_ Hsb].
  destruct (getRandomValues_bytes rnd CRYPTO_SALT_NUM_BYTES CRYPTO_IV_NUM_BYTES)
    as [_ Hib].
  fold salt in Hsb. fold iv in Hib.
  exists (btoa_groups salt ++ [CRYPTO_PAYLOAD_DELIMITER] ++ btoa_groups iv
            ++ [CRYPTO_PAYLOAD_DELIMITER] ++ btoa_groups ciphertext).
  split.
  - unfold encryptMessage, deriveKey. fold salt. fold iv.
    rewrite Hkey. cbn [platform tbind tcatch]. rewrite Henc.
    rewrite !arrayBufferToBase64_bytes by assumption.
    reflexivity.
  - unfold decryptMessage, deriveKey.
    rewrite split_envelope by assumption.
    cbn [length Nat.eqb negb nth].
    rewrite !base64ToArrayBuffer_btoa by assumption.
    cbn [lift tbind]. rewrite Hkey. cbn [platform tbind]. rewrite Hdec.
    cbn [ret tbind tcatch app]. rewrite Htext. reflexivity.
Qed.

(** X7. A wrong password or a corrupted ciphertext: when the envelope has
    three segments that decode, the key derivation succeeds and the
    platform's decryption rejects with an OperationError (what AES-GCM
    does when the tag does not verify), decryptMessage throws the
    incorrect-password error, whatever the platform's message was. *)
Theorem decrypt_rejected (s1 s2 s3 password : jsstring) (salt iv ciphertext : list Z)
  (key : CryptoKey) (reason : string) :
  split CRYPTO_PAYLOAD_DELIMITER
    (s1 ++ [CRYPTO_PAYLOAD_DELIMITER] ++ s2 ++ [CRYPTO_PAYLOAD_DELIMITER] ++ s3)
  = [s1; s2; s3] ->
  base64ToArrayBuffer s1 = Ok salt ->
  base64ToArrayBuffer s2 = Ok iv ->
  base64ToArrayBuffer s3 = Ok ciphertext ->
  subtle_deriveKey (stringToArrayBuffer password) salt = Ok key ->
  subtle_decrypt key iv ciphertext = Throw (Error "OperationError" reason) ->
  decryptMessage CryptoKey subtle_deriveKey subtle_decrypt arrayBufferToString
    (s1 ++ [CRYPTO_PAYLOAD_DELIMITER] ++ s2 ++ [CRYPTO_PAYLOAD_DELIMITER] ++ s3) password
  = (Throw (Error "Error"
       "Decryption failed. This usually means an incorrect password or corrupted data."),
     [DeriveKey; Decrypt]).
Proof.
  intros Hsplit H1 H2 H3 Hkey Hdec.
  unfold decryptMessage, deriveKey. rewrite Hsplit.
  cbn [length Nat.eqb negb nth]. rewrite H1, H2, H3.
  cbn [lift tbind]. rewrite Hkey. cbn [platform tbind]. rewrite Hdec.
  reflexivity.
Qed.

End Cipher.

Lemma cipher_roundtrip_witness :
  exists payload : jsstring,
    encryptMessage (list Z) toy_derive toy_encrypt toy_random (js "hi") (js "pw")
    = (Ok payload, [DeriveKey; Encrypt])
    /\ decryptMessage (list Z) toy_derive toy_decrypt (fun b => b) payload (js "pw")
       = (Ok (js "hi"), [DeriveKey; Decrypt]).
Proof.
  apply (cipher_roundtrip (list Z) toy_derive toy_encrypt toy_decrypt (fun b => b)
           toy_random (js "hi") (js "pw")
           (getRandomValues toy_random 0 CRYPTO_SALT_NUM_BYTES)
           (stringToArrayBuffer (js "hi") ++ repeat 8 16)
           (js "hi")).
  - reflexivity.
  - reflexivity.
  - vm_compute. repeat constructor; discriminate.
  - vm_compute. reflexivity.
  - reflexivity.
Defined.

Lemma decrypt_rejected_witness :
  decryptMessage (list Z) toy_derive toy_decrypt (fun b => b)
    (js "CzBVep/E6Q4zWH2ix+wRNg==:W4Clyu8UOV6DqM3y:aGkICAgICAgICAgICAgICAgJ") (js "pw")
  = (Throw (Error "Error"
       "Decryption failed. This usually means an incorrect password or corrupted data."),
     [DeriveKey; Decrypt]).
Proof.
  apply (decrypt_rejected (list Z) toy_derive toy_decrypt (fun b => b)
           (js "CzBVep/E6Q4zWH2ix+wRNg==") (js "W4Clyu8UOV6DqM3y")
           (js "aGkICAgICAgICAgICAgICAgJ") (js "pw")
           (getRandomValues toy_random 0 CRYPTO_SALT_NUM_BYTES)
           (getRandomValues toy_random CRYPTO_SALT_NUM_BYTES CRYPTO_IV_NUM_BYTES)
           (stringToArrayBuffer (js "hi") ++ repeat 8 15 ++ [9])
           (getRandomValues toy_random 0 CRYPTO_SALT_NUM_BYTES) "");
    vm_compute; reflexivity.
Defined.

End CipherFacts.

(** ** The envelope as the steganography services receive it *)

Module EnvelopeFacts.
Import JS Encoding Utils Constants CryptoService Vocabulary SerialFacts Base64Facts
  CryptoFacts.
#[local] Open Scope Z_scope.

Lemma base64_char_ascii c : base64_char c -> 1 <= c < 128.
Proof.
  unfold base64_char, b64_value, in_range, pad_char. intros [H | ->]; [|lia].
  destruct (Z.leb_spec 65 c), (Z.leb_spec c 90), (Z.leb_spec 97 c), (Z.leb_spec c 122),
    (Z.leb_spec 48 c), (Z.leb_spec c 57), (Z.eqb_spec c 43), (Z.eqb_spec c 47);
    cbn [andb] in H; try lia; congruence.
Qed.

Lemma last_app_nonempty {A} (l1 l2 : list A) d : l2 <> [] -> List.last (l1 ++ l2) d = List.last l2 d.
Proof.
  intros Hne. induction l1 as [|a l1 IH]; [reflexivity|].
  cbn [app]. destruct (l1 ++ l2) eqn:E.
  - apply app_eq_nil in E as [_ E]. contradiction.
  - rewrite <- IH. reflexivity.
Qed.

Lemma btoa_groups_length bs :
  length (btoa_groups bs) = (4 * ((length bs + 2) / 3))%nat.
Proof.
  induction bs as [| a | a b | a b c rest IH] using list_ind3; try reflexivity.
  cbn [btoa_groups length]. rewrite IH.
  replace (S (S (S (length rest))) + 2)%nat with (length rest + 2 + 1 * 3)%nat by lia.
  rewrite Nat.div_add by lia. lia.
Qed.

(** The last character of a base64 text: the padding, unless the bytes
    come in whole groups of three. *)
Lemma btoa_groups_last bs :
  bs <> [] ->
  List.last (btoa_groups bs) 1
  = if (length bs mod 3 =? 0)%nat then b64_char (List.last bs 0 mod 64) else pad_char.
Proof.
  induction bs as [| a | a b | a b c rest IH] using list_ind3; intros Hne;
    try congruence; try reflexivity.
  replace (length (a :: b :: c :: rest) mod 3)%nat with (length rest mod 3)%nat.
  2:{ cbn [length]. replace (S (S (S (length rest)))) with (length rest + 1 * 3)%nat by lia.
      rewrite Nat.Div0.mod_add. reflexivity. }
  destruct rest as [|r rest]; [reflexivity|].
  specialize (IH ltac:(discriminate)).
  assert (btoa_groups (r :: rest) <> []) as Hg by (apply btoa_groups_nonempty; discriminate).
  change (btoa_groups (a :: b :: c :: r :: rest))
    with ([b64_char (a / 4); b64_char ((a mod 4) * 16 + b / 16);
           b64_char ((b mod 16) * 4 + c / 64); b64_char (c mod 64)]
          ++ btoa_groups (r :: rest)).
  rewrite last_app_nonempty by exact Hg. rewrite IH.
  change (List.last (a :: b :: c :: r :: rest) 0) with (List.last (r :: rest) 0).
  reflexivity.
Qed.

Section Envelope.
Variable CryptoKey : Type.
Variable subtle_deriveKey : list Z -> list Z -> result CryptoKey.
Variable subtle_encrypt : CryptoKey -> list Z -> list Z -> result (list Z).

(** X8. What the steganography services embed. When the platform derives
    the key and encrypts to a non-empty ciphertext, the envelope that
    encryptMessage returns is a string of ASCII characters, none of them
    NUL, of 42 + 4 * ceil(n / 3) characters for a ciphertext of n bytes;
    its last character is '=' when n is not a multiple of 3, and else the
    base64 digit of the low six bits of the last ciphertext byte. So the
    envelope ends in a character of odd code whenever n is not a multiple
    of 3, that is (the tag of AES-GCM taking 16 bytes) whenever the UTF-8
    length of the message is not 2 modulo 3. *)
Theorem envelope_last_character (rnd : nat -> Z) (message password : jsstring)
  (key : CryptoKey) (ciphertext : list Z) :
  let salt := getRandomValues rnd 0 CRYPTO_SALT_NUM_BYTES in
  let iv := getRandomValues rnd CRYPTO_SALT_NUM_BYTES CRYPTO_IV_NUM_BYTES in
  subtle_deriveKey (stringToArrayBuffer password) salt = Ok key ->
  subtle_encrypt key iv (stringToArrayBuffer message) = Ok ciphertext ->
  Forall byte ciphertext -> ciphertext <> [] ->
  exists payload : jsstring,
    fst (encryptMessage CryptoKey subtle_deriveKey subtle_encrypt rnd message password)
    = Ok payload
    /\ payload <> []
    /\ Forall (fun c => 1 <= c < 128) payload
    /\ length payload = (42 + 4 * ((length ciphertext + 2) / 3))%nat
    /\ List.last payload 1
       = (if (length ciphertext mod 3 =? 0)%nat
          then b64_char (List.last ciphertext 0 mod 64) else pad_char)
    /\ ((length ciphertext mod 3 <> 0)%nat -> Z.odd (List.last payload 1) = true).
Proof.
  intros salt iv Hkey Henc Hct Hne.
  destruct (getRandomValues_bytes rnd 0 CRYPTO_SALT_NUM_BYTES) as [Hsl Hsb].
  destruct (getRandomValues_bytes rnd CRYPTO_SALT_NUM_BYTES CRYPTO_IV_NUM_BYTES)
    as [Hil Hib].
  fold salt in Hsl, Hsb. fold iv in Hil, Hib.
  assert (forall bs, Forall byte bs -> Forall (fun c => 1 <= c < 128) (btoa_groups bs))
    as Hascii.
  { intros bs Hbs. eapply Forall_impl; [apply btoa_groups_base64, Hbs|].
    apply base64_char_ascii. }
  assert (btoa_groups ciphertext <> []) as Hg by (apply btoa_groups_nonempty, Hne).
  assert (List.last (btoa_groups salt ++ [CRYPTO_PAYLOAD_DELIMITER] ++ btoa_groups iv
                       ++ [CRYPTO_PAYLOAD_DELIMITER] ++ btoa_groups ciphertext) 1
          = (if (length ciphertext mod 3 =? 0)%nat
             then b64_char (List.last ciphertext 0 mod 64) else pad_char)) as Hlast.
  { rewrite !app_assoc. rewrite last_app_nonempty by exact Hg.
    apply btoa_groups_last, Hne. }
  eexists. split.
  { unfold encryptMessage, deriveKey. fold salt. fold iv.
    rewrite Hkey. cbn [platform tbind tcatch]. rewrite Henc.
    rewrite !arrayBufferToBase64_bytes by assumption.
    reflexivity. }
  split.
  { intros E. apply app_eq_nil in E as [_ E]. discriminate. }
  split.
  { repeat (apply Forall_app; split); try (apply Hascii; assumption);
      repeat constructor; unfold CRYPTO_PAYLOAD_DELIMITER; lia. }
  split.
  { rewrite !length_app, !btoa_groups_length, Hsl, Hil. reflexivity. }
  split; [exact Hlast|].
  intros Hmod. rewrite Hlast.
  destruct (Nat.eqb_spec (length ciphertext mod 3) 0) as [E|_]; [contradiction|].
  reflexivity.
Qed.

End Envelope.

Lemma envelope_last_character_witness :
  exists payload : jsstring,
    fst (encryptMessage (list Z) toy_derive toy_encrypt toy_random (js "a") (js "pw"))
    = Ok payload
    /\ length payload = 66%nat
    /\ List.last payload 1 = pad_char.
Proof.
  destruct (envelope_last_character (list Z) toy_derive toy_encrypt toy_random
              (js "a") (js "pw")
              (getRandomValues toy_random 0 CRYPTO_SALT_NUM_BYTES)
              (stringToArrayBuffer (js "a") ++ repeat 8 16))
    as (payload & Hrun & _ & _ & Hlen & Hlast & _).
  - reflexivity.
  - reflexivity.
  - vm_compute. repeat constructor; discriminate.
  - discriminate.
  - exists payload. split; [exact Hrun|]. split; [exact Hlen | exact Hlast].
Defined.

End EnvelopeFacts.

(** ** Random-Dot: the image of dots *)

Module RDImageFacts.
Import JS Encoding Utils Constants Canvas2D Stego Vocabulary SerialFacts Utf8Facts
  TerminatorFacts LsbFacts.
#[local] Open Scope nat_scope.

Lemma draw_dots_size bits : forall i canvas,
  bm_width (draw_dots bits i canvas) = bm_width canvas
  /\ bm_height (draw_dots bits i canvas) = bm_height canvas.
Proof.
  induction bits as [|bit bits IH]; intros i canvas; [split; reflexivity|].
  cbn [draw_dots]. destruct (IH (S i) (fillRect canvas
    (if (bit =? 49)%Z then COLOR_BIT_1 else COLOR_BIT_0)
    (DOT_SPACING + i mod DOTS_PER_ROW * (DOT_SIZE + DOT_SPACING))
    (DOT_SPACING + i / DOTS_PER_ROW * (DOT_SIZE + DOT_SPACING)) DOT_SIZE DOT_SIZE))
    as [Hw Hh].
  rewrite Hw, Hh. split; reflexivity.
Qed.

(** The centre of dot [k] lies in the square of dot [j] only if j = k. *)
Lemma centre_in_square j k :
  let cx := dot_centre_x k in
  let cy := dot_centre_y k in
  let x := DOT_SPACING + j mod DOTS_PER_ROW * (DOT_SIZE + DOT_SPACING) in
  let y := DOT_SPACING + j / DOTS_PER_ROW * (DOT_SIZE + DOT_SPACING) in
  (x <=? cx) && (cx <? x + DOT_SIZE) && (y <=? cy) && (cy <? y + DOT_SIZE) = (j =? k).
Proof.
  unfold dot_centre_x, dot_centre_y, DOT_SPACING, DOTS_PER_ROW, DOT_SIZE. cbn zeta.
  pose proof (Nat.div_mod_eq j 48). pose proof (Nat.mod_upper_bound j 48 ltac:(lia)).
  pose proof (Nat.div_mod_eq k 48). pose proof (Nat.mod_upper_bound k 48 ltac:(lia)).
  change (5 / 2) with 2. change (5 + 2) with 7.
  destruct (Nat.eqb_spec j k) as [->|Hne].
  - repeat (apply andb_true_intro; split);
      try (apply Nat.leb_le; lia); apply Nat.ltb_lt; lia.
  - destruct (Nat.leb_spec (2 + j mod 48 * 7) (2 + k mod 48 * 7 + 2));
      destruct (Nat.ltb_spec (2 + k mod 48 * 7 + 2) (2 + j mod 48 * 7 + 5));
      destruct (Nat.leb_spec (2 + j / 48 * 7) (2 + k / 48 * 7 + 2));
      destruct (Nat.ltb_spec (2 + k / 48 * 7 + 2) (2 + j / 48 * 7 + 5));
      try reflexivity.
    exfalso. assert (j mod 48 = k mod 48) by lia. assert (j / 48 = k / 48) by lia. lia.
Qed.

(** The pixel at the centre of dot [k] once the dots are drawn. *)
Lemma draw_dots_centre bits : forall i canvas k,
  bm_pixel (draw_dots bits i canvas) (dot_centre_x k) (dot_centre_y k)
  = if (i <=? k) && (k <? i + length bits)
    then (if (nth (k - i) bits 0 =? 49)%Z then COLOR_BIT_1 else COLOR_BIT_0)
    else bm_pixel canvas (dot_centre_x k) (dot_centre_y k).
Proof.
  induction bits as [|bit bits IH]; intros i canvas k.
  - cbn [draw_dots length]. rewrite Nat.add_0_r.
    destruct (Nat.leb_spec i k), (Nat.ltb_spec k i); try reflexivity; lia.
  - cbn [draw_dots length]. rewrite IH.
    destruct (Nat.leb_spec (S i) k) as [Hik|Hik].
    + destruct (Nat.leb_spec i k) as [_|]; [|lia]. cbn [andb].
      replace (k <? i + S (length bits)) with (k <? S i + length bits)
        by (f_equal; lia).
      destruct (Nat.ltb_spec k (S i + length bits)) as [Hk|Hk].
      * replace (k - i) with (S (k - S i)) by lia. reflexivity.
      * cbn [fillRect bm_pixel]. rewrite (centre_in_square i k).
        destruct (Nat.eqb_spec i k); [lia | reflexivity].
    + cbn [andb fillRect bm_pixel]. rewrite (centre_in_square i k).
      destruct (Nat.eqb_spec i k) as [->|Hne].
      * destruct (Nat.leb_spec k k) as [_|]; [|lia].
        destruct (Nat.ltb_spec k (k + S (length bits))) as [_|]; [|lia].
        rewrite Nat.sub_diag. reflexivity.
      * destruct (Nat.leb_spec i k) as [Hle|_]; [lia | reflexivity].
Qed.

(** What the decoder reads at dot [k] of a canvas that is 338 pixels wide
    and holds the row of the dot. *)
Lemma read_dot_centre (canvas : bitmap) (row col : nat) :
  bm_width canvas = 338 -> col < 48 -> row * 7 + 5 <= bm_height canvas ->
  read_dot canvas row col
  = let '(r, g, b, _) := bm_pixel canvas (dot_centre_x (row * 48 + col))
                           (dot_centre_y (row * 48 + col)) in
    if (r + g + b <? 3 * 128)%Z then js "1" else js "0".
Proof.
  intros Hw Hcol Hrow. unfold read_dot, dot_centre_x, dot_centre_y.
  unfold DOT_SPACING, DOTS_PER_ROW, DOT_SIZE. rewrite Hw.
  change (5 / 2) with 2. change (5 + 2) with 7.
  assert ((row * 48 + col) mod 48 = col) as ->.
  { rewrite Nat.add_comm, Nat.Div0.mod_add. apply Nat.mod_small. exact Hcol. }
  assert ((row * 48 + col) / 48 = row) as ->.
  { rewrite Nat.add_comm, Nat.div_add by lia. rewrite Nat.div_small by exact Hcol.
    reflexivity. }
  set (cx := 2 + col * 7 + 2). set (cy := 2 + row * 7 + 2).
  destruct (Nat.leb_spec 338 cx) as [H|_]; [unfold cx in H; lia|].
  destruct (Nat.leb_spec (bm_height canvas) cy) as [H|Hcy]; [unfold cy in H; lia|].
  cbn [orb].
  assert (forall c, c < 4 ->
            data_at canvas ((cy * 338 + cx) * 4 + c)
            = let '(r, g, b, a) := bm_pixel canvas cx cy in nth_error [r; g; b; a] c)
    as Hdata.
  { intros c Hc. unfold data_at. rewrite Hw.
    assert (((cy * 338 + cx) * 4 + c) / 4 = cy * 338 + cx) as ->.
    { rewrite Nat.add_comm, Nat.div_add by lia. rewrite Nat.div_small by exact Hc.
      reflexivity. }
    assert (((cy * 338 + cx) * 4 + c) mod 4 = c) as ->.
    { rewrite Nat.add_comm, Nat.Div0.mod_add. apply Nat.mod_small. exact Hc. }
    assert ((cy * 338 + cx) mod 338 = cx) as ->.
    { rewrite Nat.add_comm, Nat.Div0.mod_add. apply Nat.mod_small. unfold cx. lia. }
    assert ((cy * 338 + cx) / 338 = cy) as ->.
    { rewrite Nat.add_comm, Nat.div_add by lia. rewrite Nat.div_small by (unfold cx; lia).
      reflexivity. }
    destruct (Nat.leb_spec (338 * bm_height canvas) (cy * 338 + cx)) as [H|_];
      [unfold cx in H; nia|].
    reflexivity. }
  pose proof (Hdata 0 ltac:(lia)) as H0. rewrite Nat.add_0_r in H0.
  rewrite H0, (Hdata 1), (Hdata 2) by lia.
  destruct (bm_pixel canvas cx cy) as [[[r g] b] a]. reflexivity.
Qed.

Lemma flat_map_singleton {A B} (h : A -> B) (l : list A) :
  flat_map (fun a => [h a]) l = map h l.
Proof. induction l as [|a l IH]; [reflexivity|]. cbn [flat_map map app]. rewrite IH. reflexivity. Qed.

Lemma map_seq_offset {A} (g : nat -> A) (a c : nat) : forall b,
  map (fun col => g (a + col)) (seq b c) = map g (seq (a + b) c).
Proof.
  induction c as [|c IH]; intros b; [reflexivity|].
  cbn [seq map]. rewrite IH. replace (a + S b) with (S (a + b)) by lia. reflexivity.
Qed.

(** A grid read row after row is the sequence of its cells. *)
Lemma flat_map_grid {A} (g : nat -> A) (c r : nat) :
  flat_map (fun row => flat_map (fun col => [g (row * c + col)]) (seq 0 c)) (seq 0 r)
  = map g (seq 0 (r * c)).
Proof.
  induction r as [|r IH]; [reflexivity|].
  rewrite seq_S, flat_map_app, IH. cbn [flat_map Nat.add]. rewrite app_nil_r.
  replace (S r * c) with (r * c + c) by lia. rewrite seq_app, map_app. f_equal.
  rewrite flat_map_singleton, (map_seq_offset g (r * c) c 0), Nat.add_0_r. reflexivity.
Qed.

(** The cells of a grid that holds a bit string, then zeros. *)
Lemma map_cells (B : jsstring) (N : nat) :
  Forall bit_char B -> length B <= N ->
  map (fun k => if k <? length B then (if (nth k B 0 =? 49)%Z then 49%Z else 48%Z) else 48%Z)
      (seq 0 N)
  = B ++ repeat 48%Z (N - length B).
Proof.
  intros HB HN.
  replace N with (length B + (N - length B)) at 1 by lia.
  rewrite seq_app, map_app. f_equal.
  - clear HN. induction B as [|c B IH] using rev_ind; [reflexivity|].
    apply Forall_app in HB as [HB Hc]. apply Forall_cons in Hc as [Hc _].
    rewrite length_app. cbn [length]. rewrite Nat.add_1_r, seq_S, map_app. f_equal.
    + etransitivity; [|apply IH, HB]. apply map_ext_in. intros k Hk. apply in_seq in Hk.
      destruct (Nat.ltb_spec k (S (length B))) as [_|]; [|lia].
      destruct (Nat.ltb_spec k (length B)) as [_|]; [|lia].
      rewrite app_nth1 by lia. reflexivity.
    + cbn [map Nat.add]. destruct (Nat.ltb_spec (length B) (S (length B))) as [_|]; [|lia].
      rewrite app_nth2, Nat.sub_diag by lia. cbn [nth].
      destruct Hc as [-> | ->]; reflexivity.
  - cbn [Nat.add]. generalize (N - length B). intros m.
    assert (forall a, length B <= a ->
              map (fun k => if k <? length B
                            then (if (nth k B 0 =? 49)%Z then 49%Z else 48%Z) else 48%Z)
                  (seq a m) = repeat 48%Z m) as H.
    { induction m as [|m IH]; intros a Ha; [reflexivity|].
      cbn [seq map repeat]. rewrite IH by lia.
      destruct (Nat.ltb_spec a (length B)); [lia | reflexivity]. }
    apply H. lia.
Qed.

Lemma flat_map_ext_in {A B} (f g : A -> list B) (l : list A) :
  (forall a, In a l -> f a = g a) -> flat_map f l = flat_map g l.
Proof.
  induction l as [|a l IH]; intros H; [reflexivity|].
  cbn [flat_map]. rewrite (H a) by (left; reflexivity). rewrite IH; [reflexivity|].
  intros b Hb. apply H. right. exact Hb.
Qed.

(** The string that decodeRDMessage reads from the canvas that
    encodeRDMessage drew for the bit string [B]: the bits, then a zero
    for each place that is left in the last row. *)
Lemma rd_image_bits (B : jsstring) :
  Forall bit_char B ->
  let numRows := (length B + 47) / 48 in
  let canvas := draw_dots B 0 (Bitmap 338 (numRows * 7 + 2) (fun _ _ => BACKGROUND_COLOR)) in
  flat_map (fun row => flat_map (fun col => read_dot canvas row col) (seq 0 48))
    (seq 0 numRows)
  = B ++ repeat 48%Z (numRows * 48 - length B).
Proof.
  intros HB numRows canvas.
  assert (length B <= numRows * 48) as Hfit.
  { unfold numRows. pose proof (Nat.div_mod_eq (length B + 47) 48).
    pose proof (Nat.mod_upper_bound (length B + 47) 48 ltac:(lia)). lia. }
  rewrite <- (map_cells B (numRows * 48) HB Hfit).
  rewrite <- (flat_map_grid
    (fun k => if k <? length B then (if (nth k B 0 =? 49)%Z then 49%Z else 48%Z) else 48%Z)
    48 numRows).
  destruct (draw_dots_size B 0 (Bitmap 338 (numRows * 7 + 2) (fun _ _ => BACKGROUND_COLOR)))
    as [Hw Hh]. fold canvas in Hw, Hh. cbn [bm_width bm_height] in Hw, Hh.
  apply flat_map_ext_in. intros row Hrow. apply in_seq in Hrow.
  apply flat_map_ext_in. intros col Hcol. apply in_seq in Hcol.
  rewrite read_dot_centre by (try exact Hw; lia).
  unfold canvas. rewrite draw_dots_centre. cbn [Nat.leb andb Nat.add bm_pixel].
  destruct (Nat.ltb_spec (row * 48 + col) (length B)) as [Hk|Hk]; [|reflexivity].
  rewrite Nat.sub_0_r. destruct (nth (row * 48 + col) B 0 =? 49)%Z; reflexivity.
Qed.

(** X11. The Random-Dot service through its image. For an envelope of
    two or more ASCII characters, none of them NUL, decodeRDMessage reads
    from the image that encodeRDMessage drew the embedded bits, and calls
    cryptoDecrypt on what [delivered] gives of the envelope: the envelope
    itself when its last character has an odd code, the envelope without
    its last character when that code is even. So the message comes back
    in the first case whenever decryption undoes encryption. *)
Theorem rd_image_delivers
  (cryptoEncrypt cryptoDecrypt : jsstring -> jsstring -> result jsstring)
  (message password payload : jsstring) :
  message <> [] -> password <> [] -> length message <= MAX_MESSAGE_LENGTH_CHARS ->
  cryptoEncrypt message password = Ok payload ->
  2 <= length payload -> Forall (fun c => (1 <= c < 128)%Z) payload ->
  exists e,
    encodeRDMessage cryptoEncrypt message password = Ok e
    /\ rdPayload e = payload
    /\ bm_width (imageDataUrl e) = 338
    /\ bm_height (imageDataUrl e) = (8 * length payload + 40 + 47) / 48 * 7 + 2
    /\ decodeRDMessage cryptoDecrypt (Some (imageDataUrl e)) password
       = cryptoDecrypt (delivered payload) password
    /\ (Z.odd (List.last payload 1%Z) = true ->
        cryptoDecrypt payload password = Ok message ->
        decodeRDMessage cryptoDecrypt (Some (imageDataUrl e)) password = Ok message).
Proof.
  intros Hm Hp Hlen Henc Hpl Hascii.
  assert (payload <> []) as Hne by (destruct payload; [cbn in Hpl; lia | discriminate]).
  destruct (embedded_string cryptoDecrypt LSB_messages payload password Hpl Hascii)
    as (Hbits & HlenB & HBchars & _).
  destruct (first_terminator payload Hne Hascii)
    as (stop & Hstop & _ & Hindex & _ & Hdelivered).
  set (P := flat_map bits_of_byte payload) in *.
  set (B := P ++ MESSAGE_TERMINATOR_BINARY) in *.
  assert (length B = length P + 40) as HlenP by (unfold B; rewrite length_app; reflexivity).
  set (numRows := (length B + 47) / 48).
  set (canvas := draw_dots B 0 (Bitmap 338 (numRows * 7 + 2) (fun _ _ => BACKGROUND_COLOR))).
  destruct (draw_dots_size B 0 (Bitmap 338 (numRows * 7 + 2) (fun _ _ => BACKGROUND_COLOR)))
    as [Hw Hh]. fold canvas in Hw, Hh. cbn [bm_width bm_height] in Hw, Hh.
  assert (1 <= numRows) as Hrows.
  { unfold numRows. pose proof (Nat.div_mod_eq (length B + 47) 48).
    pose proof (Nat.mod_upper_bound (length B + 47) 48 ltac:(lia)). lia. }
  assert ((length password =? 0) = false) as Hpw
    by (destruct password; [congruence | reflexivity]).
  exists (RDEncoded canvas B payload).
  assert (decodeRDMessage cryptoDecrypt (Some canvas) password
          = cryptoDecrypt (delivered payload) password) as Hrun.
  { unfold decodeRDMessage. rewrite Hpw, Hw, Hh.
    change (DOT_SIZE + DOT_SPACING) with 7. change DOT_SPACING with 2.
    assert (((Z.of_nat (numRows * 7 + 2) - Z.of_nat 2) / Z.of_nat 7)%Z = Z.of_nat numRows)
      as ->.
    { replace (Z.of_nat (numRows * 7 + 2) - Z.of_nat 2)%Z with (Z.of_nat numRows * 7)%Z by lia.
      apply Z.div_mul. lia. }
    assert (((Z.of_nat 338 - Z.of_nat 2) / Z.of_nat 7)%Z = Z.of_nat 48) as -> by reflexivity.
    destruct (Z.eqb_spec (Z.of_nat numRows) 0) as [E|_]; [lia|].
    cbn [orb Z.eqb Z.of_nat Pos.of_succ_nat]. rewrite !Nat2Z.id.
    change (Z.to_nat 48) with 48.
    pose proof (rd_image_bits B HBchars) as Hread. cbv zeta in Hread.
    fold numRows in Hread. fold canvas in Hread. rewrite Hread.
    unfold indexOf, B. rewrite <- app_assoc, Hindex.
    cbn [Nat.add]. unfold substring. rewrite drop_0, Nat.sub_0_r.
    rewrite take_app_le by lia.
    rewrite length_take, Nat.min_l by lia.
    destruct (Nat.eqb_spec stop 0) as [E|_]; [lia|].
    rewrite Hdelivered.
    destruct (delivered payload) as [|c s] eqn:Ed; [|reflexivity].
    exfalso. apply (delivered_nonempty payload Hpl). exact Ed. }
  split; [|split; [reflexivity|split; [exact Hw|split; [|split; [exact Hrun|]]]]].
  - unfold encodeRDMessage.
    assert ((length message =? 0) = false) as ->
      by (destruct message; [congruence | reflexivity]).
    rewrite Hpw.
    replace (MAX_MESSAGE_LENGTH_CHARS <? length message) with false
      by (symmetry; apply Nat.ltb_ge; exact Hlen).
    rewrite Henc, Hbits. reflexivity.
  - cbn [imageDataUrl]. rewrite Hh. unfold numRows. rewrite HlenB. reflexivity.
  - intros Hodd Hdec. cbn [imageDataUrl]. rewrite Hrun. unfold delivered.
    rewrite Hodd. exact Hdec.
Qed.

Lemma rd_image_delivers_witness :
  exists e,
    encodeRDMessage toy_cryptoEncrypt (js "hi") (js "pw") = Ok e
    /\ bm_height (imageDataUrl e) = 86
    /\ decodeRDMessage toy_cryptoDecrypt (Some (imageDataUrl e)) (js "pw") = Ok (js "hi").
Proof.
  destruct (rd_image_delivers toy_cryptoEncrypt toy_cryptoDecrypt (js "hi") (js "pw")
              (js "CzBVep/E6Q4zWH2ix+wRNg==:W4Clyu8UOV6DqM3y:aGkICAgICAgICAgICAgICAgI"))
    as (e & He & _ & _ & Hh & _ & Hd).
  - vm_compute. discriminate.
  - vm_compute. discriminate.
  - vm_compute. lia.
  - vm_compute. reflexivity.
  - vm_compute. lia.
  - apply Forall_forall. intros c Hc. apply list_elem_of_In in Hc.
    vm_compute in Hc. intuition (subst; lia).
  - exists e. split; [exact He|]. split; [exact Hh|].
    apply Hd; vm_compute; reflexivity.
Defined.

End RDImageFacts.

(** ** The Morse-grid service *)

Module MorseFacts.
Import JS Encoding Utils Constants Canvas2D Stego MorseService Vocabulary SerialFacts Utf8Facts
  RDImageFacts.
#[local] Open Scope nat_scope.

Lemma arrayBufferToHex_nil (b : list Z) :
  Forall byte b -> arrayBufferToHex b = [] -> b = [].
Proof.
  intros Hb E. destruct b as [|x b]; [reflexivity|].
  apply Forall_cons in Hb as [Hx _].
  pose proof (hex_of_byte_spec x Hx) as [Hl _].
  unfold arrayBufferToHex in E. cbn [flat_map] in E. fold (hex_of_byte x) in E.
  apply (f_equal (@length Z)) in E. rewrite length_app, Hl in E. discriminate.
Qed.

(** X9. Round trip of the Morse service through the hex string it
    returns beside the image: for a cipher whose decryption undoes its
    encryption on this message, and an envelope that is a well-formed
    string which the platform's decoder gives back from its UTF-8 bytes,
    decryptMorseMessageFromHex returns the message from the hex string
    of encodeMorseMessage. *)
Theorem morse_hex_roundtrip
  (cryptoEncrypt cryptoDecrypt : jsstring -> jsstring -> result jsstring)
  (arrayBufferToString : list Z -> jsstring)
  (message password payload : jsstring) :
  message <> [] -> password <> [] -> length message <= MAX_MESSAGE_LENGTH_CHARS ->
  cryptoEncrypt message password = Ok payload ->
  cryptoDecrypt payload password = Ok message ->
  payload <> [] -> isWellFormed payload = true ->
  arrayBufferToString (TextEncoder_encode payload) = payload ->
  exists e,
    encodeMorseMessage cryptoEncrypt message password = Ok e
    /\ morsePayload e = payload
    /\ hexString e = arrayBufferToHex (TextEncoder_encode payload)
    /\ decryptMorseMessageFromHex cryptoDecrypt arrayBufferToString (hexString e) password
       = Ok message.
Proof.
  intros Hm Hp Hlen Henc Hdec Hpl Hwf Htext.
  pose proof (TextEncoder_bytes payload Hwf) as Hbytes.
  unfold encodeMorseMessage.
  assert ((length message =? 0) = false) as ->
    by (destruct message; [congruence | reflexivity]).
  assert ((length password =? 0) = false) as Hpw
    by (destruct password; [congruence | reflexivity]).
  rewrite Hpw.
  replace (MAX_MESSAGE_LENGTH_CHARS <? length message) with false
    by (symmetry; apply Nat.ltb_ge; exact Hlen).
  rewrite Henc. cbv zeta.
  destruct (fold_left _ _ _) as [[x y] canvas].
  eexists. split; [reflexivity|]. cbn [morsePayload hexString].
  split; [reflexivity|]. split; [reflexivity|].
  unfold decryptMorseMessageFromHex. rewrite Hpw.
  destruct (Nat.eqb_spec (length (arrayBufferToHex (TextEncoder_encode payload))) 0)
    as [E|_].
  { exfalso. apply Hpl, TextEncoder_nil, arrayBufferToHex_nil; [exact Hbytes|].
    destruct (arrayBufferToHex _); [reflexivity | discriminate]. }
  rewrite hex_roundtrip by exact Hbytes.
  cbn [bind]. rewrite Htext, Hdec. reflexivity.
Qed.

Lemma morse_hex_roundtrip_witness :
  let payload := js "CzBVep/E6Q4zWH2ix+wRNg==:W4Clyu8UOV6DqM3y:aGkICAgICAgICAgICAgICAgI" in
  let enc := fun _ _ : jsstring => Ok payload in
  let dec := fun s _ : jsstring =>
    if list_eqb s payload then Ok (js "hi") else Throw (err "Decryption failed.") in
  exists e,
    encodeMorseMessage enc (js "hi") (js "pw") = Ok e
    /\ decryptMorseMessageFromHex dec (fun b => b) (hexString e) (js "pw") = Ok (js "hi").
Proof.
  intros payload enc dec.
  destruct (morse_hex_roundtrip enc dec (fun b => b) (js "hi") (js "pw") payload)
    as (e & He & _ & _ & Hd).
  - vm_compute. discriminate.
  - vm_compute. discriminate.
  - vm_compute. lia.
  - reflexivity.
  - vm_compute. reflexivity.
  - vm_compute. discriminate.
  - vm_compute. reflexivity.
  - vm_compute. reflexivity.
  - exists e. split; [exact He | exact Hd].
Defined.

(** *** The image: what the decoder samples *)

Lemma nth_repeat_lt {A} (a d : A) (n k : nat) : k < n -> nth k (repeat a n) d = a.
Proof.
  revert k. induction n as [|n IH]; intros k Hk; [lia|].
  destruct k as [|k]; [reflexivity|]. cbn [repeat nth]. apply IH. lia.
Qed.

(** The cells of one element, with the rest of the row before it if the
    element did not fit. *)
Lemma nth_cells (pad u : nat) (sym : bool) (L : list bool) (i : nat) :
  nth i (repeat false pad ++ repeat sym u ++ L) false
  = if i <? pad then false
    else if i <? pad + u then sym
    else nth (i - pad - u) L false.
Proof.
  destruct (Nat.ltb_spec i pad) as [H1|H1].
  - rewrite app_nth1 by (rewrite repeat_length; exact H1). apply nth_repeat_lt, H1.
  - rewrite app_nth2 by (rewrite repeat_length; lia). rewrite repeat_length.
    destruct (Nat.ltb_spec i (pad + u)) as [H2|H2].
    + rewrite app_nth1 by (rewrite repeat_length; lia). apply nth_repeat_lt. lia.
    + rewrite app_nth2 by (rewrite repeat_length; lia). rewrite repeat_length. reflexivity.
Qed.

Lemma units_of_bounds el : 1 <= units_of el <= 3.
Proof. destruct el; cbv [units_of DAH_UNITS ELEM_GAP_UNITS CHAR_GAP_UNITS]; lia. Qed.

(** The pixel at the centre of the unit in row [r], column [c], once the
    elements are drawn from the pen at unit [x] of row [row]. *)
Lemma draw_elements_sample (elements : list element) :
  forall (x row : nat) (img : bitmap), x <= 100 ->
  let '(_, _, img') := fold_left (draw_element 400) elements (x * 4, row * 12, img) in
  bm_width img' = bm_width img /\ bm_height img' = bm_height img
  /\ forall r c, c < 100 ->
       bm_pixel img' (c * 4 + 2) (r * 12 + 2)
       = if (row * 100 + x <=? r * 100 + c)
            && nth (r * 100 + c - (row * 100 + x)) (layout elements x) false
         then FOREGROUND_COLOR
         else bm_pixel img (c * 4 + 2) (r * 12 + 2).
Proof.
  induction elements as [|el rest IH]; intros x row img Hx.
  - cbn [fold_left layout]. split; [reflexivity|]. split; [reflexivity|].
    intros r c Hc. destruct (r * 100 + c - (row * 100 + x)); rewrite andb_false_r; reflexivity.
  - cbn [fold_left]. pose proof (units_of_bounds el) as Hu.
    unfold draw_element at 2. cbv zeta. change UNIT_SIZE with 4. change LINE_SPACING with (4 * 2).
    cbn [layout]. cbv zeta.
    replace (400 <? x * 4 + units_of el * 4) with (100 <? x + units_of el).
    2:{ destruct (Nat.ltb_spec 100 (x + units_of el)), (Nat.ltb_spec 400 (x * 4 + units_of el * 4));
          try reflexivity; lia. }
    destruct (Nat.ltb_spec 100 (x + units_of el)) as [Hwrap|Hfit].
    + (* the element goes to the next row *)
      replace (row * 12 + 4 + 4 * 2) with (S row * 12) by lia.
      replace (0 + units_of el * 4) with (units_of el * 4) by lia.
      specialize (IH (units_of el) (S row)
                    (if is_symbol el
                     then fillRect img FOREGROUND_COLOR 0 (S row * 12) (units_of el * 4) 4
                     else img) ltac:(lia)).
      destruct (fold_left (draw_element 400) rest _) as [[x' y'] img'].
      destruct IH as (Hw & Hh & Hpix).
      split; [rewrite Hw; destruct (is_symbol el); reflexivity|].
      split; [rewrite Hh; destruct (is_symbol el); reflexivity|].
      intros r c Hc. rewrite Hpix by exact Hc. rewrite nth_cells.
      set (k := r * 100 + c). set (start := row * 100 + x).
      assert (S row * 100 + units_of el = start + (100 - x) + units_of el) as Estart
        by (unfold start; lia).
      rewrite Estart.
      assert (bm_pixel (if is_symbol el
                        then fillRect img FOREGROUND_COLOR 0 (S row * 12) (units_of el * 4) 4
                        else img) (c * 4 + 2) (r * 12 + 2)
              = if is_symbol el && (start + (100 - x) <=? k) && (k <? start + (100 - x) + units_of el)
                then FOREGROUND_COLOR else bm_pixel img (c * 4 + 2) (r * 12 + 2)) as ->.
      { destruct (is_symbol el); [|reflexivity]. cbn [fillRect bm_pixel andb].
        unfold k, start.
        destruct (Nat.leb_spec 0 (c * 4 + 2)), (Nat.ltb_spec (c * 4 + 2) (0 + units_of el * 4)),
          (Nat.leb_spec (S row * 12) (r * 12 + 2)), (Nat.ltb_spec (r * 12 + 2) (S row * 12 + 4)),
          (Nat.leb_spec (row * 100 + x + (100 - x)) (r * 100 + c)),
          (Nat.ltb_spec (r * 100 + c) (row * 100 + x + (100 - x) + units_of el));
          cbn [andb]; try reflexivity; exfalso; nia. }
      destruct (Nat.leb_spec (start + (100 - x) + units_of el) k) as [H1|H1].
      * destruct (Nat.leb_spec start k) as [_|]; [|lia].
        destruct (Nat.ltb_spec (k - start) (100 - x)) as [|_]; [lia|].
        destruct (Nat.ltb_spec (k - start) (100 - x + units_of el)) as [|_]; [lia|].
        destruct (Nat.ltb_spec k (start + (100 - x) + units_of el)) as [|_]; [lia|].
        rewrite !andb_false_r. cbn [andb].
        replace (k - start - (100 - x) - units_of el)
          with (k - (start + (100 - x) + units_of el)) by lia.
        reflexivity.
      * cbn [andb].
        destruct (Nat.ltb_spec k (start + (100 - x) + units_of el)) as [_|]; [|lia].
        destruct (Nat.leb_spec start k) as [H2|H2]; cbn [andb].
        -- destruct (Nat.ltb_spec (k - start) (100 - x)) as [H3|H3].
           ++ destruct (Nat.leb_spec (start + (100 - x)) k) as [|_]; [lia|].
              rewrite andb_false_r. reflexivity.
           ++ destruct (Nat.ltb_spec (k - start) (100 - x + units_of el)) as [_|]; [|lia].
              destruct (Nat.leb_spec (start + (100 - x)) k) as [_|]; [|lia].
              rewrite !andb_true_r. reflexivity.
        -- destruct (Nat.leb_spec (start + (100 - x)) k) as [|_]; [lia|].
           rewrite andb_false_r. reflexivity.
    + (* the element fits the row *)
      replace (x * 4 + units_of el * 4) with ((x + units_of el) * 4) by lia.
      specialize (IH (x + units_of el) row
                    (if is_symbol el
                     then fillRect img FOREGROUND_COLOR (x * 4) (row * 12) (units_of el * 4) 4
                     else img) ltac:(lia)).
      destruct (fold_left (draw_element 400) rest _) as [[x' y'] img'].
      destruct IH as (Hw & Hh & Hpix).
      split; [rewrite Hw; destruct (is_symbol el); reflexivity|].
      split; [rewrite Hh; destruct (is_symbol el); reflexivity|].
      intros r c Hc. rewrite Hpix by exact Hc.
      pose proof (nth_cells 0 (units_of el) (is_symbol el) (layout rest (x + units_of el)))
        as Hcells. cbn [repeat app] in Hcells. rewrite Hcells. clear Hcells.
      set (k := r * 100 + c). set (start := row * 100 + x).
      replace (row * 100 + (x + units_of el)) with (start + units_of el) by (unfold start; lia).
      assert (bm_pixel (if is_symbol el
                        then fillRect img FOREGROUND_COLOR (x * 4) (row * 12) (units_of el * 4) 4
                        else img) (c * 4 + 2) (r * 12 + 2)
              = if is_symbol el && (start <=? k) && (k <? start + units_of el)
                then FOREGROUND_COLOR else bm_pixel img (c * 4 + 2) (r * 12 + 2)) as ->.
      { destruct (is_symbol el); [|reflexivity]. cbn [fillRect bm_pixel andb].
        unfold k, start.
        destruct (Nat.leb_spec (x * 4) (c * 4 + 2)),
          (Nat.ltb_spec (c * 4 + 2) (x * 4 + units_of el * 4)),
          (Nat.leb_spec (row * 12) (r * 12 + 2)), (Nat.ltb_spec (r * 12 + 2) (row * 12 + 4)),
          (Nat.leb_spec (row * 100 + x) (r * 100 + c)),
          (Nat.ltb_spec (r * 100 + c) (row * 100 + x + units_of el));
          cbn [andb]; try reflexivity; exfalso; nia. }
      destruct (Nat.leb_spec (start + units_of el) k) as [H1|H1].
      * destruct (Nat.leb_spec start k) as [_|]; [|lia].
        destruct (Nat.ltb_spec (k - start) 0) as [|_]; [lia|].
        destruct (Nat.ltb_spec (k - start) (0 + units_of el)) as [|_]; [lia|].
        destruct (Nat.ltb_spec k (start + units_of el)) as [|_]; [lia|].
        rewrite !andb_false_r. cbn [andb].
        replace (k - start - 0 - units_of el) with (k - (start + units_of el)) by lia.
        reflexivity.
      * cbn [andb].
        destruct (Nat.ltb_spec k (start + units_of el)) as [_|]; [|lia].
        destruct (Nat.leb_spec start k) as [H2|H2]; cbn [andb].
        -- destruct (Nat.ltb_spec (k - start) 0) as [|_]; [lia|].
           destruct (Nat.ltb_spec (k - start) (0 + units_of el)) as [_|]; [|lia].
           rewrite !andb_true_r. reflexivity.
        -- rewrite andb_false_r. reflexivity.
Qed.

Lemma map_grid {A} (g : nat -> A) (c r : nat) :
  flat_map (fun row => map (fun col => g (row * c + col)) (seq 0 c)) (seq 0 r)
  = map g (seq 0 (r * c)).
Proof.
  rewrite <- flat_map_grid. apply flat_map_ext. intros row.
  symmetry. apply flat_map_singleton.
Qed.

Lemma map_nth_cells (n : nat) : forall l : list bool,
  map (fun k => nth k l false) (seq 0 n) = cells n l.
Proof.
  induction n as [|n IH]; intros l; [reflexivity|].
  cbn [seq map cells]. rewrite <- seq_shift, map_map.
  destruct l as [|a l]; cbn [nth]; f_equal.
  - rewrite <- IH. apply map_ext. intros k. destruct k; reflexivity.
  - apply IH.
Qed.

(** The unit sequence that decodeMorseMessage reads from the canvas that
    encodeMorseMessage drew: the layout of the elements, cut or filled
    with white to the rows of the canvas. *)
Lemma morse_units (elements : list element) :
  unitSequence (morse_canvas elements)
  = cells (morse_rows elements * 100) (layout elements 0).
Proof.
  rewrite <- map_nth_cells.
  unfold morse_canvas. cbv zeta.
  set (numRows := morse_rows elements).
  change (UNITS_PER_ROW * UNIT_SIZE) with 400.
  change UNIT_SIZE with 4. change LINE_SPACING with 8.
  pose proof (draw_elements_sample elements 0 0
                (Bitmap 400 (numRows * 4 + (numRows - 1) * 8) (fun _ _ => BACKGROUND_COLOR))
                ltac:(lia)) as H.
  change (0 * 4) with 0 in H. change (0 * 12) with 0 in H.
  destruct (fold_left (draw_element 400) elements _) as [[x y] img'].
  destruct H as (Hw & Hh & Hpix). cbn [bm_width bm_height bm_pixel] in Hw, Hh, Hpix.
  unfold unitSequence. rewrite Hw, Hh.
  change UNIT_SIZE with 4. change LINE_SPACING with 8.
  change ((400 + (4 - 1)) / 4) with 100.
  assert ((numRows * 4 + (numRows - 1) * 8 + (4 + 8 - 1)) / (4 + 8) = numRows) as ->.
  { change (4 + 8 - 1) with 11. change (4 + 8) with 12.
    destruct numRows as [|n]; [reflexivity|].
    replace (S n * 4 + (S n - 1) * 8 + 11) with (3 + S n * 12) by lia.
    rewrite Nat.div_add by lia. reflexivity. }
  rewrite <- (map_grid (fun k => nth k (layout elements 0) false) 100 numRows).
  apply flat_map_ext_in. intros row Hrow. apply in_seq in Hrow.
  apply map_ext_in. intros col Hcol. apply in_seq in Hcol.
  unfold unit_at, getImageData. rewrite Hw, Hh.
  change UNIT_SIZE with 4. change (4 / 2) with 2. change (4 + 8) with 12.
  destruct (Nat.ltb_spec (col * 4 + 2) 400) as [_|]; [|lia].
  destruct (Nat.ltb_spec (row * 12 + 2) (numRows * 4 + (numRows - 1) * 8)) as [_|]; [|lia].
  cbn [andb]. rewrite Hpix by lia.
  change (0 * 100 + 0) with 0. rewrite Nat.sub_0_r. cbn [Nat.leb andb].
  destruct (nth (row * 100 + col) (layout elements 0) false); reflexivity.
Qed.

(** What encodeMorseMessage returns when it succeeds. *)
Lemma encodeMorseMessage_ok
  (cryptoEncrypt : jsstring -> jsstring -> result jsstring)
  (message password payload : jsstring) :
  message <> [] -> password <> [] -> length message <= MAX_MESSAGE_LENGTH_CHARS ->
  cryptoEncrypt message password = Ok payload ->
  let hex := arrayBufferToHex (TextEncoder_encode payload) in
  encodeMorseMessage cryptoEncrypt message password
  = Ok (MorseEncoded (morse_canvas (visualElements hex)) hex payload).
Proof.
  intros Hm Hp Hlen Henc hex. unfold encodeMorseMessage.
  assert ((length message =? 0) = false) as ->
    by (destruct message; [congruence | reflexivity]).
  assert ((length password =? 0) = false) as ->
    by (destruct password; [congruence | reflexivity]).
  replace (MAX_MESSAGE_LENGTH_CHARS <? length message) with false
    by (symmetry; apply Nat.ltb_ge; exact Hlen).
  rewrite Henc. cbv zeta. fold hex. unfold morse_canvas, morse_rows. cbv zeta.
  destruct (fold_left _ _ _) as [[x y] canvas]. reflexivity.
Qed.

(** decodeMorseMessage when the unit sequence does not parse, or parses
    to Morse characters that are not those of hex digits. *)
Lemma decodeMorseMessage_throws
  (cryptoDecrypt : jsstring -> jsstring -> result jsstring)
  (arrayBufferToString : list Z -> jsstring)
  (elements : list element) (password : jsstring) (units : list bool) (e : error) :
  password <> [] ->
  cells (morse_rows elements * 100) (layout elements 0) = units ->
  match parse_units (S (length units)) units [] with
  | Some (Ok morseString) => morse_to_hex (split 32 (trim morseString)) [] = Throw e
  | Some (Throw e') => e' = e
  | None => False
  end ->
  decodeMorseMessage cryptoDecrypt arrayBufferToString (Some (morse_canvas elements)) password
  = Some (Throw e).
Proof.
  intros Hp Hunits Hparse. unfold decodeMorseMessage.
  assert ((length password =? 0) = false) as ->
    by (destruct password; [congruence | reflexivity]).
  cbv zeta. rewrite morse_units, Hunits.
  destruct (parse_units (S (length units)) units []) as [[morseString|e']|];
    [|subst e'; reflexivity|contradiction].
  rewrite Hparse. reflexivity.
Qed.

(** X10. The image of the Morse service does not carry the message back.
    The encoder starts a new row when an element does not fit the one it
    is in, and leaves the rest of the row white; the decoder reads the
    rows one after the other, so that such a rest, joined to the gap
    before it, counts as a gap between characters. What the decoder
    samples from the image of any encoding is the layout of its elements.
    Whenever the envelope is "AAq", whose hex string is 414171, the last
    dah of the last "1" (.----) would begin at unit 98 of the first row:
    the character is cut in two and decodeMorseMessage throws, whatever
    cryptoDecrypt is. The same happens for the message "hi" under the toy
    cipher, whose envelope has the three segments of the cipher service.
    The hex string of either encoding decodes (X9). *)
Theorem morse_image_roundtrip_fails :
  (forall (cryptoEncrypt : jsstring -> jsstring -> result jsstring)
          (message password payload : jsstring),
     message <> [] -> password <> [] -> length message <= MAX_MESSAGE_LENGTH_CHARS ->
     cryptoEncrypt message password = Ok payload ->
     exists e,
       encodeMorseMessage cryptoEncrypt message password = Ok e
       /\ morsePayload e = payload
       /\ hexString e = arrayBufferToHex (TextEncoder_encode payload)
       /\ unitSequence (dataUrl e)
          = cells (morse_rows (visualElements (hexString e)) * 100)
              (layout (visualElements (hexString e)) 0))
  /\ (forall message password : jsstring,
        message <> [] -> password <> [] -> length message <= MAX_MESSAGE_LENGTH_CHARS ->
        exists e,
          encodeMorseMessage (fun _ _ => Ok (js "AAq")) message password = Ok e
          /\ hexString e = js "414171"
          /\ map (fun u : bool => if u then 66%Z else 87%Z) (unitSequence (dataUrl e))
             = js "BWBWBWBWBBBWWWBWBBBWBBBWBBBWBBBWWWBWBWBWBWBBBWWWBWBBBWBBBWBBBWBBBWWWBBBWBBBWBWBWBWWWBWBBBWBBBWBBBWWW"
               ++ js "BBBWWWWWWWWWWWWWWWWWWWWWWWWWWWWWWWWWWWWWWWWWWWWWWWWWWWWWWWWWWWWWWWWWWWWWWWWWWWWWWWWWWWWWWWWWWWWWWWWW"
          /\ forall (cryptoDecrypt : jsstring -> jsstring -> result jsstring)
               (arrayBufferToString : list Z -> jsstring),
               decodeMorseMessage cryptoDecrypt arrayBufferToString (Some (dataUrl e)) password
               = Some (Throw (err ("Morse Decode: Could not find hex equivalent for Morse sequence "
                                   ++ quote ++ ".---" ++ quote ++ "."))))
  /\ exists e,
       encodeMorseMessage toy_cryptoEncrypt (js "hi") (js "pw") = Ok e
       /\ morsePayload e
          = js "CzBVep/E6Q4zWH2ix+wRNg==:W4Clyu8UOV6DqM3y:aGkICAgICAgICAgICAgICAgI"
       /\ length (unitSequence (dataUrl e)) = 2000
       /\ forall (cryptoDecrypt : jsstring -> jsstring -> result jsstring)
            (arrayBufferToString : list Z -> jsstring),
            decodeMorseMessage cryptoDecrypt arrayBufferToString (Some (dataUrl e)) (js "pw")
            = Some (Throw (err ("Morse Decode: Could not find hex equivalent for Morse sequence "
                                ++ quote ++ "-" ++ quote ++ "."))).
Proof.
  split; [|split].
  - intros cryptoEncrypt message password payload Hm Hp Hlen Henc.
    eexists. split; [apply encodeMorseMessage_ok; eassumption|].
    cbn [morsePayload hexString dataUrl].
    split; [reflexivity|]. split; [reflexivity|]. apply morse_units.
  - intros message password Hm Hp Hlen.
    eexists. split; [apply encodeMorseMessage_ok; [exact Hm | exact Hp | exact Hlen | reflexivity]|].
    cbn [morsePayload hexString dataUrl].
    split; [vm_compute; reflexivity|].
    (* the elements, then the units, by computation *)
    match goal with
    | |- context [morse_canvas ?E] =>
        let L := eval vm_compute in E in
        replace E with L by (vm_compute; reflexivity)
    end. split.
    + rewrite morse_units. vm_compute. reflexivity.
    + intros cryptoDecrypt arrayBufferToString.
      match goal with
      | |- context [morse_canvas ?L] =>
          let U := eval vm_compute in (cells (morse_rows L * 100) (layout L 0)) in
          eapply (decodeMorseMessage_throws _ _ L _ U);
          [ | vm_compute; reflexivity | vm_compute; reflexivity ]
      end.
      exact Hp.
  - eexists. split.
    { apply encodeMorseMessage_ok; [discriminate | discriminate | vm_compute; lia |].
      vm_compute. reflexivity. }
    cbn [morsePayload hexString dataUrl].
    split; [reflexivity|].
    match goal with
    | |- context [morse_canvas ?E] =>
        let L := eval vm_compute in E in
        replace E with L by (vm_compute; reflexivity)
    end. split.
    + rewrite morse_units. vm_compute. reflexivity.
    + intros cryptoDecrypt arrayBufferToString.
      match goal with
      | |- context [morse_canvas ?L] =>
          let U := eval vm_compute in (cells (morse_rows L * 100) (layout L 0)) in
          eapply (decodeMorseMessage_throws _ _ L _ U);
          [ | vm_compute; reflexivity | vm_compute; reflexivity ]
      end.
      discriminate.
Qed.

End MorseFacts.

(** ** The password strength utility *)

Module StrengthFacts.
Import JS PasswordStrength.
#[local] Open Scope nat_scope.

Lemma varietyCount_le password : varietyCount password <= 4.
Proof.
  unfold varietyCount.
  destruct (hasLowercase password), (hasUppercase password), (hasNumbers password),
    (hasSymbols password); cbn; lia.
Qed.

(** Every character is of one of the four kinds. *)
Lemma varietyCount_pos password : password <> [] -> 1 <= varietyCount password.
Proof.
  intros Hne. destruct password as [|c rest]; [congruence|].
  unfold varietyCount, hasLowercase, hasUppercase, hasNumbers, hasSymbols.
  cbn [existsb].
  destruct (is_lower c) eqn:E1; cbn [orb negb].
  { cbn [List.filter length]. lia. }
  destruct (is_upper c) eqn:E2; cbn [orb negb].
  { destruct (existsb is_lower rest); cbn [List.filter length]; lia. }
  destruct (is_digit c) eqn:E3; cbn [orb negb].
  { destruct (existsb is_lower rest), (existsb is_upper rest); cbn [List.filter length]; lia. }
  destruct (existsb is_lower rest), (existsb is_upper rest), (existsb is_digit rest);
    cbn [List.filter length]; lia.
Qed.

(** X12. The levels of calculatePasswordStrength, whatever the platform's
    toLowerCase is. The score is at most 8, so that the level Very Strong
    is never returned; the level is Strong exactly for a password that is
    not in the common list and has all four kinds of character in 12
    characters or more, or three kinds in 16 or more; a password shorter
    than 8 characters is rated Medium when it has all four kinds; a
    result rated Weak or below lists no item of type good; and the
    feedback is empty for the empty password only. *)
Theorem password_strength_levels (toLowerCase : jsstring -> jsstring) (password : jsstring) :
  let r := calculatePasswordStrength toLowerCase password in
  let common := existsb (list_eqb (toLowerCase password)) VERY_COMMON_PASSWORDS in
  level r <> VeryStrong
  /\ (level r = Strong <->
      common = false
      /\ ((varietyCount password = 4 /\ 12 <= length password)
          \/ (varietyCount password = 3 /\ 16 <= length password)))
  /\ (common = false -> 0 < length password < 8 -> varietyCount password = 4 ->
      level r = Medium)
  /\ (level_value (level r) <= 1 -> Forall (fun f => fb_type f <> type_good) (feedback r))
  /\ (feedback r = [] <-> password = []).
Proof.
  intros r common. pose proof (varietyCount_le password) as Hle.
  unfold r, calculatePasswordStrength. fold common.
  destruct (Nat.eqb_spec (length password) 0) as [H0|H0].
  { cbn [level feedback level_value].
    assert (password = []) as -> by (destruct password; [reflexivity | discriminate]).
    split; [discriminate|]. split; [split; [discriminate | cbn; intros [_ [[_ H]|[_ H]]]; lia]|].
    split; [cbn; lia|]. split; [constructor|]. split; reflexivity. }
  assert (password <> []) as Hne by (intros ->; apply H0; reflexivity).
  pose proof (varietyCount_pos password Hne) as Hpos.
  destruct common.
  { cbn [level feedback level_value].
    split; [discriminate|]. split; [split; [discriminate | intros [H _]; discriminate]|].
    split; [discriminate|]. split; [repeat constructor; discriminate|].
    split; [discriminate | contradiction]. }
  destruct (Nat.ltb_spec (length password) 8) as [H8|H8];
    destruct (Nat.leb_spec 3 (varietyCount password)) as [H3|H3];
    destruct (Nat.leb_spec 12 (length password)) as [H12|H12]; try lia;
    destruct (Nat.leb_spec 16 (length password)) as [H16|H16]; try lia;
    assert (varietyCount password = 1 \/ varietyCount password = 2
            \/ varietyCount password = 3 \/ varietyCount password = 4) as Hv by lia;
    destruct Hv as [Hv|[Hv|[Hv|Hv]]]; rewrite Hv; try lia; cbn;
    (split; [discriminate|]);
    (split; [split; [intros H; first [discriminate H | split; [reflexivity | lia]]
                    | intros [_ [[? ?]|[? ?]]]; first [lia | reflexivity]]|]);
    (split; [intros _ ? ?; first [lia | reflexivity]|]);
    (split; [intros H; first [lia | repeat constructor; discriminate]|]);
    (split; [discriminate | contradiction]).
Qed.

End StrengthFacts.

(** ** The raw payload functions of the LSB service *)

Module RawFacts.
Import JS Encoding Utils Constants Stego RawLSB Vocabulary SerialFacts Utf8Facts
  TerminatorFacts LsbFacts.
#[local] Open Scope nat_scope.

(** The two embedding loops differ in the message of an error only. *)
Lemma raw_write_ok (bits : jsstring) : forall (i dataIndex total : nat) (data data' : list Z),
  lsb_write bits i dataIndex total data = (Ok tt, data') ->
  raw_write bits i dataIndex total data = (Ok tt, data').
Proof.
  induction bits as [|c bits IH]; intros i dataIndex total data data' H.
  - exact H.
  - cbn [lsb_write raw_write] in *. cbv zeta in *.
    destruct ((length (write_lsb data (dataIndex + i mod 3) (parse_bit c))
               <=? (if i mod 3 =? 2 then dataIndex + 4 else dataIndex))
              && (i <? total - 1)); [discriminate|].
    apply IH. exact H.
Qed.

Lemma raw_pixel_loop_finds (data : list Z) (maxBitsToRead : nat) (B : jsstring) (stop : nat)
  (R : result jsstring) :
  stop + 40 <= length B ->
  (forall k, k < stop -> startsWith (drop k B) MESSAGE_TERMINATOR_BINARY = false) ->
  on_terminator return_payload raw_messages (take (stop + 40) B) [] = Some R ->
  reads_back data channel_position B ->
  stop + 40 <= maxBitsToRead ->
  forall n p, 3 * p < stop + 40 -> stop + 40 <= 3 * (p + n) ->
    raw_pixel_loop data maxBitsToRead n (4 * p) (take (3 * p) B, 3 * p) = Some R.
Proof.
  intros Hin Hno Hend Hread Hfit. induction n as [|n IH]; intros p Hp Hn; [lia|].
  cbn [raw_pixel_loop].
  rewrite (channel_loop_pixel return_payload raw_messages [] data channel_position
             maxBitsToRead B stop R Hin Hno Hend Hread Hfit p (4 * p)
             ltac:(intros j Hj; symmetry; apply channel_position_pixel; exact Hj) Hp).
  destruct (Nat.leb_spec (stop + 40) (3 * p + 3)) as [H|H]; [reflexivity|].
  cbn [snd]. destruct (Nat.leb_spec maxBitsToRead (3 * p + 3)) as [H'|_]; [lia|].
  replace (4 * p + 4) with (4 * (p + 1)) by lia.
  replace (3 * p + 3) with (3 * (p + 1)) by lia.
  apply IH; lia.
Qed.

(** X13. The raw payload functions of the LSB service. For a payload of
    two or more ASCII characters, none of them NUL, on a pixel buffer
    that is large enough, lsbEncodeRawPayload succeeds and
    lsbDecodeRawPayload returns from the carrier what [delivered] gives
    of the payload: the payload itself when its last character has an odd
    code, and the payload without its last character when that code is
    even. *)
Theorem raw_payload_delivers (cv : canvas) (payload : jsstring) :
  2 <= length payload -> Forall (fun c => (1 <= c < 128)%Z) payload ->
  Forall byte (pixels cv) ->
  8 * length payload + 40 <= length (pixels cv) / 4 * 3 ->
  exists carrier,
    fst (lsbEncodeRawPayload (Some cv) payload) = Ok carrier
    /\ length (pixels carrier) = length (pixels cv)
    /\ lsbDecodeRawPayload (Some carrier) = Ok (delivered payload)
    /\ (Z.odd (List.last payload 1%Z) = true -> lsbDecodeRawPayload (Some carrier) = Ok payload)
    /\ (Z.odd (List.last payload 1%Z) = false ->
        lsbDecodeRawPayload (Some carrier) = Ok (removelast payload)).
Proof.
  intros Hpl Hascii Hpix Hcap.
  destruct (embedded_string return_payload raw_messages payload [] Hpl Hascii)
    as (Hbits & HlenB & HBchars & stop & Hin & Hno & Hend).
  set (P := flat_map bits_of_byte payload) in *.
  set (B := P ++ MESSAGE_TERMINATOR_BINARY) in *.
  destruct (lsb_write_spec B 0 (length B) (pixels cv) Hpix HBchars eq_refl ltac:(lia))
    as (data' & Hwrite & Hlen' & Hbyte' & Hread & _).
  change (4 * (0 / 3)) with 0 in Hwrite. apply raw_write_ok in Hwrite.
  exists (Canvas (width cv) (height cv) data').
  assert (lsbDecodeRawPayload (Some (Canvas (width cv) (height cv) data'))
          = Ok (delivered payload)) as Hrun.
  { unfold lsbDecodeRawPayload. cbn [pixels]. cbv zeta.
    pose proof (raw_pixel_loop_finds data' (length data' / 4 * 3)
                  B stop _ Hin Hno Hend Hread ltac:(rewrite Hlen'; lia)
                  ((length data' + 3) / 4) 0 ltac:(lia)) as Hloop.
    change (4 * 0) with 0 in Hloop. change (3 * 0) with 0 in Hloop.
    rewrite take_0 in Hloop. rewrite Hloop; [reflexivity|].
    rewrite Hlen'.
    pose proof (Nat.div_mod_eq (length (pixels cv)) 4).
    pose proof (Nat.div_mod_eq (length (pixels cv) + 3) 4).
    pose proof (Nat.mod_upper_bound (length (pixels cv)) 4 ltac:(lia)).
    pose proof (Nat.mod_upper_bound (length (pixels cv) + 3) 4 ltac:(lia)).
    lia. }
  split; [|split; [exact Hlen'|split; [exact Hrun|split]]].
  - unfold lsbEncodeRawPayload.
    assert ((length payload =? 0) = false) as ->
      by (destruct payload; [cbn in Hpl; lia | reflexivity]).
    rewrite Hbits. fold B. cbv zeta.
    destruct (Nat.ltb_spec (length (pixels cv) / 4 * 3) (length B)) as [H|_]; [lia|].
    rewrite Hwrite. reflexivity.
  - intros Hodd. rewrite Hrun. unfold delivered. rewrite Hodd. reflexivity.
  - intros Hodd. rewrite Hrun. unfold delivered. rewrite Hodd. reflexivity.
Qed.

Lemma raw_payload_delivers_witness :
  exists carrier,
    fst (lsbEncodeRawPayload (Some (Canvas 8 4 (repeat 255%Z 128))) (js "hit")) = Ok carrier
    /\ lsbDecodeRawPayload (Some carrier) = Ok (js "hi").
Proof.
  destruct (raw_payload_delivers (Canvas 8 4 (repeat 255%Z 128)) (js "hit"))
    as (carrier & He & _ & _ & _ & Heven).
  - vm_compute. lia.
  - apply Forall_forall. intros c Hc. apply list_elem_of_In in Hc.
    vm_compute in Hc. intuition (subst; lia).
  - apply Forall_forall. intros c Hc. apply list_elem_of_In in Hc.
    apply repeat_spec in Hc. subst c. unfold byte. lia.
  - vm_compute. lia.
  - exists carrier. split; [exact He|]. apply Heven. reflexivity.
Defined.

End RawFacts.

(** ** The exhaustive search: the first candidate that matches *)

Module ExhaustiveFacts.
Import JS Encoding Utils HashCracker SerialFacts Vocabulary.
#[local] Open Scope nat_scope.

Section Exhaustive.
Variable signal : nat -> bool.
Variable targetHash : jsstring.
Hypothesis never_aborted : forall k, signal k = false.

(** One batch of at most [n] candidates taken from the generator. *)
Lemma try_batch_spec (n : nat) : forall (iterator : list jsstring) (checked : nat),
  match try_batch targetHash n iterator checked with
  | Exhausted =>
      length iterator < n /\ forall i, i < length iterator -> md5 (nth i iterator []) <> targetHash
  | Found word checked' =>
      exists j, j < n /\ j < length iterator /\ nth j iterator [] = word
                /\ md5 word = targetHash /\ checked' = checked + j + 1
                /\ forall i, i < j -> md5 (nth i iterator []) <> targetHash
  | BatchDone iterator' checked' =>
      n <= length iterator /\ iterator' = drop n iterator /\ checked' = checked + n
      /\ forall i, i < n -> md5 (nth i iterator []) <> targetHash
  end.
Proof.
  induction n as [|n IH]; intros iterator checked; cbn [try_batch].
  - repeat split; [lia | lia | intros i Hi; lia].
  - destruct iterator as [|word iterator].
    + cbn. split; [lia | intros i Hi; lia].
    + destruct (list_eqb (md5 word) targetHash) eqn:Hm.
      * apply list_eqb_eq in Hm. exists 0. cbn. repeat split; try lia. exact Hm.
      * assert (md5 word <> targetHash) as Hne.
        { intros E. rewrite E in Hm.
          assert (list_eqb targetHash targetHash = true) as Hr by (apply list_eqb_eq; reflexivity).
          congruence. }
        specialize (IH iterator (S checked)).
        destruct (try_batch targetHash n iterator (S checked)) as [|w c'|it' c'].
        -- destruct IH as [Hlen Hnone]. cbn [length]. split; [lia|].
           intros [|i] Hi; [exact Hne|]. cbn [nth]. apply Hnone. lia.
        -- destruct IH as (j & Hj & Hjl & Hw & Hmd & Hc & Hb).
           exists (S j). cbn [length nth]. repeat split; try lia; try assumption.
           intros [|i] Hi; [exact Hne|]. apply Hb. lia.
        -- destruct IH as (Hlen & Hit & Hc & Hb). cbn [length drop].
           repeat split; try lia; try assumption.
           intros [|i] Hi; [exact Hne|]. cbn [nth]. apply Hb. lia.
Qed.

Lemma nth_drop_shift {A} (n i : nat) (l : list A) (d : A) :
  nth i (drop n l) d = nth (n + i) l d.
Proof.
  revert l. induction n as [|n IH]; intros [|x l]; cbn; try reflexivity.
  - destruct i; reflexivity.
  - apply IH.
Qed.

(** The batches, with fuel for those that remain and one more. *)
Lemma brute_batches_spec (total : nat) (fuel : nat) :
  forall (k : nat) (iterator : list jsstring) (checked : nat) (reports : list progress),
  length iterator < fuel * BATCH_SIZE ->
  exists outcome earlier final,
    brute_batches signal targetHash fuel total k iterator checked reports
    = Some (outcome, reports ++ earlier ++ [final])
    /\ match outcome with
       | Resolved (Some word) =>
           exists j, j < length iterator /\ nth j iterator [] = word
                     /\ md5 word = targetHash
                     /\ (forall i, i < j -> md5 (nth i iterator []) <> targetHash)
                     /\ final = Progress (checked + j + 1) total
       | Resolved None =>
           (forall i, i < length iterator -> md5 (nth i iterator []) <> targetHash)
           /\ final = Progress total total
       | Rejected _ => False
       end.
Proof using never_aborted.
  induction fuel as [|fuel IH]; intros k iterator checked reports Hfuel; [lia|].
  cbn [brute_batches]. rewrite never_aborted.
  pose proof (try_batch_spec BATCH_SIZE iterator checked) as Hb.
  destruct (try_batch targetHash BATCH_SIZE iterator checked) as [|w c'|it' c'].
  - destruct Hb as [_ Hnone].
    exists (Resolved None), [], (Progress total total).
    split; [reflexivity|]. split; [exact Hnone | reflexivity].
  - destruct Hb as (j & _ & Hjl & Hw & Hmd & Hc & Hbefore).
    exists (Resolved (Some w)), [], (Progress c' total).
    split; [reflexivity|]. exists j. subst c'. repeat split; assumption.
  - destruct Hb as (Hlen & -> & -> & Hbefore).
    destruct (IH (S k) (drop BATCH_SIZE iterator) (checked + BATCH_SIZE)
                (reports ++ [Progress (checked + BATCH_SIZE) total]))
      as (outcome & earlier & final & Hrun & Hout).
    { rewrite length_drop. lia. }
    exists outcome, (Progress (checked + BATCH_SIZE) total :: earlier), final.
    split; [rewrite Hrun, <- app_assoc; reflexivity|].
    rewrite length_drop in Hout.
    destruct outcome as [[word|]|e]; [| |exact Hout].
    + destruct Hout as (j & Hj & Hw & Hmd & Hb & Hf).
      rewrite nth_drop_shift in Hw.
      exists (BATCH_SIZE + j). repeat split; try assumption; try lia.
      * intros i Hi. destruct (Nat.lt_ge_cases i BATCH_SIZE) as [Hlt|Hge]; [auto|].
        specialize (Hb (i - BATCH_SIZE) ltac:(lia)).
        rewrite nth_drop_shift in Hb.
        replace (BATCH_SIZE + (i - BATCH_SIZE)) with i in Hb by lia. exact Hb.
      * rewrite Hf. f_equal. lia.
    + destruct Hout as [Hnone Hf]. split; [|exact Hf].
      intros i Hi. destruct (Nat.lt_ge_cases i BATCH_SIZE) as [Hlt|Hge]; [auto|].
      specialize (Hnone (i - BATCH_SIZE) ltac:(lia)).
      rewrite nth_drop_shift in Hnone.
      replace (BATCH_SIZE + (i - BATCH_SIZE)) with i in Hnone by lia. exact Hnone.
Qed.

End Exhaustive.

(** X14. While the search is not cancelled, bruteForceMD5 settles (with
    fuel for one more batch than the candidates fill) and resolves with
    the first candidate, in the order the generator yields them, whose
    MD5 is the target; its last progress report gives that candidate's
    position as the number checked. If no candidate matches it resolves
    with null, and the last report gives the computed total as the number
    checked. With an empty charset, or a maximal length of 0, it resolves
    with null at once. *)
Theorem bruteForceMD5_first_match (signal : nat -> bool) (targetHash charset : jsstring)
  (maxLength fuel : nat) :
  let candidates := generate charset maxLength [] 0 in
  let total := calculateBruteForceCombinations charset maxLength in
  (forall k, signal k = false) ->
  length candidates / BATCH_SIZE < fuel ->
  exists outcome earlier final,
    bruteForceMD5 signal targetHash fuel charset maxLength = Some (outcome, earlier ++ [final])
    /\ match outcome with
       | Resolved (Some word) =>
           exists i, i < length candidates /\ nth i candidates [] = word
                     /\ md5 word = targetHash
                     /\ (forall j, j < i -> md5 (nth j candidates []) <> targetHash)
                     /\ final = Progress (i + 1) total
       | Resolved None =>
           (forall w, In w candidates -> md5 w <> targetHash)
           /\ final = Progress total total
           /\ (length charset = 0 \/ maxLength = 0 -> earlier = [] /\ total = 0)
       | Rejected _ => False
       end.
Proof.
  intros candidates total Hsig Hfuel.
  destruct (brute_batches_spec signal targetHash Hsig total fuel 0 candidates 0 [])
    as (outcome & earlier & final & Hrun & Hout).
  { pose proof (Nat.div_mod_eq (length candidates) BATCH_SIZE) as Hd.
    pose proof (Nat.mod_upper_bound (length candidates) BATCH_SIZE) as Hm.
    unfold BATCH_SIZE in *. lia. }
  exists outcome, earlier, final. split; [exact Hrun|].
  destruct outcome as [[word|]|e]; [exact Hout| |exact Hout].
  destruct Hout as [Hnone Hf]. split; [|split; [exact Hf|]].
  - intros w Hw. apply In_nth with (d := []) in Hw. destruct Hw as (i & Hi & <-).
    apply Hnone. exact Hi.
  - intros Hempty.
    assert (candidates = []) as Hc.
    { subst candidates. unfold generate. destruct Hempty as [Hch|Hml].
      - destruct charset; [|discriminate]. destruct maxLength as [|[|m]]; reflexivity.
      - subst maxLength. cbn. induction (chars_of charset) as [|c l IHl]; [reflexivity|exact IHl]. }
    assert (total = 0) as Ht.
    { subst total. unfold calculateBruteForceCombinations.
      destruct Hempty as [-> | ->]; [reflexivity|]. rewrite orb_true_r. reflexivity. }
    split; [|exact Ht].
    unfold bruteForceMD5 in Hrun. fold candidates in Hrun. rewrite Hc in Hrun.
    destruct fuel as [|fuel]; [discriminate|].
    cbn in Hrun. rewrite Hsig in Hrun. injection Hrun as Hr.
    destruct earlier as [|p [|q earlier]]; [reflexivity|discriminate|discriminate].
Qed.

Lemma bruteForceMD5_first_match_witness :
  exists outcome earlier final,
    bruteForceMD5 (fun _ => false) (md5 (js "ba")) 1 (js "ab") 2
    = Some (outcome, earlier ++ [final])
    /\ match outcome with Rejected _ => False | Resolved _ => True end.
Proof.
  destruct (bruteForceMD5_first_match (fun _ => false) (md5 (js "ba")) (js "ab") 2 1)
    as (outcome & earlier & final & Hrun & Hout).
  - reflexivity.
  - vm_compute. lia.
  - exists outcome, earlier, final. split; [exact Hrun|].
    destruct outcome as [found|e]; [exact I | exact Hout].
Defined.

End ExhaustiveFacts.

(** ** SHA-224: how the digest is printed *)

Module SHAFacts.
Import JS Encoding SHA224 Vocabulary.
#[local] Open Scope Z_scope.

Lemma digit_char_hex (d : Z) : 0 <= d < 16 -> hex_digit (digit_char d) /\ hex_digit_value (digit_char d) = d.
Proof.
  intros Hd. unfold hex_digit, hex_digit_value, digit_char.
  destruct (Z.ltb_spec d 10).
  - destruct (Z.ltb_spec (48 + d) 58); lia.
  - destruct (Z.ltb_spec (87 + d) 58); lia.
Qed.

Lemma hex_value_app (x : Z) (p q : jsstring) :
  hex_value x (p ++ q) = hex_value (hex_value x p) q.
Proof. unfold hex_value. apply fold_left_app. Qed.

(** The digits that to_digits puts before its accumulator. *)
Lemma to_digits_spec (fuel : nat) : forall (n : Z) (acc : jsstring),
  (0 < fuel)%nat -> 0 <= n < 16 ^ Z.of_nat fuel ->
  exists p,
    to_digits fuel 16 n acc = p ++ acc
    /\ (1 <= length p)%nat
    /\ n < 16 ^ Z.of_nat (length p)
    /\ ((n = 0 /\ length p = 1%nat) \/ 16 ^ (Z.of_nat (length p) - 1) <= n)
    /\ Forall hex_digit p
    /\ forall x, hex_value x p = x * 16 ^ Z.of_nat (length p) + n.
Proof.
  induction fuel as [|fuel IH]; intros n acc Hfuel Hn; [lia|].
  cbn [to_digits].
  pose proof (Z.mod_pos_bound n 16 ltac:(lia)) as Hmod.
  pose proof (Z.div_mod n 16 ltac:(lia)) as Hdiv.
  destruct (digit_char_hex (n mod 16) Hmod) as [Hhex Hval].
  destruct (Z.eqb_spec (n / 16) 0) as [Hz|Hnz].
  - exists [digit_char (n mod 16)]. cbn [length app].
    change (Z.of_nat 1) with 1. change (16 ^ 1) with 16. change (16 ^ (1 - 1)) with 1.
    repeat split; try lia.
    + constructor; [exact Hhex | constructor].
    + intros x. unfold hex_value. cbn [fold_left]. rewrite Hval. lia.
  - assert (0 < n / 16) as Hpos.
    { pose proof (Z.div_pos n 16 ltac:(lia) ltac:(lia)). lia. }
    assert (n / 16 < 16 ^ Z.of_nat fuel) as Hsmall.
    { apply Z.div_lt_upper_bound; [lia|].
      rewrite Nat2Z.inj_succ, Z.pow_succ_r in Hn by lia. lia. }
    assert (0 < fuel)%nat as Hf.
    { destruct fuel; [|lia]. change (16 ^ Z.of_nat 0) with 1 in Hsmall. lia. }
    destruct (IH (n / 16) (digit_char (n mod 16) :: acc) Hf ltac:(lia))
      as (p & Hrun & Hlen & Hlt & Hge & Hall & Hv).
    exists (p ++ [digit_char (n mod 16)]).
    rewrite length_app. cbn [length].
    replace (Z.of_nat (length p + 1)) with (Z.succ (Z.of_nat (length p))) by lia.
    rewrite Z.pow_succ_r by lia.
    replace (Z.succ (Z.of_nat (length p)) - 1) with (Z.succ (Z.of_nat (length p) - 1)) by lia.
    rewrite Z.pow_succ_r by lia.
    repeat split.
    + rewrite Hrun, <- app_assoc. reflexivity.
    + lia.
    + lia.
    + right. destruct Hge as [Hge|Hge]; lia.
    + apply Forall_app. split; [exact Hall|]. constructor; [exact Hhex | constructor].
    + intros x. rewrite hex_value_app, Hv. unfold hex_value. cbn [fold_left].
      rewrite Hval. lia.
Qed.

Lemma toString_spec (n : Z) : 0 <= n ->
  exists p,
    toString n 16 = p
    /\ (1 <= length p)%nat
    /\ n < 16 ^ Z.of_nat (length p)
    /\ ((n = 0 /\ length p = 1%nat) \/ 16 ^ (Z.of_nat (length p) - 1) <= n)
    /\ Forall hex_digit p
    /\ forall x, hex_value x p = x * 16 ^ Z.of_nat (length p) + n.
Proof.
  intros Hn. unfold toString.
  destruct (to_digits_spec (S (Z.to_nat (Z.log2 n))) n []) as (p & Hrun & H);
    [lia| |].
  - split; [exact Hn|].
    rewrite Nat2Z.inj_succ, Z2Nat.id by apply Z.log2_nonneg.
    destruct (Z.eq_dec n 0) as [->|Hne]; [reflexivity|].
    pose proof (Z.log2_spec n ltac:(lia)) as [_ Hup].
    eapply Z.lt_le_trans; [exact Hup|].
    apply Z.pow_le_mono_l. pose proof (Z.log2_nonneg n). lia.
  - exists p. rewrite app_nil_r in Hrun. split; [exact Hrun | exact H].
Qed.

(** The number of digits, from the size of the number. *)
Lemma toString_length (n : Z) (k : nat) : 0 <= n < 16 ^ Z.of_nat k -> (1 <= k)%nat ->
  (1 <= length (toString n 16) <= k)%nat
  /\ (16 ^ (Z.of_nat k - 1) <= n -> length (toString n 16) = k).
Proof.
  intros Hn Hk. destruct (toString_spec n ltac:(lia)) as (p & -> & Hlen & Hlt & Hge & _).
  assert (length p <= k)%nat as Hle.
  { destruct Hge as [[_ H1]|Hge]; [lia|].
    destruct (Nat.le_gt_cases (length p) k) as [H|H]; [exact H|exfalso].
      assert (16 ^ Z.of_nat k <= 16 ^ (Z.of_nat (length p) - 1)) by (apply Z.pow_le_mono_r; lia).
    lia. }
  split; [lia|]. intros Hbig.
  destruct (Nat.eq_dec (length p) k) as [E|Hne]; [exact E|exfalso].
  assert (16 ^ Z.of_nat (length p) <= 16 ^ (Z.of_nat k - 1)) by (apply Z.pow_le_mono_r; lia).
  lia.
Qed.

(** The last eight characters of what hex_word builds. *)
Lemma slice_padded (t : jsstring) : (1 <= length t <= 8)%nat ->
  slice_last (js "00000000" ++ t) 8 = padStart t 8 48.
Proof.
  intros Hlen. do 9 (destruct t as [|? t]; [cbn in Hlen; try lia; reflexivity|]).
  cbn in Hlen. lia.
Qed.

Lemma slice_signed (t : jsstring) : (1 <= length t <= 8)%nat ->
  (length t = 8%nat -> slice_last (js "00000000" ++ 45 :: t) 8 = t)
  /\ ((length t < 8)%nat -> In 45 (slice_last (js "00000000" ++ 45 :: t) 8)).
Proof.
  intros Hlen. do 9 (destruct t as [|? t]; [cbn in Hlen; split; intros H; cbn in H; try lia;
                                            try reflexivity; cbn; tauto|]).
  cbn in Hlen. lia.
Qed.

Lemma hex_word_length (n : Z) : length (hex_word n) = 8%nat.
Proof.
  unfold hex_word, slice_last. rewrite length_skipn, length_app.
  change (length (js "00000000")) with 8%nat. lia.
Qed.

Lemma sha224_process_length (chunk H : list Z) : length (sha224_process chunk H) = 8%nat.
Proof.
  unfold sha224_process.
  destruct (fold_left _ (seq 0 64) _) as [[[[[[[a b] c] d] e] f] g] h]. reflexivity.
Qed.

Lemma sha224_words_shape (str : jsstring) :
  exists chunks H, length H = 8%nat
    /\ sha224_words str = fold_left (fun H chunk => sha224_process chunk H) chunks H.
Proof.
  unfold sha224_words. cbv zeta.
  destruct (56 <=? Z.of_nat (length (TextEncoder_encode str)) mod 64).
  - eexists _, _. split; [|reflexivity]. apply sha224_process_length.
  - eexists _, _. split; [|reflexivity]. reflexivity.
Qed.

Lemma fold_left_invariant {A B} (P : A -> Prop) (f : A -> B -> A) (l : list B) :
  (forall a b, P a -> P (f a b)) -> forall a, P a -> P (fold_left f l a).
Proof.
  intros Hstep. induction l as [|b l IH]; intros a Ha; [exact Ha|].
  cbn [fold_left]. apply IH, Hstep, Ha.
Qed.

Lemma sha224_words_length (str : jsstring) : length (sha224_words str) = 8%nat.
Proof.
  destruct (sha224_words_shape str) as (chunks & H & HH & E). rewrite E.
  apply (fold_left_invariant (fun H => length H = 8%nat)); [|exact HH].
  intros a b _. apply sha224_process_length.
Qed.

Lemma flat_map_length_const {A B} (f : A -> list B) (k : nat) (l : list A) :
  (forall x, length (f x) = k) -> length (flat_map f l) = (k * length l)%nat.
Proof.
  intros Hf. induction l as [|x l IH]; cbn [flat_map length]; [lia|].
  rewrite length_app, Hf, IH. lia.
Qed.

(** What hex_word gives for each 32-bit integer. *)
Lemma hex_word_spec (n : Z) : - two31 <= n < two31 ->
  hex_word n = padStart (toString (ToUint32 n) 16) 8 48 <-> (0 <= n \/ n = - two31).
Proof.
  unfold two31. intros Hn. unfold hex_word, number_toString, ToUint32, two32.
  destruct (Z.ltb_spec n 0) as [Hneg|Hpos].
  - destruct (Z.eq_dec n (-2147483648)) as [->|Hne].
    { split; [intros _; right; reflexivity | intros _; vm_compute; reflexivity]. }
    split; [|lia]. intros Heq. exfalso.
    assert (n mod 4294967296 = n + 4294967296) as Hu.
    { rewrite <- (Z.mod_add n 1 4294967296) by lia. apply Z.mod_small. lia. }
    rewrite Hu in Heq.
    destruct (toString_length (n + 4294967296) 8) as [_ Hfull];
      [change (16 ^ Z.of_nat 8) with 4294967296; lia | lia |].
    specialize (Hfull ltac:(change (16 ^ (Z.of_nat 8 - 1)) with 268435456; lia)).
    destruct (toString_length (- n) 8) as [Hlen Hlen8];
      [change (16 ^ Z.of_nat 8) with 4294967296; lia | lia |].
    destruct (toString_spec (n + 4294967296) ltac:(lia)) as (u & Hu' & _ & _ & _ & Hdigits & Hvu).
    destruct (toString_spec (- n) ltac:(lia)) as (m & Hm' & _ & _ & _ & _ & Hvm).
    rewrite Hu' in Heq, Hfull. rewrite Hm' in Heq, Hlen, Hlen8.
    unfold padStart in Heq. rewrite Hfull in Heq. cbn [repeat app Nat.sub] in Heq.
    destruct (slice_signed m Hlen) as [Hsame Hminus].
    destruct (Nat.eq_dec (length m) 8%nat) as [H8|H8].
    + rewrite (Hsame H8) in Heq. subst u.
      specialize (Hvu 0). specialize (Hvm 0). lia.
    + specialize (Hminus ltac:(lia)). rewrite Heq in Hminus.
      rewrite List.Forall_forall in Hdigits. specialize (Hdigits 45 Hminus).
      unfold hex_digit in Hdigits. lia.
  - split; [intros _; left; exact Hpos|]. intros _.
    rewrite Z.mod_small by lia.
    apply slice_padded.
    destruct (toString_length n 8) as [Hlen _];
      [change (16 ^ Z.of_nat 8) with 4294967296; lia | lia | exact Hlen].
Qed.

(** X15. How sha224 prints its digest. The result always has 56
    characters, eight for each of the first seven words of the state.
    A word, a 32-bit integer that the additions [| 0] have made signed,
    is printed as the eight hexadecimal digits of its 32 bits exactly
    when it is not negative (or is -2^31): for a negative word toString
    writes a minus sign and the magnitude, of which the last eight
    characters are kept. So sha224 of the empty string is
    2eb5fd74...3a4c1bd1, where the SHA-224 digest is d14a028c...c5b3e42f,
    and sha224 of "abc" is not the digest 23097d22...e36c9da7 either.
    For a message of 56 bytes, whose padding needs a second block, the
    words themselves are not those of the digest 75388b16...52522525:
    the state is first updated with the second block while it is empty. *)
Theorem sha224_prints_magnitudes :
  (forall str : jsstring, length (sha224 str) = 56%nat)
  /\ (forall n : Z, - two31 <= n < two31 ->
        hex_word n = padStart (toString (ToUint32 n) 16) 8 48 <-> (0 <= n \/ n = - two31))
  /\ sha224 [] = js "2eb5fd742a3a2bc9476102bb288234c415a2b01f7d7159d63a4c1bd1"
  /\ sha224 [] <> js "d14a028c2a3a2bc9476102bb288234c415a2b01f828ea62ac5b3e42f"
  /\ sha224 (js "abc") <> js "23097d223405d8228642a477bda255b32aadbce4bda0b3f7e36c9da7"
  /\ map ToUint32 (firstn 7 (sha224_words (js "abc")))
     = [0x23097d22; 0x3405d822; 0x8642a477; 0xbda255b3; 0x2aadbce4; 0xbda0b3f7; 0xe36c9da7]
  /\ map ToUint32 (firstn 7 (sha224_words two_block_message))
     <> [0x75388b16; 0x512776cc; 0x5dba5da1; 0xfd890150; 0xb0c6455c; 0xb4f58b19; 0x52522525].
Proof.
  split; [|split; [exact hex_word_spec|]].
  - intros str. unfold sha224.
    rewrite (flat_map_length_const hex_word 8) by exact hex_word_length.
    rewrite length_firstn, sha224_words_length. reflexivity.
  - split; [vm_compute; reflexivity|].
    split; [vm_compute; discriminate|].
    split; [vm_compute; discriminate|].
    split; [vm_compute; reflexivity|].
    vm_compute. discriminate.
Qed.

End SHAFacts.

(** ** The seed of the Pattern LSB scheme *)

Module SeedFacts.
Import JS Encoding Utils Stego Vocabulary.
#[local] Open Scope Z_scope.

Lemma ToInt32_spec (x : Z) :
  (exists k, ToInt32 x = x + two32 * k) /\ - two31 <= ToInt32 x < two31.
Proof.
  unfold ToInt32, two32, two31.
  pose proof (Z.div_mod x 4294967296 ltac:(lia)) as Hd.
  pose proof (Z.mod_pos_bound x 4294967296 ltac:(lia)) as Hm.
  destruct (Z.ltb_spec (x mod 4294967296) 2147483648).
  - split; [exists (- (x / 4294967296)) | ]; lia.
  - split; [exists (- (x / 4294967296) - 1) | ]; lia.
Qed.

(** hash = (hash << 5) - hash + char; hash |= 0 *)
Lemma seed_step (hash char : Z) :
  (exists k, or (shl hash 5 - hash + char) 0 = 31 * hash + char + two32 * k)
  /\ - two31 <= or (shl hash 5 - hash + char) 0 < two31.
Proof.
  unfold or, shl.
  change (ToInt32 0) with 0. rewrite Z.lor_0_r.
  change (Z.land (ToUint32 5) 31) with 5. rewrite Z.shiftl_mul_pow2 by lia.
  change (2 ^ 5) with 32.
  destruct (ToInt32_spec hash) as [[k1 H1] _].
  destruct (ToInt32_spec (ToInt32 hash * 32)) as [[k2 H2] _].
  destruct (ToInt32_spec (ToInt32 (ToInt32 hash * 32) - hash + char)) as [[k3 H3] _].
  destruct (ToInt32_spec (ToInt32 (ToInt32 (ToInt32 hash * 32) - hash + char))) as [[k4 H4] R4].
  split; [|exact R4].
  exists (32 * k1 + k2 + k3 + k4). lia.
Qed.

Lemma seed_fold_range (key : jsstring) : forall hash,
  - two31 <= hash < two31 ->
  - two31 <= fold_left (fun hash char => or (shl hash 5 - hash + char) 0) key hash < two31.
Proof.
  induction key as [|c key IH]; intros hash Hh; [exact Hh|].
  cbn [fold_left]. apply IH. apply seed_step.
Qed.

(** X16. The seed that stringToSeed makes of a stego key is an integer
    from 0 to 2^31, and keys that differ by "Aa" for "BB" at any place
    have the same seed. The Pattern LSB scheme uses the key through its
    seed only: encoding with one of two such keys gives the same carrier
    as with the other, and what is embedded with the one is extracted
    with the other. *)
Theorem stego_key_collisions :
  (forall key : jsstring, 0 <= stringToSeed key <= two31)
  /\ (forall before after : jsstring,
        stringToSeed (before ++ js "Aa" ++ after) = stringToSeed (before ++ js "BB" ++ after))
  /\ (forall (cryptoEncrypt : jsstring -> jsstring -> result jsstring) (file : option canvas)
        (message password before after : jsstring),
        encodeMessagePatternLSB cryptoEncrypt file message (before ++ js "Aa" ++ after) password
        = encodeMessagePatternLSB cryptoEncrypt file message (before ++ js "BB" ++ after) password)
  /\ (forall (cryptoDecrypt : jsstring -> jsstring -> result jsstring) (file : option canvas)
        (password before after : jsstring),
        decodeMessagePatternLSB cryptoDecrypt file (before ++ js "Aa" ++ after) password
        = decodeMessagePatternLSB cryptoDecrypt file (before ++ js "BB" ++ after) password).
Proof.
  assert (forall before after : jsstring,
            stringToSeed (before ++ js "Aa" ++ after) = stringToSeed (before ++ js "BB" ++ after))
    as Hsame.
  { intros before after. unfold stringToSeed. f_equal.
    rewrite !fold_left_app. f_equal.
    set (h := fold_left _ before 0).
    change (js "Aa") with [65; 97]. change (js "BB") with [66; 66]. cbn [fold_left].
    destruct (seed_step h 65) as [[k1 H1] _]. destruct (seed_step h 66) as [[k2 H2] _].
    destruct (seed_step (or (shl h 5 - h + 65) 0) 97) as [[k3 H3] R3].
    destruct (seed_step (or (shl h 5 - h + 66) 0) 66) as [[k4 H4] R4].
    unfold two32, two31 in *. lia. }
  assert (forall before after : jsstring,
            length (before ++ js "Aa" ++ after) = length (before ++ js "BB" ++ after)) as Hlen.
  { intros before after. rewrite !length_app. reflexivity. }
  split; [|split; [exact Hsame|split]].
  - intros key. unfold stringToSeed, abs.
    pose proof (seed_fold_range key 0 ltac:(unfold two31; lia)). unfold two31 in *. lia.
  - intros cryptoEncrypt file message password before after.
    unfold encodeMessagePatternLSB, encodePattern. rewrite Hsame, Hlen. reflexivity.
  - intros cryptoDecrypt file password before after.
    unfold decodeMessagePatternLSB, decodePattern. rewrite Hsame, Hlen. reflexivity.
Qed.

End SeedFacts.

(** ** Decoding an image that carries no message *)

Module CoverFacts.
Import JS Encoding Utils Constants Stego Vocabulary SerialFacts TerminatorFacts LsbFacts.
#[local] Open Scope nat_scope.

Lemma lsb_read_char (data : list Z) (k : nat) :
  lsb_read data k = [48%Z] \/ lsb_read data k = [49%Z].
Proof.
  unfold lsb_read, and. change (ToInt32 1) with 1%Z.
  set (v := ToInt32 (typed_get data k)).
  assert (Z.land v 1 = v mod 2)%Z as -> by exact (Z.land_ones v 1 ltac:(lia)).
  pose proof (Z.mod_pos_bound v 2 ltac:(lia)) as Hm.
  assert (v mod 2 = 0 \/ v mod 2 = 1)%Z as [-> | ->] by lia; [left | right]; reflexivity.
Qed.

Lemma carried_bits_S (data : list Z) (pos : nat -> nat) (n : nat) :
  carried_bits data pos (S n) = carried_bits data pos n ++ lsb_read data (pos n).
Proof.
  unfold carried_bits. rewrite seq_S, flat_map_app. cbn [flat_map].
  rewrite app_nil_r. reflexivity.
Qed.

Lemma carried_bits_length (data : list Z) (pos : nat -> nat) (n : nat) :
  length (carried_bits data pos n) = n.
Proof.
  induction n as [|n IH]; [reflexivity|].
  rewrite carried_bits_S, length_app, IH.
  destruct (lsb_read_char data (pos n)) as [-> | ->]; cbn [length]; lia.
Qed.

Lemma carried_bits_read (data : list Z) (pos : nat -> nat) (n : nat) :
  reads_back data pos (carried_bits data pos n).
Proof.
  unfold reads_back. rewrite carried_bits_length.
  induction n as [|n IH]; intros k Hk; [lia|].
  rewrite carried_bits_S.
  destruct (Nat.eq_dec k n) as [->|Hne].
  - rewrite app_nth2 by (rewrite carried_bits_length; lia).
    rewrite carried_bits_length, Nat.sub_diag.
    destruct (lsb_read_char data (pos n)) as [-> | ->]; reflexivity.
  - rewrite app_nth1 by (rewrite carried_bits_length; lia). apply IH. lia.
Qed.

Lemma indexOf_from_none (s t : jsstring) : forall pos,
  indexOf_from s t pos = None -> forall k, startsWith (drop k s) t = false.
Proof.
  induction s as [|c s IH]; intros pos; cbn [indexOf_from].
  - destruct (startsWith [] t) eqn:E; [discriminate|]. intros _ k.
    destruct k; exact E.
  - destruct (startsWith (c :: s) t) eqn:E; [discriminate|]. intros H [|k]; [exact E|].
    cbn [drop]. exact (IH _ H k).
Qed.

Lemma startsWith_prefix (t s : jsstring) :
  startsWith s t = true -> take (length t) s = t.
Proof.
  revert s. induction t as [|c t IH]; intros s H; [reflexivity|].
  destruct s as [|d s]; [discriminate|]. cbn [startsWith] in H.
  apply andb_true_iff in H as [Hc Hs]. apply Z.eqb_eq in Hc. subst d.
  cbn [length take]. rewrite (IH s Hs). reflexivity.
Qed.

Section NoMessage.
Variable cryptoDecrypt : jsstring -> jsstring -> result jsstring.
Variable scheme : scheme_messages.
Variable password : jsstring.
Variable data : list Z.
Variable pos : nat -> nat.
Variable maxBitsToRead : nat.
Variable B : jsstring.
Hypothesis all_read : length B = maxBitsToRead.
Hypothesis nowhere : forall k, startsWith (drop k B) MESSAGE_TERMINATOR_BINARY = false.
Hypothesis read : reads_back data pos B.

Lemma on_terminator_none m :
  m <= length B -> on_terminator cryptoDecrypt scheme (take m B) password = None.
Proof using all_read nowhere.
  intros Hm. unfold on_terminator.
  rewrite length_take, (Nat.min_l m (length B)) by lia.
  replace (length MESSAGE_TERMINATOR_BINARY) with 40 by reflexivity.
  destruct (Nat.leb_spec 40 m) as [H40|H40]; [|reflexivity].
  unfold endsWith. rewrite length_take, (Nat.min_l m (length B)) by lia.
  replace (length MESSAGE_TERMINATOR_BINARY) with 40 by reflexivity.
  destruct (list_eqb (drop (m - 40) (take m B)) MESSAGE_TERMINATOR_BINARY) eqn:E;
    [|rewrite andb_false_r; reflexivity].
  exfalso. apply list_eqb_eq in E.
  pose proof (nowhere (m - 40)) as Hno.
  rewrite <- (take_drop m B) in Hno at 1.
  rewrite drop_app_le in Hno by (rewrite length_take; lia).
  rewrite E, startsWith_refl_app in Hno. discriminate.
Qed.

Lemma read_channel_on n :
  n < maxBitsToRead ->
  read_channel cryptoDecrypt scheme data maxBitsToRead password (pos n) (take n B, n)
  = Continue (take (S n) B, S n).
Proof using all_read nowhere read.
  intros Hn. unfold read_channel.
  destruct (Nat.leb_spec maxBitsToRead n) as [Hmax|_]; [lia|].
  pose proof (read n ltac:(lia)) as Hbit. unfold lsb_read in Hbit. rewrite Hbit.
  assert (take n B ++ [nth n B 48%Z] = take (S n) B) as ->.
  { symmetry. apply take_S_r.
    destruct (nth_lookup_or_length B n 48%Z) as [H|H]; [exact H | lia]. }
  rewrite on_terminator_none by lia. reflexivity.
Qed.

Lemma channel_loop_on p base :
  (forall j, j < 3 -> base + j = pos (3 * p + j)) ->
  3 * p + 3 <= maxBitsToRead ->
  channel_loop cryptoDecrypt scheme data maxBitsToRead password base [0; 1; 2]
    (take (3 * p) B, 3 * p)
  = Continue (take (3 * p + 3) B, 3 * p + 3).
Proof using all_read nowhere read.
  intros Hbase Hp. cbn [channel_loop].
  rewrite (Hbase 0), (Hbase 1), (Hbase 2) by lia.
  rewrite Nat.add_0_r.
  rewrite read_channel_on by lia.
  replace (S (3 * p)) with (3 * p + 1) by lia.
  rewrite read_channel_on by lia.
  replace (S (3 * p + 1)) with (3 * p + 2) by lia.
  rewrite read_channel_on by lia.
  replace (S (3 * p + 2)) with (3 * p + 3) by lia. reflexivity.
Qed.

End NoMessage.

Lemma lsb_pixel_loop_ends cryptoDecrypt (password : jsstring) (data : list Z)
  (q : nat) (B : jsstring) :
  length B = 3 * q ->
  (forall k, startsWith (drop k B) MESSAGE_TERMINATOR_BINARY = false) ->
  reads_back data channel_position B ->
  forall n p, p <= q ->
    lsb_pixel_loop cryptoDecrypt data (3 * q) password n (4 * p) (take (3 * p) B, 3 * p) = None.
Proof.
  intros Hlen Hno Hread. induction n as [|n IH]; intros p Hp; [reflexivity|].
  cbn [lsb_pixel_loop].
  destruct (Nat.eq_dec p q) as [->|Hne].
  - cbn [channel_loop]. unfold read_channel. rewrite Nat.leb_refl. cbn [snd].
    rewrite Nat.leb_refl. reflexivity.
  - rewrite (channel_loop_on cryptoDecrypt LSB_messages password data channel_position
               (3 * q) B Hlen Hno Hread p (4 * p)
               ltac:(intros j Hj; symmetry; apply channel_position_pixel; exact Hj)
               ltac:(lia)).
    cbn [snd]. destruct (Nat.leb_spec (3 * q) (3 * p + 3)) as [_|_]; [reflexivity|].
    replace (4 * p + 4) with (4 * (p + 1)) by lia.
    replace (3 * p + 3) with (3 * (p + 1)) by lia.
    apply IH. lia.
Qed.

(** X17. decodeMessage on an image that carries no message. Let the
    carried bits be the least significant bits of the red, green and
    blue channels in the order of the pixels. If the 40 zeros of the
    terminator occur nowhere in them, decodeMessage throws: the error of
    too little data when the image offers fewer than 40 bits, and
    otherwise the error that no hidden message was found. If the carried
    bits begin with 40 zeros, as those of a black image do, it throws the
    error that only the terminator was detected. In none of these cases
    is the cipher called, whatever the password. *)
Theorem cover_without_message (cryptoDecrypt : jsstring -> jsstring -> result jsstring)
  (cv : canvas) (password : jsstring) :
  0 < length password ->
  let maxBitsToRead := length (pixels cv) / 4 * 3 in
  let carried := carried_bits (pixels cv) channel_position maxBitsToRead in
  (indexOf carried MESSAGE_TERMINATOR_BINARY = None ->
   decodeMessage cryptoDecrypt (Some cv) password
   = Throw (err (if maxBitsToRead <? 40
                 then not_enough_data LSB_messages maxBitsToRead 40
                 else terminator_not_found LSB_messages maxBitsToRead)))
  /\ (maxBitsToRead < 40 -> indexOf carried MESSAGE_TERMINATOR_BINARY = None)
  /\ (startsWith carried MESSAGE_TERMINATOR_BINARY = true ->
      decodeMessage cryptoDecrypt (Some cv) password = Throw (err (no_content LSB_messages))).
Proof.
  intros Hpw maxBitsToRead carried.
  assert ((length password =? 0) = false) as Hp by (apply Nat.eqb_neq; lia).
  pose proof (carried_bits_length (pixels cv) channel_position maxBitsToRead) as Hlen.
  pose proof (carried_bits_read (pixels cv) channel_position maxBitsToRead) as Hread.
  fold carried in Hlen, Hread.
  split; [|split].
  - intros Hnone. unfold decodeMessage. rewrite Hp. cbv zeta. fold maxBitsToRead.
    pose proof (lsb_pixel_loop_ends cryptoDecrypt password (pixels cv)
                  (length (pixels cv) / 4) carried
                  ltac:(rewrite Hlen; unfold maxBitsToRead; lia)
                  (indexOf_from_none _ _ 0 Hnone)
                  Hread ((length (pixels cv) + 3) / 4) 0 ltac:(lia)) as Hloop.
    change (4 * 0) with 0 in Hloop. change (3 * 0) with 0 in Hloop.
    rewrite take_0 in Hloop.
    replace (3 * (length (pixels cv) / 4)) with maxBitsToRead in Hloop
      by (unfold maxBitsToRead; lia).
    rewrite Hloop. change (length MESSAGE_TERMINATOR_BINARY) with 40.
    destruct (maxBitsToRead <? 40); reflexivity.
  - intros Hsmall. unfold indexOf.
    assert (forall s pos, length s < 40 ->
              indexOf_from s MESSAGE_TERMINATOR_BINARY pos = None) as Hshort.
    { induction s as [|c s IH]; intros pos Hs; [reflexivity|].
      cbn [indexOf_from].
      destruct (startsWith (c :: s) MESSAGE_TERMINATOR_BINARY) eqn:E.
      - apply startsWith_prefix in E. apply (f_equal (@length Z)) in E.
        rewrite length_take in E. change (length MESSAGE_TERMINATOR_BINARY) with 40 in E. lia.
      - apply IH. cbn [length] in Hs. lia. }
    apply Hshort. lia.
  - intros Hstart. apply startsWith_prefix in Hstart.
    change (length MESSAGE_TERMINATOR_BINARY) with 40 in Hstart.
    assert (40 <= maxBitsToRead) as Hroom.
    { apply (f_equal (@length Z)) in Hstart. rewrite length_take, Hlen in Hstart.
      change (length MESSAGE_TERMINATOR_BINARY) with 40 in Hstart. lia. }
    unfold decodeMessage. rewrite Hp. cbv zeta. fold maxBitsToRead.
    pose proof (lsb_pixel_loop_finds cryptoDecrypt password (pixels cv) maxBitsToRead
                  carried 0 (Throw (err (no_content LSB_messages)))
                  ltac:(lia) ltac:(intros k Hk; lia)) as Hloop.
    cbn [Nat.add] in Hloop. rewrite Hstart in Hloop.
    specialize (Hloop eq_refl Hread Hroom ((length (pixels cv) + 3) / 4) 0 ltac:(lia)).
    change (4 * 0) with 0 in Hloop. change (3 * 0) with 0 in Hloop.
    rewrite take_0 in Hloop. rewrite Hloop; [reflexivity|].
    unfold maxBitsToRead in Hroom.
    pose proof (Nat.div_mod_eq (length (pixels cv)) 4).
    pose proof (Nat.div_mod_eq (length (pixels cv) + 3) 4).
    pose proof (Nat.mod_upper_bound (length (pixels cv)) 4 ltac:(lia)).
    pose proof (Nat.mod_upper_bound (length (pixels cv) + 3) 4 ltac:(lia)).
    lia.
Qed.

Lemma cover_without_message_witness :
  decodeMessage (fun s _ => Ok s) (Some (Canvas 4 4 (repeat 255%Z 64))) (js "pw")
  = Throw (err (terminator_not_found LSB_messages 48)).
Proof.
  destruct (cover_without_message (fun s _ => Ok s) (Canvas 4 4 (repeat 255%Z 64)) (js "pw"))
    as [Hnone _].
  - vm_compute. lia.
  - apply Hnone. vm_compute. reflexivity.
Defined.

End CoverFacts.

(** ** MD2: the shape of the result *)

Module MD2Facts.
Import JS Encoding Utils MD2 Vocabulary NumberFacts MD5Facts SerialFacts Utf8Facts
  RDImageFacts SHAFacts.
#[local] Open Scope Z_scope.

Lemma byte_nth (l : list Z) (i : nat) : Forall byte l -> byte (nth i l 0).
Proof.
  intros H. destruct (Nat.lt_ge_cases i (length l)) as [Hi|Hi].
  - rewrite List.Forall_forall in H. apply H, nth_In, Hi.
  - rewrite nth_overflow by exact Hi. unfold byte. lia.
Qed.

Lemma xor_byte (a b : Z) : byte a -> byte b -> byte (xor a b).
Proof.
  unfold byte, xor. intros Ha Hb.
  rewrite (ToInt32_small a), (ToInt32_small b) by (unfold two31; lia).
  assert (0 <= Z.lxor a b < 256) as Hx.
  { split; [apply Z.lxor_nonneg; lia|].
    destruct (Z.eq_dec (Z.lxor a b) 0) as [->|Hne]; [lia|].
    apply (Z.log2_lt_pow2 _ 8); [pose proof (proj2 (Z.lxor_nonneg a b)); lia|].
    eapply Z.le_lt_trans; [apply Z.log2_lxor; lia|].
    apply Z.max_lub_lt.
    - destruct (Z.eq_dec a 0) as [->|]; [reflexivity|]. apply Z.log2_lt_pow2; lia.
    - destruct (Z.eq_dec b 0) as [->|]; [reflexivity|]. apply Z.log2_lt_pow2; lia. }
  rewrite ToInt32_small by (unfold two31; lia). exact Hx.
Qed.

Lemma table_byte (t : Z) : byte (array_get S_table t).
Proof.
  unfold array_get. destruct (t <? 0); [unfold byte; lia|].
  apply byte_nth. apply List.Forall_forall. intros v Hv.
  assert (forallb (fun v => (0 <=? v) && (v <? 256)) S_table = true) as Hall by reflexivity.
  rewrite forallb_forall in Hall. specialize (Hall v Hv).
  apply andb_true_iff in Hall as [H1 H2]. unfold byte. lia.
Qed.

Lemma array_set_byte (a : list Z) (i v : Z) :
  Forall byte a -> byte v -> Forall byte (array_set a i v).
Proof.
  intros Ha Hv. unfold array_set.
  destruct (Z.to_nat i <? length a)%nat.
  - apply Forall_insert; assumption.
  - apply Forall_app. split; [exact Ha|]. apply Forall_app. split.
    + apply List.Forall_forall. intros x Hx. apply repeat_spec in Hx. subst x.
      unfold byte. lia.
    + constructor; [exact Hv | constructor].
Qed.

Lemma mix_own_byte (st : list Z * Z) (j : nat) :
  Forall byte (fst st) -> Forall byte (fst (mix_own st j)).
Proof.
  destruct st as [X t]. cbn [fst mix_own]. intros HX.
  apply Forall_insert; [exact HX|]. apply xor_byte; [apply byte_nth, HX | apply table_byte].
Qed.

Lemma mix_from_byte (x : list Z) (st : list Z * Z) (j : nat) :
  Forall byte x -> Forall byte (fst st) -> Forall byte (fst (mix_from x st j)).
Proof.
  destruct st as [X t]. cbn [fst mix_from]. intros Hx HX.
  apply Forall_insert; [exact HX|]. apply xor_byte; [apply byte_nth, Hx | apply table_byte].
Qed.

Lemma pass_byte (step : list Z * Z -> nat -> list Z * Z) (st : list Z * Z) (i : nat) :
  (forall st j, Forall byte (fst st) -> Forall byte (fst (step st j))) ->
  Forall byte (fst st) -> Forall byte (fst (pass step st i)).
Proof.
  intros Hstep Hst. unfold pass.
  pose proof (fold_left_invariant (fun st => Forall byte (fst st)) step (seq 0 48) Hstep st Hst)
    as H.
  destruct (fold_left step (seq 0 48) st) as [X t]. exact H.
Qed.

Lemma passes_byte (step : list Z * Z -> nat -> list Z * Z) (st : list Z * Z) :
  (forall st j, Forall byte (fst st) -> Forall byte (fst (step st j))) ->
  Forall byte (fst st) -> Forall byte (fst (fold_left (pass step) (seq 0 18) st)).
Proof.
  intros Hstep Hst.
  apply (fold_left_invariant (fun st => Forall byte (fst st))); [|exact Hst].
  intros a b Ha. apply pass_byte; assumption.
Qed.

Lemma map_nth_byte (l : list Z) (f : nat -> nat) (idx : list nat) :
  Forall byte l -> Forall byte (map (fun i => nth (f i) l 0) idx).
Proof.
  intros Hl. apply List.Forall_forall. intros v Hv. apply in_map_iff in Hv.
  destruct Hv as (i & <- & _). apply byte_nth, Hl.
Qed.

Lemma core_md2_byte (x : list Z) (len : Z) : Forall byte x -> Forall byte (core_md2 x len).
Proof.
  intros Hx. unfold core_md2.
  set (X0 := fold_left _ (seq 0 16) (repeat 0 48)).
  assert (Forall byte X0) as HX0.
  { apply (fold_left_invariant (Forall byte)).
    - intros X i HX. repeat apply Forall_insert; try exact HX; apply byte_nth, Hx.
    - apply List.Forall_forall. intros v Hv. apply repeat_spec in Hv. subst v.
      unfold byte. lia. }
  pose proof (passes_byte mix_own (X0, 0) mix_own_byte HX0) as H1.
  destruct (fold_left (pass mix_own) (seq 0 18) (X0, 0)) as [X1 t1]. cbn [fst] in H1.
  set (C1 := map (fun i => nth (i + 32) X1 0) (seq 0 16)).
  assert (Forall byte C1) as HC1 by (apply (map_nth_byte X1 (fun i => (i + 32)%nat)), H1).
  set (x1 := fold_left _ (seq 0 16) x).
  assert (Forall byte x1) as Hx1.
  { apply (fold_left_invariant (Forall byte)); [|exact Hx].
    intros a i Ha. apply array_set_byte; [exact Ha|].
    apply xor_byte; apply byte_nth; assumption. }
  set (checksum := skipn _ x1).
  assert (Forall byte checksum) as Hcs by (apply Forall_drop, Hx1).
  set (C2 := map (fun i => nth i checksum 0) (seq 0 16)).
  assert (Forall byte C2) as HC2 by (apply (map_nth_byte checksum (fun i => i)), Hcs).
  set (x2 := fold_left _ (seq 0 16) x1).
  assert (Forall byte x2) as Hx2.
  { apply (fold_left_invariant (Forall byte)); [|exact Hx1].
    intros a i Ha. repeat apply array_set_byte; try exact Ha; apply byte_nth, HC2. }
  pose proof (passes_byte (mix_from x2) (X1, 0)
                (fun st j => mix_from_byte x2 st j Hx2) H1) as H2.
  destruct (fold_left (pass (mix_from x2)) (seq 0 18) (X1, 0)) as [X2 t2]. cbn [fst] in H2.
  apply Forall_take, H2.
Qed.

(** The encoder writes bytes, whatever the code units are. *)
Lemma TextEncoder_code_units (s : jsstring) : wf_string s -> Forall byte (TextEncoder_encode s).
Proof.
  remember (length s) as n eqn:Hn. revert s Hn.
  induction n as [n IH] using lt_wf_ind. intros s Hn Hwf.
  destruct s as [|u rest]; [constructor|].
  unfold wf_string in Hwf. apply Forall_cons in Hwf as [Hu Hrest]. unfold code_unit in Hu.
  assert (Forall byte (encode_scalar 65533)) as Hrep.
  { apply encode_scalar_bytes. unfold scalar. lia. }
  cbn [TextEncoder_encode].
  destruct (is_high_surrogate u) eqn:Hhigh.
  - destruct rest as [|v rest']; [exact Hrep|].
    apply Forall_cons in Hrest as [Hv Hrest']. unfold code_unit in Hv.
    destruct (is_low_surrogate v) eqn:Hlow.
    + apply Forall_app. split.
      * apply encode_scalar_bytes. range_cases. unfold scalar. lia.
      * apply (IH (length rest')); [simpl in Hn; lia | reflexivity | exact Hrest'].
    + apply Forall_app. split; [exact Hrep|].
      apply (IH (length (v :: rest'))); [simpl in Hn |- *; lia | reflexivity|].
      apply Forall_cons. split; assumption.
  - destruct (is_low_surrogate u) eqn:Hlow.
    + apply Forall_app. split; [exact Hrep|].
      apply (IH (length rest)); [simpl in Hn; lia | reflexivity | exact Hrest].
    + apply Forall_app. split.
      * apply encode_scalar_bytes. range_cases; unfold scalar; lia.
      * apply (IH (length rest)); [simpl in Hn; lia | reflexivity | exact Hrest].
Qed.

(** The sixteen numbers that md2 prints. *)
Lemma md2_digest (s : jsstring) :
  exists digest, md2 s = binl2hex digest /\ length digest = 16%nat
                 /\ (wf_string s -> Forall byte digest).
Proof.
  unfold md2. cbv zeta.
  set (bytes := TextEncoder_encode s).
  set (n := ((length bytes + 15) / 16)%nat).
  set (M0 := fold_left _ (seq 0 (length bytes)) (repeat 0 (n * 16))).
  set (p := (length M0 - length bytes)%nat).
  set (M := fold_left _ (seq 0 p) M0).
  set (step := fun (C : list Z) (i : nat) =>
                 map (fun j => nth j (core_md2 (C ++ firstn 16 (skipn (i * 16) M)) 16) 0)
                     (seq 0 16)).
  exists (fold_left step (seq 0 n) (repeat 0 16)).
  split; [reflexivity|]. split.
  - apply (fold_left_invariant (fun C => length C = 16%nat)); [|reflexivity].
    intros C i _. unfold step. rewrite length_map, length_seq. reflexivity.
  - intros Hwf. pose proof (TextEncoder_code_units s Hwf) as Hbytes. fold bytes in Hbytes.
    assert (length M0 = (n * 16)%nat) as HlenM0.
    { apply (fold_left_invariant (fun M => length M = (n * 16)%nat)).
      - intros a i Ha. rewrite length_insert. exact Ha.
      - apply repeat_length. }
    assert (Forall byte M0) as HM0.
    { apply (fold_left_invariant (Forall byte)).
      - intros a i Ha. apply Forall_insert; [exact Ha | apply byte_nth, Hbytes].
      - apply List.Forall_forall. intros v Hv. apply repeat_spec in Hv. subst v.
        unfold byte. lia. }
    assert (Forall byte M) as HM.
    { apply (fold_left_invariant (Forall byte)); [|exact HM0].
      intros a i Ha. apply Forall_insert; [exact Ha|].
      unfold byte, p. rewrite HlenM0. unfold n.
      pose proof (Nat.div_mod_eq (length bytes + 15) 16) as Hd.
      pose proof (Nat.mod_upper_bound (length bytes + 15) 16 ltac:(lia)) as Hm. lia. }
    apply (fold_left_invariant (Forall byte)).
    + intros C i HC. unfold step. apply (map_nth_byte _ (fun j => j)).
      apply core_md2_byte. apply Forall_app. split; [exact HC|].
      apply Forall_take, Forall_drop, HM.
    + apply List.Forall_forall. intros v Hv. apply repeat_spec in Hv. subst v.
      unfold byte. lia.
Qed.

(** One number of binl2hex: its four bytes, the lowest first. *)
Lemma binl2hex_cons (b : Z) (l : list Z) : (length l < 1000)%nat ->
  binl2hex (b :: l) = binl2hex [b] ++ binl2hex l.
Proof.
  intros Hlen. unfold binl2hex.
  cbn [length]. replace (S (length l) * 4)%nat with (4 + length l * 4)%nat by lia.
  change (1 * 4)%nat with 4%nat.
  rewrite seq_app, flat_map_app. cbn [Nat.add].
  apply f_equal2.
  - apply flat_map_ext_in. intros k Hk. apply in_seq in Hk.
    assert (k = 0 \/ k = 1 \/ k = 2 \/ k = 3)%nat as [-> | [-> | [-> | ->]]] by lia;
      reflexivity.
  - assert (seq 4 (length l * 4) = map (fun k => 4 + k)%nat (seq 0 (length l * 4))) as ->
      by (rewrite (map_seq_offset (fun k => k) 4 (length l * 4) 0), map_id; reflexivity).
    rewrite flat_map_concat_map, map_map, <- flat_map_concat_map.
    apply flat_map_ext_in. intros k Hk. apply in_seq in Hk.
    assert (shr (Z.of_nat (4 + k)) 2 = shr (Z.of_nat k) 2 + 1) as Hs.
    { unfold shr. change (Z.land (ToUint32 2) 31) with 2.
      rewrite !ToInt32_small by (unfold two31; lia).
      rewrite !Z.shiftr_div_pow2 by lia. change (2 ^ 2) with 4.
      replace (Z.of_nat (4 + k)) with (Z.of_nat k + 1 * 4) by lia.
      rewrite Z.div_add by lia. reflexivity. }
    assert (0 <= shr (Z.of_nat k) 2) as Hnn.
    { unfold shr. change (Z.land (ToUint32 2) 31) with 2.
      rewrite ToInt32_small by (unfold two31; lia).
      rewrite Z.shiftr_div_pow2 by lia. apply Z.div_pos; lia. }
    assert (Z.of_nat (4 + k) mod 4 = Z.of_nat k mod 4) as Hm.
    { replace (Z.of_nat (4 + k)) with (Z.of_nat k + 1 * 4) by lia. apply Z.mod_add. lia. }
    assert (array_get (b :: l) (shr (Z.of_nat (4 + k)) 2) = array_get l (shr (Z.of_nat k) 2))
      as Ha.
    { rewrite Hs. unfold array_get.
      destruct (Z.ltb_spec (shr (Z.of_nat k) 2 + 1) 0) as [H|_]; [lia|].
      destruct (Z.ltb_spec (shr (Z.of_nat k) 2) 0) as [H|_]; [lia|].
      rewrite Z2Nat.inj_add by lia. rewrite Nat.add_comm. reflexivity. }
    rewrite Ha, Hm. reflexivity.
Qed.

Lemma binl2hex_byte (b : Z) : byte b -> binl2hex [b] = hex_of_byte b ++ js "000000".
Proof.
  intros Hb. apply list_eqb_eq.
  apply (forall_below 256 (fun b => list_eqb (binl2hex [b]) (hex_of_byte b ++ js "000000")));
    [vm_compute; reflexivity | exact Hb].
Qed.

Lemma binl2hex_bytes (l : list Z) : (length l < 1000)%nat -> Forall byte l ->
  binl2hex l = flat_map (fun b => hex_of_byte b ++ js "000000") l.
Proof.
  induction l as [|b l IH]; intros Hlen Hl; [reflexivity|].
  apply Forall_cons in Hl as [Hb Hl]. cbn [length] in Hlen.
  rewrite binl2hex_cons by lia. cbn [flat_map].
  rewrite binl2hex_byte by exact Hb. rewrite IH by (try lia; exact Hl). reflexivity.
Qed.

(** X18. What md2 returns is not an MD2 digest. For every string the
    result has 128 characters, where a digest has 32: the sixteen bytes
    that the function computes are printed by binl2hex as sixteen 32-bit
    words, each byte as its two hexadecimal digits followed by 000000.
    For the empty string no block is processed and the result is 128
    zeros (the MD2 digest of the empty string is
    8350e5a3e24c153df2275c9f80692773). The table S of the source has 249
    entries, of which 1 occurs twice, instead of the 256 of the
    algorithm. *)
Theorem md2_shape :
  (forall s : jsstring, length (md2 s) = 128%nat)
  /\ (forall s : jsstring, wf_string s ->
        exists digest, length digest = 16%nat /\ Forall byte digest
                       /\ md2 s = flat_map (fun b => hex_of_byte b ++ js "000000") digest)
  /\ md2 [] = repeat 48 128
  /\ length S_table = 249%nat
  /\ ~ NoDup S_table.
Proof.
  split; [|split; [|split; [|split]]].
  - intros s. destruct (md2_digest s) as (digest & -> & Hlen & _).
    rewrite (proj1 (binl2hex_shape digest)), Hlen. reflexivity.
  - intros s Hwf. destruct (md2_digest s) as (digest & -> & Hlen & Hbytes).
    exists digest. split; [exact Hlen|]. split; [exact (Hbytes Hwf)|].
    apply binl2hex_bytes; [lia | exact (Hbytes Hwf)].
  - vm_compute. reflexivity.
  - reflexivity.
  - intros Hnd. apply NoDup_ListNoDup in Hnd.
    change S_table with ([41; 46; 67; 201; 162; 216; 124] ++ 1 :: skipn 8 S_table) in Hnd.
    apply List.NoDup_remove_2 in Hnd. apply Hnd. vm_compute. tauto.
Qed.

End MD2Facts.

(** ** The universal decoder: a payload of binary digits *)

Module UniversalFacts.
Import JS Encoding Utils TextDecoding UniversalDecoder Vocabulary SerialFacts Base64Facts.
#[local] Open Scope Z_scope.

Lemma filter_bits (text : jsstring) : Forall bit_char text ->
  filter (fun c => negb (is_ascii_whitespace c)) text = text.
Proof.
  intros H. apply filter_no_whitespace. eapply Forall_impl; [exact H|].
  intros c [-> | ->]; reflexivity.
Qed.

Lemma strip_padding_bits (text : jsstring) : Forall bit_char text ->
  strip_padding text = text.
Proof.
  intros H. unfold strip_padding.
  destruct (length text mod 4 =? 0)%nat; [|reflexivity].
  assert (Forall bit_char (rev text)) as Hr by (apply Forall_rev, H).
  destruct (rev text) as [|c1 r1]; [reflexivity|].
  apply Forall_cons in Hr as [[-> | ->] _]; reflexivity.
Qed.

Lemma sextets_bits (text : jsstring) : Forall bit_char text ->
  sextets text = Some (map (fun c => c + 4) text).
Proof.
  induction text as [|c text IH]; intros H; [reflexivity|].
  apply Forall_cons in H as [Hc H]. cbn [sextets map]. rewrite IH by exact H.
  destruct Hc as [-> | ->]; reflexivity.
Qed.

(** Four binary digits read as Base64 are a lead byte of UTF-8 followed by
    two ASCII characters. *)
Lemma decode_group (c1 c2 c3 c4 : Z) (rest : list Z) :
  bit_char c1 -> bit_char c2 -> bit_char c3 -> bit_char c4 ->
  utf8_decode_replace
    (map (fun c => c mod 256) (atob_groups ((c1 + 4) :: (c2 + 4) :: (c3 + 4) :: (c4 + 4) :: rest)))
  = 65533 :: (16 * (c2 - 48) + 77) :: (64 * (c3 - 48) + c4 + 4)
      :: utf8_decode_replace (map (fun c => c mod 256) (atob_groups rest)).
Proof.
  intros [-> | ->] [-> | ->] [-> | ->] [-> | ->]; reflexivity.
Qed.

Lemma decode_bits (n : nat) : forall text : jsstring,
  length text = (4 * n)%nat -> Forall bit_char text ->
  utf8_decode_replace (map (fun c => c mod 256) (atob_groups (map (fun c => c + 4) text)))
  = garbled text.
Proof.
  induction n as [|n IH]; intros text Hlen Hbits.
  - destruct text; [reflexivity | discriminate].
  - destruct text as [|c1 [|c2 [|c3 [|c4 rest]]]]; try (cbn in Hlen; lia).
    apply Forall_cons in Hbits as [H1 Hbits]. apply Forall_cons in Hbits as [H2 Hbits].
    apply Forall_cons in Hbits as [H3 Hbits]. apply Forall_cons in Hbits as [H4 Hbits].
    cbn [map]. rewrite decode_group by assumption.
    cbn [garbled]. rewrite IH; [reflexivity | cbn in Hlen; lia | exact Hbits].
Qed.

(** The decoded text is not blank. *)
Lemma garbled_shape (n : nat) : forall text : jsstring,
  length text = (4 * S n)%nat -> Forall bit_char text ->
  exists middle c, garbled text = 65533 :: middle ++ [c] /\ is_whitespace c = false.
Proof.
  induction n as [|n IH]; intros text Hlen Hbits.
  - destruct text as [|c1 [|c2 [|c3 [|c4 [|c5 rest]]]]]; try (cbn in Hlen; lia).
    apply Forall_cons in Hbits as [H1 Hbits]. apply Forall_cons in Hbits as [H2 Hbits].
    apply Forall_cons in Hbits as [H3 Hbits]. apply Forall_cons in Hbits as [H4 Hbits].
    exists [16 * (c2 - 48) + 77], (64 * (c3 - 48) + c4 + 4). split; [reflexivity|].
    destruct H3 as [-> | ->], H4 as [-> | ->]; reflexivity.
  - destruct text as [|c1 [|c2 [|c3 [|c4 rest]]]]; try (cbn in Hlen; lia).
    apply Forall_cons in Hbits as [H1 Hbits]. apply Forall_cons in Hbits as [H2 Hbits].
    apply Forall_cons in Hbits as [H3 Hbits]. apply Forall_cons in Hbits as [H4 Hbits].
    destruct (IH rest ltac:(cbn in Hlen; lia) Hbits) as (middle & c & E & Hc).
    exists ((16 * (c2 - 48) + 77) :: (64 * (c3 - 48) + c4 + 4) :: 65533 :: middle), c.
    split; [|exact Hc]. cbn [garbled]. rewrite E. reflexivity.
Qed.

Lemma trim_kept (middle : jsstring) (c : Z) :
  is_whitespace c = false -> trim (65533 :: middle ++ [c]) = 65533 :: middle ++ [c].
Proof.
  intros Hc. unfold trim. cbn [trimStart].
  change (is_whitespace 65533) with false. cbv iota.
  unfold trimEnd. change (65533 :: middle ++ [c]) with ((65533 :: middle) ++ [c]).
  rewrite rev_app_distr. cbn [rev app trimStart]. rewrite Hc.
  change (c :: rev middle ++ [65533]) with ([c] ++ rev (65533 :: middle)).
  rewrite rev_app_distr, rev_involutive. reflexivity.
Qed.

(** X19. The text analysis of the universal decoder never reads a
    payload of binary digits as binary. For every non-empty text of the
    characters 0 and 1 whose length is a multiple of four, as every
    result of textToBinary is, and when no password is given or the
    decryption of the text fails, runTextAnalysis reports the method
    Base64: the digits are letters of the Base64 alphabet, each four of
    them decode to the bytes of one replacement character and two ASCII
    characters, and this text that is not blank is the final result; the
    formats Hex and Binary are not tried. *)
Theorem binary_text_read_as_base64
  (decryptMessage : jsstring -> jsstring -> result jsstring)
  (password text : jsstring) (report : AnalysisReport) :
  text <> [] -> Forall bit_char text -> (length text mod 4 = 0)%nat ->
  password = [] \/ (exists e, decryptMessage text password = Throw e) ->
  let r := runTextAnalysis decryptMessage password report text in
  detectedMethod r = Some "Base64"%string
  /\ finalResult r = Some (garbled text)
  /\ (exists entry,
        method entry = "AES-GCM Decryption"%string /\ outcome entry <> Success
        /\ decodingLog r
           = decodingLog report ++ [entry; Log "Base64" Success "Text decoded successfully."]).
Proof.
  intros Hne Hbits Hlen Hpw r.
  assert (exists n, length text = (4 * S n)%nat) as [n Hn].
  { pose proof (Nat.div_mod_eq (length text) 4) as Hd. rewrite Hlen in Hd.
    destruct (length text / 4)%nat as [|q] eqn:Hq.
    - destruct text; [congruence | cbn in Hd; lia].
    - exists q. lia. }
  assert (base64ToArrayBuffer text
          = Ok (map (fun c => c mod 256) (atob_groups (map (fun c => c + 4) text)))) as Hb64.
  { unfold base64ToArrayBuffer, atob. rewrite filter_bits, strip_padding_bits by exact Hbits.
    rewrite Hlen. cbn [Nat.eqb]. rewrite sextets_bits by exact Hbits. reflexivity. }
  destruct (garbled_shape n text Hn Hbits) as (middle & c & Hshape & Hc).
  assert (forall rep,
            try_formats formats rep text
            = Report (decodingLog rep ++ [Log "Base64" Success "Text decoded successfully."])
                (Some (garbled text)) (Some "Base64"%string)) as Htry.
  { intros rep. unfold formats. cbn [try_formats]. rewrite Hb64. cbn [bind].
    unfold arrayBufferToString.
    rewrite (decode_bits (S n) text Hn Hbits), Hshape.
    rewrite trim_kept by exact Hc. cbn [length Nat.ltb Nat.leb Nat.eqb negb andb].
    reflexivity. }
  assert (exists entry,
            method entry = "AES-GCM Decryption"%string /\ outcome entry <> Success
            /\ r = try_formats formats (push report entry) text) as (entry & Hm & Ho & Hr).
  { subst r. unfold runTextAnalysis. destruct Hpw as [-> | [e He]].
    - eexists. split; [|split; [|reflexivity]]; [reflexivity | discriminate].
    - destruct (0 <? length password)%nat.
      + rewrite He. eexists. split; [|split; [|reflexivity]]; [reflexivity | discriminate].
      + eexists. split; [|split; [|reflexivity]]; [reflexivity | discriminate]. }
  rewrite Hr, Htry. cbn [detectedMethod finalResult decodingLog push].
  split; [reflexivity|]. split; [reflexivity|].
  exists entry. split; [exact Hm|]. split; [exact Ho|].
  rewrite <- app_assoc. reflexivity.
Qed.

Lemma binary_text_read_as_base64_witness :
  detectedMethod
    (runTextAnalysis (fun _ _ => Throw (Error "Error" "")) [] (Report [] None None)
       (textToBinary (js "Hi")))
  = Some "Base64"%string.
Proof.
  apply (binary_text_read_as_base64 (fun _ _ => Throw (Error "Error" "")) []
           (textToBinary (js "Hi")) (Report [] None None)).
  - vm_compute. discriminate.
  - apply Forall_forall. intros c Hc. apply list_elem_of_In in Hc.
    vm_compute in Hc. unfold bit_char. intuition lia.
  - reflexivity.
  - left. reflexivity.
Defined.

End UniversalFacts.

(** ** The Base64 tool: encoding, then decoding *)

Module UtilityFacts.
Import JS Encoding Utils TextDecoding UtilityMode Vocabulary SerialFacts Utf8Facts Base64Facts.
#[local] Open Scope Z_scope.

(** On a byte sequence that is UTF-8 the decoder in replacement mode
    gives what the fatal decoder gives. *)
Lemma utf8_decode_replace_valid (n : nat) : forall (bs : list Z) (t : jsstring),
  (length bs <= n)%nat -> utf8_decode bs = Some t -> utf8_decode_replace bs = t.
Proof.
  induction n as [|n IH]; intros bs t Hn H.
  - destruct bs; [cbn in H; injection H as <-; reflexivity | cbn in Hn; lia].
  - destruct bs as [|b0 r0]; [cbn in H; injection H as <-; reflexivity|].
    cbn [utf8_decode utf8_decode_replace] in *. cbn [length] in Hn.
    destruct (in_range 0 127 b0).
    { destruct (utf8_decode r0) as [t'|] eqn:E; [|discriminate].
      cbn in H. injection H as <-. rewrite (IH r0 t') by (try lia; exact E). reflexivity. }
    destruct (in_range 194 223 b0).
    { destruct r0 as [|b1 r1]; [discriminate|].
      destruct (in_range 128 191 b1); [|discriminate].
      destruct (utf8_decode r1) as [t'|] eqn:E; [|discriminate].
      cbn in H. injection H as <-.
      rewrite (IH r1 t') by (try (cbn [length] in Hn; lia); exact E). reflexivity. }
    destruct (in_range 224 239 b0).
    { destruct r0 as [|b1 [|b2 r2]]; try discriminate. cbv zeta in *.
      destruct (in_range _ _ b1); [|discriminate].
      destruct (in_range 128 191 b2); [|discriminate]. cbn [andb] in H.
      destruct (utf8_decode r2) as [t'|] eqn:E; [|discriminate].
      cbn in H. injection H as <-.
      rewrite (IH r2 t') by (try (cbn [length] in Hn; lia); exact E). reflexivity. }
    destruct (in_range 240 244 b0); [|discriminate].
    destruct r0 as [|b1 [|b2 [|b3 r3]]]; try discriminate. cbv zeta in *.
    destruct (in_range _ _ b1); [|discriminate].
    destruct (in_range 128 191 b2); [|discriminate].
    destruct (in_range 128 191 b3); [|discriminate]. cbn [andb] in H.
    destruct (utf8_decode r3) as [t'|] eqn:E; [|discriminate].
    cbn in H. injection H as <-.
    rewrite (IH r3 t') by (try (cbn [length] in Hn; lia); exact E). reflexivity.
Qed.

(** Only a leading U+FEFF is dropped. *)
Lemma arrayBufferToString_spec (buffer : list Z) :
  arrayBufferToString buffer
  = let s := utf8_decode_replace buffer in
    if startsWith s [65279] then skipn 1 s else s.
Proof.
  unfold arrayBufferToString. cbv zeta.
  destruct (utf8_decode_replace buffer) as [|c t]; [reflexivity|].
  cbn [startsWith skipn].
  destruct (Z.eqb_spec 65279 c) as [<-|Hc].
  { assert (startsWith t [] = true) as -> by (destruct t; reflexivity). reflexivity. }
  cbn [andb].
  destruct c as [|p|p]; try reflexivity.
  do 16 (destruct p as [p|p|]; try reflexivity). contradiction.
Qed.

(** X20. The Base64 tool, encoding and then decoding. For every
    non-empty well-formed text, Encode shows a non-empty Base64 string and
    no error, and Decode of that string shows no error and the text
    without a leading U+FEFF: the text itself unless it begins with the
    byte order mark, which the decoder drops. *)
Theorem base64_tool_roundtrip (text : jsstring) :
  text <> [] -> isWellFormed text = true ->
  exists encoded,
    handleBase64Encode text = Base64State encoded None
    /\ encoded <> []
    /\ handleBase64Decode encoded
       = Base64State (if startsWith text [65279] then skipn 1 text else text) None.
Proof.
  intros Hne Hwf.
  pose proof (TextEncoder_bytes text Hwf) as Hbytes.
  assert (TextEncoder_encode text <> []) as Hnb.
  { intros E. apply TextEncoder_nil in E. contradiction. }
  exists (btoa_groups (TextEncoder_encode text)).
  split; [|split].
  - unfold handleBase64Encode, stringToArrayBuffer.
    assert ((length text =? 0)%nat = false) as ->
      by (destruct text; [congruence | reflexivity]).
    rewrite arrayBufferToBase64_bytes by exact Hbytes. reflexivity.
  - apply btoa_groups_nonempty, Hnb.
  - unfold handleBase64Decode.
    assert ((length (btoa_groups (TextEncoder_encode text)) =? 0)%nat = false) as ->.
    { apply Nat.eqb_neq. intros E. apply (btoa_groups_nonempty _ Hnb).
      destruct (btoa_groups (TextEncoder_encode text)); [reflexivity | discriminate]. }
    rewrite base64ToArrayBuffer_btoa by exact Hbytes.
    rewrite arrayBufferToString_spec. cbv zeta.
    rewrite (utf8_decode_replace_valid _ _ text (Nat.le_refl _) (utf8_decode_encode text Hwf)).
    reflexivity.
Qed.

Lemma base64_tool_roundtrip_witness :
  exists encoded,
    handleBase64Encode (js "Hi") = Base64State encoded None
    /\ handleBase64Decode encoded = Base64State (js "Hi") None.
Proof.
  destruct (base64_tool_roundtrip (js "Hi")) as (encoded & He & _ & Hd).
  - discriminate.
  - reflexivity.
  - exists encoded. split; [exact He | exact Hd].
Defined.

End UtilityFacts.

(** ** The MD4 digest *)

Module MD4Facts.
Import JS Utils MD4 NumberFacts MD5Facts.
#[local] Open Scope Z_scope.

Lemma core_md4_length x len : length (core_md4 x len) = 4%nat.
Proof.
  unfold core_md4.
  destruct (md4_loop _ _ _ _) as [[[a b] c] d]. reflexivity.
Qed.

(** X21. md4 gives the digests of the test suite of RFC 1320 for the
    empty string, "a", "abc", "message digest" and the 62 letters and
    digits, the last of which takes two blocks, and every result is 32
    lower-case hexadecimal characters. *)
Theorem md4_test_suite :
  md4 (js "") = js "31d6cfe0d16ae931b73c59d7e0c089c0"
  /\ md4 (js "a") = js "bde52cb31de33e46245e05fbdbd6fb24"
  /\ md4 (js "abc") = js "a448017aaf21d8525fc10ae87aa6729d"
  /\ md4 (js "message digest") = js "d9130a8164549fe818874806e1c7014b"
  /\ md4 (js "ABCDEFGHIJKLMNOPQRSTUVWXYZabcdefghijklmnopqrstuvwxyz0123456789")
     = js "043f8582f241db351ce627e153e7f0e4"
  /\ forall s : jsstring,
       length (md4 s) = 32%nat
       /\ Forall (fun c => In c (js "0123456789abcdef")) (md4 s).
Proof.
  do 5 (split; [vm_compute; reflexivity|]).
  intros s. unfold md4. destruct (str2binl s) as [bin byteLength].
  destruct (binl2hex_shape (core_md4 bin (byteLength * 8))) as [Hlen Hall].
  rewrite core_md4_length in Hlen. split; [exact Hlen | exact Hall].
Qed.

End MD4Facts.
